(* ===== verification/_CoqProject ===== *)
-Q . S2P
Prelude.v
DataTypes.v
Calendar.v
Format.v
Protos.v
FileSystem.v
FileIO.v
StreamWriter.v
FileNames.v
StreamWriterSpec.v
Samples.v
TcpSocket.v
Kernel.v
TcpServer.v
TcpServerSpec.v
ServerLife.v
Folder.v
StorageBackend.v
Storage.v
BackendSpec.v
LogWriter.v
FileReader.v
StreamReader.v
Recording.v
StorageScanner.v
ScannerSpec.v
Discovery.v
FolderSpec.v
Recovery.v
EndToEnd.v
DaysSpec.v
RetentionSpec.v
Limits.v
StreamsCombiner.v
AscWriter.v
TcpClient.v
Codec.v
Clients.v
Services.v
Fleet.v
FleetStops.v
GetCan.v
Demos.v
Api.v
Remote.v
