(* ===== verification/Prelude.v ===== *)
(** * Tracebox: a verified model of the recorder

    Tracebox records timestamped byte records of named streams ("channels"). A
    client sends records over TCP; a server queues them; a writer thread stores
    them, one folder per day, under a byte budget; a second server lists the
    streams of a time range and returns their records; programs on top export them.
    This library translates the C++ sources under [src/] into executable
    definitions and proves what they guarantee, and where they do not, what happens
    instead.

    ** The parts and where they are modelled

    Paths are relative to [src/]; SM is [libs/log_writer/storage_management].
<<
    Source                                  File: Module          State
    libs/data_types.h                       DataTypes             byte codecs, no state
    libs/data_protos/logger.proto           Protos                one record per message
    SM/file_io.h                            FileIO                a handle and the world
    SM/stream_writer.{h,cpp}                StreamWriter          the class's members
    SM/folder.{h,cpp}                       Folder                day, path, writers by channel
    SM/storage_backend.{h,cpp}              StorageBackend        the class's members
    SM/storage.{h,cpp}                      Storage               the bytes left, the backend
    libs/log_writer/writer/log_writer       LogWriter             queue, flags, place of the thread
    libs/log_reader/*file_reader.h          FileReader            ifstream, header, counters
    libs/log_reader/stream_reader           StreamReader          the two readers, status
    libs/log_reader/storage_scanner         StorageScanner        the canonical folder
    libs/tcp_server/tcp_socket.h            TcpSocket             a connection
    libs/tcp_server/tcp_server              TcpServer: Server     descriptors, life cycle
    libs/log_client/tcp_client              TcpClient             descriptor, kernel
    libs/log_client/{log,reader}_client     Clients               the base class and its options
    libs/log_client/streams_combiner        StreamsCombiner       chunks by second, indices
    libs/log_writer/writer/tracebox_logger.h
    libs/log_reader/log_reader.h            Services              a server with its target
    apps/asc_writer                         AscWriter             the text so far, manipulators
    apps/get_can.cpp                        GetCan                the client, the output file
    src/tracebox_api.cpp, include/tracebox, apps/logger.cpp  Api  the wrapped objects
    apps/{client,reader,logger}_demo.cpp    Demos                 the client, the input left
>>
    What they stand on: [FileSystem] (directories, links, inodes, path resolution of
    [std::filesystem]) and [Kernel] (descriptors, epoll, answers of system calls).
    [Calendar] is one time zone, [Codec] the interface of the serialisation,
    [Format] the specification of the files, [Samples] inputs for the examples.

    ** How the code is translated

    A method is a program [prog S A] of this file: a function from a state to a
    result or an exception and a state; a throw keeps the state reached. Integers
    are [Z] and every narrowing conversion is written out ([u32], [i32], ...);
    [time_ns / 1E9] is the division of doubles with its two roundings. What C++
    leaves undefined and the code can reach is a result of its own
    ([OutOfBounds], [NullDeref], [Terminate]). Interfaces of the source are type
    classes with their contract: [FileIO]/[FileIOSpec], [StorageBackend]/
    [BackendSpec]; the clients of an interface are verified against the contract,
    and the implementations meet it.

    What the program does not decide comes from an environment that the theorems
    quantify over: for every file operation whether it succeeds, how many bytes
    reach the file and the time; for every transfer its length, an interruption or
    an error; for every system call its answer and whether another thread has
    called [stop]. Threads interleave as the steps of a relation ([LogWriter]) or
    as the operations of a sequence ([ServerLife]).

    ** What is shown

    - A recorded stream. [Recording], [Recovery]: what a client gets acknowledged can
      be read back, from streams of variable and of fixed record size; after a crash
      at any moment the reader returns for each index the record written with it or
      nothing; a simulated power loss between data and index hides the record.
      [FolderSpec], [EndToEnd]: a day of interleaved requests leaves one complete
      stream per channel, which the scanner lists and returns.
    - The whole recorder. [Fleet]: any number of clients record over any connections
      into one logger, whose server, writing thread and calls of [stop] interleave;
      what is read from the storage afterwards are the records that were accepted,
      client by client. [Remote]: so are the samples that the public reader gets over
      the network. [FleetStops]: what was acknowledged is accepted after finitely many
      rounds of the loop, and the recorder can be stopped from every state.
      [DaysSpec]: the part of this behind the queue, for any producers and over
      several days. [RetentionSpec]: the same under a byte budget,
      for the days that retention leaves; and the case in which it removes the day
      that is being recorded.
    - Retention. [Storage], [BackendSpec]: the budget is kept by removing the oldest
      days, one at a time; the bytes are those of the files; the constructor ends
      or, with nothing left to remove, does not.
    - Queueing. [LogWriter]: under every interleaving the writer refines the
      sequential program, and [stop] drains the queue.
    - Serving. [ScannerSpec]: no identifier leads outside the storage folder;
      extraction returns exactly the requested records. [Discovery]: the list of
      streams. [Services]: records reach the queue, and queries are answered over
      connections that may do anything.
    - Sockets. [TcpSocket]: framing; [TcpServerSpec], [ServerLife]: no descriptor is
      leaked or closed twice, [stop] ends; [TcpClient]: the same for the client.
    - Demo programs. [Demos]: what becomes of typed lines, up to the server's queue,
      and what the programs do when their input has ended.
    - Export. [StreamsCombiner], [AscWriter], [GetCan]: what is combined, the text
      that is written, and that the program never exports anything.
    - Limits. [Limits], [Api] and theorems in the files above: seconds computed in
      doubles, long names, bytes that are not counted, sizes narrowed to [int],
      half-sent messages, overlapping calls of [stop].

    ** Fuel

    The loop of [std::filesystem] over links is bounded by [max_links], as on the
    system, and the search for a free file name by the number of directory entries,
    which is shown to be enough ([FileNames]). The loops of [Storage] run for at most
    one round per stored day: with more fuel than days the constructor and a write
    are shown to end, and [construct_diverges] shows for every fuel that one case
    does not. [TcpClient.connect] repeats while it is interrupted: the theorems give
    a fuel from which on it returns if the kernel does not interrupt it for ever. The
    demo programs try to connect for ever: [Demos] takes up with a connection, and
    states their endless loops for any number of rounds. All other loops are structural: over lists, or over the number of bytes or records
    that remain.

    ** What is not modelled

    - The generated protobuf code: a serialisation that meets [CodecLaws] is a
      parameter; what a failed parse leaves in a message is another.
    - [localtime], [mktime] and [inet_aton]: parameters, with the documented ranges.
    - Memory: allocation failures, and public API objects that were moved from.
    - The parsing of command lines (gflags), the text of what is printed to the
      standard streams, and time spent asleep.
    - The tests under [tests/] and the build files. *)

From stdpp Require Export base gmap strings pretty list option sorting.
From Stdlib Require Export ZArith Lia.
From Stdlib Require Export Strings.Byte.

(** ** Notations, automation databases *)

Declare Scope cpp_scope.
Delimit Scope cpp_scope with cpp.

Create HintDb tb.
Create Rewrite HintDb tbrw.

Abbreviation byte := Byte.byte (only parsing).
Abbreviation bytes := (list Byte.byte) (only parsing).

(** ** Fixed-width integers

    A C++ integer is a [Z]; each conversion to a width is written out. *)

Definition u8 (z : Z) : Z := z mod 2 ^ 8.
Definition u16 (z : Z) : Z := z mod 2 ^ 16.
Definition u32 (z : Z) : Z := z mod 2 ^ 32.
Definition u64 (z : Z) : Z := z mod 2 ^ 64.
Definition i32 (z : Z) : Z := (z + 2 ^ 31) mod 2 ^ 32 - 2 ^ 31.

Definition UINT32_MAX : Z := 2 ^ 32 - 1.

(** The length of a byte string as a [size_t]. *)
Definition zlen {A} (l : list A) : Z := Z.of_nat (length l).

Lemma u16_small z : (0 <= z < 2 ^ 16)%Z -> u16 z = z.
Proof. apply Z.mod_small. Qed.

Lemma u32_small z : (0 <= z < 2 ^ 32)%Z -> u32 z = z.
Proof. apply Z.mod_small. Qed.

Lemma u64_small z : (0 <= z < 2 ^ 64)%Z -> u64 z = z.
Proof. apply Z.mod_small. Qed.

Lemma i32_small z : (- 2 ^ 31 <= z < 2 ^ 31)%Z -> i32 z = z.
Proof. intros ?. unfold i32. rewrite Z.mod_small; lia. Qed.

Lemma u32_range z : (0 <= u32 z < 2 ^ 32)%Z.
Proof. apply Z.mod_pos_bound. lia. Qed.

Lemma u64_range z : (0 <= u64 z < 2 ^ 64)%Z.
Proof. apply Z.mod_pos_bound. lia. Qed.

Lemma zlen_nonneg {A} (l : list A) : (0 <= zlen l)%Z.
Proof. unfold zlen. lia. Qed.

Lemma zlen_app {A} (l k : list A) : zlen (l ++ k) = (zlen l + zlen k)%Z.
Proof. unfold zlen. rewrite length_app. lia. Qed.

#[export] Hint Rewrite @zlen_app : tbrw.
#[export] Hint Resolve zlen_nonneg u32_range u64_range : tb.

(** ** Bytes and the little-endian representation of integers *)

#[export] Instance byte_eq_dec : EqDecision Byte.byte := Byte.byte_eq_dec.

Definition Z_of_byte (b : byte) : Z := Z.of_N (Byte.to_N b).

Definition byte_of_Z (z : Z) : byte :=
  default x00 (Byte.of_N (Z.to_N (z mod 256))).

Lemma Z_of_byte_range b : (0 <= Z_of_byte b < 256)%Z.
Proof. unfold Z_of_byte. pose proof (Byte.to_N_bounded b). lia. Qed.

Lemma Z_of_byte_of_Z z : Z_of_byte (byte_of_Z z) = (z mod 256)%Z.
Proof.
  unfold byte_of_Z, Z_of_byte.
  pose proof (Z.mod_pos_bound z 256 ltac:(lia)) as Hb.
  destruct (Byte.of_N (Z.to_N (z mod 256))) as [b|] eqn:E; simpl.
  - apply Byte.to_of_N in E. rewrite E. lia.
  - apply Byte.of_N_None_iff in E. lia.
Qed.

Lemma byte_of_Z_of_byte b : byte_of_Z (Z_of_byte b) = b.
Proof.
  unfold byte_of_Z. rewrite Z.mod_small by apply Z_of_byte_range.
  unfold Z_of_byte. rewrite N2Z.id, Byte.of_to_N. done.
Qed.

(** [le_encode n z]: the [n] bytes of the object representation of [z]. *)
Fixpoint le_encode (n : nat) (z : Z) : bytes :=
  match n with
  | O => []
  | S n' => byte_of_Z z :: le_encode n' (z / 256)
  end.

Fixpoint le_decode (bs : bytes) : Z :=
  match bs with
  | [] => 0
  | b :: bs' => Z_of_byte b + 256 * le_decode bs'
  end.

Lemma length_le_encode n z : length (le_encode n z) = n.
Proof. revert z; induction n; intros; simpl; auto. Qed.

Lemma zlen_le_encode n z : zlen (le_encode n z) = Z.of_nat n.
Proof. unfold zlen. by rewrite length_le_encode. Qed.

#[export] Hint Rewrite length_le_encode zlen_le_encode : tbrw.

Lemma le_decode_encode n z : le_decode (le_encode n z) = (z mod 256 ^ Z.of_nat n)%Z.
Proof.
  revert z; induction n as [|n IH]; intros z.
  - simpl. by rewrite Z.mod_1_r.
  - cbn [le_encode le_decode]. rewrite IH, Z_of_byte_of_Z.
    rewrite Nat2Z.inj_succ, Z.pow_succ_r by lia.
    rewrite Z.rem_mul_r by lia. done.
Qed.

Lemma le_encode_decode bs : le_encode (length bs) (le_decode bs) = bs.
Proof.
  induction bs as [|b bs IH]; [done|]. cbn [length le_encode le_decode].
  pose proof (Z_of_byte_range b).
  replace (Z_of_byte b + 256 * le_decode bs)%Z
    with (le_decode bs * 256 + Z_of_byte b)%Z by lia.
  f_equal.
  - rewrite <- (byte_of_Z_of_byte b) at 2. unfold byte_of_Z.
    rewrite (Z.add_comm (_ * 256)), Z.mod_add by lia. done.
  - rewrite Z.div_add_l, Z.div_small, Z.add_0_r by lia. done.
Qed.

Lemma le_decode_range bs : (0 <= le_decode bs < 256 ^ zlen bs)%Z.
Proof.
  induction bs as [|b bs IH]; [done|]. unfold zlen in *. cbn [le_decode length].
  rewrite Nat2Z.inj_succ, Z.pow_succ_r by lia.
  pose proof (Z_of_byte_range b). lia.
Qed.

(** A decoded field of a value within the field's width. *)
Lemma le_decode_encode_small n z :
  (0 <= z < 256 ^ Z.of_nat n)%Z -> le_decode (le_encode n z) = z.
Proof. intros. rewrite le_decode_encode. by apply Z.mod_small. Qed.

(** ** Stateful code that may throw

    [prog S A] is code that works on a state [S] and returns an [A] or throws.
    A throw keeps the state reached so far, as a C++ exception does. *)

Inductive exn :=
| SimulatedPowerLoss  (** thrown by an installed fault injector *)
| FilesystemError     (** [std::filesystem::filesystem_error] *)
| ParseError          (** [std::invalid_argument], [std::out_of_range] *)
| CallbackError       (** any exception of a caller-supplied callback *)
| NullDeref           (** not a C++ exception: a null pointer was used *)
| OutOfBounds         (** not a C++ exception: a read past the end of an object *)
| Terminate           (** not a C++ exception: [std::terminate] *)
| OutOfFuel.          (** not a C++ exception: a loop bound was exhausted *)

Inductive outcome (A : Type) :=
| Ok (a : A)
| Throw (e : exn).
Arguments Ok {A} a.
Arguments Throw {A} e.

#[export] Instance exn_eq_dec : EqDecision exn.
Proof. solve_decision. Defined.

#[export] Instance outcome_eq_dec `{EqDecision A} : EqDecision (outcome A).
Proof. solve_decision. Defined.

Definition prog (S A : Type) : Type := S -> outcome A * S.

#[export] Instance prog_ret {S} : MRet (prog S) := fun A a s => (Ok a, s).

#[export] Instance prog_bind {S} : MBind (prog S) := fun A B f m s =>
  match m s with
  | (Ok a, s') => f a s'
  | (Throw e, s') => (Throw e, s')
  end.

Definition throw {S A} (e : exn) : prog S A := fun s => (Throw e, s).
Definition gets {S A} (f : S -> A) : prog S A := fun s => (Ok (f s), s).
Definition modify {S} (f : S -> S) : prog S unit := fun s => (Ok tt, f s).

(** [try { m } catch (...) { h }]: the handler sees the state of the throw. *)
Definition try_catch {S A} (m : prog S A) (h : exn -> prog S A) : prog S A :=
  fun s => match m s with
           | (Ok a, s') => (Ok a, s')
           | (Throw e, s') => h e s'
           end.

(** The exceptions a C++ handler can catch. *)
Definition cpp_exn (e : exn) : bool :=
  match e with
  | SimulatedPowerLoss | FilesystemError | ParseError | CallbackError => true
  | NullDeref | OutOfBounds | Terminate | OutOfFuel => false
  end.

(** [try { m } catch (...) { h }] *)
Definition catch_all {S A} (m : prog S A) (h : prog S A) : prog S A :=
  try_catch m (fun e => if cpp_exn e then h else throw e).

(** A computation without state as a program. *)
Definition lift_outcome {S A} (o : outcome A) : prog S A := fun s => (o, s).

(** [for (x : l) m(x)] *)
Fixpoint for_each {S A} (l : list A) (m : A -> prog S unit) : prog S unit :=
  match l with
  | [] => mret tt
  | x :: l' => m x;; for_each l' m
  end.

(** The short-circuit [a && b] on conditions with effects. *)
Definition and_also {S} (a b : prog S bool) : prog S bool :=
  x ← a; if (x : bool) then b else mret false.

(** [m] run on a component of the state. *)
Definition zoom {S T A} (get : S -> T) (put : T -> S -> S) (m : prog T A) : prog S A :=
  fun s => match m (get s) with (r, t) => (r, put t s) end.

(** ** Weakest preconditions of [prog]

    [wp m Q s]: running [m] from [s] ends in a result and state that satisfy
    [Q]. The rules below are used as rewriting steps by [wp_step]. *)
Definition wp {S A} (m : prog S A) (Q : outcome A -> S -> Prop) (s : S) : Prop :=
  Q (m s).1 (m s).2.

Lemma wp_intro {S A} (m : prog S A) (Q : outcome A -> S -> Prop) s r s' :
  m s = (r, s') -> wp m Q s -> Q r s'.
Proof. unfold wp. by intros ->. Qed.

Lemma wp_use {S A} (m : prog S A) (Q : outcome A -> S -> Prop) s :
  (forall r s', m s = (r, s') -> Q r s') -> wp m Q s.
Proof. unfold wp. intros H. apply H. by destruct (m s). Qed.

Lemma wp_mono {S A} (m : prog S A) (P Q : outcome A -> S -> Prop) s :
  wp m P s -> (forall r s', P r s' -> Q r s') -> wp m Q s.
Proof. unfold wp. eauto. Qed.

Lemma wp_conj {S A} (m : prog S A) (P Q : outcome A -> S -> Prop) s :
  wp m P s -> wp m Q s -> wp m (fun o s' => P o s' /\ Q o s') s.
Proof. unfold wp. by destruct (m s). Qed.

Lemma wp_ret {S A} (a : A) (Q : outcome A -> S -> Prop) s :
  Q (Ok a) s -> wp (mret a) Q s.
Proof. done. Qed.

Lemma wp_throw {S A} e (Q : outcome A -> S -> Prop) s :
  Q (Throw e) s -> wp (throw e) Q s.
Proof. done. Qed.

Lemma wp_gets {S A} (f : S -> A) (Q : outcome A -> S -> Prop) s :
  Q (Ok (f s)) s -> wp (gets f) Q s.
Proof. done. Qed.

Lemma wp_modify {S} (f : S -> S) (Q : outcome unit -> S -> Prop) s :
  Q (Ok tt) (f s) -> wp (modify f) Q s.
Proof. done. Qed.

(** What a bind needs after its first part. *)
Definition wp_rest {S A B} (f : A -> prog S B) (Q : outcome B -> S -> Prop)
    (r : outcome A) (s : S) : Prop :=
  match r with
  | Ok a => wp (f a) Q s
  | Throw e => Q (Throw e) s
  end.

Lemma wp_bind {S A B} (m : prog S A) (f : A -> prog S B) (Q : outcome B -> S -> Prop) s :
  wp m (wp_rest f Q) s -> wp (m ≫= f) Q s.
Proof.
  unfold wp, mbind, prog_bind. destruct (m s) as [[a|e] s']; done.
Qed.

Lemma wp_and_also {S} (a b : prog S bool) (Q : outcome bool -> S -> Prop) s :
  wp a (fun r s' => match r with
                    | Ok true => wp b Q s'
                    | Ok false => Q (Ok false) s'
                    | Throw e => Q (Throw e) s'
                    end) s ->
  wp (and_also a b) Q s.
Proof.
  intros H. apply wp_bind. eapply wp_mono; [exact H|].
  intros [[]|e] s'; simpl; auto.
Qed.

Lemma wp_try_catch {S A} (m : prog S A) (h : exn -> prog S A) (Q : outcome A -> S -> Prop) s :
  wp m (fun r s' => match r with Ok a => Q (Ok a) s' | Throw e => wp (h e) Q s' end) s ->
  wp (try_catch m h) Q s.
Proof. unfold wp, try_catch. destruct (m s) as [[a|e] s']; done. Qed.

Lemma wp_zoom {S T A} get (put : T -> S -> S) (m : prog T A) Q s :
  wp m (fun r t => Q r (put t s)) (get s) -> wp (zoom get put m) Q s.
Proof. unfold wp, zoom. destruct (m (get s)); done. Qed.

(** One symbolic step of a program in the goal. *)
Ltac wp_step :=
  lazymatch goal with
  | |- wp (mbind _ _) _ _ => apply wp_bind
  | |- wp (mret _) _ _ => apply wp_ret
  | |- wp (throw _) _ _ => apply wp_throw
  | |- wp (gets _) _ _ => apply wp_gets
  | |- wp (modify _) _ _ => apply wp_modify
  | |- wp (and_also _ _) _ _ => apply wp_and_also
  | |- wp (zoom _ _ _) _ _ => apply wp_zoom
  | |- wp_rest _ _ (Ok _) _ => cbn [wp_rest]
  | |- wp_rest _ _ (Throw _) _ => cbn [wp_rest]
  | |- wp (if ?b then _ else _) _ _ => destruct b eqn:?
  | |- wp (match ?x with _ => _ end) _ _ => destruct x eqn:?
  end.

(** A program whose result is known is a step of the one that follows. *)
Lemma bind_ok {S A B} (m : prog S A) (f : A -> prog S B) s a s' :
  m s = (Ok a, s') -> (m ≫= f) s = f a s'.
Proof. intros E. unfold mbind, prog_bind. by rewrite E. Qed.

(** An invariant of the body is one of the loop. *)
Lemma wp_for_each_inv {S A} (I : S -> Prop) (l : list A) (m : A -> prog S unit) s :
  (forall x s, I s -> wp (m x) (fun _ s' => I s') s) -> I s ->
  wp (for_each l m) (fun _ s' => I s') s.
Proof.
  intros Hm. revert s. induction l as [|x l IH]; intros s Hs; cbn [for_each]; [done|].
  wp_step. eapply wp_mono; [by apply Hm|]. intros [[]|e] s' Hs'; cbn [wp_rest]; auto.
Qed.

(** ** Strings *)

Lemma length_append (a b : string) :
  String.length (a +:+ b) = (String.length a + String.length b)%nat.
Proof.
  induction a as [|x a IH]; [done|].
  change (S (String.length (a +:+ b)) = S (String.length a + String.length b)). by rewrite IH.
Qed.

Lemma append_assoc (a b c : string) : (a +:+ b) +:+ c = a +:+ (b +:+ c).
Proof.
  induction a as [|x a IH]; [done|].
  change (String x ((a +:+ b) +:+ c) = String x (a +:+ (b +:+ c))). by rewrite IH.
Qed.

Lemma append_nil_r (s : string) : s +:+ EmptyString = s.
Proof.
  induction s as [|x s IH]; [done|].
  change (String x (s +:+ EmptyString) = String x s). by rewrite IH.
Qed.

(** ** Lists *)

Definition zsum (l : list Z) : Z := foldr Z.add 0%Z l.

Lemma zsum_app l k : zsum (l ++ k) = (zsum l + zsum k)%Z.
Proof. induction l; simpl; unfold zsum in *; simpl; lia. Qed.

Lemma zsum_cons x l : zsum (x :: l) = (x + zsum l)%Z.
Proof. done. Qed.

Lemma zsum_nonneg l : Forall (fun z => 0 <= z)%Z l -> (0 <= zsum l)%Z.
Proof. induction 1; unfold zsum in *; simpl; lia. Qed.

Lemma zsum_Permutation l k : l ≡ₚ k -> zsum l = zsum k.
Proof. induction 1; unfold zsum in *; simpl in *; lia. Qed.

#[export] Hint Rewrite zsum_app zsum_cons : tbrw.

Lemma list_filter_none {A} (P : A -> Prop) `{!forall x, Decision (P x)} (l : list A) :
  Forall (fun x => ~ P x) l -> filter P l = [].
Proof. induction 1; [done|]. by rewrite filter_cons, decide_False. Qed.

Lemma list_filter_all {A} (P : A -> Prop) `{!forall x, Decision (P x)} (l : list A) :
  Forall P l -> filter P l = l.
Proof. induction 1; [done|]. rewrite filter_cons, decide_True by done. by f_equal. Qed.

(** A leading part of the image of a leading part. *)
Lemma prefix_map {A B} (f : A -> B) (k : nat) (l : list A) (got : list B) :
  got `prefix_of` map f (take k l) -> exists m, (m <= k)%nat /\ got = map f (take m l).
Proof.
  intros [rest E]. exists (Nat.min (length got) k). split; [lia|].
  apply (f_equal (take (length got))) in E. rewrite take_app_length in E.
  by rewrite firstn_map, take_take in E.
Qed.

(** A list cut into the classes of a key, one after the other. *)
Lemma concat_classes_Permutation {A} (key : A -> Z) (ks : list Z) (l : list A) :
  NoDup ks -> Forall (fun x => key x ∈ ks) l ->
  concat ((fun k => filter (fun x => key x = k) l) <$> ks) ≡ₚ l.
Proof.
  revert l. induction ks as [|k ks IH]; intros l Hnd Hl; cbn [fmap list_fmap concat].
  { destruct l; [done|]. apply Forall_cons in Hl as [[]%elem_of_nil _]. }
  apply NoDup_cons in Hnd as [Hk Hnd].
  assert (Hrest : ((fun k' => filter (fun x => key x = k') l) <$> ks) =
    ((fun k' => filter (fun x => key x = k') (filter (fun x => key x ≠ k) l)) <$> ks)).
  { apply list_fmap_ext. intros _ k' Hk'%list_elem_of_lookup_2.
    rewrite list_filter_filter. apply list_filter_iff. intros x. split; [|tauto].
    intros ->. split; [done|]. by intros ->. }
  rewrite Hrest, IH; [by rewrite filter_app_complement|done|].
  apply Forall_forall. intros x [Hne Hx]%list_elem_of_filter.
  rewrite Forall_forall in Hl. specialize (Hl x Hx). by apply elem_of_cons in Hl as [?|?].
Qed.

(** [sub l i n]: the [n] elements of [l] from position [i]; shorter at the end. *)
Definition sub {A} (l : list A) (i n : nat) : list A := take n (drop i l).

Lemma sub_zero {A} (l : list A) i : sub l i 0 = [].
Proof. done. Qed.

Lemma sub_app_r {A} (l k : list A) i n :
  length l <= i -> sub (l ++ k) i n = sub k (i - length l) n.
Proof. intros. unfold sub. by rewrite drop_app_ge. Qed.

Lemma sub_app_exact {A} (l m k : list A) :
  sub (l ++ m ++ k) (length l) (length m) = m.
Proof. unfold sub. by rewrite drop_app_length, take_app_length. Qed.

Lemma length_sub {A} (l : list A) i n :
  i + n <= length l -> length (sub l i n) = n.
Proof. intros. unfold sub. rewrite length_take, length_drop. lia. Qed.

(** Positions inside a prefix are unaffected by what follows. *)
Lemma sub_prefix {A} (l k : list A) i n :
  l `prefix_of` k -> i + n <= length l -> sub k i n = sub l i n.
Proof.
  intros [r ->] ?. unfold sub. rewrite drop_app_le by lia.
  rewrite take_app_le; [done|]. rewrite length_drop. lia.
Qed.

(** Two byte strings that agree as far as both go. *)
Definition compat {A} (l k : list A) : Prop := l `prefix_of` k \/ k `prefix_of` l.

Lemma sub_compat {A} (l k : list A) i n :
  compat l k -> i + n <= length l -> i + n <= length k -> sub l i n = sub k i n.
Proof. intros [H|H] ??; [symmetry|]; by apply sub_prefix. Qed.

(** A part of a part. *)
Lemma sub_sub {A} (l : list A) i n j m :
  j + m <= n -> sub (sub l i n) j m = sub l (i + j) m.
Proof.
  intros. unfold sub. rewrite skipn_firstn_comm, drop_drop, take_take.
  by rewrite Nat.min_l by lia.
Qed.

Lemma sub_split {A} (l : list A) i n m :
  sub l i (n + m) = sub l i n ++ sub l (i + n) m.
Proof. unfold sub. rewrite <- drop_drop. by rewrite take_take_drop. Qed.
