(* ===== verification/DataTypes.v ===== *)
(** * On-disk types and time conversion

    [libs/data_types.h]: the packed structures both file kinds consist of, with
    their object representation as bytes, the size estimate of the retention
    policy, and the conversion of a nanosecond timestamp to seconds and to a
    calendar day. The messages of [logger.proto] are in [Protos]. *)
From S2P Require Import Prelude.
Local Open Scope Z_scope.

Definition kIndexFile : Z := 1.
Definition kDataFile : Z := 2.

(** ** LogFileHeader *)
Module LogFileHeader.
Definition kDlFormatMajor : Z := 1.
Definition kDlFormatMinor : Z := 0.

Record t := mk {
  header_size_ : Z;     (* uint16_t *)
  timestamp_ns_ : Z;    (* uint64_t *)
  record_size_ : Z;     (* uint32_t *)
  major_version_ : Z;   (* uint8_t *)
  minor_version_ : Z;   (* uint8_t *)
  file_type_ : Z;       (* uint8_t *)
  name_ : bytes         (* char[32] *)
}.

(** [sizeof(LogFileHeader)], the structure being packed. *)
Definition size : Z := 2 + 8 + 4 + 1 + 1 + 1 + 32.
Definition name_size : nat := 32.

Definition encode (h : t) : bytes :=
  le_encode 2 (header_size_ h) ++ le_encode 8 (timestamp_ns_ h) ++
  le_encode 4 (record_size_ h) ++ le_encode 1 (major_version_ h) ++
  le_encode 1 (minor_version_ h) ++ le_encode 1 (file_type_ h) ++ name_ h.

Definition decode (bs : bytes) : t := {|
  header_size_ := le_decode (sub bs 0 2);
  timestamp_ns_ := le_decode (sub bs 2 8);
  record_size_ := le_decode (sub bs 10 4);
  major_version_ := le_decode (sub bs 14 1);
  minor_version_ := le_decode (sub bs 15 1);
  file_type_ := le_decode (sub bs 16 1);
  name_ := sub bs 17 32
|}.

(** Every field is within the width of its type. *)
Record wf (h : t) : Prop := {
  wf_header_size : 0 <= header_size_ h < 2 ^ 16;
  wf_timestamp : 0 <= timestamp_ns_ h < 2 ^ 64;
  wf_record_size : 0 <= record_size_ h < 2 ^ 32;
  wf_major : 0 <= major_version_ h < 2 ^ 8;
  wf_minor : 0 <= minor_version_ h < 2 ^ 8;
  wf_file_type : 0 <= file_type_ h < 2 ^ 8;
  wf_name : length (name_ h) = name_size
}.

(** [memset(name_, 0, 32); memcpy(name_, name, min(32, length))]. *)
Definition pad_name (name : bytes) : bytes :=
  take name_size name ++ replicate (name_size - length name) x00.

(** [name_] read as a C string: the bytes before the first zero. An array
    without a zero has no end: the read leaves the structure. *)
Fixpoint c_str (bs : bytes) : outcome bytes :=
  match bs with
  | [] => Throw OutOfBounds
  | b :: bs' =>
      if decide (b = x00) then Ok []
      else match c_str bs' with
           | Ok r => Ok (b :: r)
           | Throw e => Throw e
           end
  end.

Lemma length_encode h : wf h -> length (encode h) = Z.to_nat size.
Proof.
  intros []. unfold encode. rewrite !length_app, !length_le_encode.
  rewrite wf_name0. done.
Qed.

Lemma length_pad_name name : length (pad_name name) = name_size.
Proof.
  unfold pad_name. rewrite length_app, length_take, length_replicate.
  unfold name_size. lia.
Qed.

(** Reading back the object representation gives the header. *)
Lemma decode_encode h : wf h -> decode (encode h) = h.
Proof.
  intros [H1 H2 H3 H4 H5 H6 H7]. unfold decode.
  (* each field is cut out by computation *)
  change (sub (encode h) 0 2) with (le_encode 2 (header_size_ h)).
  change (sub (encode h) 2 8) with (le_encode 8 (timestamp_ns_ h)).
  change (sub (encode h) 10 4) with (le_encode 4 (record_size_ h)).
  change (sub (encode h) 14 1) with (le_encode 1 (major_version_ h)).
  change (sub (encode h) 15 1) with (le_encode 1 (minor_version_ h)).
  change (sub (encode h) 16 1) with (le_encode 1 (file_type_ h)).
  change (sub (encode h) 17 32) with (take 32 (name_ h)).
  rewrite (take_ge (name_ h)) by (unfold name_size in H7; lia).
  rewrite !le_decode_encode_small by (simpl; lia). by destruct h.
Qed.

(** A name survives the header when it is shorter than the field and has no
    zero byte. *)
Lemma c_str_app_zero name k :
  x00 ∉ name -> c_str (name ++ x00 :: k) = Ok name.
Proof.
  induction name as [|b name IH]; intros Hn; simpl; [done|].
  rewrite decide_False by set_solver. rewrite IH by set_solver. done.
Qed.

Lemma c_str_no_zero name : x00 ∉ name -> c_str name = Throw OutOfBounds.
Proof.
  induction name as [|b name IH]; intros Hn; simpl; [done|].
  rewrite decide_False by set_solver. rewrite IH by set_solver. done.
Qed.

Lemma c_str_pad_name name :
  x00 ∉ name -> (length name < name_size)%nat -> c_str (pad_name name) = Ok name.
Proof.
  intros Hz Hl. unfold pad_name. rewrite take_ge by lia.
  replace (name_size - length name)%nat with (S (name_size - length name - 1)) by lia.
  simpl. by apply c_str_app_zero.
Qed.

Lemma c_str_pad_name_long name :
  x00 ∉ name -> (name_size <= length name)%nat ->
  c_str (pad_name name) = Throw OutOfBounds.
Proof.
  intros Hz Hl. unfold pad_name.
  replace (name_size - length name)%nat with 0%nat by lia.
  simpl. rewrite app_nil_r. apply c_str_no_zero.
  intros (i & ? & ?)%elem_of_take. eauto using list_elem_of_lookup_2.
Qed.
End LogFileHeader.

(** ** Record structures *)
Module FixedRecordIdx.
Definition size : Z := 8.
End FixedRecordIdx.

Module VariableRecordIdx.
Record t := mk { time_ns_ : Z; offset_ : Z }.
Definition size : Z := 8 + 4.
Definition encode (r : t) : bytes :=
  le_encode 8 (time_ns_ r) ++ le_encode 4 (offset_ r).
Definition decode (bs : bytes) : t :=
  {| time_ns_ := le_decode (sub bs 0 8); offset_ := le_decode (sub bs 8 4) |}.
End VariableRecordIdx.

Module VariableRecordDataHeader.
Record t := mk { time_ns_ : Z; size_ : Z }.
Definition size : Z := 8 + 4.
Definition encode (r : t) : bytes :=
  le_encode 8 (time_ns_ r) ++ le_encode 4 (size_ r).
Definition decode (bs : bytes) : t :=
  {| time_ns_ := le_decode (sub bs 0 8); size_ := le_decode (sub bs 8 4) |}.
End VariableRecordDataHeader.

(** Both pairs of words have the same representation. *)
Lemma decode_pair a b (k : bytes) :
  0 <= a < 2 ^ 64 -> 0 <= b < 2 ^ 32 ->
  le_decode (sub (le_encode 8 a ++ le_encode 4 b ++ k) 0 8) = a /\
  le_decode (sub (le_encode 8 a ++ le_encode 4 b ++ k) 8 4) = b.
Proof.
  intros Ha Hb. split.
  - change (sub _ 0 8) with (le_encode 8 a). apply le_decode_encode_small. simpl. lia.
  - change (sub _ 8 4) with (le_encode 4 b). apply le_decode_encode_small. simpl. lia.
Qed.

Lemma VariableRecordIdx_decode_encode r :
  0 <= VariableRecordIdx.time_ns_ r < 2 ^ 64 ->
  0 <= VariableRecordIdx.offset_ r < 2 ^ 32 ->
  VariableRecordIdx.decode (VariableRecordIdx.encode r) = r.
Proof.
  intros Ha Hb. unfold VariableRecordIdx.decode, VariableRecordIdx.encode.
  destruct (decode_pair _ _ [] Ha Hb) as [E1 E2]. rewrite app_nil_r in *.
  rewrite E1, E2. by destruct r.
Qed.

Lemma VariableRecordDataHeader_decode_encode r :
  0 <= VariableRecordDataHeader.time_ns_ r < 2 ^ 64 ->
  0 <= VariableRecordDataHeader.size_ r < 2 ^ 32 ->
  VariableRecordDataHeader.decode (VariableRecordDataHeader.encode r) = r.
Proof.
  intros Ha Hb. unfold VariableRecordDataHeader.decode, VariableRecordDataHeader.encode.
  destruct (decode_pair _ _ [] Ha Hb) as [E1 E2]. rewrite app_nil_r in *.
  rewrite E1, E2. by destruct r.
Qed.

(** The worst case of one record: two new files with one record each. The
    parameter is an [int]; the sum is a [size_t]. *)
Definition maxRecordSize (size : Z) : Z :=
  u64 (2 * LogFileHeader.size + VariableRecordIdx.size +
       VariableRecordDataHeader.size + i32 size).

(** ** Timestamps to seconds

    [time_t t(time_ns / 1E9)]: the [uint64_t] is converted to [double], divided
    by the [double] [1E9] and truncated. Both the conversion and the division
    round to the nearest 53-bit significand, ties to even. *)

(** The quotient [n / d] rounded to the nearest integer, ties to even. *)
Definition round_div (n d : Z) : Z :=
  let q := n / d in
  let r := n mod d in
  if 2 * r <? d then q
  else if d <? 2 * r then q + 1
  else if Z.even q then q else q + 1.

(** The [double] nearest to a non-negative integer, which is an integer. *)
Definition double_of_u64 (n : Z) : Z :=
  if n <? 2 ^ 53 then n
  else let e := Z.log2 n - 52 in round_div n (2 ^ e) * 2 ^ e.

(** The integer part of the [double] nearest to [x / 1E9] for an integer [x].
    A quotient in [2^k, 2^(k+1)) has the unit [2^(k-52)]; a quotient below one
    stays below one. *)
Definition trunc_div_1E9 (x : Z) : Z :=
  if x <? 10 ^ 9 then 0
  else let k := Z.log2 (x / 10 ^ 9) in
       round_div (x * 2 ^ (52 - k)) (10 ^ 9) / 2 ^ (52 - k).

Definition seconds_of_ns (time_ns : Z) : Z := trunc_div_1E9 (double_of_u64 time_ns).

(** Seconds of a [uint64_t] timestamp are at most 18446744074. *)
Definition max_seconds : Z := 18446744074.

(** *** The conversion is monotone and off by at most one *)

Lemma round_div_bounds n d : 0 < d -> n / d <= round_div n d <= n / d + 1.
Proof. intros. unfold round_div. repeat case_match; lia. Qed.

(** Rounding is within half a unit. *)
Lemma round_div_error n d : 0 < d -> 2 * Z.abs (d * round_div n d - n) <= d.
Proof.
  intros Hd. unfold round_div.
  pose proof (Z.div_mod n d ltac:(lia)). pose proof (Z.mod_pos_bound n d Hd).
  repeat case_match; rewrite ?Z.ltb_lt, ?Z.ltb_ge in *; nia.
Qed.

Lemma round_div_mono n m d : 0 < d -> n <= m -> round_div n d <= round_div m d.
Proof.
  intros Hd Hnm. pose proof (Z.div_le_mono n m d Hd Hnm) as Hq.
  destruct (Z.eq_dec (n / d) (m / d)) as [E|E].
  - unfold round_div. rewrite <- E.
    pose proof (Z.div_mod n d ltac:(lia)). pose proof (Z.div_mod m d ltac:(lia)).
    repeat case_match; rewrite ?Z.ltb_lt, ?Z.ltb_ge in *; nia.
  - pose proof (round_div_bounds n d Hd). pose proof (round_div_bounds m d Hd). lia.
Qed.

(** A multiple of the divisor is not rounded. *)
Lemma round_div_exact q d : 0 < d -> round_div (q * d) d = q.
Proof.
  intros Hd. unfold round_div. rewrite Z.div_mul, Z.mod_mul by lia.
  rewrite (proj2 (Z.ltb_lt (2 * 0) d)) by lia. done.
Qed.

Lemma double_of_u64_small n : n < 2 ^ 53 -> double_of_u64 n = n.
Proof. intros. unfold double_of_u64. by rewrite (proj2 (Z.ltb_lt _ _)). Qed.

(** In the binade [2^k, 2^(k+1)) the unit is [2^(k-52)]. *)
Lemma double_of_u64_binade k n :
  53 <= k -> 2 ^ k <= n < 2 ^ (k + 1) ->
  double_of_u64 n = round_div n (2 ^ (k - 52)) * 2 ^ (k - 52).
Proof.
  intros Hk Hn. unfold double_of_u64.
  rewrite (proj2 (Z.ltb_ge _ _)) by (pose proof (Z.pow_le_mono_r 2 53 k); lia).
  rewrite (Z.log2_unique n k) by (rewrite <- ?Z.add_1_r; lia). done.
Qed.

Lemma double_of_u64_binade_bounds k n :
  53 <= k -> 2 ^ k <= n < 2 ^ (k + 1) -> 2 ^ k <= double_of_u64 n <= 2 ^ (k + 1).
Proof.
  intros Hk Hn. rewrite (double_of_u64_binade k) by done.
  assert (0 < 2 ^ (k - 52)) by (apply Z.pow_pos_nonneg; lia).
  assert (2 ^ k = 2 ^ 52 * 2 ^ (k - 52)) as E1 by (rewrite <- Z.pow_add_r by lia; f_equal; lia).
  assert (2 ^ (k + 1) = 2 ^ 53 * 2 ^ (k - 52)) as E2
    by (rewrite <- Z.pow_add_r by lia; f_equal; lia).
  pose proof (round_div_mono (2 ^ k) n (2 ^ (k - 52)) ltac:(lia) ltac:(lia)) as Hl.
  pose proof (round_div_mono n (2 ^ (k + 1)) (2 ^ (k - 52)) ltac:(lia) ltac:(lia)) as Hu.
  rewrite E1, round_div_exact in Hl by done.
  rewrite E2, round_div_exact in Hu by done. nia.
Qed.

Lemma log2_binade n : 2 ^ 53 <= n -> 53 <= Z.log2 n /\ 2 ^ Z.log2 n <= n < 2 ^ (Z.log2 n + 1).
Proof.
  intros Hn. pose proof (Z.log2_spec n ltac:(lia)).
  pose proof (Z.log2_le_mono (2 ^ 53) n Hn) as Hl. rewrite Z.log2_pow2 in Hl by lia.
  rewrite <- Z.add_1_r in *. lia.
Qed.

Lemma double_of_u64_mono n m : 0 <= n <= m -> double_of_u64 n <= double_of_u64 m.
Proof.
  intros Hnm. destruct (Z.lt_ge_cases m (2 ^ 53)) as [Hm|Hm].
  { rewrite !double_of_u64_small by lia. lia. }
  destruct (log2_binade m Hm) as [Km Bm].
  destruct (Z.lt_ge_cases n (2 ^ 53)) as [Hn|Hn].
  { rewrite (double_of_u64_small n) by lia.
    pose proof (double_of_u64_binade_bounds _ m Km Bm).
    pose proof (Z.pow_le_mono_r 2 53 (Z.log2 m)). lia. }
  destruct (log2_binade n Hn) as [Kn Bn].
  pose proof (Z.log2_le_mono n m ltac:(lia)) as Hlog.
  destruct (Z.eq_dec (Z.log2 n) (Z.log2 m)) as [E|E].
  - rewrite (double_of_u64_binade _ n Kn Bn), (double_of_u64_binade _ m Km Bm), E.
    apply Z.mul_le_mono_nonneg_r; [apply Z.pow_nonneg; lia|].
    apply round_div_mono; [apply Z.pow_pos_nonneg; lia|lia].
  - pose proof (double_of_u64_binade_bounds _ n Kn Bn).
    pose proof (double_of_u64_binade_bounds _ m Km Bm).
    pose proof (Z.pow_le_mono_r 2 (Z.log2 n + 1) (Z.log2 m)). lia.
Qed.

(** The conversion of a [uint64_t] is within 1024 of its argument. *)
Lemma double_of_u64_error n :
  0 <= n < 2 ^ 64 -> n - 1024 <= double_of_u64 n <= n + 1024.
Proof.
  intros Hn. destruct (Z.lt_ge_cases n (2 ^ 53)) as [Hs|Hs].
  { rewrite double_of_u64_small; lia. }
  destruct (log2_binade n Hs) as [Kn Bn].
  rewrite (double_of_u64_binade _ n Kn Bn).
  assert (Z.log2 n < 64) by (apply Z.log2_lt_pow2; lia).
  assert (0 < 2 ^ (Z.log2 n - 52)) by (apply Z.pow_pos_nonneg; lia).
  assert (2 ^ (Z.log2 n - 52) <= 2 ^ 11) by (apply Z.pow_le_mono_r; lia).
  pose proof (round_div_error n (2 ^ (Z.log2 n - 52)) ltac:(lia)). lia.
Qed.

Lemma double_of_u64_nonneg n : 0 <= n -> 0 <= double_of_u64 n.
Proof.
  intros. rewrite <- (double_of_u64_small 0) by lia. apply double_of_u64_mono. lia.
Qed.

(** The quotient in a binade: [2^k <= x / 10^9 < 2^(k+1)] for [x] in
    [10^9 * 2^k, 10^9 * 2^(k+1)). *)
Lemma trunc_div_binade k x :
  0 <= k -> 10 ^ 9 * 2 ^ k <= x < 10 ^ 9 * 2 ^ (k + 1) ->
  trunc_div_1E9 x = round_div (x * 2 ^ (52 - k)) (10 ^ 9) / 2 ^ (52 - k).
Proof.
  intros Hk Hx. unfold trunc_div_1E9.
  assert (0 < 2 ^ k) by (apply Z.pow_pos_nonneg; lia).
  rewrite (proj2 (Z.ltb_ge _ _)) by nia.
  rewrite (Z.log2_unique (x / 10 ^ 9) k); [done|done|].
  rewrite <- Z.add_1_r. split.
  - apply Z.div_le_lower_bound; lia.
  - apply Z.div_lt_upper_bound; lia.
Qed.

Lemma quotient_binade x :
  10 ^ 9 <= x ->
  0 <= Z.log2 (x / 10 ^ 9) /\ 10 ^ 9 * 2 ^ Z.log2 (x / 10 ^ 9) <= x < 10 ^ 9 * 2 ^ (Z.log2 (x / 10 ^ 9) + 1).
Proof.
  intros Hx. assert (1 <= x / 10 ^ 9) by (apply Z.div_le_lower_bound; lia).
  pose proof (Z.log2_nonneg (x / 10 ^ 9)).
  pose proof (Z.log2_spec (x / 10 ^ 9) ltac:(lia)).
  pose proof (Z.div_mod x (10 ^ 9) ltac:(lia)).
  pose proof (Z.mod_pos_bound x (10 ^ 9) ltac:(lia)).
  rewrite <- Z.add_1_r in *. split; [done|]. nia.
Qed.

Lemma quotient_binade_lt k x : 10 ^ 9 * 2 ^ k <= x < 10 ^ 9 * 2 ^ 35 -> k < 35.
Proof.
  intros Hx. destruct (Z.lt_ge_cases k 35) as [|Hk]; [done|].
  pose proof (Z.pow_le_mono_r 2 35 k). lia.
Qed.

(** The truncated quotient lies between the exact integer quotient and the
    integer quotient of a dividend at most [10^9 / 2^18] larger, for quotients
    below [2^35]. *)
Lemma trunc_div_bounds x :
  0 <= x < 10 ^ 9 * 2 ^ 35 ->
  x / 10 ^ 9 <= trunc_div_1E9 x <= (x + 3815) / 10 ^ 9.
Proof.
  intros Hx. destruct (Z.lt_ge_cases x (10 ^ 9)) as [Hs|Hs].
  { unfold trunc_div_1E9. rewrite (proj2 (Z.ltb_lt _ _)) by lia.
    rewrite Z.div_small by lia. split; [lia|]. apply Z.div_pos; lia. }
  destruct (quotient_binade x Hs) as [Hk Bx].
  set (k := Z.log2 (x / 10 ^ 9)) in *. rewrite (trunc_div_binade k) by done.
  pose proof (quotient_binade_lt k x ltac:(lia)).
  set (u := 2 ^ (52 - k)).
  assert (2 ^ 18 <= u) as Hu by (apply Z.pow_le_mono_r; lia).
  pose proof (round_div_error (x * u) (10 ^ 9) ltac:(lia)) as He.
  set (r := round_div (x * u) (10 ^ 9)) in *.
  split.
  - apply Z.div_le_lower_bound; [lia|].
    rewrite <- (round_div_exact (u * (x / 10 ^ 9)) (10 ^ 9)) by lia.
    apply round_div_mono; [lia|].
    pose proof (Z.mul_div_le x (10 ^ 9) ltac:(lia)). nia.
  - apply Z.div_le_lower_bound; [lia|].
    pose proof (Z.mul_div_le r u ltac:(lia)). nia.
Qed.

Lemma trunc_div_mono x y :
  0 <= x <= y -> y < 10 ^ 9 * 2 ^ 35 -> trunc_div_1E9 x <= trunc_div_1E9 y.
Proof.
  intros Hxy Hy. destruct (Z.lt_ge_cases x (10 ^ 9)) as [Hs|Hs].
  { pose proof (trunc_div_bounds y ltac:(lia)). unfold trunc_div_1E9 at 1.
    rewrite (proj2 (Z.ltb_lt _ _)) by lia.
    pose proof (Z.div_pos y (10 ^ 9)). lia. }
  destruct (quotient_binade x Hs) as [Hk Bx].
  destruct (quotient_binade y ltac:(lia)) as [Hj By].
  set (k := Z.log2 (x / 10 ^ 9)) in *. set (j := Z.log2 (y / 10 ^ 9)) in *.
  assert (k <= j) by (apply Z.log2_le_mono, Z.div_le_mono; lia).
  pose proof (quotient_binade_lt j y ltac:(lia)).
  destruct (Z.eq_dec k j) as [E|E].
  - rewrite (trunc_div_binade k x), (trunc_div_binade j y), E by done.
    apply Z.div_le_mono; [apply Z.pow_pos_nonneg; lia|].
    apply round_div_mono; [lia|]. apply Z.mul_le_mono_nonneg_r; [|lia].
    apply Z.pow_nonneg; lia.
  - (* the larger quotient starts where the binade of the smaller one ends *)
    assert (2 ^ (k + 1) <= 2 ^ j) by (apply Z.pow_le_mono_r; lia).
    transitivity (2 ^ (k + 1)).
    + rewrite (trunc_div_binade k) by done.
      assert (0 < 2 ^ (52 - k)) by (apply Z.pow_pos_nonneg; lia).
      rewrite <- (Z.div_mul (2 ^ (k + 1)) (2 ^ (52 - k))) by lia.
      apply Z.div_le_mono; [done|].
      rewrite <- (round_div_exact (2 ^ (k + 1) * 2 ^ (52 - k)) (10 ^ 9)) by lia.
      apply round_div_mono; [lia|]. nia.
    + transitivity (y / 10 ^ 9); [|apply trunc_div_bounds; lia].
      apply Z.div_le_lower_bound; lia.
Qed.

Lemma double_of_u64_range n :
  0 <= n < 2 ^ 64 -> 0 <= double_of_u64 n < 10 ^ 9 * 2 ^ 35.
Proof.
  intros Hn. pose proof (double_of_u64_nonneg n). pose proof (double_of_u64_error n Hn). lia.
Qed.

Lemma seconds_of_ns_mono n m :
  0 <= n <= m -> m < 2 ^ 64 -> seconds_of_ns n <= seconds_of_ns m.
Proof.
  intros Hn Hm. pose proof (double_of_u64_range n ltac:(lia)).
  pose proof (double_of_u64_range m ltac:(lia)).
  apply trunc_div_mono; [|lia]. split; [lia|]. by apply double_of_u64_mono.
Qed.

Lemma seconds_of_ns_range n : 0 <= n < 2 ^ 64 -> 0 <= seconds_of_ns n <= max_seconds.
Proof.
  intros Hn. split.
  - transitivity (seconds_of_ns 0); [done|]. apply seconds_of_ns_mono; lia.
  - transitivity (seconds_of_ns (2 ^ 64 - 1)); [apply seconds_of_ns_mono; lia|].
    vm_compute. discriminate.
Qed.

(** The second is the exact one unless the timestamp is within 5 microseconds of
    the next second (or of the previous one's start). *)
Lemma seconds_of_ns_spec n :
  0 <= n < 2 ^ 64 -> 1024 <= n mod 10 ^ 9 < 10 ^ 9 - 5000 ->
  seconds_of_ns n = n / 10 ^ 9.
Proof.
  intros Hn Hm. unfold seconds_of_ns.
  pose proof (double_of_u64_error n Hn). pose proof (double_of_u64_range n Hn) as Hr.
  pose proof (trunc_div_bounds _ Hr).
  pose proof (Z.div_mod n (10 ^ 9) ltac:(lia)).
  assert (n / 10 ^ 9 <= double_of_u64 n / 10 ^ 9)
    by (apply Z.div_le_lower_bound; lia).
  assert ((double_of_u64 n + 3815) / 10 ^ 9 < n / 10 ^ 9 + 1)
    by (apply Z.div_lt_upper_bound; lia).
  lia.
Qed.

(** ** Calendar

    [localtime] belongs to the C library and to the time zone of the process:
    it is a parameter, with the field ranges the C standard documents. *)
Record tm := mk_tm {
  tm_sec : Z; tm_min : Z; tm_hour : Z; tm_mday : Z; tm_mon : Z; tm_year : Z
}.

Class LocalTime := localtime : Z -> tm.

Record tm_ok (t : tm) : Prop := {
  tm_sec_ok : 0 <= tm_sec t <= 60;
  tm_min_ok : 0 <= tm_min t <= 59;
  tm_hour_ok : 0 <= tm_hour t <= 23;
  tm_mday_ok : 1 <= tm_mday t <= 31;
  tm_mon_ok : 0 <= tm_mon t <= 11;
  tm_year_ok : 69 <= tm_year t <= 1000
}.

Class LocalTimeOk (L : LocalTime) : Prop :=
  localtime_ok : forall s, 0 <= s <= max_seconds -> tm_ok (localtime s).

Section Day.
Context {L : LocalTime}.

(** The day of [time_ns] in YYYYMMDD format. *)
Definition Time2YYYYMMDD (time_ns : Z) : Z :=
  let now := localtime (seconds_of_ns time_ns) in
  u32 ((tm_year now + 1900) * 10000 + (tm_mon now + 1) * 100 + tm_mday now).
End Day.
