(* ===== verification/Calendar.v ===== *)
(** * A concrete calendar

    The Gregorian calendar in UTC, as an instance of the [localtime] parameter:
    the witnesses of the development run with it. *)
From S2P Require Import Prelude DataTypes.
Local Open Scope Z_scope.

Definition leap (y : Z) : bool :=
  (y mod 4 =? 0) && (negb (y mod 100 =? 0) || (y mod 400 =? 0)).

Definition year_days (y : Z) : Z := if leap y then 366 else 365.

Definition month_days (y : Z) : list Z :=
  [31; if leap y then 29 else 28; 31; 30; 31; 30; 31; 31; 30; 31; 30; 31].

(** The year that day [d], counted from the start of year [y], falls in, and the
    day within it. *)
Fixpoint find_year (n : nat) (y d : Z) : Z * Z :=
  match n with
  | O => (y, d)
  | S n' => if d <? year_days y then (y, d) else find_year n' (y + 1) (d - year_days y)
  end.

(** The month, counted from [m], and the day of the month from 1. *)
Fixpoint find_month (lens : list Z) (m d : Z) : Z * Z :=
  match lens with
  | [] => (m, d + 1)
  | k :: lens' => if d <? k then (m, d + 1) else find_month lens' (m + 1) (d - k)
  end.

(** Year, month and day of the month of a day since the epoch; 600 years are
    more than a [uint64_t] number of nanoseconds spans. *)
Definition civil (days : Z) : Z * Z * Z :=
  let '(y, r) := find_year 600 1970 days in
  let '(m, d) := find_month (month_days y) 1 r in
  (y, m, d).

Definition utc_localtime : LocalTime := fun s =>
  let '(y, m, d) := civil (s / 86400) in
  let r := s mod 86400 in
  mk_tm (r mod 60) (r / 60 mod 60) (r / 3600) d (m - 1) (y - 1900).

Lemma year_days_range y : 365 <= year_days y <= 366.
Proof. unfold year_days. case_match; lia. Qed.

Lemma zsum_month_days y : zsum (month_days y) = year_days y.
Proof. unfold month_days, year_days. case_match; done. Qed.

Lemma find_year_range n y d :
  0 <= d < 365 * Z.of_nat n ->
  let '(y', r) := find_year n y d in
  y <= y' < y + Z.of_nat n /\ 0 <= r < year_days y'.
Proof.
  revert y d; induction n as [|n IH]; intros y d Hd; [lia|]. cbn [find_year].
  pose proof (year_days_range y).
  destruct (Z.ltb_spec d (year_days y)); [lia|].
  specialize (IH (y + 1) (d - year_days y) ltac:(lia)).
  destruct (find_year _ _ _). lia.
Qed.

Lemma find_month_range lens m d :
  Forall (fun k => 0 <= k <= 31) lens -> 0 <= d < zsum lens ->
  let '(m', e) := find_month lens m d in
  m <= m' < m + zlen lens /\ 1 <= e <= 31.
Proof.
  revert m d; induction lens as [|k lens IH]; intros m d Hl Hd; [cbn in Hd; lia|].
  inversion Hl; subst. unfold zlen in *. rewrite zsum_cons in Hd. cbn [find_month length].
  destruct (Z.ltb_spec d k); [lia|].
  specialize (IH (m + 1) (d - k) ltac:(done) ltac:(lia)).
  destruct (find_month _ _ _). lia.
Qed.

Lemma month_days_small y : Forall (fun k => 0 <= k <= 31) (month_days y).
Proof. unfold month_days. case_match; repeat constructor; lia. Qed.

Lemma civil_ok k y m d :
  0 <= k < 219000 -> civil k = (y, m, d) ->
  1970 <= y < 2570 /\ 1 <= m <= 12 /\ 1 <= d <= 31.
Proof.
  intros Hk. unfold civil. pose proof (find_year_range 600 1970 k ltac:(lia)) as Hy.
  destruct (find_year 600 1970 k) as [y' r]. destruct Hy as [Hy Hr].
  rewrite <- zsum_month_days in Hr.
  pose proof (find_month_range (month_days y') 1 r (month_days_small _) Hr) as Hm.
  destruct (find_month _ _ _) as [m' e]. intros [= -> -> ->].
  change (zlen (month_days y)) with 12 in Hm. lia.
Qed.

(** A later day is not earlier in the calendar. *)
Lemma find_year_mono n y d e :
  0 <= d <= e ->
  let '(y1, r1) := find_year n y d in
  let '(y2, r2) := find_year n y e in
  y <= y2 /\ (y1 < y2 \/ y1 = y2 /\ r1 <= r2).
Proof.
  revert y d e; induction n as [|n IH]; intros y d e Hde; cbn [find_year]; [lia|].
  pose proof (year_days_range y).
  destruct (Z.ltb_spec d (year_days y)), (Z.ltb_spec e (year_days y)); try lia.
  - specialize (IH (y + 1) (e - year_days y) (e - year_days y) ltac:(lia)).
    destruct (find_year n (y + 1) _). lia.
  - specialize (IH (y + 1) (d - year_days y) (e - year_days y) ltac:(lia)).
    destruct (find_year n (y + 1) (d - _)), (find_year n (y + 1) (e - _)). lia.
Qed.

Lemma find_month_mono lens m d e :
  0 <= d <= e ->
  let '(m1, r1) := find_month lens m d in
  let '(m2, r2) := find_month lens m e in
  m <= m2 /\ (m1 < m2 \/ m1 = m2 /\ r1 <= r2).
Proof.
  revert m d e; induction lens as [|k lens IH]; intros m d e Hde; cbn [find_month]; [lia|].
  destruct (Z.ltb_spec d k), (Z.ltb_spec e k); try lia.
  - specialize (IH (m + 1) (e - k) (e - k)).
    destruct (Z.le_gt_cases 0 (e - k)); [|lia]. specialize (IH ltac:(lia)).
    destruct (find_month lens (m + 1) _). lia.
  - specialize (IH (m + 1) (d - k) (e - k)).
    destruct (Z.le_gt_cases 0 (d - k)); [|lia]. specialize (IH ltac:(lia)).
    destruct (find_month lens (m + 1) (d - _)), (find_month lens (m + 1) (e - _)). lia.
Qed.

(** The day code YYYYMMDD of a day since the epoch grows with the day. *)
Definition day_code (days : Z) : Z :=
  let '(y, m, d) := civil days in y * 10000 + m * 100 + d.

Lemma civil_eq k y r m d :
  find_year 600 1970 k = (y, r) -> find_month (month_days y) 1 r = (m, d) ->
  civil k = (y, m, d).
Proof. unfold civil. intros -> ->. done. Qed.

Lemma day_code_eq k y m d : civil k = (y, m, d) -> day_code k = y * 10000 + m * 100 + d.
Proof. unfold day_code. by intros ->. Qed.

Lemma day_code_mono d e : 0 <= d <= e -> e < 219000 -> day_code d <= day_code e.
Proof.
  intros Hd He. pose proof (find_year_mono 600 1970 d e Hd) as Hy.
  pose proof (find_year_range 600 1970 d ltac:(lia)) as Hr.
  destruct (find_year 600 1970 d) as [z1 r1] eqn:Y1, (find_year 600 1970 e) as [z2 r2] eqn:Y2.
  pose proof (find_month_mono (month_days z2) 1 r1 r2) as Hm.
  destruct (find_month (month_days z1) 1 r1) as [m1 d1] eqn:M1.
  destruct (find_month (month_days z2) 1 r2) as [m2 d2] eqn:M2.
  pose proof (civil_eq _ _ _ _ _ Y1 M1) as E1. pose proof (civil_eq _ _ _ _ _ Y2 M2) as E2.
  pose proof (civil_ok d _ _ _ ltac:(lia) E1). pose proof (civil_ok e _ _ _ ltac:(lia) E2).
  rewrite (day_code_eq _ _ _ _ E1), (day_code_eq _ _ _ _ E2).
  destruct Hy as [_ [Hlt|[-> Hle]]]; [lia|].
  rewrite M1 in Hm. specialize (Hm ltac:(lia)). lia.
Qed.

Lemma day_of_second s : 0 <= s <= max_seconds -> 0 <= s / 86400 < 219000.
Proof.
  unfold max_seconds. intros Hs. split; [apply Z.div_pos; lia|].
  apply Z.div_lt_upper_bound; lia.
Qed.

#[export] Instance utc_localtime_ok : LocalTimeOk utc_localtime.
Proof.
  intros s Hs. unfold localtime, utc_localtime.
  destruct (civil (s / 86400)) as [[y m] d] eqn:E.
  pose proof (civil_ok _ _ _ _ (day_of_second s Hs) E).
  pose proof (Z.mod_pos_bound s 86400 ltac:(lia)) as Hr.
  set (r := s mod 86400) in *. clearbody r.
  pose proof (Z.mod_pos_bound r 60 ltac:(lia)).
  pose proof (Z.mod_pos_bound (r / 60) 60 ltac:(lia)).
  assert (0 <= r / 3600 <= 23).
  { split; [apply Z.div_pos; lia|]. apply Z.lt_succ_r, Z.div_lt_upper_bound; lia. }
  split; cbn; lia.
Qed.

(** The day of a timestamp is the code of its day. *)
Lemma utc_day_code t :
  0 <= t < 2 ^ 64 ->
  Time2YYYYMMDD (L := utc_localtime) t = day_code (seconds_of_ns t / 86400).
Proof.
  intros Ht. pose proof (day_of_second _ (seconds_of_ns_range t Ht)) as Hd.
  unfold Time2YYYYMMDD, localtime, utc_localtime.
  destruct (civil (seconds_of_ns t / 86400)) as [[y m] d] eqn:E.
  pose proof (civil_ok _ _ _ _ Hd E). rewrite (day_code_eq _ _ _ _ E).
  cbn [tm_year tm_mon tm_mday]. rewrite u32_small by lia. lia.
Qed.

(** The day of a timestamp grows with the timestamp. *)
Lemma utc_day_mono s t :
  0 <= s <= t -> t < 2 ^ 64 ->
  Time2YYYYMMDD (L := utc_localtime) s <= Time2YYYYMMDD (L := utc_localtime) t.
Proof.
  intros Hs Ht. rewrite !utc_day_code by lia.
  pose proof (seconds_of_ns_range s ltac:(lia)). pose proof (seconds_of_ns_range t ltac:(lia)).
  pose proof (seconds_of_ns_mono s t Hs Ht).
  pose proof (day_of_second (seconds_of_ns s) ltac:(lia)).
  pose proof (day_of_second (seconds_of_ns t) ltac:(lia)).
  apply day_code_mono; [|lia]. split; [lia|]. apply Z.div_le_mono; lia.
Qed.
