(* ===== verification/Format.v ===== *)
(** * The file format

    The specification both sides of the storage meet: the bytes of an index file
    and of a data file for a sequence of records. The writer is shown to produce
    them and the readers to read them back. *)
From S2P Require Import Prelude DataTypes.
Local Open Scope Z_scope.

Record record := mk_record { r_time : Z; r_data : bytes }.

Definition record_ok (r : record) : Prop :=
  0 <= r_time r < 2 ^ 64 /\ zlen (r_data r) < 2 ^ 32.

(** A fixed-size record in the index file. *)
Definition fixed_entry (r : record) : bytes := le_encode 8 (r_time r) ++ r_data r.

(** A variable-size record: its entry in the index file, for a record at
    [offset] in the data file, and its entry in the data file. *)
Definition var_entry (offset : Z) (r : record) : bytes :=
  le_encode 8 (r_time r) ++ le_encode 4 offset.
Definition data_entry (r : record) : bytes :=
  le_encode 8 (r_time r) ++ le_encode 4 (zlen (r_data r)) ++ r_data r.

Definition data_entry_size (r : record) : Z := 12 + zlen (r_data r).

(** The index entries of records stored one after the other from [offset]. *)
Fixpoint var_entry_list (offset : Z) (rs : list record) : list bytes :=
  match rs with
  | [] => []
  | r :: rs' => var_entry offset r :: var_entry_list (offset + data_entry_size r) rs'
  end.

Definition fixed_entries (rs : list record) : bytes := concat (map fixed_entry rs).
Definition var_entries (offset : Z) (rs : list record) : bytes :=
  concat (var_entry_list offset rs).
Definition data_entries (rs : list record) : bytes := concat (map data_entry rs).

(** The offset of the record that follows [rs] in the data file. *)
Definition end_offset (rs : list record) : Z :=
  LogFileHeader.size + zsum (map data_entry_size rs).

(** The files. *)
Definition fixed_index_file (h : LogFileHeader.t) (rs : list record) : bytes :=
  LogFileHeader.encode h ++ fixed_entries rs.
Definition var_index_file (h : LogFileHeader.t) (rs : list record) : bytes :=
  LogFileHeader.encode h ++ var_entries LogFileHeader.size rs.
Definition data_file (h : LogFileHeader.t) (rs : list record) : bytes :=
  LogFileHeader.encode h ++ data_entries rs.

(** A header as the writer makes it. *)
Record header_ok (type record_size : Z) (h : LogFileHeader.t) : Prop := {
  ho_wf : LogFileHeader.wf h;
  ho_size : LogFileHeader.header_size_ h = LogFileHeader.size;
  ho_type : LogFileHeader.file_type_ h = type;
  ho_record_size : LogFileHeader.record_size_ h = record_size
}.

(** ** Sizes and positions *)
Lemma length_var_entry o r : length (var_entry o r) = 12%nat.
Proof. done. Qed.

Lemma zlen_data_entry r : zlen (data_entry r) = data_entry_size r.
Proof.
  unfold data_entry, data_entry_size. autorewrite with tbrw. lia.
Qed.

Lemma zlen_fixed_entry r : zlen (fixed_entry r) = 8 + zlen (r_data r).
Proof. unfold fixed_entry. by autorewrite with tbrw. Qed.

Lemma zlen_data_entries rs : zlen (data_entries rs) = zsum (map data_entry_size rs).
Proof.
  unfold data_entries. induction rs as [|r rs IH]; [done|]. cbn [map concat].
  rewrite zlen_app, IH, zlen_data_entry, zsum_cons. done.
Qed.

Lemma length_var_entry_list o rs : length (var_entry_list o rs) = length rs.
Proof. revert o; induction rs; intros; cbn; auto. Qed.

Lemma var_entry_list_uniform o rs : Forall (fun e => length e = 12%nat) (var_entry_list o rs).
Proof. revert o; induction rs; intros; cbn; constructor; auto. Qed.

Lemma end_offset_app rs ss : end_offset (rs ++ ss) = end_offset rs + zsum (map data_entry_size ss).
Proof. unfold end_offset. rewrite map_app, zsum_app. lia. Qed.

Lemma end_offset_snoc rs r : end_offset (rs ++ [r]) = end_offset rs + data_entry_size r.
Proof. rewrite end_offset_app. cbn. lia. Qed.

Lemma data_entry_size_pos r : 12 <= data_entry_size r.
Proof. unfold data_entry_size. pose proof (zlen_nonneg (r_data r)). lia. Qed.

Lemma zsum_sizes_nonneg rs : 0 <= zsum (map data_entry_size rs).
Proof.
  apply zsum_nonneg. apply Forall_map. apply Forall_true. intros r; cbn.
  pose proof (data_entry_size_pos r). lia.
Qed.

Lemma end_offset_ge rs : LogFileHeader.size <= end_offset rs.
Proof. unfold end_offset. pose proof (zsum_sizes_nonneg rs). lia. Qed.

(** Appending a record. *)
Lemma fixed_entries_snoc rs r : fixed_entries (rs ++ [r]) = fixed_entries rs ++ fixed_entry r.
Proof.
  unfold fixed_entries. rewrite map_app, concat_app. cbn [map concat]. by rewrite app_nil_r.
Qed.

Lemma data_entries_snoc rs r : data_entries (rs ++ [r]) = data_entries rs ++ data_entry r.
Proof.
  unfold data_entries. rewrite map_app, concat_app. cbn [map concat]. by rewrite app_nil_r.
Qed.

Lemma var_entry_list_app o rs ss :
  var_entry_list o (rs ++ ss) =
  var_entry_list o rs ++ var_entry_list (o + zsum (map data_entry_size rs)) ss.
Proof.
  revert o; induction rs as [|r rs IH]; intros o; cbn [var_entry_list app map].
  - cbn. by rewrite Z.add_0_r.
  - rewrite IH, zsum_cons. by rewrite Z.add_assoc.
Qed.

Lemma var_entries_snoc rs r :
  var_entries LogFileHeader.size (rs ++ [r]) =
  var_entries LogFileHeader.size rs ++ var_entry (end_offset rs) r.
Proof.
  unfold var_entries. rewrite var_entry_list_app, concat_app. cbn [var_entry_list concat].
  by rewrite app_nil_r.
Qed.

(** The [i]-th of a sequence of equally long pieces. *)
Lemma sub_concat_uniform (w : nat) (ls : list bytes) i x :
  Forall (fun e => length e = w) ls -> ls !! i = Some x ->
  sub (concat ls) (i * w) w = x.
Proof.
  intros Hu Hi. apply list_elem_of_split_length in Hi as (l1 & l2 & -> & ->).
  apply Forall_app in Hu as [H1 H2]. inversion H2; subst.
  rewrite concat_app. cbn [concat].
  assert (length (concat l1) = (length l1 * length x)%nat) as <-.
  { clear -H1. induction H1; cbn; [done|]. rewrite length_app. congruence. }
  apply sub_app_exact.
Qed.

Lemma length_concat_uniform (w : nat) (ls : list bytes) :
  Forall (fun e => length e = w) ls -> length (concat ls) = (length ls * w)%nat.
Proof. induction 1; cbn; [done|]. rewrite length_app. congruence. Qed.

Lemma zlen_header_app type n h (k : bytes) :
  header_ok type n h -> zlen (LogFileHeader.encode h ++ k) = LogFileHeader.size + zlen k.
Proof.
  intros [Hwf _ _ _]. rewrite zlen_app. f_equal. unfold zlen.
  rewrite LogFileHeader.length_encode by done. done.
Qed.

(** The header at the start of a file. *)
Lemma header_decode type n h (k : bytes) :
  header_ok type n h ->
  LogFileHeader.decode (take (Z.to_nat LogFileHeader.size) (LogFileHeader.encode h ++ k)) = h.
Proof.
  intros [Hwf _ _ _]. rewrite take_app_length' by (by rewrite LogFileHeader.length_encode).
  by apply LogFileHeader.decode_encode.
Qed.

Lemma sub_after_header type n h (k : bytes) (p m : nat) :
  header_ok type n h ->
  sub (LogFileHeader.encode h ++ k) (Z.to_nat LogFileHeader.size + p) m = sub k p m.
Proof.
  intros [Hwf _ _ _]. rewrite sub_app_r by (rewrite LogFileHeader.length_encode by done; lia).
  rewrite LogFileHeader.length_encode by done. f_equal. lia.
Qed.

(** The fixed-size record [i]. *)
Lemma fixed_index_at h n rs i r :
  header_ok kIndexFile n h -> Forall (fun r => zlen (r_data r) = n) rs -> rs !! i = Some r ->
  sub (fixed_index_file h rs) (Z.to_nat (LogFileHeader.size + Z.of_nat i * (8 + n)))
    (Z.to_nat (8 + n)) = fixed_entry r.
Proof.
  intros Hh Hn Hi. pose proof (Forall_lookup_1 _ _ _ _ Hn Hi) as Hr. cbn in Hr.
  pose proof (zlen_nonneg (r_data r)).
  replace (Z.to_nat (LogFileHeader.size + Z.of_nat i * (8 + n)))
    with (Z.to_nat LogFileHeader.size + i * Z.to_nat (8 + n))%nat
    by (unfold LogFileHeader.size in *; lia).
  unfold fixed_index_file. rewrite (sub_after_header kIndexFile n) by done.
  apply sub_concat_uniform.
  - apply Forall_map. eapply Forall_impl; [exact Hn|]. cbn. intros s Hs.
    pose proof (zlen_fixed_entry s). unfold zlen in *. lia.
  - by rewrite list_lookup_fmap, Hi.
Qed.

(** The variable-size record [i]: its index entry, with the offset. *)
Lemma var_index_at h rs i r :
  header_ok kIndexFile 0 h -> rs !! i = Some r ->
  sub (var_index_file h rs) (Z.to_nat (LogFileHeader.size + Z.of_nat i * 12)) 12 =
  var_entry (end_offset (take i rs)) r.
Proof.
  intros Hh Hi.
  replace (Z.to_nat (LogFileHeader.size + Z.of_nat i * 12))
    with (Z.to_nat LogFileHeader.size + i * 12)%nat by (unfold LogFileHeader.size; lia).
  unfold var_index_file. rewrite (sub_after_header kIndexFile 0) by done.
  apply sub_concat_uniform; [apply var_entry_list_uniform|].
  apply list_elem_of_split_length in Hi as (l1 & l2 & -> & ->).
  rewrite var_entry_list_app, lookup_app_r, length_var_entry_list, Nat.sub_diag
    by (rewrite length_var_entry_list; lia).
  cbn [var_entry_list lookup list_lookup]. rewrite take_app_length. done.
Qed.

(** Its entry in the data file. *)
Lemma data_file_at h rs i r :
  header_ok kDataFile 0 h -> rs !! i = Some r ->
  sub (data_file h rs) (Z.to_nat (end_offset (take i rs))) (Z.to_nat (data_entry_size r)) =
  data_entry r.
Proof.
  intros Hh Hi. apply list_elem_of_split_length in Hi as (l1 & l2 & -> & ->).
  rewrite take_app_length. unfold end_offset. rewrite <- zlen_data_entries.
  rewrite Z2Nat.inj_add by (try apply zlen_nonneg; done).
  unfold data_file. rewrite (sub_after_header kDataFile 0) by done.
  unfold data_entries at 1. rewrite map_app, concat_app. cbn [map concat].
  rewrite <- zlen_data_entry. unfold zlen. rewrite !Nat2Z.id.
  apply sub_app_exact.
Qed.

Lemma data_entry_end h rs i r :
  header_ok kDataFile 0 h -> rs !! i = Some r ->
  end_offset (take i rs) + data_entry_size r <= zlen (data_file h rs).
Proof.
  intros Hh Hi. apply list_elem_of_split_length in Hi as (l1 & l2 & -> & ->).
  rewrite take_app_length. unfold data_file. rewrite (zlen_header_app _ _ _ _ Hh).
  rewrite zlen_data_entries, map_app, zsum_app. cbn [map]. rewrite zsum_cons.
  unfold end_offset. pose proof (zsum_sizes_nonneg l2). lia.
Qed.

Lemma zlen_data_file h rs :
  header_ok kDataFile 0 h -> zlen (data_file h rs) = end_offset rs.
Proof.
  intros Hh. unfold data_file. rewrite (zlen_header_app _ _ _ _ Hh), zlen_data_entries. done.
Qed.

Lemma zlen_var_index h rs :
  header_ok kIndexFile 0 h -> zlen (var_index_file h rs) = LogFileHeader.size + 12 * zlen rs.
Proof.
  intros Hh. unfold var_index_file. rewrite (zlen_header_app _ _ _ _ Hh). f_equal.
  unfold var_entries, zlen.
  rewrite (length_concat_uniform 12 _ (var_entry_list_uniform _ _)), length_var_entry_list. lia.
Qed.

Lemma zlen_fixed_index h n rs :
  header_ok kIndexFile n h -> Forall (fun r => zlen (r_data r) = n) rs ->
  zlen (fixed_index_file h rs) = LogFileHeader.size + (8 + n) * zlen rs.
Proof.
  intros Hh Hn. unfold fixed_index_file. rewrite (zlen_header_app _ _ _ _ Hh). f_equal.
  unfold fixed_entries. clear Hh. induction Hn as [|r rs Hr Hn IH]; [unfold zlen; cbn [map concat length]; lia|].
  cbn [map concat]. rewrite zlen_app, IH, zlen_fixed_entry, Hr.
  unfold zlen; cbn [length]. rewrite Nat2Z.inj_succ. ring.
Qed.

(** A data file that agrees with the data of [rs] as far as both go: the header
    and the payload of a record that lies inside it. *)
Lemma compat_data_header h rs i r (c : bytes) :
  header_ok kDataFile 0 h -> compat c (data_file h rs) -> rs !! i = Some r ->
  end_offset (take i rs) + 12 <= zlen c ->
  sub c (Z.to_nat (end_offset (take i rs))) 12 =
  le_encode 8 (r_time r) ++ le_encode 4 (zlen (r_data r)).
Proof.
  intros Hh Hc Hi Hb. pose proof (data_file_at h rs i r Hh Hi) as Hat.
  pose proof (data_entry_end h rs i r Hh Hi) as Hend. pose proof (data_entry_size_pos r).
  pose proof (end_offset_ge (take i rs)). unfold LogFileHeader.size in *.
  rewrite (sub_compat _ _ _ _ Hc) by (unfold zlen in *; lia).
  rewrite <- (Nat.add_0_r (Z.to_nat (end_offset _))),
    <- (sub_sub _ _ (Z.to_nat (data_entry_size r)) 0 12), Hat by lia.
  unfold data_entry. rewrite app_assoc. unfold sub. rewrite drop_0. by rewrite take_app_length'.
Qed.

Lemma compat_data_payload h rs i r (c : bytes) :
  header_ok kDataFile 0 h -> compat c (data_file h rs) -> rs !! i = Some r ->
  end_offset (take i rs) + data_entry_size r <= zlen c ->
  sub c (Z.to_nat (end_offset (take i rs) + 12)) (Z.to_nat (zlen (r_data r))) = r_data r.
Proof.
  intros Hh Hc Hi Hb. pose proof (data_file_at h rs i r Hh Hi) as Hat.
  pose proof (data_entry_end h rs i r Hh Hi) as Hend. unfold data_entry_size in *.
  pose proof (zlen_nonneg (r_data r)).
  pose proof (end_offset_ge (take i rs)). unfold LogFileHeader.size in *.
  rewrite (sub_compat _ _ _ _ Hc) by (unfold zlen in *; lia).
  rewrite Z2Nat.inj_add by lia. change (Z.to_nat 12) with 12%nat.
  rewrite <- (sub_sub _ _ (Z.to_nat (12 + zlen (r_data r))) 12), Hat by lia.
  unfold sub, data_entry. rewrite app_assoc, drop_app_length' by done.
  unfold zlen. by rewrite Nat2Z.id, firstn_all.
Qed.
