(* ===== verification/Protos.v ===== *)
(** * Messages

    [libs/data_protos/logger.proto]: the messages the components exchange, one
    record per message. Every field of the schema is [optional] or [repeated],
    so a field is an [option] or a list; the getter of an absent field returns
    the default of its type. The wire encoding is generated code and is not
    modelled: the components that serialise take it as a parameter. *)
From S2P Require Import Prelude.
Local Open Scope Z_scope.

Module LogRequest.
Record t := mk {
  channel_ : option string;
  size_ : option Z;
  data_ : option bytes;
  time_ns_ : option Z
}.
Definition channel (r : t) : string := default EmptyString (channel_ r).
Definition size (r : t) : Z := default 0 (size_ r).
Definition data (r : t) : bytes := default [] (data_ r).
Definition time_ns (r : t) : Z := default 0 (time_ns_ r).
End LogRequest.

Module DataStreamsRequest.
Record t := mk {
  start_ns_ : option Z;
  end_ns_ : option Z;
  file_ : option string;
  start_idx_ : option Z;
  max_count_ : option Z
}.
Definition start_ns (r : t) : Z := default 0 (start_ns_ r).
Definition end_ns (r : t) : Z := default 0 (end_ns_ r).
Definition file (r : t) : string := default EmptyString (file_ r).
Definition start_idx (r : t) : Z := default 0 (start_idx_ r).
Definition max_count (r : t) : Z := default 0 (max_count_ r).
Definition has_file (r : t) : bool := bool_decide (is_Some (file_ r)).
Definition has_start_idx (r : t) : bool := bool_decide (is_Some (start_idx_ r)).
Definition has_max_count (r : t) : bool := bool_decide (is_Some (max_count_ r)).
End DataStreamsRequest.

Inductive StreamStatus :=
| kUnknown
| kHealthy
| kEmpty
| kHeaderMismatch
| kHeadersDifferent
| kIndexMissing.

#[export] Instance StreamStatus_eq_dec : EqDecision StreamStatus.
Proof. solve_decision. Defined.

(** The field numbers of the enumeration. *)
Definition StreamStatus_number (s : StreamStatus) : Z :=
  match s with
  | kUnknown => 0
  | kHealthy => 1
  | kEmpty => 2
  | kHeaderMismatch => 3
  | kHeadersDifferent => 4
  | kIndexMissing => 5
  end.

Module DataStream.
Record t := mk {
  name_ : option string;
  day_ : option Z;
  file_ : option string;
  records_cnt_ : option Z;
  status_ : option StreamStatus;
  start_time_ns_ : option Z;
  end_time_ns_ : option Z
}.
Definition name (r : t) : string := default EmptyString (name_ r).
Definition day (r : t) : Z := default 0 (day_ r).
Definition file (r : t) : string := default EmptyString (file_ r).
Definition records_cnt (r : t) : Z := default 0 (records_cnt_ r).
Definition status (r : t) : StreamStatus := default kUnknown (status_ r).
Definition start_time_ns (r : t) : Z := default 0 (start_time_ns_ r).
Definition end_time_ns (r : t) : Z := default 0 (end_time_ns_ r).
End DataStream.

Module DataPiece.
Record t := mk {
  time_ns_ : option Z;
  data_ : option bytes;
  stream_idx_ : option Z
}.
Definition empty : t := mk None None None.
Definition time_ns (r : t) : Z := default 0 (time_ns_ r).
Definition data (r : t) : bytes := default [] (data_ r).
Definition stream_idx (r : t) : Z := default 0 (stream_idx_ r).
End DataPiece.

Module DataStreamsResponse.
Record t := mk {
  stream : list DataStream.t;
  data : list DataPiece.t;
  errors_ : option string
}.
Definition empty : t := mk [] [] None.
Definition errors (r : t) : string := default EmptyString (errors_ r).
Definition has_errors (r : t) : bool := bool_decide (is_Some (errors_ r)).
Definition add_stream (s : DataStream.t) (r : t) : t :=
  mk (stream r ++ [s]) (data r) (errors_ r).
Definition add_data (d : DataPiece.t) (r : t) : t :=
  mk (stream r) (data r ++ [d]) (errors_ r).
Definition set_errors (e : string) (r : t) : t :=
  mk (stream r) (data r) (Some e).
End DataStreamsResponse.
