(* ===== verification/FileSystem.v ===== *)
(** * File system

    What the program uses of [std::filesystem] and of the operating system below
    it: a tree of directories, regular files and symbolic links, path resolution,
    enumeration, creation and removal. A file name leads to an inode and an open
    file refers to the inode, so a file that is removed while it is open keeps
    its contents for the holder of the handle. *)
From Stdlib Require Import Ascii.
From S2P Require Import Prelude.

(** ** Paths

    A resolved path is the list of its components from the root. The working
    directory of the process is taken to be the root directory. *)
Abbreviation path := (list string) (only parsing).

Definition slash : Ascii.ascii := "/"%char.

(** The pieces of a path string between its slashes. *)
Fixpoint split_slash (s : string) : list string :=
  match s with
  | EmptyString => [EmptyString]
  | String c s' =>
      if decide (c = slash) then EmptyString :: split_slash s'
      else match split_slash s' with
           | [] => [String c EmptyString]
           | x :: xs => String c x :: xs
           end
  end.

(** [a + "/" + b] *)
Definition join_slash (a b : string) : string := (a +:+ String slash b)%string.

Definition is_absolute (s : string) : bool :=
  match s with
  | String c _ => bool_decide (c = slash)
  | EmptyString => false
  end.

Definition parent (p : path) : path := take (length p - 1) p.

(** A component that names a directory entry. *)
Definition plain (c : string) : Prop :=
  c ≠ ""%string /\ c ≠ "."%string /\ c ≠ ".."%string /\ split_slash c = [c].

#[export] Instance plain_dec c : Decision (plain c).
Proof. unfold plain. apply _. Defined.

(** ** The tree *)
Abbreviation ino := nat (only parsing).

Inductive node :=
| NDir
| NFile (i : ino)
| NLink (target : string).

#[export] Instance node_eq_dec : EqDecision node.
Proof. solve_decision. Defined.

Record fs := mk_fs {
  nodes : gmap (list string) node;   (** everything below the root directory *)
  inodes : gmap nat bytes;            (** file contents *)
  next_ino : nat
}.

Definition node_at (f : fs) (p : path) : option node :=
  match p with
  | [] => Some NDir
  | _ => nodes f !! p
  end.

(** Contents of an inode; an unused number has none. *)
Definition contents (f : fs) (i : ino) : bytes := default [] (inodes f !! i).

(** ** Resolution

    [walk] follows the components from a resolved directory. Empty components
    and ["."] are skipped, [".."] goes up, a symbolic link is replaced by its
    target, at most [links] times (the limit is 40 on Linux). Every component
    but the last must be a directory. *)
Fixpoint walk (links : nat) (f : fs) : path -> list string -> option path :=
  fix go (cur : path) (todo : list string) {struct todo} : option path :=
    match todo with
    | [] => Some cur
    | c :: rest =>
        if decide (c = ""%string \/ c = "."%string) then go cur rest
        else if decide (c = ".."%string) then go (parent cur) rest
        else match nodes f !! (cur ++ [c]) with
             | Some (NLink t) =>
                 match links with
                 | O => None
                 | S l => walk l f (if is_absolute t then [] else cur) (split_slash t ++ rest)
                 end
             | o => if decide (rest ≠ [] /\ o ≠ Some NDir) then None
                    else go (cur ++ [c]) rest
             end
    end.

Definition max_links : nat := 40.

Definition resolve_c (f : fs) (comps : list string) : option path :=
  walk max_links f [] comps.

Definition resolve (f : fs) (s : string) : option path :=
  if decide (s = ""%string) then None else resolve_c f (split_slash s).

(** What a resolved path names. *)
Definition status_c (f : fs) (comps : list string) : option node :=
  resolve_c f comps ≫= node_at f.
Definition status (f : fs) (s : string) : option node := resolve f s ≫= node_at f.

Definition exists_ (f : fs) (s : string) : bool := bool_decide (is_Some (status f s)).
Definition is_directory (f : fs) (s : string) : bool := bool_decide (status f s = Some NDir).
Definition is_regular_file (f : fs) (s : string) : bool :=
  match status f s with Some (NFile _) => true | _ => false end.
Definition is_regular_file_c (f : fs) (comps : list string) : bool :=
  match status_c f comps with Some (NFile _) => true | _ => false end.

(** [file_size]: an error for what is not a regular file. *)
Definition file_size (f : fs) (s : string) : option Z :=
  match status f s with
  | Some (NFile i) => Some (zlen (contents f i))
  | _ => None
  end.

(** [canonical]: the resolved path of something that exists. *)
Definition canonical_c (f : fs) (comps : list string) : option path :=
  match resolve_c f comps with
  | Some p => match node_at f p with Some _ => Some p | None => None end
  | None => None
  end.

(** Resolution stops because of the limit on symbolic links ([ELOOP]). *)
Fixpoint walk_loops (links : nat) (f : fs) : path -> list string -> bool :=
  fix go (cur : path) (todo : list string) {struct todo} : bool :=
    match todo with
    | [] => false
    | c :: rest =>
        if decide (c = ""%string \/ c = "."%string) then go cur rest
        else if decide (c = ".."%string) then go (parent cur) rest
        else match nodes f !! (cur ++ [c]) with
             | Some (NLink t) =>
                 match links with
                 | O => true
                 | S l => walk_loops l f (if is_absolute t then [] else cur) (split_slash t ++ rest)
                 end
             | o => if decide (rest ≠ [] /\ o ≠ Some NDir) then false
                    else go (cur ++ [c]) rest
             end
    end.

(** The longest leading part of the components that exists, and the rest; an
    error when it is not known whether a component exists. *)
Fixpoint existing_prefix (f : fs) (acc todo : list string) : option (list string * list string) :=
  match todo with
  | [] => Some (acc, [])
  | c :: rest =>
      match status_c f (acc ++ [c]) with
      | Some _ => existing_prefix f (acc ++ [c]) rest
      | None => if walk_loops max_links f [] (acc ++ [c]) then None else Some (acc, todo)
      end
  end.

(** [lexically_normal] of [p] followed by the components. *)
Fixpoint lexically_normal (p : path) (todo : list string) : path :=
  match todo with
  | [] => p
  | c :: rest =>
      if decide (c = ""%string \/ c = "."%string) then lexically_normal p rest
      else if decide (c = ".."%string) then lexically_normal (parent p) rest
      else lexically_normal (p ++ [c]) rest
  end.

(** [weakly_canonical]: the canonical path of the part that exists, followed by
    the normal form of the rest. *)
Definition weakly_canonical_c (f : fs) (comps : list string) : option path :=
  match canonical_c f comps with
  | Some p => Some p
  | None =>
      match existing_prefix f [] comps with
      | Some (done, rest) =>
          match canonical_c f done with
          | Some p => Some (lexically_normal p rest)
          | None => None
          end
      | None => None
      end
  end.

(** ** Enumeration *)
Fixpoint strip_prefix (p k : path) : option path :=
  match p, k with
  | [], _ => Some k
  | x :: p', y :: k' => if decide (x = y) then strip_prefix p' k' else None
  | _ :: _, [] => None
  end.

(** The names of the entries of directory [p]. *)
Definition child_name (p k : path) : option string :=
  match strip_prefix p k with
  | Some [n] => Some n
  | _ => None
  end.

Definition entries (f : fs) (p : path) : list string :=
  omap (fun kv => child_name p kv.1) (map_to_list (nodes f)).

(** [directory_iterator]: an error for what is not a directory. C++ leaves the
    order of the entries open; here it is the order of the map. *)
Definition directory_iterator (f : fs) (s : string) : option (list string) :=
  match resolve f s with
  | Some p => match node_at f p with
              | Some NDir => Some (entries f p)
              | _ => None
              end
  | None => None
  end.

(** ** Updates *)
Definition set_node (p : path) (n : node) (f : fs) : fs :=
  mk_fs (<[p := n]> (nodes f)) (inodes f) (next_ino f).

Definition append_inode (i : ino) (bs : bytes) (f : fs) : fs :=
  mk_fs (nodes f) (<[i := contents f i ++ bs]> (inodes f)) (next_ino f).

(** Open for appending, creating the file when it does not exist. *)
Definition open_append (f : fs) (s : string) : option (ino * fs) :=
  match resolve f s with
  | Some p =>
      match node_at f p with
      | Some (NFile i) => Some (i, f)
      | Some _ => None
      | None =>
          let i := next_ino f in
          Some (i, mk_fs (<[p := NFile i]> (nodes f)) (<[i := []]> (inodes f)) (S i))
      end
  | None => None
  end.

(** Open for reading. *)
Definition open_read (f : fs) (s : string) : option ino :=
  match status f s with
  | Some (NFile i) => Some i
  | _ => None
  end.

(** [create_directories]: every missing directory on the way; the boolean tells
    whether the last one was created; an error when a component is not one. *)
Fixpoint make_dirs (f : fs) (acc todo : list string) (created : bool) : option (bool * fs) :=
  match todo with
  | [] => Some (created, f)
  | c :: rest =>
      match resolve_c f (acc ++ [c]) with
      | Some p =>
          match node_at f p with
          | Some NDir => make_dirs f (acc ++ [c]) rest false
          | Some _ => None
          | None => make_dirs (set_node p NDir f) (acc ++ [c]) rest true
          end
      | None => None
      end
  end.

Definition create_directories (f : fs) (s : string) : option (bool * fs) :=
  make_dirs f [] (split_slash s) false.

(** [remove_all]: the entry [name] of directory [p] with everything below it. *)
Definition remove_tree (f : fs) (p : path) : fs :=
  mk_fs (filter (fun kv => ¬ p `prefix_of` kv.1) (nodes f)) (inodes f) (next_ino f).

(** The path to remove: the directory part is resolved, the last component is
    not followed when it is a link. Nothing happens when it does not exist. *)
Definition remove_all (f : fs) (dir name : string) : fs :=
  match resolve f dir with
  | Some p => remove_tree f (p ++ [name])
  | None => f
  end.

(** ** Path strings *)

(** The string does not contain [x]. *)
Fixpoint no_char (x : Ascii.ascii) (s : string) : bool :=
  match s with
  | EmptyString => true
  | String c s' => negb (bool_decide (c = x)) && no_char x s'
  end.

Definition no_slash (s : string) : bool := no_char slash s.

Lemma split_slash_no_slash s : no_slash s = true -> split_slash s = [s].
Proof.
  unfold no_slash. induction s as [|c s IH]; cbn; [done|]. intros [Hc Hs]%andb_true_iff.
  rewrite decide_False; [by rewrite IH|]. by destruct (bool_decide_reflect (c = slash)).
Qed.

Lemma no_char_app x a b : no_char x (a +:+ b) = no_char x a && no_char x b.
Proof.
  induction a as [|c a IH]; [done|]. cbn [no_char]. rewrite <- andb_assoc, <- IH. done.
Qed.

Lemma no_slash_app a b : no_slash (a +:+ b) = no_slash a && no_slash b.
Proof. apply no_char_app. Qed.

Lemma split_slash_nonempty s : split_slash s <> [].
Proof. destruct s as [|c s]; cbn; [done|]. destruct (decide _), (split_slash s); done. Qed.

Lemma split_slash_pieces s : Forall (fun c => no_slash c = true) (split_slash s).
Proof.
  induction s as [|c s IH]; cbn; [by constructor|].
  destruct (decide (c = slash)) as [->|Hc]; [by constructor|].
  destruct (split_slash s) as [|x xs]; inversion IH; subst; repeat constructor; try done; cbn;
    rewrite bool_decide_false by done; done.
Qed.

Lemma split_slash_join a b : split_slash (join_slash a b) = split_slash a ++ split_slash b.
Proof.
  unfold join_slash. induction a as [|c a IH]; [done|].
  change (String c a +:+ String slash b) with (String c (a +:+ String slash b)).
  cbn [split_slash]. rewrite IH. destruct (decide (c = slash)); [done|].
  pose proof (split_slash_nonempty a). by destruct (split_slash a).
Qed.

Lemma join_slash_nonempty a b : join_slash a b <> EmptyString.
Proof. by destruct a. Qed.

Lemma join_slash_inj a b c : join_slash a b = join_slash a c -> b = c.
Proof. unfold join_slash. induction a; cbn; intros [=]; auto. Qed.

(** Decimal text consists of digits and a sign. *)
Lemma no_char_pretty_N_go x n s :
  (forall d, pretty_N_char d <> x) -> no_char x s = true -> no_char x (pretty_N_go n s) = true.
Proof.
  intros Hx. revert s. induction (N.lt_wf_0 n) as [n _ IH]; intros s Hs.
  destruct (decide (n = 0)%N) as [->|Hn]; [by rewrite pretty_N_go_0|].
  rewrite pretty_N_go_step by lia. apply IH; [by apply N.div_lt; lia|].
  cbn. rewrite Hs, andb_true_r. apply negb_true_iff, bool_decide_eq_false, Hx.
Qed.

Lemma no_char_pretty_Z x (z : Z) :
  (forall d, pretty_N_char d <> x) -> no_char x "-" = true -> no_char x (pretty z) = true.
Proof.
  intros Hx Hm.
  assert (forall n : N, no_char x (pretty n) = true) as HN.
  { intros n. unfold pretty, pretty_N. case_decide; [|by apply no_char_pretty_N_go].
    pose proof (Hx 0%N) as H0. cbn in *. by rewrite bool_decide_false. }
  destruct z as [|p|p]; [apply (HN 0%N)|apply (HN (N.pos p))|].
  change (no_char x ("-" +:+ pretty (N.pos p)) = true). rewrite no_char_app, Hm. apply HN.
Qed.

Lemma no_slash_pretty_Z (z : Z) : no_slash (pretty z) = true.
Proof.
  apply no_char_pretty_Z; [|done]. intros d. unfold pretty_N_char. repeat case_match; done.
Qed.

(** The string has no dot. *)
Definition no_dot (s : string) : bool := no_char "." s.

Lemma no_dot_app a b : no_dot (a +:+ b) = no_dot a && no_dot b.
Proof. apply no_char_app. Qed.

Lemma no_dot_pretty_Z (z : Z) : no_dot (pretty z) = true.
Proof.
  apply no_char_pretty_Z; [|done]. intros x. unfold pretty_N_char. repeat case_match; done.
Qed.

(** A name that a directory entry can have. *)
Lemma plain_intro s : no_slash s = true -> s <> EmptyString -> s <> "."%string ->
  s <> ".."%string -> plain s.
Proof. intros. split_and!; try done. by apply split_slash_no_slash. Qed.

(** ** Resolution *)
Lemma walk_nil l f cur : walk l f cur [] = Some cur.
Proof. by destruct l. Qed.

Lemma walk_cons l f cur c rest :
  walk l f cur (c :: rest) =
    if decide (c = ""%string \/ c = "."%string) then walk l f cur rest
    else if decide (c = ".."%string) then walk l f (parent cur) rest
    else match nodes f !! (cur ++ [c]) with
         | Some (NLink t) =>
             match l with
             | O => None
             | S l' => walk l' f (if is_absolute t then [] else cur) (split_slash t ++ rest)
             end
         | Some NDir => walk l f (cur ++ [c]) rest
         | _ => if decide (rest = []) then walk l f (cur ++ [c]) rest else None
         end.
Proof.
  destruct l; cbn; destruct (decide (c = _ \/ _)); try done;
    destruct (decide (c = ".."%string)); try done;
    destruct (nodes f !! (cur ++ [c])) as [[]|], rest; reflexivity.
Qed.

Lemma node_at_snoc f p c : node_at f (p ++ [c]) = nodes f !! (p ++ [c]).
Proof. by destruct p. Qed.

(** Induction on a walk: over the links first, then over the components. *)
Lemma walk_induction (P : nat -> path -> list string -> Prop) :
  (forall l cur, P l cur []) ->
  (forall l cur c rest, P l cur rest -> P l (parent cur) rest -> P l (cur ++ [c]) rest ->
     (forall l' t, l = S l' -> P l' (if is_absolute t then [] else cur) (split_slash t ++ rest)) ->
     P l cur (c :: rest)) ->
  forall l cur todo, P l cur todo.
Proof.
  intros Hnil Hcons l. induction l as [|l IHl]; intros cur todo; revert cur;
    induction todo as [|c rest IH]; intros cur; auto.
  - apply Hcons; auto. by intros ?? [=].
  - apply Hcons; auto. by intros ?? [= <-].
Qed.

(** Entries that are added do not change where an existing path leads. *)
Lemma walk_mono f f' n l cur todo p :
  nodes f ⊆ nodes f' -> walk l f cur todo = Some p -> node_at f p = Some n ->
  walk l f' cur todo = Some p.
Proof.
  intros Hsub. revert l cur todo. refine (walk_induction _ _ _).
  - intros l cur. by rewrite !walk_nil.
  - intros l cur c rest H1 H2 H3 H4. rewrite !walk_cons.
    destruct (decide (c = _ \/ _)); [done|]. destruct (decide (c = ".."%string)); [done|].
    destruct (nodes f !! (cur ++ [c])) as [nd|] eqn:E.
    + rewrite (lookup_weaken _ _ _ _ E Hsub).
      destruct nd; [done|case_decide; [exact H3|done]|destruct l; [done|by eapply H4]].
    + case_decide as Hr; [|done]. subst rest.
      rewrite walk_nil. intros [= <-]. rewrite node_at_snoc, E. done.
Qed.

(** The entry [c] of the directory that a path leads to. *)
Lemma walk_child f c l cur todo p :
  plain c -> walk l f cur todo = Some p -> node_at f p = Some NDir ->
  (forall t, nodes f !! (p ++ [c]) <> Some (NLink t)) ->
  walk l f cur (todo ++ [c]) = Some (p ++ [c]).
Proof.
  intros (Hc1 & Hc2 & Hc3 & _). revert l cur todo. refine (walk_induction _ _ _).
  - intros l cur. rewrite walk_nil. intros [= <-] Hd Hl. cbn [app].
    rewrite walk_cons, decide_False by naive_solver. rewrite decide_False by done.
    destruct (nodes f !! (cur ++ [c])) as [[]|] eqn:E; try by rewrite walk_nil.
    naive_solver.
  - intros l cur x rest H1 H2 H3 H4. cbn [app]. rewrite !walk_cons.
    destruct (decide (x = _ \/ _)); [done|]. destruct (decide (x = ".."%string)); [done|].
    destruct (nodes f !! (cur ++ [x])) as [[| |t]|] eqn:E.
    + done.
    + case_decide as Hr; [|done]. subst rest.
      rewrite walk_nil. intros [= <-]. rewrite node_at_snoc, E. done.
    + destruct l; [done|]. rewrite app_assoc. by eapply H4.
    + case_decide as Hr; [|done]. subst rest.
      rewrite walk_nil. intros [= <-]. rewrite node_at_snoc, E. done.
Qed.

(** ** Entries of a directory

    [directory_at f s p]: the string names the directory [p]. *)
Definition directory_at (f : fs) (s : string) (p : path) : Prop :=
  resolve f s = Some p /\ node_at f p = Some NDir.

Lemma resolve_child f s p c :
  directory_at f s p -> plain c -> (forall t, nodes f !! (p ++ [c]) <> Some (NLink t)) ->
  resolve f (join_slash s c) = Some (p ++ [c]).
Proof.
  intros [Hr Hd] Hc Hl. unfold resolve in *. rewrite decide_False by apply join_slash_nonempty.
  case_decide; [done|]. rewrite split_slash_join.
  destruct Hc as (? & ? & ? & Hs). rewrite Hs. by apply walk_child.
Qed.

Lemma status_child f s p c :
  directory_at f s p -> plain c -> (forall t, nodes f !! (p ++ [c]) <> Some (NLink t)) ->
  status f (join_slash s c) = nodes f !! (p ++ [c]).
Proof.
  intros. unfold status. erewrite resolve_child by done. cbn. apply node_at_snoc.
Qed.

(** What exists under a directory is an entry of it. *)
Lemma exists_child f s p c :
  directory_at f s p -> plain c -> exists_ f (join_slash s c) = true ->
  is_Some (nodes f !! (p ++ [c])).
Proof.
  intros Hd Hc He. apply bool_decide_eq_true in He.
  destruct (nodes f !! (p ++ [c])) as [n|] eqn:E; [eauto|].
  rewrite (status_child f s p c Hd Hc), E in He by (rewrite E; done). by destruct He.
Qed.

Lemma directory_at_mono f f' s p :
  nodes f ⊆ nodes f' -> directory_at f s p -> directory_at f' s p.
Proof.
  intros Hsub [Hr Hd]. split.
  - unfold resolve, resolve_c in *. case_decide; [done|]. eapply walk_mono; eauto.
  - unfold node_at in *. destruct p; [done|]. eapply lookup_weaken; eauto.
Qed.

(** *** Appending to a file *)
Lemma contents_append i j bs f :
  contents (append_inode i bs f) j = if decide (i = j) then contents f i ++ bs else contents f j.
Proof.
  unfold contents at 1, append_inode. cbn [inodes]. case_decide; subst.
  - by rewrite lookup_insert_eq.
  - by rewrite lookup_insert_ne.
Qed.

Lemma contents_append_eq i bs f : contents (append_inode i bs f) i = contents f i ++ bs.
Proof. rewrite contents_append. by rewrite decide_True. Qed.

Lemma contents_append_ne i j bs f : i <> j -> contents (append_inode i bs f) j = contents f j.
Proof. intros. rewrite contents_append. by rewrite decide_False. Qed.

#[export] Hint Rewrite contents_append_eq : tbrw.

(** Only the tree decides where a path leads. *)
Lemma walk_nodes f f' l cur todo : nodes f = nodes f' -> walk l f cur todo = walk l f' cur todo.
Proof.
  intros En. revert l cur todo. refine (walk_induction _ _ _).
  - intros. by rewrite !walk_nil.
  - intros l cur c rest H1 H2 H3 H4. rewrite !walk_cons, En, H1, H2, H3.
    case_decide; [done|]. case_decide; [done|].
    destruct (nodes f' !! (cur ++ [c])) as [[| |t]|]; try done.
    destruct l as [|l]; [done|]. by rewrite (H4 l t eq_refl).
Qed.

Lemma status_nodes f f' s : nodes f = nodes f' -> status f s = status f' s.
Proof.
  intros En. unfold status, resolve, resolve_c. case_decide; [done|].
  rewrite (walk_nodes f f') by done. destruct (walk _ _ _ _) as [p|]; [|done]. cbn.
  unfold node_at. destruct p; [done|]. by rewrite En.
Qed.

(** *** Creating a file *)
Lemma open_append_new f s p c :
  directory_at f s p -> plain c -> nodes f !! (p ++ [c]) = None ->
  open_append f (join_slash s c) =
    Some (next_ino f, mk_fs (<[p ++ [c] := NFile (next_ino f)]> (nodes f))
                            (<[next_ino f := []]> (inodes f)) (S (next_ino f))).
Proof.
  intros Hd Hc Hn. unfold open_append.
  rewrite (resolve_child f s p c Hd Hc) by (by rewrite Hn). by rewrite node_at_snoc, Hn.
Qed.

(** *** Enumeration *)
Lemma strip_prefix_spec (p k r : path) : strip_prefix p k = Some r <-> k = p ++ r.
Proof.
  revert k; induction p as [|x p IH]; intros k; cbn; [naive_solver|].
  destruct k as [|y k]; [naive_solver|]. case_decide; [|naive_solver]. rewrite IH. naive_solver.
Qed.

Lemma child_name_spec (p k : path) n : child_name p k = Some n <-> k = p ++ [n].
Proof.
  unfold child_name. destruct (strip_prefix p k) as [r|] eqn:E.
  - apply strip_prefix_spec in E as ->. split.
    + destruct r as [|x [|]]; naive_solver.
    + intros ->%(inj (app p)). done.
  - split; [done|]. intros ->. pose proof (proj2 (strip_prefix_spec p (p ++ [n]) [n]) eq_refl). congruence.
Qed.

Lemma elem_of_entries f p n : n ∈ entries f p <-> is_Some (nodes f !! (p ++ [n])).
Proof.
  unfold entries. rewrite list_elem_of_omap. split.
  - intros ([k nd] & Hk & E%child_name_spec). apply elem_of_map_to_list in Hk. cbn in E. subst. eauto.
  - intros [nd Hn]. exists (p ++ [n], nd). split; [by apply elem_of_map_to_list|].
    by apply child_name_spec.
Qed.

Lemma NoDup_omap_inj {A B} (g : A -> option B) (l : list A) :
  NoDup l -> (forall x y b, x ∈ l -> y ∈ l -> g x = Some b -> g y = Some b -> x = y) ->
  NoDup (omap g l).
Proof.
  induction 1 as [|x l Hx Hl IH]; intros Hg; cbn; [constructor|].
  assert (NoDup (omap g l)) as Hd by (apply IH; intros; eapply Hg; set_solver).
  destruct (g x) as [b|] eqn:E; [|done]. constructor; [|done].
  intros (y & Hy & Ey)%list_elem_of_omap. apply Hx.
  assert (x = y) as -> by (eapply Hg; set_solver). done.
Qed.

Lemma NoDup_entries f p : NoDup (entries f p).
Proof.
  apply NoDup_omap_inj; [apply NoDup_map_to_list|].
  intros [k1 n1] [k2 n2] n H1 H2 E1 E2. apply child_name_spec in E1, E2. cbn in *. subst.
  apply elem_of_map_to_list in H1, H2. congruence.
Qed.

(** Removing a subtree. *)
Lemma lookup_remove_tree f p q :
  nodes (remove_tree f p) !! q = if decide (p `prefix_of` q) then None else nodes f !! q.
Proof.
  unfold remove_tree. cbn. rewrite map_lookup_filter.
  destruct (nodes f !! q) as [n|] eqn:E; cbn; [|by case_decide].
  case_decide as H1; repeat case_guard; try done; naive_solver.
Qed.

Lemma entries_remove_tree f p n :
  n ∈ entries f p -> entries f p ≡ₚ n :: entries (remove_tree f (p ++ [n])) p.
Proof.
  intros Hn.
  assert (forall m, m ∈ entries (remove_tree f (p ++ [n])) p <-> m <> n /\ m ∈ entries f p) as Hm.
  { intros m. rewrite !elem_of_entries, lookup_remove_tree. case_decide as Hp.
    - split; [by intros []|]. intros [Hne _]. exfalso. apply Hne.
      apply prefix_app_inv in Hp. destruct Hp as [k Hk]. by inversion Hk.
    - split; [|naive_solver]. intros Hs. split; [|done]. intros ->. by apply Hp. }
  apply NoDup_Permutation; [apply NoDup_entries| |].
  - constructor; [|apply NoDup_entries]. rewrite Hm. naive_solver.
  - intros m. rewrite elem_of_cons, Hm. destruct (decide (m = n)); naive_solver.
Qed.

(** ** Trees

    Every entry has a proper name and lies in a directory. *)
Definition fs_tree (f : fs) : Prop :=
  forall p c n, nodes f !! (p ++ [c]) = Some n -> plain c /\ node_at f p = Some NDir.

Lemma fs_tree_nodes f f' : nodes f' = nodes f -> fs_tree f -> fs_tree f'.
Proof.
  intros E Ht p c n. rewrite E. intros Hn. destruct (Ht _ _ _ Hn) as [? Hp].
  split; [done|]. unfold node_at in *. by rewrite E.
Qed.

Lemma walk_loops_cons l f cur c rest :
  walk_loops l f cur (c :: rest) =
    if decide (c = ""%string \/ c = "."%string) then walk_loops l f cur rest
    else if decide (c = ".."%string) then walk_loops l f (parent cur) rest
    else match nodes f !! (cur ++ [c]) with
         | Some (NLink t) =>
             match l with
             | O => true
             | S l' => walk_loops l' f (if is_absolute t then [] else cur) (split_slash t ++ rest)
             end
         | Some NDir => walk_loops l f (cur ++ [c]) rest
         | _ => if decide (rest = []) then walk_loops l f (cur ++ [c]) rest else false
         end.
Proof.
  destruct l; cbn; destruct (decide (c = _ \/ _)); try done;
    destruct (decide (c = ".."%string)); try done;
    destruct (nodes f !! (cur ++ [c])) as [[]|], rest; reflexivity.
Qed.

(** A walk that does not meet the limit is the same with a higher limit. *)
Lemma walk_more_links f l cur todo :
  walk_loops l f cur todo = false -> forall l', (l <= l')%nat ->
  walk l' f cur todo = walk l f cur todo.
Proof.
  revert l cur todo. refine (walk_induction _ _ _).
  - intros l cur _ l' _. by rewrite !walk_nil.
  - intros l cur c rest H1 H2 H3 H4. rewrite walk_loops_cons. intros Hl l' Hle.
    rewrite !walk_cons. repeat case_decide; try (by (apply H1 || apply H2)).
    all: destruct (nodes f !! (cur ++ [c])) as [[| |t]|]; try case_decide; try done;
      try (by apply H3).
    all: destruct l as [|l]; [done|]; destruct l' as [|l']; [lia|]; apply (H4 l t); [done|done|lia].
Qed.

(** What is left of a walk after a first part of the components. *)
Lemma walk_app f l cur todo p tl :
  walk l f cur todo = Some p -> node_at f p = Some NDir -> exists l', (l' <= l)%nat /\
    walk l f cur (todo ++ tl) = walk l' f p tl /\
    walk_loops l f cur (todo ++ tl) = walk_loops l' f p tl.
Proof.
  revert l cur todo. refine (walk_induction _ _ _).
  - intros l cur. rewrite walk_nil. intros [= ->] _. exists l. done.
  - intros l cur c rest H1 H2 H3 H4. cbn [app]. rewrite !walk_cons, walk_loops_cons. intros Hw Hd.
    case_decide; [by apply H1|]. case_decide; [by apply H2|].
    destruct (nodes f !! (cur ++ [c])) as [[|i|t]|] eqn:En; [by apply H3| | |].
    2: { destruct l as [|l]; [done|]. destruct (H4 l t eq_refl Hw Hd) as (l' & ? & E1 & E2).
         exists l'. rewrite !app_assoc. split; [lia|done]. }
    all: case_decide; [|done]; subst rest; rewrite walk_nil in Hw; injection Hw as <-;
      by rewrite node_at_snoc, En in Hd.
Qed.

Lemma parent_snoc (p : path) c : parent (p ++ [c]) = p.
Proof.
  unfold parent. rewrite length_app. cbn.
  replace (length p + 1 - 1)%nat with (length p) by lia. apply take_app_length.
Qed.

Lemma parent_dir f p : fs_tree f -> is_Some (node_at f p) -> node_at f (parent p) = Some NDir.
Proof.
  intros Ht. destruct p as [|c p _] using rev_ind; [done|].
  rewrite parent_snoc, node_at_snoc. intros [n Hn]. by apply Ht in Hn as [_ ?].
Qed.

Lemma tree_plain_path f p : fs_tree f -> is_Some (node_at f p) -> Forall plain p.
Proof.
  intros Ht. induction p as [|c p IH] using rev_ind; [constructor|].
  rewrite node_at_snoc. intros [n Hn]. apply Ht in Hn as [Hc Hp].
  apply Forall_app. split; [apply IH; eauto|by constructor].
Qed.

(** When the whole leads to something that exists, so does its first part. *)
Lemma walk_prefix f l cur a b q :
  fs_tree f -> node_at f cur = Some NDir ->
  walk l f cur (a ++ b) = Some q -> is_Some (node_at f q) ->
  exists p, walk l f cur a = Some p /\ is_Some (node_at f p).
Proof.
  intros Ht Hc Hw Hq. revert Hc Hw. remember (a ++ b) as ab eqn:E. revert a b E.
  revert l cur ab. refine (walk_induction _ _ _).
  - intros l cur a b [-> ->]%symmetry%app_eq_nil Hc _. rewrite walk_nil. eauto.
  - intros l cur c rest H1 H2 H3 H4 [|x a] b E Hc; [rewrite walk_nil; eauto|].
    injection E as <- E. rewrite !walk_cons.
    case_decide; [by apply (H1 _ _ E)|].
    case_decide; [apply (H2 _ _ E); apply parent_dir; [done|by eexists]|].
    destruct (nodes f !! (cur ++ [c])) as [[|i|t]|] eqn:En.
    + apply (H3 _ _ E). by rewrite node_at_snoc.
    + case_decide as Hr; [|done]. destruct (app_eq_nil a b) as [-> ->]; [congruence|].
      rewrite decide_True, Hr, !walk_nil by done. eauto.
    + destruct l as [|l]; [done|]. apply (H4 l t eq_refl _ b); [by rewrite E, app_assoc|].
      by case_match.
    + case_decide as Hr; [|done]. destruct (app_eq_nil a b) as [-> ->]; [congruence|].
      rewrite decide_True, Hr, !walk_nil by done. eauto.
Qed.

(** A walk does not end at a symbolic link. *)
Lemma walk_target f l cur todo q t :
  fs_tree f -> node_at f cur = Some NDir -> walk l f cur todo = Some q ->
  node_at f q <> Some (NLink t).
Proof.
  intros Ht. revert l cur todo. refine (walk_induction _ _ _).
  - intros l cur Hc. rewrite walk_nil. intros [= <-]. by rewrite Hc.
  - intros l cur c rest H1 H2 H3 H4 Hc. rewrite walk_cons.
    case_decide; [by apply H1|].
    case_decide; [apply H2; apply parent_dir; [done|by eexists]|].
    destruct (nodes f !! (cur ++ [c])) as [[|i|u]|] eqn:En.
    + apply H3. by rewrite node_at_snoc.
    + case_decide as Hr; [|done]. subst rest. rewrite walk_nil. intros [= <-].
      by rewrite node_at_snoc, En.
    + destruct l as [|l]; [done|]. apply (H4 l u eq_refl). by case_match.
    + case_decide as Hr; [|done]. subst rest. rewrite walk_nil. intros [= <-].
      by rewrite node_at_snoc, En.
Qed.

(** A directory of the tree is reached by its own path. *)
Lemma walk_self_dir f l p tl :
  fs_tree f -> node_at f p = Some NDir -> walk l f [] (p ++ tl) = walk l f p tl.
Proof.
  intros Ht. revert tl. induction p as [|c p IH] using rev_ind; intros tl Hp; [done|].
  rewrite node_at_snoc in Hp. pose proof (Ht _ _ _ Hp) as [(Hc1 & Hc2 & Hc3 & _) Hd].
  rewrite <- app_assoc. cbn [app]. rewrite IH by done. rewrite walk_cons.
  rewrite decide_False by naive_solver. rewrite decide_False by done. by rewrite Hp.
Qed.

Lemma walk_self f l p n :
  fs_tree f -> node_at f p = Some n -> (forall t, n <> NLink t) -> walk l f [] p = Some p.
Proof.
  intros Ht. destruct p as [|c p _] using rev_ind; intros Hp Hn; [by rewrite walk_nil|].
  rewrite node_at_snoc in Hp. pose proof (Ht _ _ _ Hp) as [(Hc1 & Hc2 & Hc3 & _) Hd].
  rewrite walk_self_dir by done. rewrite walk_cons.
  rewrite decide_False by naive_solver. rewrite decide_False by done. rewrite Hp.
  destruct n; [apply walk_nil|rewrite decide_True by done; apply walk_nil|naive_solver].
Qed.
