(* ===== verification/FileIO.v ===== *)
(** * File handles

    [libs/log_writer/storage_management/file_io.h]: the interface [FileIO] and
    its implementation [StandardFileIO] over a C++ output stream.

    The interface is a typeclass of operations on a handle and the [world]; what
    a client may rely on is the class [FileIOSpec]. An output stream keeps
    written bytes in its buffer and hands them to the file at times the program
    does not control; a failed operation leaves a part of the pending bytes in
    the file and the stream in the bad state. The environment decides, per
    operation, whether it succeeds and how many bytes reach the file. *)
From S2P Require Import Prelude FileSystem.

(** ** The world outside the program *)
Record io_event := mk_event {
  ev_ok : bool;      (** the operation succeeds *)
  ev_drain : nat;    (** the number of pending bytes that reach the file *)
  ev_now : Z         (** the system clock, in nanoseconds *)
}.

Record world := mk_world {
  w_fs : fs;
  w_env : nat -> io_event;
  w_tick : nat       (** operations performed so far *)
}.

Definition event (w : world) : io_event := w_env w (w_tick w).
Definition tick (w : world) : world := mk_world (w_fs w) (w_env w) (S (w_tick w)).
Definition set_fs (f : fs) (w : world) : world := mk_world f (w_env w) (w_tick w).

(** [std::chrono::system_clock::now()] *)
Definition clock_now : prog world Z := fun w => (Ok (ev_now (event w)), tick w).

(** ** The interface *)
Class FileIO (H : Type) := {
  fio_make : prog world (option H);             (** the [FileIOFactory] *)
  fio_open : string -> prog (H * world) bool;
  fio_isOpen : H -> bool;
  fio_write : bytes -> prog (H * world) bool;
  fio_flush : prog (H * world) bool;
  fio_close : prog (H * world) unit;
  fio_destroy : prog (H * world) unit           (** the destructor *)
}.

(** ** StandardFileIO: one [std::ofstream] *)
Module StandardFileIO.
Record t := mk {
  file_ : option nat;   (** the inode, when the stream is open *)
  buf_ : bytes;         (** written and not yet in the file *)
  bad_ : bool           (** [badbit] or [failbit] *)
}.

(** [n] of the pending bytes go to the file. *)
Definition drain (i : nat) (pending : bytes) (n : nat) (w : world) : world :=
  set_fs (append_inode i (take n pending) (w_fs w)) w.

Definition make : prog world (option t) := fun w => (Ok (Some (mk None [] false)), w).

Definition isOpen (h : t) : bool := bool_decide (is_Some (file_ h)).

Definition open (s : string) : prog (t * world) bool := fun '(h, w) =>
  match file_ h with
  | Some _ => (Ok true, (mk (file_ h) (buf_ h) true, tick w))
  | None =>
      match (if ev_ok (event w) then open_append (w_fs w) s else None) with
      | Some (i, f) => (Ok true, (mk (Some i) [] false, tick (set_fs f w)))
      | None => (Ok false, (mk None [] true, tick w))
      end
  end.

Definition write (bs : bytes) : prog (t * world) bool := fun '(h, w) =>
  match file_ h with
  | Some i =>
      if bad_ h then (Ok false, (h, tick w))
      else
        let pending := buf_ h ++ bs in
        let n := ev_drain (event w) in
        if ev_ok (event w)
        then (Ok true, (mk (Some i) (drop n pending) false, tick (drain i pending n w)))
        else (Ok false, (mk (Some i) [] true, tick (drain i pending n w)))
  | None => (Ok false, (mk None [] true, tick w))
  end.

Definition flush : prog (t * world) bool := fun '(h, w) =>
  match file_ h with
  | Some i =>
      if bad_ h then (Ok false, (h, tick w))
      else if ev_ok (event w)
      then (Ok true, (mk (Some i) [] false, tick (drain i (buf_ h) (length (buf_ h)) w)))
      else (Ok false, (mk (Some i) [] true, tick (drain i (buf_ h) (ev_drain (event w)) w)))
  | None => (Ok (negb (bad_ h)), (h, tick w))
  end.

Definition close : prog (t * world) unit := fun '(h, w) =>
  match file_ h with
  | Some i =>
      let n := if ev_ok (event w) then length (buf_ h) else ev_drain (event w) in
      (Ok tt, (mk None [] (bad_ h || negb (ev_ok (event w))),
               tick (drain i (buf_ h) n w)))
  | None => (Ok tt, (mk None (buf_ h) true, tick w))
  end.

(** The destructor of an [ofstream] closes it when it is open. *)
Definition destroy : prog (t * world) unit := fun '(h, w) =>
  if isOpen h then close (h, w) else (Ok tt, (h, w)).
End StandardFileIO.

#[export] Instance StandardFileIO_FileIO : FileIO StandardFileIO.t := {
  fio_make := StandardFileIO.make;
  fio_open := StandardFileIO.open;
  fio_isOpen := StandardFileIO.isOpen;
  fio_write := StandardFileIO.write;
  fio_flush := StandardFileIO.flush;
  fio_close := StandardFileIO.close;
  fio_destroy := StandardFileIO.destroy
}.

(** ** What a client may rely on

    A handle has an inode while it is open, a buffer, and a bad state. The
    contents of its file, seen by the program, are the contents on disk followed
    by the buffer. *)
Class FileIOView (H : Type) := {
  fv_ino : H -> option nat;
  fv_buf : H -> bytes;
  fv_bad : H -> bool
}.

(** An environment in which no operation fails. *)
Definition reliable (w : world) : Prop := forall n, ev_ok (w_env w n) = true.

Lemma reliable_event w : reliable w -> ev_ok (event w) = true.
Proof. intros Hr. apply Hr. Qed.

(** The stream accepted [bs] ([ok]) or failed: the bytes [dr] went to the file. *)
Inductive accepted `{FileIOView H} (i : nat) (h : H) (w : world) (bs : bytes) :
    bool -> H -> world -> Prop :=
| accepted_ok h' w' dr :
    fv_ino h' = Some i -> fv_bad h = false -> fv_bad h' = false ->
    w_fs w' = append_inode i dr (w_fs w) ->
    dr ++ fv_buf h' = fv_buf h ++ bs ->
    accepted i h w bs true h' w'
| accepted_fail h' w' dr :
    fv_ino h' = Some i -> fv_bad h = false -> fv_bad h' = true ->
    w_fs w' = append_inode i dr (w_fs w) ->
    dr `prefix_of` fv_buf h ++ bs -> fv_buf h' = [] ->
    accepted i h w bs false h' w'
| accepted_bad w' :
    fv_ino h = Some i -> fv_bad h = true -> w_fs w' = w_fs w ->
    accepted i h w bs false h w'.

Class FileIOSpec (H : Type) `{FileIO H, FileIOView H} : Prop := {
  fio_isOpen_spec h : fio_isOpen h = bool_decide (is_Some (fv_ino h));
  fio_make_spec w :
    wp fio_make (fun r w' => w_fs w' = w_fs w /\ w_env w' = w_env w /\
      exists o, r = Ok o /\ (reliable w -> is_Some o) /\
        forall h, o = Some h -> fv_ino h = None /\ fv_buf h = [] /\ fv_bad h = false) w;
  fio_open_spec s h w :
    fv_ino h = None ->
    wp (fio_open s) (fun r s' => w_env s'.2 = w_env w /\
      ((r = Ok true /\ exists i, open_append (w_fs w) s = Some (i, w_fs s'.2) /\
          fv_ino s'.1 = Some i /\ fv_buf s'.1 = [] /\ fv_bad s'.1 = false) \/
       (r = Ok false /\ w_fs s'.2 = w_fs w /\ fv_ino s'.1 = None /\
          (reliable w -> open_append (w_fs w) s = None)))) (h, w);
  fio_write_spec bs h w i :
    fv_ino h = Some i ->
    wp (fio_write bs) (fun r s' => w_env s'.2 = w_env w /\
      exists ok, r = Ok ok /\ accepted i h w bs ok s'.1 s'.2 /\
        (reliable w -> fv_bad h = false -> ok = true)) (h, w);
  fio_flush_spec h w i :
    fv_ino h = Some i ->
    wp fio_flush (fun r s' => w_env s'.2 = w_env w /\
      exists ok, r = Ok ok /\ accepted i h w [] ok s'.1 s'.2 /\
        (ok = true -> fv_buf s'.1 = []) /\
        (reliable w -> fv_bad h = false -> ok = true)) (h, w);
  fio_close_spec h w i :
    fv_ino h = Some i ->
    wp fio_close (fun r s' => w_env s'.2 = w_env w /\
      r = Ok tt /\ fv_ino s'.1 = None /\
      exists dr, dr `prefix_of` fv_buf h /\ w_fs s'.2 = append_inode i dr (w_fs w)) (h, w);
  fio_destroy_spec h w :
    wp fio_destroy (fun r s' => w_env s'.2 = w_env w /\
      r = Ok tt /\
      match fv_ino h with
      | Some i => exists dr, dr `prefix_of` fv_buf h /\
                    w_fs s'.2 = append_inode i dr (w_fs w)
      | None => w_fs s'.2 = w_fs w
      end) (h, w)
}.

#[export] Instance StandardFileIO_FileIOView : FileIOView StandardFileIO.t := {
  fv_ino := StandardFileIO.file_;
  fv_buf := StandardFileIO.buf_;
  fv_bad := StandardFileIO.bad_
}.

(** The standard implementation satisfies the contract. *)
#[export] Instance StandardFileIO_spec : FileIOSpec StandardFileIO.t.
Proof.
  split.
  - done.
  - intros w. split; [done|]. split; [done|]. eexists; split; [done|]. split; [by eauto|].
    by intros h [= <-].
  - intros s [i buf bad] w; cbn. intros ->. unfold wp; cbn.
    destruct (if ev_ok (event w) then _ else _) as [[i f]|] eqn:E; cbn; (split; [done|]).
    + left. split; [done|]. exists i. destruct (ev_ok (event w)); naive_solver.
    + right. split_and!; try done. intros Hr. by rewrite (reliable_event _ Hr) in E.
  - intros bs [i' buf bad] w i; cbn. intros ->. unfold wp; cbn.
    destruct bad; cbn; [split; [done|]; eexists; split; [done|]; split; [by apply accepted_bad|done]|].
    destruct (ev_ok (event w)) eqn:E; cbn; (split; [done|]; eexists; split; [done|]).
    + split; [|done]. eapply accepted_ok; try done. cbn. apply take_drop.
    + split; [|intros Hr; by rewrite (reliable_event _ Hr) in E].
      eapply accepted_fail; try done. cbn. apply prefix_take.
  - intros [i' buf bad] w i; cbn. intros ->. unfold wp; cbn.
    destruct bad; cbn.
    { split; [done|]. eexists; split; [done|]. split; [by apply accepted_bad|done]. }
    destruct (ev_ok (event w)) eqn:E; cbn; (split; [done|]; eexists; split; [done|]).
    + split; [|done]. eapply accepted_ok; try done. cbn.
      by rewrite !app_nil_r, firstn_all.
    + split; [|split; [done|intros Hr; by rewrite (reliable_event _ Hr) in E]].
      eapply accepted_fail; try done. cbn.
      rewrite app_nil_r. apply prefix_take.
  - intros [i' buf bad] w i; cbn. intros ->. unfold wp; cbn.
    split; [done|]. split; [done|]. split; [done|]. eexists; split; [|done]. apply prefix_take.
  - intros [[i|] buf bad] w; unfold wp; cbn; [|done].
    split; [done|]. split; [done|]. eexists; split; [|done]. apply prefix_take.
Qed.
