(* ===== verification/StreamWriter.v ===== *)
(** * StreamWriter

    [libs/log_writer/storage_management/stream_writer.{h,cpp}]: the files of one
    channel of one day. The class is written over the [FileIO] interface, as in
    the source, and every operation is a [prog] on the writer and the world. *)
From S2P Require Import Prelude DataTypes Protos FileSystem FileIO.
Local Open Scope Z_scope.

Definition EINVAL : Z := 22.
Definition EIO : Z := 5.

(** Decimal text of a number, and [setw(2)] with [setfill('0')]. *)
Definition to_string (z : Z) : string := pretty z.
Definition pad2 (z : Z) : string :=
  if z <? 10 then ("0" +:+ to_string z)%string else to_string z.

Module StreamWriter.
Inductive WriteFaultPoint := kAfterDataWriteBeforeIndexWrite.

Definition FaultInjector : Type := WriteFaultPoint -> outcome unit.

Definition kFlushIntervalSeconds : Z := 1.

Record t (H : Type) := mk {
  folder_ : string;
  name_ : string;
  record_size_ : Z;                       (* uint32_t *)
  offset_ : Z;                            (* uint32_t *)
  index_ : option H;                      (* unique_ptr<FileIO> *)
  data_ : option H;                       (* unique_ptr<FileIO> *)
  last_flush_ : Z;                        (* nanoseconds *)
  fault_injector_ : option FaultInjector
}.
Arguments mk {H}.
Arguments folder_ {H}.
Arguments name_ {H}.
Arguments record_size_ {H}.
Arguments offset_ {H}.
Arguments index_ {H}.
Arguments data_ {H}.
Arguments last_flush_ {H}.
Arguments fault_injector_ {H}.

Section Ops.
Context {H : Type} {F : FileIO H} {L : LocalTime}.
Implicit Types (sw : t H).

Definition set_request (name : string) (record_size : Z) sw : t H :=
  mk (folder_ sw) name record_size (offset_ sw) (index_ sw) (data_ sw)
     (last_flush_ sw) (fault_injector_ sw).
Definition set_offset (o : Z) sw : t H :=
  mk (folder_ sw) (name_ sw) (record_size_ sw) o (index_ sw) (data_ sw)
     (last_flush_ sw) (fault_injector_ sw).
Definition set_index (h : option H) sw : t H :=
  mk (folder_ sw) (name_ sw) (record_size_ sw) (offset_ sw) h (data_ sw)
     (last_flush_ sw) (fault_injector_ sw).
Definition set_data (h : option H) sw : t H :=
  mk (folder_ sw) (name_ sw) (record_size_ sw) (offset_ sw) (index_ sw) h
     (last_flush_ sw) (fault_injector_ sw).
Definition set_last_flush (z : Z) sw : t H :=
  mk (folder_ sw) (name_ sw) (record_size_ sw) (offset_ sw) (index_ sw) (data_ sw)
     z (fault_injector_ sw).
Definition setFaultInjector (i : option FaultInjector) sw : t H :=
  mk (folder_ sw) (name_ sw) (record_size_ sw) (offset_ sw) (index_ sw) (data_ sw)
     (last_flush_ sw) i.

(** The constructor. [record_size_] is not initialised in C++; it is not read
    before [openFile] sets it. *)
Definition create (folder : string) : t H :=
  mk folder EmptyString 0 0 None None 0 None.

Definition M (A : Type) : Type := prog (t H * world) A.

Definition in_world {A} (m : prog world A) : M A :=
  zoom snd (fun w s => (s.1, w)) m.
Definition get_sw {A} (f : t H -> A) : M A := gets (fun s => f s.1).
Definition modify_sw (f : t H -> t H) : M unit := modify (fun s => (f s.1, s.2)).

(** A call through [index_] or [data_]. *)
Definition on_index {A} (m : prog (H * world) A) : M A := fun '(sw, w) =>
  match index_ sw with
  | Some h => match m (h, w) with (r, (h', w')) => (r, (set_index (Some h') sw, w')) end
  | None => (Throw NullDeref, (sw, w))
  end.
Definition on_data {A} (m : prog (H * world) A) : M A := fun '(sw, w) =>
  match data_ sw with
  | Some h => match m (h, w) with (r, (h', w')) => (r, (set_data (Some h') sw, w')) end
  | None => (Throw NullDeref, (sw, w))
  end.

(** [p && p->isOpen()] *)
Definition is_open (h : option H) : bool :=
  match h with Some h => fio_isOpen h | None => false end.

(** HHMMSS, the stream name and the record size. *)
Definition fileName (sw : t H) (time_ns : Z) : string :=
  let now := localtime (seconds_of_ns time_ns) in
  (pad2 (tm_hour now) +:+ pad2 (tm_min now) +:+ pad2 (tm_sec now) +:+
   "_" +:+ name_ sw +:+ "_" +:+ to_string (record_size_ sw))%string.

(** The first free name: the base name, then the base name with a suffix.
    The counter is a [uint32_t]. *)
Definition taken (f : fs) (folder file_name : string) : bool :=
  exists_ f (folder +:+ "/" +:+ file_name +:+ ".idx")%string ||
  exists_ f (folder +:+ "/" +:+ file_name +:+ ".data")%string.

Fixpoint free_name (fuel : nat) (f : fs) (folder base : string) (suffix : Z)
    (file_name : string) : option string :=
  match fuel with
  | O => None
  | S n =>
      if taken f folder file_name
      then free_name n f folder base (u32 (suffix + 1))
             (base +:+ "_" +:+ to_string suffix)%string
      else Some file_name
  end.

(** Each name that is taken accounts for an entry of the tree. *)
Definition name_fuel (f : fs) : nat := S (size (nodes f)).

Definition choose_name (time_ns : Z) : M string := fun '(sw, w) =>
  match free_name (name_fuel (w_fs w)) (w_fs w) (folder_ sw)
          (fileName sw time_ns) 1 (fileName sw time_ns) with
  | Some n => (Ok n, (sw, w))
  | None => (Throw OutOfFuel, (sw, w))
  end.

Definition name_bytes (s : string) : bytes := String.list_byte_of_string s.

Definition header_of (sw : t H) (time_ns type : Z) : LogFileHeader.t :=
  LogFileHeader.mk LogFileHeader.size time_ns (record_size_ sw)
    LogFileHeader.kDlFormatMajor LogFileHeader.kDlFormatMinor type
    (LogFileHeader.pad_name (name_bytes (name_ sw))).

(** [writeHeader(stream, ...)], for a stream reached by [on]. *)
Definition writeHeader (field : t H -> option H)
    (on : forall A, prog (H * world) A -> M A) (time_ns type : Z) : M Z :=
  h ← get_sw field;
  if is_open h then
    header ← get_sw (fun sw => header_of sw time_ns type);
    ok ← and_also (on _ (fio_write (LogFileHeader.encode header))) (on _ fio_flush);
    if (ok : bool) then mret LogFileHeader.size else mret (- EIO)
  else mret (- EINVAL).

(** [stream && stream->open(path, ...)] *)
Definition open_stream (field : t H -> option H)
    (on : forall A, prog (H * world) A -> M A) (path : string) : M bool :=
  h ← get_sw field;
  match h with
  | Some _ => on _ (fio_open path)
  | None => mret false
  end.

(** [stream = file_io_factory_()]: the object it held before is destroyed. *)
Definition assign (field : t H -> option H)
    (on : forall A, prog (H * world) A -> M A) (set : option H -> t H -> t H) : M unit :=
  h ← in_world fio_make;
  old ← get_sw field;
  match old with
  | Some _ => on _ fio_destroy
  | None => mret tt
  end;;
  modify_sw (set h).

Definition reopenFile (time_ns : Z) : M Z :=
  modify_sw (set_offset 0);;
  file_name ← choose_name time_ns;
  folder ← get_sw folder_;
  assign index_ (@on_index) set_index;;
  opened ← open_stream index_ (@on_index) (folder +:+ "/" +:+ file_name +:+ ".idx")%string;
  if negb opened then mret (- EINVAL) else
  result ← writeHeader index_ (@on_index) time_ns kIndexFile;
  if result <=? 0 then on_index fio_close;; mret result else
  record_size ← get_sw record_size_;
  if record_size =? 0 then
    assign data_ (@on_data) set_data;;
    opened ← open_stream data_ (@on_data) (folder +:+ "/" +:+ file_name +:+ ".data")%string;
    data_result ← (if (opened : bool) then writeHeader data_ (@on_data) time_ns kDataFile
                   else mret (- EINVAL));
    modify_sw (set_offset LogFileHeader.size);;
    if data_result <? 0 then on_index fio_close;; mret data_result else
    now ← in_world clock_now;
    modify_sw (set_last_flush now);;
    mret (i32 (result + data_result))
  else
    now ← in_world clock_now;
    modify_sw (set_last_flush now);;
    mret result.

Definition openFile (request : LogRequest.t) : M Z :=
  modify_sw (set_request (LogRequest.channel request) (LogRequest.size request));;
  reopenFile (LogRequest.time_ns request).

Definition close_stream (field : t H -> option H)
    (on : forall A, prog (H * world) A -> M A) : M unit :=
  h ← get_sw field;
  if is_open h then on _ fio_flush;; on _ fio_close else mret tt.

Definition closeFile : M unit :=
  close_stream index_ (@on_index);; close_stream data_ (@on_data).

(** The fixed-length branch of [write]. *)
Definition write_fixed (flush : bool) (time_ns : Z) (data : bytes) : M Z :=
  record_size ← get_sw record_size_;
  if zlen data =? record_size then
    ok ← and_also (on_index (fio_write (le_encode 8 time_ns)))
                  (on_index (fio_write (take (Z.to_nat record_size) data)));
    if negb ok then mret (- EIO) else
    ok ← (if flush then on_index fio_flush else mret true);
    if negb ok then mret (- EIO) else
    mret (i32 (record_size + 8))
  else mret (- EINVAL).

(** The part of the variable-length branch that stores the record. *)
Definition write_variable_record (flush : bool) (time_ns size : Z) (data : bytes) : M bool :=
  ok ← and_also (on_data (fio_write (le_encode 8 time_ns)))
       (and_also (on_data (fio_write (le_encode 4 size)))
                 (on_data (fio_write (take (Z.to_nat size) data))));
  if negb ok then mret false else
  ok ← (if flush then on_data fio_flush else mret true);
  if negb ok then mret false else
  injector ← get_sw fault_injector_;
  (match injector with
   | Some f => fun s => (f kAfterDataWriteBeforeIndexWrite, s)
   | None => mret tt
   end);;
  offset ← get_sw offset_;
  ok ← and_also (on_index (fio_write (le_encode 8 time_ns)))
                (on_index (fio_write (le_encode 4 offset)));
  if negb ok then mret false else
  ok ← (if flush then on_index fio_flush else mret true);
  if negb ok then mret false else
  modify_sw (fun sw => set_offset (u32 (offset_ sw + (8 + 4 + size))) sw);;
  mret true.

Definition write_variable (flush : bool) (time_ns : Z) (data : bytes) : M Z :=
  d ← get_sw data_;
  if negb (is_open d) then mret (- EINVAL) else
  let size := u32 (zlen data) in
  let total_length := 8 + 4 + (8 + 4 + size) in
  offset ← get_sw offset_;
  let overflow := UINT32_MAX <? u64 (total_length + offset) in
  result ← (if overflow then closeFile;; reopenFile time_ns else mret 0);
  if overflow && (result <=? 0) then mret result else
  ok ← write_variable_record flush time_ns size data;
  if negb ok then mret (- EIO) else
  mret (i32 (result + total_length)).

Definition write (time_ns : Z) (data : bytes) : M Z :=
  i ← get_sw index_;
  if negb (is_open i) then mret (- EINVAL) else
  now ← in_world clock_now;
  last ← get_sw last_flush_;
  let flush := kFlushIntervalSeconds * 10 ^ 9 <? now - last in
  record_size ← get_sw record_size_;
  if negb (record_size =? 0) then write_fixed flush time_ns data
  else write_variable flush time_ns data.
End Ops.
End StreamWriter.
