(* ===== verification/FileNames.v ===== *)
(** * The names of the files of a stream

    [StreamWriter::reopenFile] looks for a name that is not used yet. The search
    ends, and the files it finds are new. *)
From Stdlib Require Import Ascii.
From S2P Require Import Prelude DataTypes Protos FileSystem FileIO StreamWriter.
Import StreamWriter.

(** ** Strings *)
Fixpoint last_char (d : ascii) (s : string) : ascii :=
  match s with EmptyString => d | String c s' => last_char c s' end.

Lemma last_char_app d a c s : last_char d (a +:+ String c s) = last_char c s.
Proof.
  revert d; induction a as [|x a IH]; intros d; [done|].
  change (last_char x (a +:+ String c s) = last_char c s). apply IH.
Qed.

Lemma append_inj_l a b s : a +:+ s = b +:+ s -> a = b.
Proof.
  revert b; induction a as [|x a IH]; intros [|y b] E; [done| | |].
  - pose proof (f_equal String.length E) as El. rewrite !length_append in El. cbn in El. lia.
  - pose proof (f_equal String.length E) as El. rewrite !length_append in El. cbn in El. lia.
  - change (String x (a +:+ s) = String y (b +:+ s)) in E.
    injection E as -> E. f_equal. by apply IH.
Qed.

(** A name with an extension is the name of an entry. *)
Lemma plain_ext n e :
  no_slash n = true -> no_slash e = true -> (3 <= String.length e)%nat -> plain (n +:+ e).
Proof.
  intros Hn He Hl. apply plain_intro; [rewrite no_slash_app; by rewrite Hn, He| | |];
    intros E; apply (f_equal String.length) in E; rewrite length_append in E; cbn in E; lia.
Qed.

(** ** The search *)
Section Names.
Context (f : fs) (folder : string) (p : path) (base : string).
Context (Hdir : directory_at f folder p) (Hbase : no_slash base = true).

(** The [k]-th name that is tried. *)
Definition candidate (k : nat) : string :=
  match k with
  | O => base
  | _ => base +:+ "_" +:+ to_string (Z.of_nat k)
  end.

Lemma candidate_no_slash k : no_slash (candidate k) = true.
Proof.
  destruct k; [done|]. unfold candidate. rewrite !no_slash_app, Hbase.
  unfold to_string. by rewrite no_slash_pretty_Z.
Qed.

Lemma candidate_inj k k' : candidate k = candidate k' -> k = k'.
Proof.
  assert (forall n : nat, base <> base +:+ "_" +:+ to_string (Z.of_nat n)) as Hne.
  { intros n E. apply (f_equal String.length) in E. rewrite !length_append in E.
    change (String.length "_") with 1%nat in E. lia. }
  destruct k as [|k], k' as [|k']; cbn [candidate]; intros E; [done|by apply Hne in E| |].
  - symmetry in E. by apply Hne in E.
  - apply (inj (String.app base)) in E. apply (inj (String.app "_")) in E.
    apply (inj pretty) in E. lia.
Qed.

(** A taken name accounts for an entry of the folder. *)
Definition entry_of (n : string) : path :=
  if decide (is_Some (nodes f !! (p ++ [n +:+ ".idx"]))) then p ++ [n +:+ ".idx"]
  else p ++ [n +:+ ".data"].

Lemma entry_of_inj n n' : entry_of n = entry_of n' -> n = n'.
Proof.
  assert (forall x y : string, x +:+ ".idx" <> y +:+ ".data") as Hne.
  { intros x y E. apply (f_equal (last_char Ascii.zero)) in E. by rewrite !last_char_app in E. }
  unfold entry_of. repeat case_decide; intros [= E]%(inj (app p)).
  - by apply append_inj_l in E.
  - by apply Hne in E.
  - symmetry in E. by apply Hne in E.
  - by apply append_inj_l in E.
Qed.

Lemma taken_entry k :
  taken f folder (candidate k) = true -> is_Some (nodes f !! entry_of (candidate k)).
Proof.
  pose proof (candidate_no_slash k) as Hn. unfold taken, entry_of.
  intros [He|He]%orb_true_iff; case_decide as Hd; try done.
  - exfalso. apply Hd. eapply exists_child; [exact Hdir| |exact He]. apply plain_ext; [done|done|cbn; lia].
  - eapply exists_child; [exact Hdir| |exact He]. apply plain_ext; [done|done|cbn; lia].
Qed.

Lemma free_name_taken fuel k :
  (Z.of_nat (k + fuel) < 2 ^ 32)%Z ->
  free_name fuel f folder base (Z.of_nat (S k)) (candidate k) = None ->
  forall j, k <= j < k + fuel -> taken f folder (candidate j) = true.
Proof.
  revert k; induction fuel as [|fuel IH]; intros k Hb; cbn [free_name]; [lia|].
  destruct (taken f folder (candidate k)) eqn:E; [|done]. intros Hf j Hj.
  destruct (decide (j = k)) as [->|Hjk]; [done|]. apply (IH (S k)); [lia| |lia].
  rewrite <- Hf. f_equal. rewrite u32_small by lia. lia.
Qed.

Lemma free_name_free fuel k n :
  free_name fuel f folder base (Z.of_nat (S k)) (candidate k) = Some n ->
  (Z.of_nat (k + fuel) < 2 ^ 32)%Z ->
  exists j, n = candidate j /\ taken f folder n = false.
Proof.
  revert k; induction fuel as [|fuel IH]; intros k; cbn [free_name]; [done|].
  destruct (taken f folder (candidate k)) eqn:E; [|intros [= <-]; eauto].
  intros Hf Hb. destruct fuel as [|fuel]; [done|]. apply (IH (S k)); [|lia]. 
  rewrite <- Hf. f_equal. rewrite u32_small by lia. lia.
Qed.

(** The search finds a new name. *)
Lemma free_name_found :
  (Z.of_nat (size (nodes f)) + 1 < 2 ^ 32)%Z ->
  exists j, let n := candidate j in
    free_name (name_fuel f) f folder base 1 base = Some n /\
    no_slash n = true /\ taken f folder n = false.
Proof.
  intros Hb. unfold name_fuel.
  destruct (free_name (S (size (nodes f))) f folder base 1 base) as [n|] eqn:E.
  { destruct (free_name_free _ 0 n E ltac:(lia)) as (j & -> & ?).
    exists j. split; [done|]. by split; [apply candidate_no_slash|]. }
  pose proof (free_name_taken (S (size (nodes f))) 0 ltac:(lia) E) as Ht. exfalso.
  set (keys := (fun k => entry_of (candidate k)) <$> seq 0 (S (size (nodes f)))).
  assert (NoDup keys) as Hnd.
  { apply NoDup_fmap_2_strong; [|apply NoDup_seq].
    intros x y _ _ Ek%entry_of_inj. by apply candidate_inj. }
  assert (keys ⊆ (map_to_list (nodes f)).*1) as Hsub.
  { intros q (k & -> & Hk)%list_elem_of_fmap. apply elem_of_seq in Hk.
    destruct (taken_entry k) as [n Hn]; [apply Ht; lia|].
    apply list_elem_of_fmap. exists (entry_of (candidate k), n). split; [done|].
    by apply elem_of_map_to_list. }
  pose proof (submseteq_length _ _ (NoDup_submseteq _ _ Hnd Hsub)) as Hl.
  unfold keys in Hl. rewrite !length_fmap, length_seq, length_map_to_list in Hl. lia.
Qed.
End Names.
