(* ===== verification/StreamWriterSpec.v ===== *)
(** * Correctness of StreamWriter

    The writer is verified against the [FileIO] contract [FileIOSpec]: the files
    it produces are those of the file format, whatever the environment does. *)
From S2P Require Import Prelude DataTypes Format Protos FileSystem FileIO StreamWriter FileNames.
Local Open Scope Z_scope.

(** Two leading parts of the same list. *)
Lemma compat_prefixes {A} (l k m : list A) : l `prefix_of` m -> k `prefix_of` m -> compat l k.
Proof. intros H1 H2. by destruct (prefix_weak_total _ _ _ H1 H2); [left|right]. Qed.

Lemma compat_prefix_l {A} (l k m : list A) : l `prefix_of` k -> compat k m -> compat l m.
Proof.
  intros H1 [H2|H2]; [left; by etrans|]. by eapply compat_prefixes.
Qed.

(** ** Handles *)
Section Handles.
Context {H : Type} {FI : FileIO H} {FV : FileIOView H} {FS : FileIOSpec H}.

(** The contents of an open file as the program sees them. *)
Definition logical (w : world) (i : nat) (h : H) : bytes := contents (w_fs w) i ++ fv_buf h.

(** From [w] to [w'] the files [ids] have grown and nothing else has changed. *)
Record only_appends (ids : list nat) (w w' : world) : Prop := {
  oa_nodes : nodes (w_fs w') = nodes (w_fs w);
  oa_next : next_ino (w_fs w') = next_ino (w_fs w);
  oa_env : w_env w' = w_env w;
  oa_grow : forall j, contents (w_fs w) j `prefix_of` contents (w_fs w') j;
  oa_frame : forall j, j ∉ ids -> contents (w_fs w') j = contents (w_fs w) j
}.

(** [bs] was appended to the handle [h] of file [i], or appending failed. *)
Record appended (i : nat) (h : H) (w : world) (bs : bytes) (ok : bool) (h' : H) (w' : world) :
    Prop := {
  ap_ino : fv_ino h' = Some i;
  ap_frame : only_appends [i] w w';
  ap_ok : ok = true -> fv_bad h' = fv_bad h /\ logical w' i h' = logical w i h ++ bs;
  ap_fail : ok = false -> fv_bad h' = true /\ logical w' i h' `prefix_of` logical w i h ++ bs;
  ap_bad : fv_bad h = true -> logical w' i h' `prefix_of` logical w i h /\
             (ok = true -> bs = []);
  ap_reliable : reliable w -> fv_bad h = false -> ok = true
}.

Lemma only_appends_refl ids w : only_appends ids w w.
Proof. by split. Qed.

Lemma only_appends_trans ids js w1 w2 w3 :
  only_appends ids w1 w2 -> only_appends js w2 w3 -> only_appends (ids ++ js) w1 w3.
Proof.
  intros [A1 B1 E1 G1 C1] [A2 B2 E2 G2 C2]. split; [congruence|congruence|congruence| |].
  - intros j. etrans; [apply G1|apply G2].
  - intros j Hj. rewrite C2, C1; [done|set_solver|set_solver].
Qed.

Lemma only_appends_weaken ids js w1 w2 :
  ids ⊆ js -> only_appends ids w1 w2 -> only_appends js w1 w2.
Proof. intros Hs []. split; try done. intros j Hj. set_solver. Qed.

Lemma only_appends_reliable ids w w' : only_appends ids w w' -> reliable w -> reliable w'.
Proof. intros [] Hr n. rewrite oa_env0. apply Hr. Qed.

Lemma only_appends_fs i dr w w' :
  w_fs w' = append_inode i dr (w_fs w) -> w_env w' = w_env w -> only_appends [i] w w'.
Proof.
  intros E Ee. split; rewrite ?E; try done.
  - intros j. rewrite contents_append. case_decide; subst; [by apply prefix_app_r|done].
  - intros j Hj. apply contents_append_ne. set_solver.
Qed.

(** The logical contents of another file are not affected. *)
Lemma logical_frame i j h w w' : only_appends [i] w w' -> j <> i -> logical w' j h = logical w j h.
Proof. intros [] Hj. unfold logical. rewrite oa_frame0; [done|set_solver]. Qed.

Lemma appended_id i h w : fv_ino h = Some i -> appended i h w [] true h w.
Proof. intros. split; try done. intros _. by rewrite app_nil_r. Qed.

Lemma appended_trans i h w b1 h1 w1 b2 ok h2 w2 :
  appended i h w b1 true h1 w1 -> appended i h1 w1 b2 ok h2 w2 ->
  appended i h w (b1 ++ b2) ok h2 w2.
Proof.
  intros [I1 F1 O1 _ B1 _] [I2 F2 O2 X2 B2 R2]. destruct (O1 eq_refl) as [E1 L1].
  split; [done| | | | |].
  - apply (only_appends_weaken ([i] ++ [i])); [set_solver|]. by eapply only_appends_trans.
  - intros Hok. destruct (O2 Hok) as [E2 L2]. rewrite E2, L2, L1, app_assoc. done.
  - intros Hok. destruct (X2 Hok) as [E2 L2]. rewrite L1, <- app_assoc in L2. done.
  - intros Hb. destruct (B1 Hb) as [P1 N1]. rewrite Hb in E1. destruct (B2 E1) as [P2 N2].
    split; [by etrans|]. intros Hok. by rewrite N1, N2.
  - intros Hr Hb. apply R2; [by eapply only_appends_reliable|congruence].
Qed.

Lemma appended_fail_app i h w b1 h1 w1 b2 :
  appended i h w b1 false h1 w1 -> appended i h w (b1 ++ b2) false h1 w1.
Proof.
  intros [I1 F1 O1 X1 B1 R1]. split; try done.
  - intros _. destruct (X1 eq_refl) as [? P]. split; [done|]. etrans; [exact P|].
    rewrite app_assoc. by apply prefix_app_r.
  - intros Hb. destruct (B1 Hb). done.
Qed.

(** Where nothing fails, only a failed stream refuses. *)
Lemma appended_false_bad i h w bs h' w' :
  appended i h w bs false h' w' -> reliable w -> fv_bad h = true.
Proof.
  intros Ha Hr. destruct (fv_bad h) eqn:E; [done|]. by apply (ap_reliable _ _ _ _ _ _ _ Ha) in E.
Qed.

Lemma accepted_appended i h w bs ok h' w' :
  accepted i h w bs ok h' w' -> w_env w' = w_env w ->
  (reliable w -> fv_bad h = false -> ok = true) ->
  appended i h w bs ok h' w'.
Proof.
  intros [h1 w1 dr I1 G1 G2 E1 E2|h1 w1 dr I1 G1 G2 E1 E2 E3|w1 I1 G1 E1] Ee Hr; split; try done.
  - by eapply only_appends_fs.
  - intros _. split; [congruence|]. unfold logical. rewrite E1, contents_append_eq.
    rewrite <- !app_assoc. by rewrite E2.
  - congruence.
  - by eapply only_appends_fs.
  - intros _. split; [done|]. unfold logical. rewrite E1, contents_append_eq, E3, app_nil_r.
    rewrite <- app_assoc. by apply prefix_app.
  - congruence.
  - split; rewrite ?E1; done.
  - intros _. split; [done|]. unfold logical. rewrite E1. by apply prefix_app_r.
  - intros _. unfold logical. by rewrite E1.
Qed.
End Handles.

(** One symbolic step, through the accessors of the writer. *)
Ltac sw_step :=
  lazymatch goal with
  | |- wp (StreamWriter.get_sw _) _ _ => apply wp_gets
  | |- wp (StreamWriter.modify_sw _) _ _ => apply wp_modify
  | |- _ => wp_step
  end.

(** ** The two files of a writer *)
Section Sides.
Context {H : Type} {FI : FileIO H} {FV : FileIOView H} {FS : FileIOSpec H} {L : LocalTime}.
Import StreamWriter.
Implicit Types (sw : t H).

Inductive side := Index | Data.

Definition field (sd : side) : t H -> option H :=
  match sd with Index => index_ | Data => data_ end.
Definition set_field (sd : side) : option H -> t H -> t H :=
  match sd with Index => set_index | Data => set_data end.
Definition on (sd : side) : forall A, prog (H * world) A -> M A :=
  match sd with Index => @on_index H | Data => @on_data H end.

Lemma wp_on {A} sd (m : prog (H * world) A) sw w h Q :
  field sd sw = Some h ->
  wp m (fun r s' => Q r (set_field sd (Some s'.1) sw, s'.2)) (h, w) ->
  wp (on sd A m) Q (sw, w).
Proof.
  unfold wp. destruct sd; cbn; intros ->; destruct (m (h, w)) as [r [h' w']]; done.
Qed.

Lemma wp_in_world {A} (m : prog world A) sw w Q :
  wp m (fun r w' => Q r (sw, w')) w -> wp (in_world (H := H) m) Q (sw, w).
Proof. unfold wp, in_world, zoom; cbn. by destruct (m w). Qed.

Lemma set_field_field sd sw h : field sd sw = Some h -> set_field sd (Some h) sw = sw.
Proof. destruct sd, sw; cbn; by intros ->. Qed.

Lemma field_set_field sd sw h : field sd (set_field sd h sw) = h.
Proof. by destruct sd. Qed.

Lemma set_field_twice sd sw h h' : set_field sd h (set_field sd h' sw) = set_field sd h sw.
Proof. by destruct sd. Qed.

(** [m] appends [bs] to one of the files, and does nothing else. *)
Definition appends (sd : side) (bs : bytes) (m : M bool) : Prop :=
  forall sw w h i, field sd sw = Some h -> fv_ino h = Some i ->
    wp m (fun r s' => exists ok h', r = Ok ok /\ appended i h w bs ok h' s'.2 /\
                        s'.1 = set_field sd (Some h') sw) (sw, w).

Lemma appends_write sd bs : appends sd bs (on sd _ (fio_write bs)).
Proof.
  intros sw w h i Hf Hi. eapply wp_on; [done|].
  eapply wp_mono; [by apply fio_write_spec|]. intros r [h' w'] (Ee & ok & -> & Ha & Hr).
  eapply accepted_appended in Ha; eauto.
Qed.

Lemma appends_flush sd : appends sd [] (on sd _ fio_flush).
Proof.
  intros sw w h i Hf Hi. eapply wp_on; [done|].
  eapply wp_mono; [by apply fio_flush_spec|]. intros r [h' w'] (Ee & ok & -> & Ha & _ & Hr).
  eapply accepted_appended in Ha; eauto.
Qed.

Lemma appends_skip sd : appends sd [] (mret true).
Proof.
  intros sw w h i Hf Hi. wp_step. exists true, h. split; [done|]. split; [by apply appended_id|].
  by rewrite set_field_field.
Qed.

Lemma appends_flush_if sd (b : bool) :
  appends sd [] (if b then on sd _ fio_flush else mret true).
Proof. destruct b; [apply appends_flush|apply appends_skip]. Qed.

Lemma appends_and sd b1 b2 (m1 m2 : M bool) :
  appends sd b1 m1 -> appends sd b2 m2 -> appends sd (b1 ++ b2) (and_also m1 m2).
Proof.
  intros H1 H2 sw w h i Hf Hi. apply wp_and_also.
  eapply wp_mono; [by apply H1|]. intros r [sw' w'] ([] & h' & -> & Ha & Hs); cbn in Ha, Hs; subst sw'.
  - eapply wp_mono; [apply H2; [apply field_set_field|apply Ha]|].
    intros r [sw2 w2] (ok & h2 & -> & Ha2 & ->). exists ok, h2. split; [done|].
    split; [by eapply appended_trans|]. apply set_field_twice.
  - exists false, h'. split; [done|]. split; [by apply appended_fail_app|done].
Qed.

(** A statement that appends, followed by the rest when it succeeded. *)
Lemma wp_appends {B} sd bs (m : M bool) (k : bool -> M B) Q sw w h i :
  appends sd bs m -> field sd sw = Some h -> fv_ino h = Some i ->
  (forall ok h' w', appended i h w bs ok h' w' ->
     wp (k ok) Q (set_field sd (Some h') sw, w')) ->
  wp (m ≫= k) Q (sw, w).
Proof.
  intros Hm Hf Hi HQ. wp_step. eapply wp_mono; [by apply Hm|].
  intros r [sw' w'] (ok & h' & -> & Ha & Hs). cbn in Ha, Hs. subst. wp_step. by apply HQ.
Qed.

(** Two guarded statements with the same failure result. *)
Lemma wp_fuse {B} (m1 m2 : @M H bool) (x k : @M H B) Q s :
  wp (ok ← and_also m1 m2; if negb ok then x else k) Q s ->
  wp (ok ← m1; if negb ok then x else ok ← m2; if negb ok then x else k) Q s.
Proof.
  unfold wp, and_also, mbind, prog_bind. destruct (m1 s) as [[[]|] s1]; cbn; auto.
Qed.
End Sides.

(** ** Variable-size streams

    The state of a writer whose files hold the records [rs]. [i] and [d] are the
    inodes of the index and the data file, [h] and [hd] their headers. *)
Section VariableStreams.
Context {H : Type} {FI : FileIO H} {FV : FileIOView H} {FS : FileIOSpec H} {L : LocalTime}.
Import StreamWriter.
Context (i d : nat) (h hd : LogFileHeader.t).
Context (Hne : i <> d).

(** The contents of the files as the program sees them. *)
Record var_view (sw : t H) (w : world) (hi hdt : H) (ci cd : bytes) : Prop := {
  vv_index : index_ sw = Some hi;
  vv_data : data_ sw = Some hdt;
  vv_ino : fv_ino hi = Some i;
  vv_dino : fv_ino hdt = Some d;
  vv_size : record_size_ sw = 0;
  vv_ci : logical w i hi = ci;
  vv_cd : logical w d hdt = cd
}.

(** Everything was accepted. *)
Definition var_good (rs : list record) (s : t H * world) : Prop :=
  exists hi hdt, var_view s.1 s.2 hi hdt (var_index_file h rs) (data_file hd rs) /\
    fv_bad hi = false /\ fv_bad hdt = false /\ offset_ s.1 = end_offset rs.

(** What a crash at this point leaves behind: the index is a leading part of
    the index of [rs], and the data is a leading part of the data of [rs] and of
    the records [lost], which are not indexed. *)
Definition var_crash (rs lost : list record) (s : t H * world) : Prop :=
  exists hi hdt ci cd, var_view s.1 s.2 hi hdt ci cd /\
    ci `prefix_of` var_index_file h rs /\ cd `prefix_of` data_file hd (rs ++ lost).

(** A stream has failed; the writer refuses every further record. *)
Definition var_stuck (rs lost : list record) (s : t H * world) : Prop :=
  exists hi hdt ci cd, var_view s.1 s.2 hi hdt ci cd /\
    ci `prefix_of` var_index_file h rs /\ cd `prefix_of` data_file hd (rs ++ lost) /\
    (fv_bad hdt = true \/ (fv_bad hi = true /\ cd = data_file hd (rs ++ lost))).

Lemma var_stuck_crash rs lost s : var_stuck rs lost s -> var_crash rs lost s.
Proof. intros (hi & hdt & ci & cd & ? & ? & ? & _). by exists hi, hdt, ci, cd. Qed.

Lemma var_good_crash rs s : var_good rs s -> var_crash rs [] s.
Proof.
  intros (hi & hdt & V & _). eexists hi, hdt, _, _. split; [exact V|]. by rewrite app_nil_r.
Qed.

(** Appending to one of the files. *)
Lemma var_view_data sw w hi hdt ci cd bs ok h' w' :
  var_view sw w hi hdt ci cd -> appended d hdt w bs ok h' w' ->
  var_view (set_field Data (Some h') sw) w' hi h' ci (logical w' d h').
Proof.
  intros [] Ha. split; try done; [apply Ha|].
  rewrite (logical_frame d i _ w) by (apply Ha || done). done.
Qed.

Lemma var_view_index sw w hi hdt ci cd bs ok h' w' :
  var_view sw w hi hdt ci cd -> appended i hi w bs ok h' w' ->
  var_view (set_field Index (Some h') sw) w' h' hdt (logical w' i h') cd.
Proof.
  intros [] Ha. split; try done; [apply Ha|].
  rewrite (logical_frame i d _ w) by (apply Ha || done). done.
Qed.

(** What a write does not change in the writer. *)
Definition same_config (sw sw' : t H) : Prop :=
  folder_ sw' = folder_ sw /\ name_ sw' = name_ sw /\ record_size_ sw' = record_size_ sw /\
  last_flush_ sw' = last_flush_ sw /\ fault_injector_ sw' = fault_injector_ sw.

Lemma same_config_set sd x sw sw' : same_config sw sw' -> same_config sw (set_field sd x sw').
Proof. by destruct sd. Qed.

(** The outcomes of storing one record: [de] goes to the data file, then [ie]
    to the index file. *)
Inductive stored (rel : Prop) (sw : t H) (hi hdt : H) (ci cd de ie : bytes) (size : Z)
    (sw' : t H) (hi' hdt' : H) (ci' cd' : bytes) : outcome bool -> Prop :=
| stored_ok :
    (forall f, fault_injector_ sw = Some f -> f kAfterDataWriteBeforeIndexWrite = Ok tt) ->
    fv_bad hi = false -> fv_bad hdt = false -> fv_bad hi' = false -> fv_bad hdt' = false ->
    cd' = cd ++ de -> ci' = ci ++ ie -> offset_ sw' = u32 (offset_ sw + (12 + size)) ->
    stored rel sw hi hdt ci cd de ie size sw' hi' hdt' ci' cd' (Ok true)
| stored_data_failed :
    fv_bad hdt' = true -> (rel -> fv_bad hdt = true) ->
    ci' = ci -> hi' = hi -> offset_ sw' = offset_ sw ->
    cd' `prefix_of` cd ++ de -> (fv_bad hdt = true -> cd' `prefix_of` cd) ->
    stored rel sw hi hdt ci cd de ie size sw' hi' hdt' ci' cd' (Ok false)
| stored_index_failed :
    fv_bad hdt = false -> fv_bad hdt' = false -> fv_bad hi' = true -> (rel -> fv_bad hi = true) ->
    cd' = cd ++ de -> ci' `prefix_of` ci ++ ie -> (fv_bad hi = true -> ci' `prefix_of` ci) ->
    offset_ sw' = offset_ sw ->
    stored rel sw hi hdt ci cd de ie size sw' hi' hdt' ci' cd' (Ok false)
| stored_fault f e :
    fault_injector_ sw = Some f -> f kAfterDataWriteBeforeIndexWrite = Throw e ->
    fv_bad hdt = false -> fv_bad hdt' = false ->
    ci' = ci -> hi' = hi -> cd' = cd ++ de -> offset_ sw' = offset_ sw ->
    stored rel sw hi hdt ci cd de ie size sw' hi' hdt' ci' cd' (Throw e).

Lemma bad_appended j (x : H) w bs ok x' w' :
  appended j x w bs ok x' w' -> ok = true -> bs <> [] -> fv_bad x = false.
Proof.
  intros Ha -> Hb. destruct (fv_bad x) eqn:E; [|done].
  destruct (ap_bad _ _ _ _ _ _ _ Ha E) as [_ N]. by rewrite N in Hb.
Qed.

(** The second half: the data is stored, the index entry follows. *)
Lemma wp_stored_index (flush : bool) time_ns size data sw hi hdt ci cd w0 h1 w1 Q :
  let r := mk_record time_ns data in
  (forall f, fault_injector_ sw = Some f -> f kAfterDataWriteBeforeIndexWrite = Ok tt) ->
  only_appends [d] w0 w1 -> fv_bad hdt = false -> fv_bad h1 = false ->
  var_view (set_data (Some h1) sw) w1 hi h1 ci (cd ++ data_entry r) ->
  (forall sw' w' o hi' ci', only_appends [d; i] w0 w' -> same_config sw sw' ->
     var_view sw' w' hi' h1 ci' (cd ++ data_entry r) ->
     stored (reliable w0) sw hi hdt ci cd (data_entry r) (var_entry (offset_ sw) r) size
       sw' hi' h1 ci' (cd ++ data_entry r) o -> Q o (sw', w')) ->
  wp (ok ← and_also (on_index (fio_write (le_encode 8 time_ns)))
                    (on_index (fio_write (le_encode 4 (offset_ sw))));
      if negb ok then mret false else
      ok ← (if flush then on_index fio_flush else mret true);
      if negb ok then mret false else
      modify_sw (fun sw => set_offset (u32 (offset_ sw + (8 + 4 + size))) sw);;
      mret true) Q (set_data (Some h1) sw, w1).
Proof.
  intros r Hnf HF G0 G1 V HQ. apply wp_fuse. eapply (wp_appends Index).
  { exact (appends_and Index _ _ _ _
      (appends_and Index _ _ _ _ (appends_write Index _) (appends_write Index _))
      (appends_flush_if Index flush)). }
  { apply V. } { apply V. }
  rewrite app_nil_r. intros ok h2 w2 A2. cbn beta. fold (var_entry (offset_ sw) r) in A2.
  assert (only_appends [d; i] w0 w2) as HF2
    by (exact (only_appends_trans [d] [i] _ _ _ HF (ap_frame _ _ _ _ _ _ _ A2))).
  pose proof (var_view_index _ _ _ _ _ _ _ _ _ _ V A2) as V2.
  destruct ok; cbn [negb].
  - destruct (ap_ok _ _ _ _ _ _ _ A2 eq_refl) as [B2 P2]. rewrite (vv_ci _ _ _ _ _ _ V) in P2.
    pose proof (bad_appended _ _ _ _ _ _ _ A2 eq_refl ltac:(done)) as G2. rewrite G2 in B2.
    rewrite P2 in V2. sw_step. sw_step. sw_step. sw_step. eapply HQ; try done.
    + destruct V2. by split.
    + by apply stored_ok.
  - destruct (ap_fail _ _ _ _ _ _ _ A2 eq_refl) as [B2 P2]. rewrite (vv_ci _ _ _ _ _ _ V) in P2.
    sw_step. eapply HQ; try done. apply stored_index_failed; try done.
    { intros Hr. apply (appended_false_bad _ _ _ _ _ _ A2). by eapply only_appends_reliable. }
    intros Hb. rewrite <- (vv_ci _ _ _ _ _ _ V). by apply (ap_bad _ _ _ _ _ _ _ A2).
Qed.

Lemma wp_write_variable_record flush time_ns data sw w hi hdt ci cd :
  var_view sw w hi hdt ci cd ->
  let size := zlen data in
  let r := mk_record time_ns data in
  wp (write_variable_record flush time_ns size data) (fun o s' =>
    only_appends [d; i] w s'.2 /\ same_config sw s'.1 /\
    exists hi' hdt' ci' cd', var_view s'.1 s'.2 hi' hdt' ci' cd' /\
      stored (reliable w) sw hi hdt ci cd (data_entry r) (var_entry (offset_ sw) r) size
        s'.1 hi' hdt' ci' cd' o) (sw, w).
Proof.
  intros V size r.
  assert (appends Data (data_entry r)
    (and_also (on_data (fio_write (le_encode 8 time_ns)))
       (and_also (on_data (fio_write (le_encode 4 size)))
                 (on_data (fio_write (take (Z.to_nat size) data)))))) as HD.
  { assert (take (Z.to_nat size) data = data) as ->
      by (unfold size, zlen; by rewrite Nat2Z.id, firstn_all).
    apply (appends_and Data); [apply (appends_write Data)|].
    apply (appends_and Data); apply (appends_write Data). }
  assert (forall w1 w2, only_appends [d] w1 w2 -> only_appends [d; i] w1 w2) as Hw1
    by (intros ??; apply only_appends_weaken; set_solver).
  unfold write_variable_record.
  apply wp_fuse. eapply (wp_appends Data);
    [exact (appends_and Data _ _ _ _ HD (appends_flush_if Data flush))|apply V|apply V|].
  rewrite app_nil_r. intros ok h1 w1 A1. cbn beta.
  pose proof (var_view_data _ _ _ _ _ _ _ _ _ _ V A1) as V1.
  destruct ok; cbn [negb]; cycle 1.
  { destruct (ap_fail _ _ _ _ _ _ _ A1 eq_refl) as [B1 P1]. rewrite (vv_cd _ _ _ _ _ _ V) in P1.
    sw_step. split; [apply Hw1, A1|]. split; [done|].
    eexists _, _, _, _. split; [exact V1|]. apply stored_data_failed; try done.
    { intros Hr. by apply (appended_false_bad _ _ _ _ _ _ A1). }
    intros Hb. rewrite <- (vv_cd _ _ _ _ _ _ V). by apply (ap_bad _ _ _ _ _ _ _ A1). }
  destruct (ap_ok _ _ _ _ _ _ _ A1 eq_refl) as [B1 P1]. rewrite (vv_cd _ _ _ _ _ _ V) in P1.
  pose proof (bad_appended _ _ _ _ _ _ _ A1 eq_refl ltac:(done)) as G1. rewrite G1 in B1.
  rewrite P1 in V1. sw_step. sw_step. sw_step. sw_step.
  cbn [fst fault_injector_ set_field set_data].
  destruct (fault_injector_ sw) as [f|] eqn:Ef;
    [unfold wp at 1; cbn [fst snd]; destruct (f _) as [[]|e] eqn:Efe|sw_step]; cycle 1.
  { (* the injected fault: the data is there, the index is not *)
    cbn [wp_rest]. split; [apply Hw1, A1|]. split; [done|].
    eexists _, _, _, _. split; [exact V1|]. by eapply stored_fault. }
  all: cbn [wp_rest].
  all: sw_step; sw_step; sw_step; cbn [fst offset_ set_field set_data].
  all: eapply wp_stored_index; [rewrite Ef; by intros ? [= <-]|apply A1|exact G1|exact B1|exact V1|].
  all: intros sw' w' o hi' ci' F2 C2 V2 S2; split; [exact F2|]; split; [exact C2|];
    eexists _, _, _, _; split; [exact V2|exact S2].
Qed.

(** The data file has room for the record below 4 GiB. *)
Definition fits (offset : Z) (data : bytes) : Prop := offset + 24 + zlen data <= UINT32_MAX.

Definition write_result (data : bytes) (o : outcome bool) : outcome Z :=
  match o with
  | Ok true => Ok (i32 (24 + zlen data))
  | Ok false => Ok (- EIO)
  | Throw e => Throw e
  end.

Lemma is_open_ino (x : H) j : fv_ino x = Some j -> is_open (Some x) = true.
Proof. intros E. cbn. rewrite fio_isOpen_spec, E. by apply bool_decide_eq_true. Qed.

Lemma only_appends_tick ids w w' : only_appends ids (tick w) w' -> only_appends ids w w'.
Proof. by intros []. Qed.

Lemma var_view_tick sw w hi hdt ci cd :
  var_view sw w hi hdt ci cd -> var_view sw (tick w) hi hdt ci cd.
Proof. intros []. by split. Qed.

(** A write that needs no new files. *)
Lemma wp_write_var time_ns data sw w hi hdt ci cd :
  var_view sw w hi hdt ci cd -> 0 <= offset_ sw -> fits (offset_ sw) data ->
  let r := mk_record time_ns data in
  wp (write time_ns data) (fun o s' =>
    only_appends [d; i] w s'.2 /\ same_config sw s'.1 /\
    exists ok hi' hdt' ci' cd', o = write_result data ok /\ var_view s'.1 s'.2 hi' hdt' ci' cd' /\
      stored (reliable w) sw hi hdt ci cd (data_entry r) (var_entry (offset_ sw) r) (zlen data)
        s'.1 hi' hdt' ci' cd' ok) (sw, w).
Proof.
  intros V Ho Hfit r. unfold fits, UINT32_MAX in Hfit. pose proof (zlen_nonneg data).
  unfold write. sw_step. sw_step. cbn [fst]. sw_step.
  rewrite (vv_index _ _ _ _ _ _ V), (is_open_ino hi i) by apply V. cbn [negb].
  sw_step. apply wp_in_world. unfold wp at 1. cbn [fst snd clock_now]. sw_step. sw_step.
  sw_step. sw_step. sw_step. sw_step. sw_step. cbn [fst]. rewrite (vv_size _ _ _ _ _ _ V).
  cbn [Z.eqb negb]. unfold write_variable. sw_step. sw_step. sw_step. cbn [fst].
  rewrite (vv_data _ _ _ _ _ _ V), (is_open_ino hdt d) by apply V. cbn [negb].
  sw_step. sw_step. sw_step. cbn [fst]. rewrite (u32_small (zlen data)) by lia.
  rewrite u64_small by lia. unfold UINT32_MAX. rewrite (proj2 (Z.ltb_ge _ _)) by lia.
  sw_step. sw_step. sw_step. cbn [andb]. sw_step.
  eapply wp_mono; [apply wp_write_variable_record; by apply var_view_tick|].
  intros o [sw' w'] (F1 & C1 & hi' & hdt' & ci' & cd' & V' & S'). cbn [fst snd] in *.
  destruct o as [[]|e]; cbn [wp_rest negb]; repeat sw_step;
    (split; [by apply only_appends_tick|]; split; [exact C1|]; eexists _, _, _, _, _;
     split; [|split; [exact V'|exact S']]); cbn [write_result]; [|done|done].
  do 2 f_equal. lia.
Qed.

Lemma var_index_snoc rs r :
  var_index_file h (rs ++ [r]) = var_index_file h rs ++ var_entry (end_offset rs) r.
Proof. unfold var_index_file. by rewrite var_entries_snoc, app_assoc. Qed.

Lemma data_file_snoc rs r : data_file hd (rs ++ [r]) = data_file hd rs ++ data_entry r.
Proof. unfold data_file. by rewrite data_entries_snoc, app_assoc. Qed.

(** A write to files in good order: the record is added, or a stream has
    failed, or the installed fault occurred. *)
Lemma var_write_good rs time_ns data sw w :
  var_good rs (sw, w) -> fits (end_offset rs) data ->
  let r := mk_record time_ns data in
  wp (write time_ns data) (fun o s' =>
    only_appends [d; i] w s'.2 /\ same_config sw s'.1 /\
    match o with
    | Ok n => (n = i32 (24 + zlen data) /\ var_good (rs ++ [r]) s') \/
              (n = - EIO /\ ~ reliable w /\ offset_ s'.1 = offset_ sw /\
               (var_stuck rs [r] s' \/ var_stuck (rs ++ [r]) [] s'))
    | Throw e => (exists f, fault_injector_ sw = Some f /\
                    f kAfterDataWriteBeforeIndexWrite = Throw e) /\ var_crash rs [r] s'
    end) (sw, w).
Proof.
  intros (hi & hdt & V & Gi & Gd & Ho) Hfit r. cbn [fst snd] in *.
  pose proof (end_offset_ge rs). unfold LogFileHeader.size in *. rewrite <- Ho in Hfit.
  eapply wp_mono; [apply (wp_write_var _ _ _ _ _ _ _ _ V); [lia|done]|].
  intros o [sw' w'] (F1 & C1 & ok & hi' & hdt' & ci' & cd' & -> & V' & S').
  split; [done|]. split; [done|]. rewrite Ho in S'.
  destruct S' as [_ ? ? ? ? -> -> Eo|? Hrel -> -> Eo P1 _|? ? ? Hrel -> P1 _ Eo|f e Ef Ee ? ? -> -> -> ?];
    cbn [write_result].
  - left. split; [done|]. exists hi', hdt'. rewrite var_index_snoc, data_file_snoc.
    split_and!; try done. cbn [fst] in Eo |- *. rewrite Eo, end_offset_snoc.
    unfold fits, UINT32_MAX in Hfit. pose proof (zlen_nonneg data).
    unfold data_entry_size. cbn [r_data r]. rewrite u32_small; lia.
  - right. split; [done|]. split; [naive_solver congruence|]. split; [cbn [fst] in *; congruence|].
    left. eexists _, _, _, _. split; [exact V'|]. split; [done|].
    split; [by rewrite data_file_snoc|by left].
  - right. split; [done|]. split; [naive_solver congruence|]. split; [cbn [fst] in *; congruence|].
    right. eexists _, _, _, _. split; [exact V'|].
    rewrite app_nil_r, var_index_snoc, data_file_snoc. split; [done|]. split; [done|]. by right.
  - split; [eauto|]. eexists _, _, _, _. split; [exact V'|]. split; [done|].
    by rewrite data_file_snoc.
Qed.

(** A write to failed files adds nothing to the index. *)
Lemma var_write_stuck rs lost time_ns data sw w :
  var_stuck rs lost (sw, w) -> 0 <= offset_ sw -> fits (offset_ sw) data ->
  let r := mk_record time_ns data in
  wp (write time_ns data) (fun o s' =>
    only_appends [d; i] w s'.2 /\ same_config sw s'.1 /\ offset_ s'.1 = offset_ sw /\
    match o with
    | Ok n => n = - EIO /\ var_stuck rs (lost ++ [r]) s'
    | Throw e => (exists f, fault_injector_ sw = Some f /\
                    f kAfterDataWriteBeforeIndexWrite = Throw e) /\ var_crash rs (lost ++ [r]) s'
    end) (sw, w).
Proof.
  intros (hi & hdt & ci & cd & V & Pi & Pd & Hb) Ho Hfit r. cbn [fst snd] in *.
  eapply wp_mono; [apply (wp_write_var _ _ _ _ _ _ _ _ V); [lia|done]|].
  intros o [sw' w'] (F1 & C1 & ok & hi' & hdt' & ci' & cd' & -> & V' & S').
  split; [done|]. split; [done|]. cbn [fst].
  assert (fv_bad hdt = false -> fv_bad hi = true /\ cd = data_file hd (rs ++ lost)) as Hi
    by (intros E; rewrite E in Hb; destruct Hb as [|]; done).
  assert (data_file hd (rs ++ lost ++ [r]) = data_file hd (rs ++ lost) ++ data_entry r) as Ex
    by (by rewrite app_assoc, data_file_snoc).
  destruct S' as [_ Gi Gd ? ? -> -> Eo|Gd' _ -> -> ? P1 P2|Gd ? ? _ -> P1 P2 ?|f e Ef Ee Gd ? -> -> -> ?];
    cbn [write_result].
  - destruct (Hi Gd). congruence.
  - split; [done|]. split; [done|]. eexists _, _, _, _. split; [exact V'|]. split; [done|].
    split; [|by left]. rewrite Ex. destruct (fv_bad hdt) eqn:E.
    + apply prefix_app_r. etrans; [by apply P2|done].
    + destruct (Hi eq_refl) as [_ ->]. done.
  - destruct (Hi Gd) as [Gi ->]. split; [done|]. split; [done|].
    eexists _, _, _, _. split; [exact V'|]. split; [etrans; [by apply P2|done]|].
    rewrite Ex. split; [done|]. by right.
  - destruct (Hi Gd) as [Gi ->]. split; [done|]. split; [eauto|].
    eexists _, _, _, _. split; [exact V'|]. split; [done|]. by rewrite Ex.
Qed.
End VariableStreams.

(** ** Opening the files *)
Section Opening.
Context {H : Type} {FI : FileIO H} {FV : FileIOView H} {FS : FileIOSpec H} {L : LocalTime}.
Import StreamWriter.
Implicit Types (sw : t H).

(** A pointer that is null or to a closed file. *)
Definition closed_handle (o : option H) : Prop := forall x, o = Some x -> fv_ino x = None.
Definition fresh_handle (x : H) (j : nat) : Prop :=
  fv_ino x = Some j /\ fv_buf x = [] /\ fv_bad x = false.

Lemma closed_not_open o : closed_handle o -> is_open o = false.
Proof.
  destruct o as [x|]; [|done]. intros Hc. cbn. rewrite fio_isOpen_spec, (Hc x eq_refl).
  by apply bool_decide_eq_false, is_Some_None.
Qed.

(** The same files and environment. *)
Definition same_world (w w' : world) : Prop := w_fs w' = w_fs w /\ w_env w' = w_env w.

Lemma wp_assign sd sw w (Q : outcome unit -> t H * world -> Prop) :
  closed_handle (field sd sw) ->
  (forall o w', same_world w w' -> (reliable w -> is_Some o) ->
     (forall x, o = Some x -> fv_ino x = None) -> Q (Ok tt) (set_field sd o sw, w')) ->
  wp (assign (field sd) (on sd) (set_field sd)) Q (sw, w).
Proof.
  intros Hc HQ. unfold assign. sw_step. apply wp_in_world.
  eapply wp_mono; [apply fio_make_spec|]. intros r w1 (Ef & Ee & o & -> & Hs & Ho).
  cbn [wp_rest]. sw_step. sw_step. sw_step. cbn [fst].
  assert (forall x, o = Some x -> fv_ino x = None) as Ho' by (intros x Ex; by apply Ho).
  sw_step. destruct (field sd sw) as [x|] eqn:Ex.
  - eapply wp_on; [done|]. eapply wp_mono; [apply fio_destroy_spec|].
    intros r [x' w2] (Ee2 & -> & Hd). rewrite (Hc x eq_refl) in Hd. cbn [snd fst] in *.
    cbn [wp_rest]. sw_step. cbn [fst snd]. rewrite set_field_twice.
    apply HQ; [split; congruence|done|done].
  - sw_step. cbn [wp_rest]. sw_step. by apply HQ.
Qed.

(** The file system with a new empty file. *)
Definition with_file (q : path) (f : fs) : fs :=
  mk_fs (<[q := NFile (next_ino f)]> (nodes f)) (<[next_ino f := []]> (inodes f)) (S (next_ino f)).

Lemma wp_open_new sd sw w folder p c (Q : outcome bool -> t H * world -> Prop) :
  closed_handle (field sd sw) ->
  directory_at (w_fs w) folder p -> plain c -> nodes (w_fs w) !! (p ++ [c]) = None ->
  (forall x w', fresh_handle x (next_ino (w_fs w)) -> w_fs w' = with_file (p ++ [c]) (w_fs w) ->
     w_env w' = w_env w -> Q (Ok true) (set_field sd (Some x) sw, w')) ->
  (forall o w', closed_handle o -> same_world w w' -> (is_Some (field sd sw) -> ~ reliable w) ->
     Q (Ok false) (set_field sd o sw, w')) ->
  wp (open_stream (field sd) (on sd) (join_slash folder c)) Q (sw, w).
Proof.
  intros Hc Hd Hp Hn HQ HF. pose proof (open_append_new _ _ _ _ Hd Hp Hn) as Eo.
  unfold open_stream. sw_step. sw_step. sw_step. cbn [fst].
  destruct (field sd sw) as [x|] eqn:Ex.
  - eapply wp_on; [done|]. eapply wp_mono; [apply fio_open_spec; by apply Hc|].
    intros r [x' w'] (Ee & [(-> & i & Ei & F1 & F2 & F3)|(-> & Ef & Hi & Hr)]); cbn [fst snd] in *.
    + rewrite Eo in Ei. injection Ei as <- Ew. by apply HQ.
    + apply HF; [by intros ? [= <-]|done|]. intros _ Hrel. rewrite (Hr Hrel) in Eo. done.
  - sw_step. replace sw with (set_field sd None sw) by (destruct sd, sw; cbn in *; by subst).
    apply HF; [done|done|]. intros [? ?]; done.
Qed.

Lemma wp_writeHeader sd sw w x j time_ns type (Q : outcome Z -> t H * world -> Prop) :
  field sd sw = Some x -> fv_ino x = Some j ->
  (forall x' w', appended j x w (LogFileHeader.encode (header_of sw time_ns type)) true x' w' ->
     fv_buf x' = [] -> Q (Ok LogFileHeader.size) (set_field sd (Some x') sw, w')) ->
  (forall x' w', appended j x w (LogFileHeader.encode (header_of sw time_ns type)) false x' w' ->
     Q (Ok (- EIO)) (set_field sd (Some x') sw, w')) ->
  wp (writeHeader (field sd) (on sd) time_ns type) Q (sw, w).
Proof.
  intros Hf Hj HQ HF. unfold writeHeader. sw_step. sw_step. sw_step. cbn [fst].
  rewrite Hf, (is_open_ino x j) by done. sw_step. sw_step. sw_step. cbn [fst]. sw_step. sw_step.
  eapply wp_mono; [by apply (appends_write sd)|].
  intros r [sw1 w1] ([] & x1 & -> & A1 & E1); cbn [fst snd] in *; subst sw1.
  - eapply wp_on; [apply field_set_field|].
    eapply wp_mono; [apply fio_flush_spec; apply A1|].
    intros r [x2 w2] (Ee & ok & -> & Ha & Hb & Hr). cbn [fst snd] in *.
    apply accepted_appended in Ha; [|done|done]. rewrite set_field_twice.
    pose proof (appended_trans _ _ _ _ _ _ _ _ _ _ A1 Ha) as A2. rewrite app_nil_r in A2.
    destruct ok; sw_step; sw_step; auto.
  - sw_step. sw_step. auto.
Qed.

(** Files may have been created, the existing ones are as they were. *)
Record grows (w w' : world) : Prop := {
  gr_nodes : nodes (w_fs w) ⊆ nodes (w_fs w');
  gr_next : (next_ino (w_fs w) <= next_ino (w_fs w'))%nat;
  gr_env : w_env w' = w_env w;
  gr_files : forall q n, nodes (w_fs w') !! q = Some n ->
    nodes (w_fs w) !! q = Some n \/ exists r c j, q = r ++ [c] /\ no_dot c = false /\ n = NFile j;
  gr_size : (size (nodes (w_fs w')) + next_ino (w_fs w) <= size (nodes (w_fs w)) + next_ino (w_fs w'))%nat;
  gr_old : forall j, (j < next_ino (w_fs w))%nat -> contents (w_fs w') j = contents (w_fs w) j;
  gr_tree : fs_tree (w_fs w) -> fs_tree (w_fs w')
}.

Lemma grows_trans w1 w2 w3 : grows w1 w2 -> grows w2 w3 -> grows w1 w3.
Proof.
  intros [A1 B1 C1 F1 S1 D1 T1] [A2 B2 C2 F2 S2 D2 T2]. split; [by etrans|lia|congruence| |lia| |auto].
  - intros q n [Hq|Hq]%F2; [by apply F1|by right].
  - intros j Hj. rewrite D2, D1; [done|lia|lia].
Qed.

Lemma grows_same w w' : same_world w w' -> grows w w'.
Proof. intros [A B]. split; rewrite ?A; auto. Qed.

(** A new entry of a directory leaves a tree. *)
Lemma fs_tree_with_file f p c :
  plain c -> node_at f p = Some NDir -> nodes f !! (p ++ [c]) = None ->
  fs_tree f -> fs_tree (with_file (p ++ [c]) f).
Proof.
  intros Hc Hp Hq Ht q c' n. cbn. intros Hn.
  assert (Hkeep : forall r, node_at f r = Some NDir -> node_at (with_file (p ++ [c]) f) r = Some NDir).
  { intros r Hr. unfold node_at in *. destruct r as [|a r]; [done|]. cbn [with_file nodes].
    rewrite lookup_insert_ne; [done|]. intros E. rewrite <- E in Hr. congruence. }
  apply lookup_insert_Some in Hn as [[E _]|[_ Hn]].
  - apply app_inj_tail in E as [<- <-]. auto.
  - destruct (Ht _ _ _ Hn). auto.
Qed.

Lemma grows_with_file p c w w' :
  plain c -> no_dot c = false -> node_at (w_fs w) p = Some NDir ->
  nodes (w_fs w) !! (p ++ [c]) = None -> w_fs w' = with_file (p ++ [c]) (w_fs w) ->
  w_env w' = w_env w -> grows w w'.
Proof.
  intros Hc Hx Hp Hq E Ee.
  split; rewrite ?E; cbn; [by apply insert_subseteq|lia|done| | | |by apply fs_tree_with_file].
  - intros q' n [[<- <-]|[_ Hn]]%lookup_insert_Some; [right; by eexists _, _, _|by left].
  - rewrite map_size_insert_None by done. lia.
  - intros j Hj. unfold contents. cbn. rewrite lookup_insert_ne by lia. done.
Qed.

Lemma grows_appends w0 w w' ids :
  grows w0 w -> only_appends ids w w' -> Forall (fun j => next_ino (w_fs w0) <= j)%nat ids ->
  grows w0 w'.
Proof.
  intros [A B C F S D T] [A' B' C' D' E'] Hids.
  split; [by rewrite A'|lia|congruence|by rewrite A'|rewrite A'; lia| |].
  - intros j Hj. rewrite E'; [by apply D|]. intros Hin.
    rewrite Forall_forall in Hids. specialize (Hids j Hin). lia.
  - intros Ht. by apply (fs_tree_nodes (w_fs w)), T.
Qed.

Lemma grows_append j w w' w0 :
  only_appends [j] w w' -> (next_ino (w_fs w0) <= j)%nat -> grows w0 w -> grows w0 w'.
Proof. intros F Hj G. eapply grows_appends; [exact G|exact F|by repeat constructor]. Qed.

Lemma grows_tick w w' : grows w w' -> grows w (tick w').
Proof. by intros []. Qed.

(** A new file: its contents are empty, and the name leads to it. *)
Lemma contents_with_file q f : contents (with_file q f) (next_ino f) = [].
Proof. unfold contents; cbn. by rewrite lookup_insert_eq. Qed.

(** The first part of [reopenFile]: a free name. *)
Lemma fileName_no_slash sw time_ns :
  no_slash (name_ sw) = true -> no_slash (fileName sw time_ns) = true.
Proof.
  intros Hn. unfold fileName, pad2, to_string.
  repeat case_match; rewrite !no_slash_app, !no_slash_pretty_Z, Hn; done.
Qed.

(** What a folder must be for new files to be created in it. *)
Record folder_ready (f : fs) (folder : string) (p : path) : Prop := {
  fr_dir : directory_at f folder p;
  fr_links : forall n t, nodes f !! (p ++ [n]) <> Some (NLink t);
  fr_size : Z.of_nat (size (nodes f)) + 1 < 2 ^ 32
}.

Lemma not_taken f folder p n :
  folder_ready f folder p -> no_slash n = true -> taken f folder n = false ->
  nodes f !! (p ++ [n +:+ ".idx"]) = None /\ nodes f !! (p ++ [n +:+ ".data"]) = None.
Proof.
  intros [Hd Hl _] Hn [H1 H2]%orb_false_iff.
  assert (forall e, no_slash e = true -> (3 <= String.length e)%nat ->
    exists_ f (join_slash folder (n +:+ e)) = false -> nodes f !! (p ++ [n +:+ e]) = None) as Hx.
  { intros e He Hle Hex. unfold exists_ in Hex. apply bool_decide_eq_false in Hex.
    rewrite (status_child f folder p) in Hex; [by apply eq_None_not_Some|done|by apply plain_ext|done]. }
  split; apply Hx; try done; cbn; lia.
Qed.

Lemma wp_choose_name time_ns sw w p (Q : outcome string -> t H * world -> Prop) :
  folder_ready (w_fs w) (folder_ sw) p -> no_slash (name_ sw) = true ->
  (forall n, (exists j, n = candidate (fileName sw time_ns) j) -> no_slash n = true ->
     nodes (w_fs w) !! (p ++ [n +:+ ".idx"]) = None ->
     nodes (w_fs w) !! (p ++ [n +:+ ".data"]) = None -> Q (Ok n) (sw, w)) ->
  wp (choose_name time_ns) Q (sw, w).
Proof.
  intros Hf Hn HQ. unfold wp, choose_name.
  destruct (free_name_found _ _ p (fileName sw time_ns) (fr_dir _ _ _ Hf)
    (fileName_no_slash sw time_ns Hn) (fr_size _ _ _ Hf)) as (j & -> & Hs & Ht).
  cbn [fst snd]. destruct (not_taken _ _ _ _ Hf Hs Ht). by apply HQ; [eauto|..].
Qed.

(** A writer of fixed-size records with the records [rs] in file [i]. *)
Definition fixed_good (i : nat) (h : LogFileHeader.t) (rs : list record) (s : t H * world) : Prop :=
  exists hi, index_ s.1 = Some hi /\ fv_ino hi = Some i /\ fv_bad hi = false /\
    record_size_ s.1 = LogFileHeader.record_size_ h /\
    logical s.2 i hi = fixed_index_file h rs /\ closed_handle (data_ s.1).

(** The new files of a stream opened in folder [p]. *)
Definition fixed_opened (p : path) (base : string) (h : LogFileHeader.t) (w : world)
    (s : t H * world) (n : string) (i : nat) : Prop :=
  (exists j, n = candidate base j) /\ no_slash n = true /\ (next_ino (w_fs w) <= i)%nat /\
  (i < next_ino (w_fs s.2) <= 2 + next_ino (w_fs w))%nat /\
  nodes (w_fs s.2) !! (p ++ [n +:+ ".idx"]) = Some (NFile i) /\
  contents (w_fs s.2) i = LogFileHeader.encode h /\ fixed_good i h [] s.

Definition var_opened (p : path) (base : string) (h hd : LogFileHeader.t) (w : world)
    (s : t H * world) (n : string) (i d : nat) : Prop :=
  (exists j, n = candidate base j) /\ no_slash n = true /\ (next_ino (w_fs w) <= i)%nat /\ (next_ino (w_fs w) <= d)%nat /\ i <> d /\
  (i < next_ino (w_fs s.2) <= 2 + next_ino (w_fs w))%nat /\ (d < next_ino (w_fs s.2))%nat /\
  nodes (w_fs s.2) !! (p ++ [n +:+ ".idx"]) = Some (NFile i) /\
  nodes (w_fs s.2) !! (p ++ [n +:+ ".data"]) = Some (NFile d) /\
  contents (w_fs s.2) i = LogFileHeader.encode h /\
  contents (w_fs s.2) d = LogFileHeader.encode hd /\ var_good i d h hd [] s.

Definition same_request (sw sw' : t H) : Prop :=
  folder_ sw' = folder_ sw /\ name_ sw' = name_ sw /\ record_size_ sw' = record_size_ sw /\
  fault_injector_ sw' = fault_injector_ sw.

Definition reopened (p : path) (time_ns : Z) (sw : t H) (w : world) (r : Z) (s : t H * world) : Prop :=
  if record_size_ sw =? 0
  then r = 2 * LogFileHeader.size /\ exists n i d,
    var_opened p (fileName sw time_ns) (header_of sw time_ns kIndexFile) (header_of sw time_ns kDataFile) w s n i d
  else r = LogFileHeader.size /\ exists n i,
    fixed_opened p (fileName sw time_ns) (header_of sw time_ns kIndexFile) w s n i.

(** A failure: the index file is closed, so every write is refused. *)
Definition not_reopened (w : world) (r : Z) (s : t H * world) : Prop :=
  (r = - EINVAL \/ r = - EIO) /\ ~ reliable w /\ is_open (index_ s.1) = false.

Lemma wp_close_index sw w x j (Q : outcome unit -> t H * world -> Prop) :
  index_ sw = Some x -> fv_ino x = Some j ->
  (forall x' w', fv_ino x' = None -> only_appends [j] w w' ->
     Q (Ok tt) (set_index (Some x') sw, w')) ->
  wp (on_index fio_close) Q (sw, w).
Proof.
  intros Hx Hj HQ. eapply (wp_on Index); [done|].
  eapply wp_mono; [by apply fio_close_spec|]. intros r [x' w'] (Ee & -> & Hi & dr & _ & Ef).
  apply HQ; [done|]. by eapply only_appends_fs.
Qed.

Lemma reliable_env (w w' : world) : w_env w' = w_env w -> reliable w -> reliable w'.
Proof. intros E Hr n. rewrite E. apply Hr. Qed.

(** A file that was created in folder [p] and holds a header. *)
Record new_file (p : path) (c : string) (h : LogFileHeader.t) (w : world) (x : H) (w' : world) : Prop := {
  nf_grows : grows w w';
  nf_nodes : nodes (w_fs w') = <[p ++ [c] := NFile (next_ino (w_fs w))]> (nodes (w_fs w));
  nf_next : next_ino (w_fs w') = S (next_ino (w_fs w));
  nf_ino : fv_ino x = Some (next_ino (w_fs w));
  nf_good : fv_bad x = false;
  nf_buf : fv_buf x = [];
  nf_bytes : contents (w_fs w') (next_ino (w_fs w)) = LogFileHeader.encode h;
  nf_frame j : j <> next_ino (w_fs w) -> contents (w_fs w') j = contents (w_fs w) j
}.

Lemma wp_new_header sd sw w w1 x p c time_ns type (Q : outcome Z -> t H * world -> Prop) :
  plain c -> no_dot c = false -> node_at (w_fs w) p = Some NDir -> nodes (w_fs w) !! (p ++ [c]) = None ->
  field sd sw = Some x -> fresh_handle x (next_ino (w_fs w)) ->
  w_fs w1 = with_file (p ++ [c]) (w_fs w) -> w_env w1 = w_env w ->
  (forall x' w', new_file p c (header_of sw time_ns type) w x' w' ->
     Q (Ok LogFileHeader.size) (set_field sd (Some x') sw, w')) ->
  (forall x' w', fv_ino x' = Some (next_ino (w_fs w)) -> grows w w' -> ~ reliable w ->
     Q (Ok (- EIO)) (set_field sd (Some x') sw, w')) ->
  wp (writeHeader (field sd) (on sd) time_ns type) Q (sw, w1).
Proof.
  intros Hc Hdot Hp Hn Hx (X1 & X2 & X3) Ew Ee HQ HF.
  assert (G1 : grows w w1) by by apply (grows_with_file p c).
  eapply (wp_writeHeader sd); [done|exact X1| |]; intros x' w' A.
  - intros B. destruct (ap_ok _ _ _ _ _ _ _ A eq_refl) as [Gx Hl].
    pose proof (ap_frame _ _ _ _ _ _ _ A) as F.
    unfold logical in Hl. rewrite B, X2, !app_nil_r, Ew, contents_with_file in Hl. cbn [app] in Hl.
    apply HQ. split; try done; try congruence.
    + by eapply grows_append.
    + by rewrite (oa_nodes _ _ _ F), Ew.
    + by rewrite (oa_next _ _ _ F), Ew.
    + apply A.
    + intros j Hj. rewrite (oa_frame _ _ _ F), Ew; [|set_solver].
      unfold contents; cbn. by rewrite lookup_insert_ne.
  - apply HF; [apply A|by eapply grows_append; [apply A| |]|]. intros Hr.
    apply appended_false_bad in A; [congruence|]. eapply reliable_env; [|exact Hr]. congruence.
Qed.

(** The end of an attempt that failed. *)
Lemma wp_give_up w0 code sw w x i (Q : outcome Z -> t H * world -> Prop) :
  index_ sw = Some x -> fv_ino x = Some i -> grows w0 w -> (next_ino (w_fs w0) <= i)%nat ->
  code = - EINVAL \/ code = - EIO -> ~ reliable w0 ->
  (forall s, same_request sw s.1 -> grows w0 s.2 -> not_reopened w0 code s -> Q (Ok code) s) ->
  wp (on_index fio_close;; mret code) Q (sw, w).
Proof.
  intros Hx Hi G Hlt Hcode Hrel HQ. sw_step.
  eapply wp_close_index; [done|done|]. intros x' w' Hx' F. sw_step. sw_step.
  apply HQ; [done|by eapply grows_append|]. split; [done|]. split; [done|].
  apply closed_not_open. by intros ? [= <-].
Qed.

(** The data file of a new stream, after the index file [x] of inode [i]. *)
Lemma wp_reopen_data time_ns sw w0 w p n x i (Q : outcome Z -> t H * world -> Prop) :
  index_ sw = Some x -> fv_ino x = Some i -> fv_bad x = false -> fv_buf x = [] ->
  contents (w_fs w) i = LogFileHeader.encode (header_of sw time_ns kIndexFile) ->
  record_size_ sw = 0 -> closed_handle (data_ sw) ->
  (exists j, n = candidate (fileName sw time_ns) j) -> no_slash n = true ->
  directory_at (w_fs w) (folder_ sw) p ->
  nodes (w_fs w) !! (p ++ [n +:+ ".idx"]) = Some (NFile i) ->
  nodes (w_fs w) !! (p ++ [n +:+ ".data"]) = None ->
  grows w0 w -> (next_ino (w_fs w0) <= i < next_ino (w_fs w))%nat ->
  (next_ino (w_fs w) <= S (next_ino (w_fs w0)))%nat ->
  (forall r s, same_request sw s.1 -> grows w0 s.2 ->
     reopened p time_ns sw w0 r s \/ not_reopened w0 r s -> Q (Ok r) s) ->
  wp (assign data_ (@on_data H) set_data;;
      opened ← open_stream data_ (@on_data H) (folder_ sw +:+ "/" +:+ n +:+ ".data")%string;
      data_result ← (if (opened : bool) then writeHeader data_ (@on_data H) time_ns kDataFile
                     else mret (- EINVAL));
      modify_sw (set_offset LogFileHeader.size);;
      if data_result <? 0 then on_index fio_close;; mret data_result else
      now ← in_world clock_now;
      modify_sw (set_last_flush now);;
      mret (i32 (LogFileHeader.size + data_result))) Q (sw, w).
Proof.
  intros Hx Hi Hb Hbuf Hci Hrs Hc Hcand Hn Hd Hni Hnd G Hlt Hlt2 HQ.
  assert (Hrel : reliable w0 -> reliable w) by (apply reliable_env, (gr_env _ _ G)).
  assert (Hpl : plain (n +:+ ".data")) by (apply plain_ext; [done|done|cbn; lia]).
  assert (Hdot : no_dot (n +:+ ".data") = false) by by rewrite no_dot_app, andb_false_r.
  sw_step. apply (wp_assign Data); [done|]. intros o w1 Hs1 Hs Ho. cbn [wp_rest]. sw_step.
  pose proof Hs1 as [Ef1 Ee1].
  assert (G1 : grows w0 w1) by (eapply grows_trans; [exact G|by apply grows_same]).
  change (folder_ sw +:+ "/" +:+ n +:+ ".data")%string with (join_slash (folder_ sw) (n +:+ ".data")).
  apply (wp_open_new Data _ _ _ p); rewrite ?Ef1; try done.
  - intros y w2 Hy Ew2 Ee2. cbn [wp_rest]. sw_step.
    eapply (wp_new_header Data _ w1 w2 y p (n +:+ ".data")); rewrite ?Ef1; try done; [apply Hd| |].
    + intros y' w3 N. cbn [wp_rest]. sw_step. sw_step. cbn [wp_rest].
      change (LogFileHeader.size <? 0) with false. cbv iota. sw_step.
      apply wp_in_world. unfold wp at 1. cbn [fst snd clock_now wp_rest]. sw_step. sw_step. sw_step. sw_step.
      assert (Hci3 : contents (w_fs w3) i = contents (w_fs w) i) by (rewrite (nf_frame _ _ _ _ _ _ N) by (rewrite Ef1; lia); by rewrite Ef1).
      pose proof (nf_next _ _ _ _ _ _ N) as En. pose proof (nf_bytes _ _ _ _ _ _ N) as L3.
      pose proof (nf_nodes _ _ _ _ _ _ N) as Enodes. rewrite Ef1 in *.
      apply HQ; [done|apply grows_tick; eapply grows_trans; [exact G1|apply N]|]. left.
      unfold reopened. rewrite Hrs. split; [done|]. exists n, i, (next_ino (w_fs w)).
      split_and!; try done; cbn [fst snd tick w_fs]; try lia.
      * rewrite Enodes. by rewrite lookup_insert_ne by naive_solver.
      * by rewrite Enodes, lookup_insert_eq.
      * by rewrite Hci3.
      * exists x, y'. pose proof (nf_ino _ _ _ _ _ _ N) as Hy'. rewrite Ef1 in Hy'.
        split; [split; try done|]; cbn [fst snd].
        -- unfold logical. cbn [w_fs tick]. rewrite Hci3, Hci, Hbuf, app_nil_r.
           unfold var_index_file. by rewrite app_nil_r.
        -- unfold logical. cbn [w_fs tick]. rewrite L3, (nf_buf _ _ _ _ _ _ N), app_nil_r.
           unfold data_file. by rewrite app_nil_r.
        -- split; [done|]. split; [apply N|done].
    + intros y' w3 Hy' G3 Hr3. cbn [wp_rest]. sw_step. sw_step. cbn [wp_rest].
      change (- EIO <? 0) with true. cbv iota.
      eapply (wp_give_up w0); try done; [by eapply grows_trans|lia|by right| |].
      { intros Hr. apply Hr3. eapply reliable_env; [exact Ee1|by apply Hrel]. }
      intros s E1 E2 E3. apply HQ; [done|done|by right].
  - intros y w2 Y1 Hs2 Hr2. cbn [wp_rest]. sw_step. sw_step. cbn [wp_rest]. sw_step. sw_step.
    cbn [wp_rest]. change (- EINVAL <? 0) with true. cbv iota.
    eapply (wp_give_up w0); try done; [eapply grows_trans; [exact G1|by apply grows_same]|lia|by left| |].
    { intros Hr. apply Hr2; [by apply Hs, Hrel|]. eapply reliable_env; [exact Ee1|by apply Hrel]. }
    intros s E1 E2 E3. apply HQ; [done|done|by right].
Qed.

(** [reopenFile] in a folder that is ready: new files with their headers, or a
    failure of the medium. *)
Lemma wp_reopenFile time_ns sw w p :
  folder_ready (w_fs w) (folder_ sw) p -> no_slash (name_ sw) = true ->
  closed_handle (index_ sw) -> closed_handle (data_ sw) ->
  wp (reopenFile time_ns) (fun o s => exists r, o = Ok r /\ same_request sw s.1 /\ grows w s.2 /\
    (reopened p time_ns sw w r s \/ not_reopened w r s)) (sw, w).
Proof.
  intros Hf Hn Hci Hcd. unfold reopenFile. sw_step. sw_step. cbn [wp_rest fst snd]. sw_step.
  eapply wp_choose_name; [exact Hf|done|]. intros n Hcand Hs Hni Hnd. cbn [wp_rest].
  assert (Hpl : plain (n +:+ ".idx")) by (apply plain_ext; [done|done|cbn; lia]).
  assert (Hdot : no_dot (n +:+ ".idx") = false) by by rewrite no_dot_app, andb_false_r.
  sw_step. sw_step. cbn [wp_rest fst]. sw_step.
  apply (wp_assign Index); [done|]. intros o w1 Hs1 Hsome Ho. cbn [wp_rest]. sw_step. pose proof Hs1 as [Ef1 Ee1].
  assert (G1 : grows w w1) by by apply grows_same.
  change (folder_ (set_offset 0 sw) +:+ "/" +:+ n +:+ ".idx")%string
    with (join_slash (folder_ sw) (n +:+ ".idx")).
  apply (wp_open_new Index _ _ _ p); rewrite ?Ef1; [done|apply Hf|done|done| |].
  - intros x w2 Hx Ew2 Ee2. cbn [wp_rest negb]. sw_step.
    eapply (wp_new_header Index _ w1 w2 x p (n +:+ ".idx")); rewrite ?Ef1; try done; [apply Hf| |].
    + intros x' w3 N. cbn [wp_rest]. change (LogFileHeader.size <=? 0) with false. cbv iota.
      assert (G3 : grows w w3) by (eapply grows_trans; [exact G1|apply N]).
      destruct N as [_ Nn Nx Ni Ng Nb Nc _]. rewrite Ef1 in *.
      assert (Hni3 : nodes (w_fs w3) !! (p ++ [n +:+ ".idx"]) = Some (NFile (next_ino (w_fs w))))
        by (by rewrite Nn, lookup_insert_eq).
      sw_step. sw_step. cbn [wp_rest fst]. destruct (record_size_ _ =? 0) eqn:Ers.
      * apply Z.eqb_eq in Ers.
        lazymatch goal with
        | |- wp _ _ (?s, _) => apply (wp_reopen_data time_ns s w w3 p n x' (next_ino (w_fs w)))
        end; try done; try lia.
        -- eapply directory_at_mono; [apply (gr_nodes _ _ G3)|apply Hf].
        -- rewrite Nn, lookup_insert_ne; [done|].
           intros [= E]%(inj (app p)). apply (f_equal (last_char Ascii.zero)) in E.
           by rewrite !last_char_app in E.
        -- intros r s H1 H2 H3. by exists r.
      * sw_step. apply wp_in_world. unfold wp at 1. cbn [fst snd clock_now wp_rest].
        sw_step. sw_step. sw_step. sw_step. eexists. split; [done|]. split; [done|].
        split; [by apply grows_tick|]. left. unfold reopened.
        change (record_size_ _) with (record_size_ sw) in Ers. rewrite Ers. split; [done|].
        exists n, (next_ino (w_fs w)). split_and!; try done; cbn [fst snd tick w_fs]; try lia.
        exists x'. split_and!; try done. unfold logical. cbn [w_fs tick snd fst].
        rewrite Nc, Nb. unfold fixed_index_file. by rewrite !app_nil_r.
    + intros x' w3 Hx' G3 Hr3. cbn [wp_rest]. change (- EIO <=? 0) with true. cbv iota.
      eapply (wp_give_up w); try done; [by eapply grows_trans|by right| |].
      { intros Hr. apply Hr3. by eapply reliable_env. }
      intros s E1 E2 E3. exists (- EIO). split_and!; try done. by right.
  - intros x w2 X1 Hs2 Hr2. cbn [wp_rest negb]. sw_step.
    eexists; split; [done|]. split; [done|].
    split; [eapply grows_trans; [exact G1|by apply grows_same]|].
    right. split; [by left|]. split; [|by apply closed_not_open].
    intros Hr. apply Hr2; [cbn; by apply Hsome|]. by eapply reliable_env.
Qed.
End Opening.

(** ** Closing *)
Section Closing.
Context {H : Type} {FI : FileIO H} {FV : FileIOView H} {FS : FileIOSpec H} {L : LocalTime}.
Import StreamWriter.
Implicit Types (sw : t H).

(** Closing leaves a leading part of what was written in the file, and all of
    it where nothing fails. *)
Lemma wp_close_stream sd sw w x j (Q : outcome unit -> t H * world -> Prop) :
  field sd sw = Some x -> fv_ino x = Some j ->
  (forall x' w', fv_ino x' = None -> only_appends [j] w w' ->
     contents (w_fs w') j `prefix_of` logical w j x ->
     (reliable w -> fv_bad x = false -> contents (w_fs w') j = logical w j x) ->
     Q (Ok tt) (set_field sd (Some x') sw, w')) ->
  wp (close_stream (field sd) (on sd)) Q (sw, w).
Proof.
  intros Hf Hj HQ. unfold close_stream. sw_step. sw_step. cbn [wp_rest fst].
  rewrite Hf, (is_open_ino x j) by done. sw_step.
  eapply wp_on; [done|]. eapply wp_mono; [by apply fio_flush_spec|].
  intros r [x1 w1] (Ee & ok & -> & Ha & Hbuf & Hr). cbn [fst snd wp_rest] in *.
  apply accepted_appended in Ha; [|done|done].
  eapply wp_on; [apply field_set_field|].
  eapply wp_mono; [apply fio_close_spec; apply Ha|].
  intros r [x2 w2] (Ee2 & -> & Hx2 & dr & Hdr & Ef2). cbn [fst snd] in *. rewrite set_field_twice.
  pose proof (only_appends_fs _ _ _ _ Ef2 Ee2) as F2.
  apply HQ; [done| | |].
  - apply (only_appends_weaken ([j] ++ [j])); [set_solver|].
    eapply only_appends_trans; [apply Ha|exact F2].
  - rewrite Ef2, contents_append_eq.
    assert (contents (w_fs w1) j ++ dr `prefix_of` logical w1 j x1) as P1
      by (unfold logical; by apply prefix_app).
    etrans; [exact P1|]. destruct ok.
    + destruct (ap_ok _ _ _ _ _ _ _ Ha eq_refl) as [_ ->]. by rewrite app_nil_r.
    + destruct (ap_fail _ _ _ _ _ _ _ Ha eq_refl) as [_ P]. by rewrite app_nil_r in P.
  - intros Hrel Hb. specialize (Hr Hrel Hb). subst ok.
    destruct (ap_ok _ _ _ _ _ _ _ Ha eq_refl) as [_ L1]. rewrite app_nil_r in L1.
    rewrite (Hbuf eq_refl) in Hdr. apply prefix_nil_inv in Hdr as ->.
    rewrite Ef2, contents_append_eq, app_nil_r, <- L1. unfold logical.
    by rewrite (Hbuf eq_refl), app_nil_r.
Qed.

Lemma wp_close_closed sd sw w (Q : outcome unit -> t H * world -> Prop) :
  closed_handle (field sd sw) -> Q (Ok tt) (sw, w) ->
  wp (close_stream (field sd) (on sd)) Q (sw, w).
Proof.
  intros Hc HQ. unfold close_stream. sw_step. sw_step. cbn [wp_rest fst].
  rewrite closed_not_open by done. by sw_step.
Qed.

Definition both_closed (sw : t H) : Prop := closed_handle (index_ sw) /\ closed_handle (data_ sw).

(** [closeFile] completes in every state. *)
Lemma wp_closeFile sw w : wp closeFile (fun o s' => o = Ok tt /\ both_closed s'.1) (sw, w).
Proof.
  assert (forall sd sw w (Q : outcome unit -> t H * world -> Prop),
    (forall o w', closed_handle o -> Q (Ok tt) (set_field sd o sw, w')) ->
    wp (close_stream (field sd) (on sd)) Q (sw, w)) as Hc.
  { intros sd sw1 w1 Q HQ. destruct (field sd sw1) as [x|] eqn:E.
    - destruct (fv_ino x) as [j|] eqn:Ej.
      + eapply wp_close_stream; [done|done|]. intros x' w' Hx' _ _ _. apply HQ. by intros ? [= <-].
      + apply wp_close_closed; [rewrite E; by intros ? [= <-]|].
        rewrite <- (set_field_field sd sw1 x E). apply HQ. by intros ? [= <-].
    - apply wp_close_closed; [by rewrite E|].
      replace sw1 with (set_field sd None sw1) by (destruct sd, sw1; cbn in *; by subst). by apply HQ. }
  unfold closeFile. sw_step. apply (Hc Index). intros o1 w1 H1. cbn [wp_rest].
  apply (Hc Data). intros o2 w2 H2. split; [done|]. by split.
Qed.

(** [closeFile] on the files of a variable-size stream. *)
Lemma wp_closeFile_var i d sw w hi hdt ci cd :
  i <> d -> var_view i d sw w hi hdt ci cd ->
  wp closeFile (fun o s' => o = Ok tt /\ only_appends [d; i] w s'.2 /\ both_closed s'.1 /\
    same_config sw s'.1 /\ offset_ s'.1 = offset_ sw /\
    contents (w_fs s'.2) i `prefix_of` ci /\ contents (w_fs s'.2) d `prefix_of` cd /\
    (reliable w -> fv_bad hi = false -> contents (w_fs s'.2) i = ci) /\
    (reliable w -> fv_bad hdt = false -> contents (w_fs s'.2) d = cd)) (sw, w).
Proof.
  intros Hne V. unfold closeFile. sw_step.
  eapply (wp_close_stream Index); [apply V|apply V|]. intros x1 w1 X1 F1 P1 R1. cbn [wp_rest].
  rewrite (vv_ci _ _ _ _ _ _ _ _ V) in P1, R1.
  pose proof (vv_cd _ _ _ _ _ _ _ _ V) as Ld.
  rewrite <- (logical_frame i d _ w w1) in Ld by done.
  eapply (wp_close_stream Data); [apply V|apply V|]. intros x2 w2 X2 F2 P2 R2. rewrite Ld in P2, R2.
  assert (contents (w_fs w2) i = contents (w_fs w1) i) as Ei by (apply (oa_frame _ _ _ F2); set_solver).
  split; [done|]. split; [|split; [by split; intros ? [= <-]|split; [done|split; [done|]]]].
  - cbn [snd]. apply (only_appends_weaken ([i] ++ [d])); [set_solver|].
    by eapply only_appends_trans.
  - cbn [snd]. rewrite Ei. split; [done|]. split; [done|]. split; [done|].
    intros Hr. apply R2. by eapply only_appends_reliable.
Qed.
End Closing.

(** ** Fixed-size streams *)
Section FixedStreams.
Context {H : Type} {FI : FileIO H} {FV : FileIOView H} {FS : FileIOSpec H} {L : LocalTime}.
Import StreamWriter.
Context (i : nat) (h : LogFileHeader.t).
Context (Hsize : LogFileHeader.record_size_ h <> 0).

Definition fixed_crash (rs : list record) (s : t H * world) : Prop :=
  exists hi, index_ s.1 = Some hi /\ fv_ino hi = Some i /\
    record_size_ s.1 = LogFileHeader.record_size_ h /\
    logical s.2 i hi `prefix_of` fixed_index_file h rs /\ closed_handle (data_ s.1).

Definition fixed_stuck (rs : list record) (s : t H * world) : Prop :=
  exists hi, index_ s.1 = Some hi /\ fv_ino hi = Some i /\ fv_bad hi = true /\
    record_size_ s.1 = LogFileHeader.record_size_ h /\
    logical s.2 i hi `prefix_of` fixed_index_file h rs /\ closed_handle (data_ s.1).

Lemma fixed_good_crash rs s : fixed_good i h rs s -> fixed_crash rs s.
Proof. intros (hi & ? & ? & ? & ? & E & ?). exists hi. by rewrite E. Qed.

Lemma fixed_stuck_crash rs s : fixed_stuck rs s -> fixed_crash rs s.
Proof. intros (hi & ? & ? & ? & ? & E & ?). by exists hi. Qed.

(** The write path up to the fixed-length branch. *)
Lemma wp_write_to_fixed time_ns data sw w hi (Q : outcome Z -> t H * world -> Prop) :
  index_ sw = Some hi -> fv_ino hi = Some i ->
  record_size_ sw = LogFileHeader.record_size_ h ->
  (forall flush, wp (write_fixed flush time_ns data) Q (sw, tick w)) ->
  wp (write time_ns data) Q (sw, w).
Proof.
  intros Hx Hi Hrs HQ. unfold write. sw_step. sw_step. cbn [wp_rest fst].
  rewrite Hx, (is_open_ino hi i) by done. cbn [negb].
  sw_step. apply wp_in_world. unfold wp at 1. cbn [fst snd clock_now wp_rest].
  sw_step. sw_step. cbn [wp_rest]. sw_step. sw_step. cbn [wp_rest fst].
  rewrite Hrs, (proj2 (Z.eqb_neq _ _)) by done. apply HQ.
Qed.

Lemma wp_write_fixed_ok time_ns data sw w hi :
  index_ sw = Some hi -> fv_ino hi = Some i ->
  record_size_ sw = LogFileHeader.record_size_ h ->
  zlen data = LogFileHeader.record_size_ h ->
  wp (write time_ns data) (fun o s' => only_appends [i] w s'.2 /\ same_config sw s'.1 /\
    exists ok hi', appended i hi w (fixed_entry (mk_record time_ns data)) ok hi' s'.2 /\
      index_ s'.1 = Some hi' /\ data_ s'.1 = data_ sw /\
      o = Ok (if (ok : bool) then i32 (zlen data + 8) else - EIO)) (sw, w).
Proof.
  intros Hx Hi Hrs Hz. eapply wp_write_to_fixed; [done|done|done|]. intros flush.
  unfold write_fixed. sw_step. sw_step. cbn [wp_rest fst]. rewrite Hrs, Hz, Z.eqb_refl.
  assert (take (Z.to_nat (LogFileHeader.record_size_ h)) data = data) as ->
    by (rewrite <- Hz; unfold zlen; by rewrite Nat2Z.id, firstn_all).
  apply wp_fuse. eapply (wp_appends Index).
  { exact (appends_and Index _ _ _ _
      (appends_and Index _ _ _ _ (appends_write Index _) (appends_write Index _))
      (appends_flush_if Index flush)). }
  { done. } { done. }
  rewrite app_nil_r. fold (fixed_entry (mk_record time_ns data)). intros ok h2 w2 A2. cbn beta.
  assert (only_appends [i] w w2) as F2 by (apply only_appends_tick, A2).
  assert (appended i hi w (fixed_entry (mk_record time_ns data)) ok h2 w2) as A3
    by (destruct A2; by split).
  destruct ok; cbn [negb]; sw_step; (split; [done|]; split; [done|]; by eexists _, _).
Qed.

Lemma fixed_index_snoc rs r : fixed_index_file h (rs ++ [r]) = fixed_index_file h rs ++ fixed_entry r.
Proof. unfold fixed_index_file. by rewrite fixed_entries_snoc, app_assoc. Qed.

Lemma fixed_write_good rs time_ns data sw w :
  fixed_good i h rs (sw, w) -> zlen data = LogFileHeader.record_size_ h ->
  let r := mk_record time_ns data in
  wp (write time_ns data) (fun o s' => only_appends [i] w s'.2 /\ same_config sw s'.1 /\
    exists n, o = Ok n /\
      ((n = i32 (zlen data + 8) /\ fixed_good i h (rs ++ [r]) s') \/
       (n = - EIO /\ ~ reliable w /\ fixed_stuck (rs ++ [r]) s'))) (sw, w).
Proof.
  intros (hi & Hx & Hi & Hb & Hrs & Hl & Hcl) Hz r. cbn [fst snd] in *.
  eapply wp_mono; [by apply (wp_write_fixed_ok time_ns data sw w hi)|].
  intros o [sw' w'] (F & C & ok & hi' & A & Hx' & Hdt & ->). cbn [fst] in Hdt. split; [done|]. split; [done|].
  eexists; split; [done|].
  assert (record_size_ sw' = LogFileHeader.record_size_ h) as Hrs' by (destruct C as (_&_&E&_); cbn in E; congruence).
  destruct ok.
  - left. split; [done|]. destruct (ap_ok _ _ _ _ _ _ _ A eq_refl) as [B P]. cbn [snd] in P.
    exists hi'. cbn [fst snd]. rewrite P, Hl, fixed_index_snoc, B, Hdt. split_and!; try done. apply A.
  - right. split; [done|]. destruct (ap_fail _ _ _ _ _ _ _ A eq_refl) as [B P].
    split; [intros Hr; apply appended_false_bad in A; [congruence|done]|].
    rewrite Hl, <- fixed_index_snoc in P. exists hi'. cbn [fst snd]. rewrite Hdt. split_and!; try done. apply A.
Qed.

Lemma fixed_write_stuck rs time_ns data sw w :
  fixed_stuck rs (sw, w) -> zlen data = LogFileHeader.record_size_ h ->
  wp (write time_ns data) (fun o s' => only_appends [i] w s'.2 /\ same_config sw s'.1 /\
    o = Ok (- EIO) /\ fixed_stuck rs s') (sw, w).
Proof.
  intros (hi & Hx & Hi & Hb & Hrs & Hl & Hcl) Hz. cbn [fst snd] in *.
  eapply wp_mono; [by apply (wp_write_fixed_ok time_ns data sw w hi)|].
  intros o [sw' w'] (F & C & ok & hi' & A & Hx' & Hdt & ->). cbn [fst] in Hdt. split; [done|]. split; [done|].
  assert (record_size_ sw' = LogFileHeader.record_size_ h) as Hrs' by (destruct C as (_&_&E&_); cbn in E; congruence).
  destruct (ap_bad _ _ _ _ _ _ _ A Hb) as [P N].
  destruct ok; [by specialize (N eq_refl)|]. destruct (ap_fail _ _ _ _ _ _ _ A eq_refl) as [B _].
  split; [done|]. exists hi'. cbn [fst snd]. rewrite Hdt. split_and!; try done; [apply A|]. by etrans.
Qed.

(** A payload of another size is refused, and nothing is written. *)
Lemma fixed_write_size sw w hi time_ns data :
  index_ sw = Some hi -> fv_ino hi = Some i ->
  record_size_ sw = LogFileHeader.record_size_ h ->
  zlen data <> LogFileHeader.record_size_ h ->
  write time_ns data (sw, w) = (Ok (- EINVAL), (sw, tick w)).
Proof.
  intros Hx Hi Hrs Hz.
  assert (wp (write time_ns data) (fun o s => (o, s) = (Ok (- EINVAL), (sw, tick w))) (sw, w)) as W.
  { eapply wp_write_to_fixed; [done|done|done|]. intros flush. unfold write_fixed.
    sw_step. sw_step. cbn [wp_rest fst]. rewrite Hrs, (proj2 (Z.eqb_neq _ _)) by done. by sw_step. }
  unfold wp in W. by destruct (write time_ns data (sw, w)).
Qed.

Lemma wp_closeFile_fixed rs sw w :
  fixed_crash rs (sw, w) ->
  wp closeFile (fun o s' => o = Ok tt /\ only_appends [i] w s'.2 /\ both_closed s'.1 /\
    contents (w_fs s'.2) i `prefix_of` fixed_index_file h rs /\
    (reliable w -> fixed_good i h rs (sw, w) ->
       contents (w_fs s'.2) i = fixed_index_file h rs)) (sw, w).
Proof.
  intros (hi & Hx & Hi & Hrs & Hl & Hc). cbn [fst snd] in *. unfold closeFile. sw_step.
  eapply (wp_close_stream Index); [done|done|]. intros x1 w1 X1 F1 P1 R1. cbn [wp_rest].
  apply (wp_close_closed Data); [done|].
  split; [done|]. split; [done|]. split; [split; [by intros ? [= <-]|done]|]. cbn [snd].
  split; [by etrans|]. intros Hr (hi' & Hx' & _ & Hb & _ & El & _). cbn [fst snd] in *.
  assert (hi' = hi) as -> by congruence. by rewrite R1, El.
Qed.
End FixedStreams.
