(* ===== verification/Samples.v ===== *)
(** * Concrete inputs

    A small storage directory, two environments and a few requests, on which the
    definitions are evaluated. *)
From S2P Require Import Prelude DataTypes Calendar Format Protos FileSystem FileIO StreamWriter FileNames StreamWriterSpec.
Local Open Scope Z_scope.

(** A file system with one directory, [/log]. *)
Definition sample_fs : fs := mk_fs {[ ["log"%string] := NDir ]} ∅ 0.

(** Nothing fails; three bytes of each write reach the file at once; the clock
    advances by 0.4 s per operation. *)
Definition sample_env (n : nat) : io_event := mk_event true 3 (Z.of_nat n * 400000000).
Definition sample_world : world := mk_world sample_fs sample_env 0.

(** The twentieth operation fails. *)
Definition failing_env (n : nat) : io_event :=
  mk_event (negb (n =? 20)%nat) 3 (Z.of_nat n * 400000000).
Definition failing_world : world := mk_world sample_fs failing_env 0.

(** 2024-01-01 12:00:00 UTC *)
Definition noon : Z := 1704110400000000000.

Definition sample_request : LogRequest.t :=
  LogRequest.mk (Some "can0"%string) None (Some [x01; x02; x03]) (Some noon).

Definition sample_records : list record :=
  [mk_record noon [x01; x02; x03]; mk_record (noon + 1000) []; mk_record (noon + 2000) [xff]].

Lemma sample_reliable : reliable sample_world.
Proof. intros n. done. Qed.

Lemma sample_folder_ready f :
  nodes f = nodes sample_fs -> folder_ready f "/log" ["log"%string].
Proof.
  intros En. split.
  - apply (directory_at_mono sample_fs); [by rewrite En|]. split; vm_compute; reflexivity.
  - intros n t. rewrite En. cbn. by rewrite lookup_singleton_ne.
  - rewrite En. vm_compute. reflexivity.
Qed.

(** A storage directory with two days, and one with a directory whose name is
    read as a day and is not the name of that day. *)
Definition days_fs : fs :=
  mk_fs (list_to_map [
      (["log"], NDir);
      (["log"; "20240101"], NDir); (["log"; "20240101"; "a.idx"], NFile 0);
      (["log"; "20240102"], NDir); (["log"; "20240102"; "b.idx"], NFile 1);
      (["log"; "notes"], NDir)]%string)
    {[ 0%nat := [x01; x02; x03]; 1%nat := [x04; x05] ]} 2.
Definition days_world : world := mk_world days_fs sample_env 0.

Definition odd_fs : fs :=
  mk_fs (list_to_map [(["log"], NDir); (["log"; "007"], NDir); (["log"; "20240102"], NDir)]%string) ∅ 0.
