(* ===== verification/TcpSocket.v ===== *)
(** * TcpSocket

    [libs/tcp_server/tcp_socket.h]: messages with a length prefix over a byte
    stream. [send] and [recv] are the system calls: each call consumes one entry
    of a script, so any sequence of short transfers, interruptions and errors is
    some script; a script that is used up fails every further call. *)
From S2P Require Import Prelude.
Local Open Scope Z_scope.

(** ** The system calls *)
Inductive io_step :=
| Transfer (n : nat)   (** up to [n] bytes, and at least one for [recv] *)
| Interrupted          (** -1 with [EINTR] *)
| Failed.              (** -1 with another error *)

#[export] Instance io_step_eq_dec : EqDecision io_step.
Proof. solve_decision. Defined.

(** One end of a connection. *)
Record conn := mk_conn {
  out_script : list io_step;
  out_wire : bytes;         (** everything the kernel has accepted *)
  in_script : list io_step;
  in_wire : bytes           (** what the peer has sent and was not read yet *)
}.

Inductive sys_result :=
| Count (n : Z)   (** a result that is not negative *)
| Eintr
| Error.

(** [send]: the kernel takes a leading part of the buffer. *)
Definition sys_send (buffer : bytes) : prog conn sys_result := fun c =>
  match out_script c with
  | [] => (Ok Error, c)
  | Transfer n :: s =>
      let k := Nat.min n (length buffer) in
      (Ok (Count (Z.of_nat k)), mk_conn s (out_wire c ++ take k buffer) (in_script c) (in_wire c))
  | Interrupted :: s => (Ok Eintr, mk_conn s (out_wire c) (in_script c) (in_wire c))
  | Failed :: s => (Ok Error, mk_conn s (out_wire c) (in_script c) (in_wire c))
  end.

(** [recv] of at most [len] bytes; 0 when the peer sends nothing more. *)
Definition sys_recv (len : Z) : prog conn (sys_result * bytes) := fun c =>
  match in_script c with
  | [] => (Ok (Error, []), c)
  | Transfer n :: s =>
      let got := take (Nat.min (Nat.max 1 n) (Z.to_nat len)) (in_wire c) in
      (Ok (Count (zlen got), got),
       mk_conn (out_script c) (out_wire c) s (drop (length got) (in_wire c)))
  | Interrupted :: s => (Ok (Eintr, []), mk_conn (out_script c) (out_wire c) s (in_wire c))
  | Failed :: s => (Ok (Error, []), mk_conn (out_script c) (out_wire c) s (in_wire c))
  end.

Module TcpSocket.
(** [while (sent < buffer.size())] *)
Fixpoint send_loop (fuel : nat) (buffer : bytes) (sent : Z) : prog conn bool :=
  match fuel with
  | O => throw OutOfFuel
  | S n =>
      if sent <? zlen buffer then
        result ← sys_send (drop (Z.to_nat sent) buffer);
        match result with
        | Count k => if 0 <? k then send_loop n buffer (sent + k) else mret false
        | Eintr => send_loop n buffer sent
        | Error => mret false
        end
      else mret true
  end.

(** A data piece, its size first. *)
Definition frame (data : bytes) : bytes := le_encode 4 (zlen data) ++ data.

Definition sendDataWith (data : bytes) : prog conn bool :=
  if 2 ^ 32 - 1 <? zlen data then mret false else
  fuel ← gets (fun c => S (S (length (out_script c))));
  send_loop fuel (frame data) 0.

(** The two receiving loops: until [size] bytes are there; [None] on error or
    at the end of the stream. *)
Fixpoint recv_loop (fuel : nat) (size : Z) (loaded : bytes) : prog conn (option bytes) :=
  match fuel with
  | O => throw OutOfFuel
  | S n =>
      if zlen loaded <? size then
        received ← sys_recv (size - zlen loaded);
        match received with
        | (Count k, got) => if 0 <? k then recv_loop n size (loaded ++ got) else mret None
        | (Eintr, _) => recv_loop n size loaded
        | (Error, _) => mret None
        end
      else mret (Some loaded)
  end.

Definition recv_exactly (size : Z) : prog conn (option bytes) :=
  fuel ← gets (fun c => S (S (length (in_script c))));
  recv_loop fuel size [].

(** The data piece, empty on any error. *)
Definition readDataWith : prog conn bytes :=
  header ← recv_exactly 4;
  match header with
  | None => mret []
  | Some header =>
      buffer ← recv_exactly (le_decode header);
      match buffer with
      | None => mret []
      | Some buffer => mret buffer
      end
  end.

Definition sendData : bytes -> prog conn bool := sendDataWith.
Definition readData : prog conn bytes := readDataWith.
End TcpSocket.

Ltac arith_cases := split_and!; try done; try lia; try (intros; exfalso; (done || lia)).

(** ** Sending *)
Section Sending.
Import TcpSocket.

Lemma wp_send_loop fuel buffer sent c :
  (length (out_script c) < fuel - 1)%nat -> 0 <= sent <= zlen buffer ->
  wp (send_loop fuel buffer sent) (fun o c' => exists n b, o = Ok b /\
    sent <= n <= zlen buffer /\ (b = true <-> n = zlen buffer) /\
    out_wire c' = out_wire c ++ sub buffer (Z.to_nat sent) (Z.to_nat (n - sent)) /\
    in_script c' = in_script c /\ in_wire c' = in_wire c) c.
Proof.
  revert sent c. induction fuel as [|fuel IH]; intros sent c Hf Hs; [lia|]. cbn [send_loop].
  assert (forall c, out_wire c = out_wire c ++ sub buffer (Z.to_nat sent) (Z.to_nat (sent - sent))) as Hnil.
  { intros c'. rewrite Z.sub_diag. change (Z.to_nat 0) with 0%nat. by rewrite sub_zero, app_nil_r. }
  destruct (sent <? zlen buffer) eqn:E; [apply Z.ltb_lt in E|apply Z.ltb_ge in E].
  2: { wp_step. exists sent, true. arith_cases; apply (Hnil c). }
  wp_step. unfold wp at 1, sys_send. destruct (out_script c) as [|[n| |] s] eqn:Es; cbn [fst snd wp_rest].
  - wp_step. exists sent, false. arith_cases; apply (Hnil c).
  - set (k := Nat.min n (length (drop (Z.to_nat sent) buffer))).
    assert (Z.of_nat k <= zlen buffer - sent).
    { unfold k. rewrite length_drop. unfold zlen in *. lia. }
    destruct (0 <? Z.of_nat k) eqn:Ek; [apply Z.ltb_lt in Ek|apply Z.ltb_ge in Ek].
    + cbn [length] in Hf. eapply wp_mono; [apply IH; cbn [out_script]; lia|].
      intros o c' (m & b & -> & Hm & Hb & Ew & Ei & Ein). exists m, b. cbn in Ew, Ei, Ein.
      arith_cases. rewrite Ew, <- app_assoc. f_equal.
      change (take k (drop (Z.to_nat sent) buffer)) with (sub buffer (Z.to_nat sent) k).
      replace (Z.to_nat (sent + Z.of_nat k)) with (Z.to_nat sent + k)%nat by lia.
      rewrite <- sub_split. f_equal. lia.
    + wp_step. exists sent, false. assert (k = 0)%nat as -> by lia. rewrite take_0.
      cbn [out_wire]. rewrite app_nil_r. arith_cases; apply (Hnil c).
  - cbn [length] in Hf. eapply wp_mono; [apply IH; cbn [out_script]; lia|].
    intros o c' (m & b & -> & Hm & Hb & Ew & Ei & Ein). exists m, b. done.
  - wp_step. exists sent, false. arith_cases; apply (Hnil c).
Qed.

(** What [sendDataWith] leaves on the wire: a leading part of the frame, all of
    it exactly when it reports success. *)
Lemma wp_sendDataWith data c :
  wp (sendDataWith data) (fun o c' => exists b part, o = Ok b /\
    out_wire c' = out_wire c ++ part /\ part `prefix_of` frame data /\
    (b = true <-> part = frame data) /\ (2 ^ 32 - 1 < zlen data -> b = false /\ part = []) /\
    in_script c' = in_script c /\ in_wire c' = in_wire c) c.
Proof.
  unfold sendDataWith. wp_step.
  - apply Z.ltb_lt in Heqb. wp_step. exists false, []. rewrite app_nil_r.
    split_and!; try done. apply prefix_nil.
  - apply Z.ltb_ge in Heqb. wp_step. wp_step. cbn [wp_rest].
    pose proof (zlen_nonneg (frame data)).
    eapply wp_mono; [apply wp_send_loop; [cbn; lia|lia]|].
    intros o c' (n & b & -> & Hn & Hb & Ew & Ei). rewrite Z.sub_0_r in Ew.
    exists b, (take (Z.to_nat n) (frame data)). split; [done|]. split; [exact Ew|].
    split; [by exists (drop (Z.to_nat n) (frame data)); rewrite take_drop|].
    split; [|split; [lia|done]]. rewrite Hb. split; intros Hn1.
    + rewrite Hn1. unfold zlen. rewrite Nat2Z.id. apply firstn_all.
    + apply (f_equal length) in Hn1. rewrite length_take in Hn1. unfold zlen in *. lia.
Qed.
End Sending.

(** ** Receiving *)
Section Receiving.
Import TcpSocket.

(** A script without errors, and the number of transfers it allows. *)
Definition healthy (s : list io_step) : Prop := Failed ∉ s.
Definition is_transfer (e : io_step) : bool := match e with Transfer _ => true | _ => false end.
Definition transfers (s : list io_step) : nat := length (List.filter is_transfer s).

Lemma take_drop_taken {A} m (l : list A) : take m l ++ drop (length (take m l)) l = l.
Proof.
  rewrite length_take. destruct (decide (m <= length l)%nat).
  - rewrite Nat.min_l by lia. apply take_drop.
  - rewrite Nat.min_r by lia. rewrite take_ge, drop_all by lia. apply app_nil_r.
Qed.

Lemma wp_recv_loop fuel size loaded c :
  (length (in_script c) < fuel - 1)%nat -> zlen loaded <= size ->
  wp (recv_loop fuel size loaded) (fun o c' => exists r taken, o = Ok r /\
    in_wire c = taken ++ in_wire c' /\ out_script c' = out_script c /\ out_wire c' = out_wire c /\
    match r with
    | Some bs => bs = loaded ++ taken /\ zlen bs = size
    | None => zlen (loaded ++ taken) < size
    end /\
    (healthy (in_script c) -> size - zlen loaded <= zlen (in_wire c) ->
     size - zlen loaded <= Z.of_nat (transfers (in_script c)) ->
     r <> None /\ healthy (in_script c') /\
     (transfers (in_script c) <= transfers (in_script c') + length taken)%nat)) c.
Proof.
  revert loaded c. induction fuel as [|fuel IH]; intros loaded c Hf Hs; [lia|]. cbn [recv_loop].
  destruct (zlen loaded <? size) eqn:E; [apply Z.ltb_lt in E|apply Z.ltb_ge in E].
  2: { wp_step. exists (Some loaded), []. rewrite !app_nil_r. split_and!; try done; [lia|].
       intros. split; [done|]. split; [done|]. cbn. lia. }
  wp_step. unfold wp at 1, sys_recv.
  destruct (in_script c) as [|[n| |] s] eqn:Es; cbn [fst snd wp_rest].
  - wp_step. exists None, []. rewrite app_nil_r. split_and!; try done. cbn. intros. lia.
  - set (got := take _ (in_wire c)).
    assert (zlen got = Z.min (Z.min (Z.max 1 (Z.of_nat n)) (size - zlen loaded)) (zlen (in_wire c))) as Hg.
    { unfold got, zlen in *. rewrite length_take. lia. }
    assert (in_wire c = got ++ drop (length got) (in_wire c)) as Ew.
    { symmetry. apply take_drop_taken. }
    destruct (0 <? zlen got) eqn:Ek; [apply Z.ltb_lt in Ek|apply Z.ltb_ge in Ek].
    + cbn [length] in Hf. eapply wp_mono; [apply IH; cbn [in_script]; [lia|rewrite zlen_app; lia]|].
      intros o c' (r & taken & -> & Ew' & E1 & E2 & Hr & Hp). cbn in Ew', E1, E2.
      exists r, (got ++ taken). rewrite <- app_assoc, <- Ew'. split_and!; try done.
      * destruct r; [by rewrite app_assoc|by rewrite app_assoc].
      * intros Hh Hw Ht. unfold healthy in *. rewrite not_elem_of_cons in Hh.
        cbn [in_script in_wire] in Hp. unfold transfers in Ht |- *. cbn [List.filter is_transfer length] in Ht |- *.
        rewrite zlen_app in Hp. destruct Hp as (H1 & H2 & H3); [tauto| | |].
        -- rewrite Ew, zlen_app in Hw. lia.
        -- unfold transfers. lia.
        -- split; [done|]. split; [done|]. unfold transfers in H3. rewrite length_app. unfold zlen in *. lia.
    + wp_step. assert (got = []) as Hg0 by (destruct got; [done|unfold zlen in Ek; cbn in Ek; lia]).
      clearbody got. subst got. exists None, []. rewrite app_nil_r. split_and!; try done.
      intros _ Hw _. pose proof (zlen_nonneg (in_wire c)). unfold zlen in *. cbn [length] in *. lia.
  - cbn [length] in Hf. eapply wp_mono; [apply IH; cbn [in_script]; lia|].
    intros o c' (r & taken & -> & Ew' & E1 & E2 & Hr & Hp). cbn in Ew', E1, E2, Hp.
    exists r, taken. split_and!; try done. intros Hh. unfold healthy in *. rewrite not_elem_of_cons in Hh.
    apply Hp. tauto.
  - wp_step. exists None, []. rewrite app_nil_r. split_and!; try done.
    intros Hh. unfold healthy in Hh. rewrite not_elem_of_cons in Hh. tauto.
Qed.

Lemma wp_recv_exactly size c :
  0 <= size ->
  wp (recv_exactly size) (fun o c' => exists r taken, o = Ok r /\
    in_wire c = taken ++ in_wire c' /\ out_script c' = out_script c /\ out_wire c' = out_wire c /\
    match r with
    | Some bs => bs = taken /\ zlen bs = size
    | None => zlen taken < size
    end /\
    (healthy (in_script c) -> size <= zlen (in_wire c) ->
     size <= Z.of_nat (transfers (in_script c)) ->
     r <> None /\ healthy (in_script c') /\
     (transfers (in_script c) <= transfers (in_script c') + length taken)%nat)) c.
Proof.
  intros Hs. unfold recv_exactly. wp_step. wp_step. cbn [wp_rest].
  eapply wp_mono; [apply wp_recv_loop; [cbn; lia|done]|].
  intros o c' (r & taken & -> & Ew & E1 & E2 & Hr & Hp). exists r, taken. cbn [app] in Hr.
  change (zlen []) with 0 in Hp. rewrite Z.sub_0_r in Hp. done.
Qed.

Lemma length_frame data : length (frame data) = (4 + length data)%nat.
Proof. unfold frame. by rewrite length_app, length_le_encode. Qed.

(** The first four bytes of a frame are the length of what follows. *)
Lemma frame_header hd wire data rest :
  hd ++ wire = frame data ++ rest -> length hd = 4%nat -> zlen data < 2 ^ 32 ->
  le_decode hd = zlen data /\ wire = data ++ rest.
Proof.
  intros E Hl Hd. unfold frame in E. rewrite <- app_assoc in E.
  apply app_inj_1 in E as [-> E]; [|by rewrite length_le_encode].
  rewrite le_decode_encode_small; [done|]. pose proof (zlen_nonneg data). cbn. lia.
Qed.

(** A result that is not empty is the content of exactly one frame. *)
Lemma wp_readDataWith c :
  wp readDataWith (fun o c' => exists bs taken, o = Ok bs /\ in_wire c = taken ++ in_wire c' /\
    out_script c' = out_script c /\ out_wire c' = out_wire c /\
    (bs <> [] -> taken = frame bs /\ zlen bs < 2 ^ 32) /\
    (forall data rest, in_wire c = frame data ++ rest -> zlen data < 2 ^ 32 -> healthy (in_script c) ->
       zlen (frame data) <= Z.of_nat (transfers (in_script c)) ->
       bs = data /\ taken = frame data /\ healthy (in_script c') /\
       (transfers (in_script c) <= transfers (in_script c') + length taken)%nat)) c.
Proof.
  unfold readDataWith. wp_step. eapply wp_mono; [by apply (wp_recv_exactly 4)|].
  intros o c1 (r & t1 & -> & W1 & O1 & O1' & H1 & P1). cbn [wp_rest].
  pose proof length_frame as Hfl. destruct r as [hd|].
  2: { wp_step. exists [], t1. split_and!; try done. intros data rest E Hd Hh Ht. exfalso.
       destruct P1 as [P1 _]; [done| | |done].
       - rewrite E, zlen_app. pose proof (zlen_nonneg rest). unfold zlen in *. rewrite Hfl. lia.
       - unfold zlen in Ht. rewrite Hfl in Ht. lia. }
  destruct H1 as [<- H1]. wp_step.
  assert (length hd = 4%nat) as Hl4 by (unfold zlen in H1; lia).
  pose proof (le_decode_range hd) as Hrng. rewrite H1 in Hrng.
  eapply wp_mono; [apply (wp_recv_exactly (le_decode hd)); lia|].
  intros o c2 (r & t2 & -> & W2 & O2 & O2' & H2 & P2). cbn [wp_rest].
  assert (forall data rest, in_wire c = frame data ++ rest -> zlen data < 2 ^ 32 ->
    le_decode hd = zlen data /\ in_wire c1 = data ++ rest) as Hframe.
  { intros data rest E Hd. rewrite W1 in E. by apply frame_header. }
  assert (forall data rest, in_wire c = frame data ++ rest -> zlen data < 2 ^ 32 -> healthy (in_script c) ->
    zlen (frame data) <= Z.of_nat (transfers (in_script c)) ->
    r <> None /\ healthy (in_script c2) /\
    (transfers (in_script c) <= transfers (in_script c2) + length (hd ++ t2))%nat) as Hlive.
  { intros data rest E Hd Hh Ht. destruct (Hframe _ _ E Hd) as [Hz E1].
    destruct P1 as (_ & Hh1 & Ht1); [done| | |].
    - rewrite W1, zlen_app. pose proof (zlen_nonneg (in_wire c1)). lia.
    - unfold zlen in Ht. rewrite Hfl in Ht. lia.
    - destruct P2 as (Hr & Hh2 & Ht2); [done| | |].
      + rewrite E1, Hz, zlen_app. pose proof (zlen_nonneg rest). lia.
      + rewrite Hz. unfold zlen in *. rewrite Hfl in Ht. lia.
      + split; [done|]. split; [done|]. rewrite length_app. lia. }
  destruct r as [bs|]; wp_step.
  - destruct H2 as [<- H2]. exists bs, (hd ++ bs).
    assert (hd ++ bs = frame bs) as Efr.
    { unfold frame. f_equal. rewrite H2, <- Hl4. by rewrite le_encode_decode. }
    split_and!; try done; try congruence.
    + by rewrite <- app_assoc, <- W2.
    + intros _. split; [done|]. cbn in Hrng. lia.
    + intros data rest E Hd Hh Ht. destruct (Hlive _ _ E Hd Hh Ht) as (_ & H3 & H4).
      destruct (Hframe _ _ E Hd) as [Hz E1].
      assert (bs = data) as ->.
      { rewrite W2 in E1. apply app_inj_1 in E1 as [? _]; [done|]. unfold zlen in *. lia. }
      done.
  - exists [], (hd ++ t2). split_and!; try done; try congruence.
    + by rewrite <- app_assoc, <- W2.
    + intros data rest E Hd Hh Ht. by destruct (Hlive _ _ E Hd Hh Ht) as (? & _).
Qed.
End Receiving.

(** ** Conversations *)
Section Conversation.
Import TcpSocket.

(** A client that sends message after message and stops at the first failure;
    the result is the number of messages reported as sent. *)
Fixpoint send_messages (ms : list bytes) : prog conn nat :=
  match ms with
  | [] => mret 0%nat
  | m :: ms' =>
      ok ← sendData m;
      if (ok : bool) then n ← send_messages ms'; mret (S n) else mret 0%nat
  end.

(** A server that reads up to [n] messages and drops the connection at the first
    empty one. *)
Fixpoint receive_messages (n : nat) : prog conn (list bytes) :=
  match n with
  | O => mret []
  | S n' =>
      data ← readData;
      if bool_decide (data = []) then mret [] else
      rest ← receive_messages n';
      mret (data :: rest)
  end.

Definition message_ok (m : bytes) : Prop := m <> [] /\ zlen m < 2 ^ 32.

Definition frames (ms : list bytes) : bytes := concat (map frame ms).

(** Bytes that are the beginning of a frame and no more. *)
Definition incomplete (part : bytes) : Prop :=
  part = [] \/ exists m, zlen m < 2 ^ 32 /\ part `prefix_of` frame m /\ part <> frame m.

Lemma frame_inj a b x y :
  zlen a < 2 ^ 32 -> zlen b < 2 ^ 32 -> frame a ++ x = frame b ++ y -> a = b /\ x = y.
Proof.
  unfold frame. rewrite <- !app_assoc. intros Ha Hb E.
  pose proof (zlen_nonneg a). pose proof (zlen_nonneg b).
  apply app_inj_1 in E as [E1 E]; [|by rewrite !length_le_encode].
  apply (f_equal le_decode) in E1. rewrite !le_decode_encode_small in E1 by (cbn; lia).
  apply app_inj_1 in E; [done|]. unfold zlen in *. lia.
Qed.

Lemma frame_nonempty m : frame m <> [].
Proof. done. Qed.

Lemma incomplete_no_frame part bs rest :
  incomplete part -> zlen bs < 2 ^ 32 -> part <> frame bs ++ rest.
Proof.
  intros [->|(m & Hm & [z Hz] & Hne)] Hb E; [done|]. subst part.
  rewrite <- app_assoc, <- (app_nil_r (frame m)) in Hz.
  apply frame_inj in Hz as [-> Hz]; [|done|done]. symmetry in Hz.
  apply app_eq_nil in Hz as [-> ->]. by rewrite app_nil_r in Hne.
Qed.

Lemma wp_send_messages ms c :
  Forall message_ok ms ->
  wp (send_messages ms) (fun o c' => exists k part, o = Ok k /\ (k <= length ms)%nat /\
    out_wire c' = out_wire c ++ frames (take k ms) ++ part /\ incomplete part /\
    (k = length ms -> part = [])) c.
Proof.
  revert c. induction ms as [|m ms IH]; intros c Hms; cbn [send_messages].
  - wp_step. exists 0%nat, []. rewrite app_nil_r. split_and!; try done. by left.
  - inversion Hms as [|? ? [Hm1 Hm2] Hms']; subst. wp_step.
    eapply wp_mono; [apply wp_sendDataWith|].
    intros o c1 (b & part & -> & Ew & Hp & Hb & _ & _). cbn [wp_rest]. destruct b.
    + wp_step. eapply wp_mono; [by apply IH|].
      intros o c2 (k & part' & -> & Hk & Ew' & Hi & Hk'). repeat wp_step.
      exists (S k), part'. split; [done|]. split; [cbn; lia|]. split; [|split; [done|cbn; intros; apply Hk'; lia]].
      rewrite Ew', Ew, (proj1 Hb) by done. cbn. unfold frames. cbn [take map concat].
      by rewrite <- !app_assoc.
    + wp_step. exists 0%nat, part. split; [done|]. split; [cbn; lia|]. split; [exact Ew|]. split; [|done].
      right. exists m. split_and!; try done. intros E. by apply Hb in E.
Qed.

Lemma wp_receive_messages n ms part d :
  Forall message_ok ms -> incomplete part -> in_wire d = frames ms ++ part ->
  wp (receive_messages n) (fun o _ => exists got, o = Ok got /\ got `prefix_of` ms /\
    (healthy (in_script d) -> zlen (frames ms) <= Z.of_nat (transfers (in_script d)) ->
     (length ms <= n)%nat -> got = ms)) d.
Proof.
  intros Hms Hi. revert ms d Hms. induction n as [|n IH]; intros ms d Hms Ew; cbn [receive_messages].
  - wp_step. exists []. split_and!; try done; [apply prefix_nil|]. intros _ _ Hn. by destruct ms; cbn in Hn; [|lia].
  - wp_step. eapply wp_mono; [apply wp_readDataWith|].
    intros o d' (bs & taken & -> & Ed & _ & _ & Hbs & Hlive). cbn [wp_rest].
    destruct ms as [|m ms].
    + assert (bs = []) as ->.
      { destruct (decide (bs = [])) as [|Hne]; [done|]. destruct (Hbs Hne) as [Et Hb].
        exfalso. apply (incomplete_no_frame part bs (in_wire d') Hi Hb). rewrite <- Et, <- Ed, Ew. done. }
      rewrite bool_decide_eq_true_2 by done. wp_step. exists []. done.
    + inversion Hms as [|? ? [Hm1 Hm2] Hms']; subst.
      unfold frames in Ew. cbn [map concat] in Ew. rewrite <- app_assoc in Ew. fold (frames ms) in Ew.
      destruct (bool_decide (bs = [])) eqn:Eb.
      * apply bool_decide_eq_true in Eb as Ebs. wp_step. exists []. split; [done|]. split; [apply prefix_nil|].
        intros Hh Ht _. destruct (Hlive _ _ Ew Hm2 Hh) as [Em _]; [|congruence].
        unfold frames in Ht. cbn [map concat] in Ht. rewrite zlen_app in Ht.
        pose proof (zlen_nonneg (concat (map frame ms))). lia.
      * apply bool_decide_eq_false in Eb. destruct (Hbs Eb) as [Et Hb].
        rewrite Et, Ew in Ed. apply frame_inj in Ed as [<- Ed]; [|done|done].
        wp_step. eapply wp_mono; [apply (IH ms d' Hms' (eq_sym Ed))|].
        intros o d2 (got & -> & Hp & Hg). repeat wp_step. exists (m :: got). split; [done|].
        split; [by apply prefix_cons|]. intros Hh Ht Hn. f_equal.
        unfold frames in Ht. cbn [map concat] in Ht. rewrite zlen_app in Ht. fold (frames ms) in Ht.
        pose proof (zlen_nonneg (frames ms)).
        destruct (Hlive _ _ Ew Hm2 Hh) as (_ & _ & Hh' & Ht'); [lia|].
        rewrite Et in Ht'. apply Hg; [done|unfold zlen in *; lia|cbn in Hn; lia].
Qed.

(** C15: transport. A client sends non-empty messages over any connection and a
    server reads what arrived, whatever the sizes of the transfers, interruptions
    and errors on both sides: the server sees a leading part of the messages
    reported as sent, each complete, unaltered and in order. Where all were sent
    and the server's reads do not fail, it sees all of them. *)
Theorem messages_in_order ms n c :
  Forall message_ok ms -> out_wire c = [] ->
  wp (send_messages ms) (fun o c' => exists k, o = Ok k /\
    forall d, in_wire d = out_wire c' ->
    wp (receive_messages n) (fun o' _ => exists got, o' = Ok got /\ got `prefix_of` take k ms /\
      (k = length ms -> (length ms <= n)%nat -> healthy (in_script d) ->
       zlen (out_wire c') <= Z.of_nat (transfers (in_script d)) -> got = ms)) d) c.
Proof.
  intros Hms Hc. eapply wp_mono; [by apply wp_send_messages|].
  intros o c' (k & part & -> & Hk & Ew & Hi & Hall). rewrite Hc in Ew. cbn [app] in Ew.
  exists k. split; [done|]. intros d Hd. rewrite Ew in Hd.
  eapply wp_mono; [apply (wp_receive_messages n (take k ms) part); [by apply Forall_take|done|done]|].
  intros o d' (got & -> & Hp & Hg). exists got. split; [done|]. split; [done|].
  intros -> Hn Hh Ht. rewrite firstn_all in *. apply Hg; [done| |done].
  rewrite Ew, zlen_app in Ht. pose proof (zlen_nonneg part). lia.
Qed.

End Conversation.

(** *** The guarantees at concrete inputs *)
Lemma messages_in_order_witness :
  let c := mk_conn [Transfer 3; Interrupted; Transfer 100; Transfer 100] [] [] [] in
  let ms := [[x61]; [x62; x63]] in
  exists k, (send_messages ms c).1 = Ok k /\
    forall d, in_wire d = out_wire (send_messages ms c).2 -> in_script d = Interrupted :: replicate 20 (Transfer 2) ->
      (receive_messages 2 d).1 = Ok ms.
Proof.
  intros c ms.
  assert (Forall message_ok ms) as Hms by (repeat constructor; vm_compute; congruence).
  pose proof (messages_in_order ms 2 c Hms eq_refl) as (k & Ek & W). exists k. split; [exact Ek|].
  intros d Hd Hs. destruct (W d Hd) as (got & Eg & _ & Hg). rewrite Eg. f_equal. apply Hg.
  - assert ((send_messages ms c).1 = Ok 2%nat) as E by (vm_compute; reflexivity).
    rewrite E in Ek. injection Ek as <-. reflexivity.
  - cbn. lia.
  - rewrite Hs. unfold healthy. apply (bool_decide_unpack _). vm_compute. exact I.
  - rewrite Hs. vm_compute. discriminate.
Defined.
