(* ===== verification/Kernel.v ===== *)
(** * The kernel's descriptors

    What the socket code needs of the operating system: the open descriptors, the
    epoll set and the connections. The answers of the system calls come from an
    environment that may fail any call, choose any unused descriptor number and
    let another thread call [stop] between any two reads of a server's state. *)
From S2P Require Import Prelude TcpSocket.
Local Open Scope Z_scope.

(** ** The kernel *)
Record answer := mk_answer {
  a_ok : bool;      (** the call succeeds *)
  a_fd : Z;         (** the descriptor number it would give *)
  a_port : Z;       (** the port it would report *)
  a_stop : bool;    (** another thread calls [stop] before the next read of the state *)
  a_conn : conn;    (** what a new connection will deliver *)
  a_eintr : bool    (** a failure is [EINTR] *)
}.

Record kernel := mk_kernel {
  open_fds : gset Z;
  interest : gset Z;          (** the epoll set *)
  bad_close : bool;           (** a descriptor was closed that was not open *)
  sockets : gmap Z conn;
  answers : nat -> answer;
  calls : nat
}.

Definition next_answer (k : kernel) : answer := answers k (calls k).
Definition called (k : kernel) : kernel :=
  mk_kernel (open_fds k) (interest k) (bad_close k) (sockets k) (answers k) (S (calls k)).

(** A descriptor that is not in use: the one proposed, or the one above all. *)
Definition unused (n : Z) (used : gset Z) : Z :=
  if decide (0 <= n /\ n ∉ used) then n else 1 + set_fold Z.max (-1) used.

Definition kernel_open (n : Z) (k : kernel) : kernel :=
  mk_kernel ({[ n ]} ∪ open_fds k) (interest k) (bad_close k) (sockets k) (answers k) (calls k).
Definition kernel_connect (n : Z) (c : conn) (k : kernel) : kernel :=
  mk_kernel (open_fds k) (interest k) (bad_close k) (<[n := c]> (sockets k)) (answers k) (calls k).
(** Closing also takes a descriptor out of the epoll set. *)
Definition kernel_close (n : Z) (k : kernel) : kernel :=
  mk_kernel (open_fds k ∖ {[ n ]}) (interest k ∖ {[ n ]}) (bad_close k || bool_decide (n ∉ open_fds k))
    (delete n (sockets k)) (answers k) (calls k).
Definition kernel_watch (n : Z) (k : kernel) : kernel :=
  mk_kernel (open_fds k) ({[ n ]} ∪ interest k) (bad_close k) (sockets k) (answers k) (calls k).
Definition kernel_unwatch (n : Z) (k : kernel) : kernel :=
  mk_kernel (open_fds k) (interest k ∖ {[ n ]}) (bad_close k) (sockets k) (answers k) (calls k).

(** A socket operation on a descriptor; every call fails on a descriptor that is
    not a connection. *)
Definition kernel_socket {A} (n : Z) (m : prog conn A) : prog kernel A := fun k =>
  match sockets k !! n with
  | Some c => match m c with (r, c') => (r, kernel_connect n c' k) end
  | None => ((m (mk_conn [] [] [] [])).1, k)
  end.

(** ** Descriptors in the kernel

    [held F l k]: the open descriptors are those of [F], which belong to others,
    and those of [l], each once; none was closed twice. *)
Definition held (F : gset Z) (l : list Z) (k : kernel) : Prop :=
  NoDup l /\ (forall x, x ∈ open_fds k <-> (x ∈ F \/ x ∈ l)) /\ (forall x, x ∈ l -> (x ∉ F) /\ 0 <= x) /\
  bad_close k = false.

Section Kernel.
Implicit Types (F : gset Z) (l : list Z) (k : kernel).

Lemma held_perm F l l' k : l ≡ₚ l' -> held F l k -> held F l' k.
Proof.
  intros Hp (H1 & H2 & H3 & H4). split; [by rewrite <- Hp|]. split; [|split; [|done]].
  - intros x. by rewrite H2, Hp.
  - intros x. rewrite <- Hp. apply H3.
Qed.

(** A foreign descriptor becomes an own one. *)
Lemma held_adopt F l k n : n ∉ F -> 0 <= n -> n ∉ l -> held ({[ n ]} ∪ F) l k -> held F (n :: l) k.
Proof.
  intros Hn H0 Hl (H1 & H2 & H3 & H4). split; [by constructor|]. split; [|split; [|done]].
  - intros x. rewrite H2, elem_of_cons, elem_of_union, elem_of_singleton. tauto.
  - intros x [->|Hx]%elem_of_cons; [done|]. destruct (H3 x Hx) as [Hx' ?]. split; [|done].
    intros ?. apply Hx'. apply elem_of_union. by right.
Qed.

Lemma held_open F l k n :
  n ∉ open_fds k -> 0 <= n -> held F l k -> (n ∉ F) /\ (n ∉ l) /\ held ({[ n ]} ∪ F) l (kernel_open n k).
Proof.
  intros Hn H0 (H1 & H2 & H3 & H4). rewrite H2 in Hn. split; [tauto|]. split; [tauto|].
  split; [done|]. split; [|split; [|done]]; cbn.
  - intros x. rewrite !elem_of_union, H2. tauto.
  - intros x Hx. destruct (H3 x Hx). split; [|done]. rewrite elem_of_union, elem_of_singleton.
    intros [->|?]; tauto.
Qed.

Lemma held_close_own F l k n : held F (n :: l) k -> held F l (kernel_close n k).
Proof.
  intros (H1 & H2 & H3 & H4). apply NoDup_cons in H1 as [Hn H1].
  split; [done|]. split; [|split]; cbn.
  - intros x. rewrite elem_of_difference, elem_of_singleton, H2, elem_of_cons. split; [tauto|].
    intros [Hx|Hx]; (split; [tauto|intros ->]); [|done].
    by destruct (H3 n ltac:(by left)).
  - intros x Hx. apply H3. by right.
  - rewrite H4, bool_decide_eq_false_2; [done|]. intros Hx. apply Hx, H2. right. by left.
Qed.

Lemma held_close_foreign F l k n : n ∉ F -> held ({[ n ]} ∪ F) l k -> held F l (kernel_close n k).
Proof.
  intros Hn (H1 & H2 & H3 & H4). split; [done|].
  assert (n ∉ l) as Hl.
  { intros Hx. destruct (H3 n Hx) as [Hf _]. apply Hf, elem_of_union_l, elem_of_singleton. done. }
  split; [|split]; cbn.
  - intros x. rewrite elem_of_difference, elem_of_singleton, H2, elem_of_union, elem_of_singleton.
    split; [tauto|]. intros [Hx|Hx]; (split; [tauto|intros ->; tauto]).
  - intros x Hx. destruct (H3 x Hx) as [Hf ?]. split; [|done]. intros Hx'. by apply Hf, elem_of_union_r.
  - rewrite H4, bool_decide_eq_false_2; [done|]. intros Hx. apply Hx, H2. left.
    by apply elem_of_union_l, elem_of_singleton.
Qed.

Lemma max_above (X : gset Z) x : x ∈ X -> x <= set_fold Z.max (-1) X.
Proof.
  apply (set_fold_ind_L (fun r X => forall x, x ∈ X -> x <= r)).
  - intros y Hy. by apply elem_of_empty in Hy.
  - intros y X' r _ IH z. rewrite elem_of_union, elem_of_singleton. intros [->|Hz]; [lia|].
    specialize (IH z Hz). lia.
Qed.

Lemma max_lower (X : gset Z) : -1 <= set_fold Z.max (-1) X.
Proof. apply (set_fold_ind_L (fun r _ => -1 <= r)); intros; lia. Qed.

Lemma unused_fresh n X : (unused n X ∉ X) /\ 0 <= unused n X.
Proof.
  unfold unused. case_decide as H; [tauto|]. split; [|pose proof (max_lower X); lia].
  intros Hx%max_above. lia.
Qed.
End Kernel.
