(* ===== verification/TcpServer.v ===== *)
(** * TcpServer

    [libs/tcp_server/tcp_server.{h,cpp}]: the life cycle of a server, its
    descriptors, and the loop that serves the connections, over the kernel of
    [Kernel]. *)
From S2P Require Import Prelude TcpSocket Kernel.
Local Open Scope Z_scope.

Module Server.
Inductive State := kStopped | kStarting | kRunning | kStopping.

#[export] Instance State_eq_dec : EqDecision State.
Proof. solve_decision. Defined.

Definition kMaxClients : Z := 100.

(** Whether [thread_] is joinable, and if so, whether [run] has returned. *)
Inductive thread := NoThread | Looping | Finished.

#[export] Instance thread_eq_dec : EqDecision thread.
Proof. solve_decision. Defined.

Section Ops.
Context {C : Type} (callback : bytes -> prog C bytes).

Record t := mk {
  epoll_fd_ : Z;
  wakeup_fd_ : Z;
  listening_fd_ : Z;
  requested_port_ : Z;
  bound_port_ : Z;
  client_fd_ : list Z;
  state_ : State;
  thread_ : thread;
  kernel_ : kernel;
  target_ : C;         (** the object the callback is bound to *)
  joining_ : nat;      (** calls of [stop] on their way to the join *)
  finishing_ : nat     (** calls of [stop] after the join *)
}.

Definition set_epoll (n : Z) (s : t) : t :=
  mk n (wakeup_fd_ s) (listening_fd_ s) (requested_port_ s) (bound_port_ s) (client_fd_ s)
     (state_ s) (thread_ s) (kernel_ s) (target_ s) (joining_ s) (finishing_ s).
Definition set_wakeup (n : Z) (s : t) : t :=
  mk (epoll_fd_ s) n (listening_fd_ s) (requested_port_ s) (bound_port_ s) (client_fd_ s)
     (state_ s) (thread_ s) (kernel_ s) (target_ s) (joining_ s) (finishing_ s).
Definition set_listening (n : Z) (s : t) : t :=
  mk (epoll_fd_ s) (wakeup_fd_ s) n (requested_port_ s) (bound_port_ s) (client_fd_ s)
     (state_ s) (thread_ s) (kernel_ s) (target_ s) (joining_ s) (finishing_ s).
Definition set_bound_port (n : Z) (s : t) : t :=
  mk (epoll_fd_ s) (wakeup_fd_ s) (listening_fd_ s) (requested_port_ s) n (client_fd_ s)
     (state_ s) (thread_ s) (kernel_ s) (target_ s) (joining_ s) (finishing_ s).
Definition set_clients (l : list Z) (s : t) : t :=
  mk (epoll_fd_ s) (wakeup_fd_ s) (listening_fd_ s) (requested_port_ s) (bound_port_ s) l
     (state_ s) (thread_ s) (kernel_ s) (target_ s) (joining_ s) (finishing_ s).
Definition set_state (x : State) (s : t) : t :=
  mk (epoll_fd_ s) (wakeup_fd_ s) (listening_fd_ s) (requested_port_ s) (bound_port_ s) (client_fd_ s)
     x (thread_ s) (kernel_ s) (target_ s) (joining_ s) (finishing_ s).
Definition set_thread (x : thread) (s : t) : t :=
  mk (epoll_fd_ s) (wakeup_fd_ s) (listening_fd_ s) (requested_port_ s) (bound_port_ s) (client_fd_ s)
     (state_ s) x (kernel_ s) (target_ s) (joining_ s) (finishing_ s).
Definition set_kernel (k : kernel) (s : t) : t :=
  mk (epoll_fd_ s) (wakeup_fd_ s) (listening_fd_ s) (requested_port_ s) (bound_port_ s) (client_fd_ s)
     (state_ s) (thread_ s) k (target_ s) (joining_ s) (finishing_ s).
Definition set_target (c : C) (s : t) : t :=
  mk (epoll_fd_ s) (wakeup_fd_ s) (listening_fd_ s) (requested_port_ s) (bound_port_ s) (client_fd_ s)
     (state_ s) (thread_ s) (kernel_ s) c (joining_ s) (finishing_ s).
Definition set_stops (j f : nat) (s : t) : t :=
  mk (epoll_fd_ s) (wakeup_fd_ s) (listening_fd_ s) (requested_port_ s) (bound_port_ s) (client_fd_ s)
     (state_ s) (thread_ s) (kernel_ s) (target_ s) j f.

Definition create (port : Z) (k : kernel) (c : C) : t :=
  mk (-1) (-1) (-1) port 0 [] kStopped NoThread k c 0 0.

Definition on_kernel (f : kernel -> kernel) : prog t unit :=
  modify (fun s => set_kernel (f (kernel_ s)) s).

(** *** System calls *)
Definition ask : prog t answer := fun s =>
  (Ok (next_answer (kernel_ s)), set_kernel (called (kernel_ s)) s).

(** A call that only succeeds or fails. *)
Definition call : prog t bool := a ← ask; mret (a_ok a).

(** A call that gives a new descriptor, -1 on failure. *)
Definition open_descriptor : prog t Z :=
  a ← ask;
  if a_ok a then
    k ← gets kernel_;
    let n := unused (a_fd a) (open_fds k) in
    on_kernel (kernel_open n);;
    mret n
  else mret (-1).

Definition close (fd : Z) : prog t unit := on_kernel (kernel_close fd).

Definition setNonBlocking (fd : Z) : prog t bool :=
  got ← call;
  if negb got then mret false else call.

Definition setSocketTimeouts (fd : Z) : prog t bool :=
  sent ← call;
  if negb sent then mret false else call.

(** [stop] up to the join. *)
Definition request_stop (s : t) : t :=
  match state_ s with
  | kStarting => s
  | kRunning => set_stops (S (joining_ s)) (finishing_ s) (set_state kStopping s)
  | _ => set_stops (S (joining_ s)) (finishing_ s) s
  end.

(** A read of the state; another thread may have called [stop] before it. *)
Definition load_state : prog t State :=
  a ← ask;
  (if a_stop a then modify (fun s => if decide (state_ s = kRunning) then request_stop s else s)
   else mret tt);;
  gets state_.

(** *** Descriptors *)
Definition registerFd (fd : Z) (client : bool) : prog t bool :=
  ok ← setNonBlocking fd;
  if negb ok then mret false else
  added ← call;
  if negb added then mret false else
  on_kernel (kernel_watch fd);;
  if client then
    ok ← setSocketTimeouts fd;
    if negb ok then on_kernel (kernel_unwatch fd);; mret false else
    modify (fun s => set_clients (client_fd_ s ++ [fd]) s);;
    mret true
  else mret true.

(** [erase] of the first occurrence. *)
Fixpoint erase (fd : Z) (l : list Z) : list Z :=
  match l with
  | [] => []
  | x :: l' => if decide (x = fd) then l' else x :: erase fd l'
  end.

Definition unregisterFd (fd : Z) : prog t unit :=
  epoll ← gets epoll_fd_;
  (if 0 <=? epoll then on_kernel (kernel_unwatch fd) else mret tt);;
  modify (fun s => set_clients (erase fd (client_fd_ s)) s);;
  close fd.

(** [while (!client_fd_.empty()) unregisterFd(client_fd_.back())] *)
Fixpoint close_clients (fuel : nat) : prog t unit :=
  clients ← gets client_fd_;
  match last clients with
  | None => mret tt
  | Some fd =>
      match fuel with
      | O => throw OutOfFuel
      | S n => unregisterFd fd;; close_clients n
      end
  end.

Definition closeClientFds : prog t unit :=
  clients ← gets client_fd_;
  close_clients (length clients).

Definition close_listening : prog t unit :=
  fd ← gets listening_fd_;
  if 0 <=? fd then close fd;; modify (set_listening (-1)) else mret tt.

Definition close_wakeup : prog t unit :=
  fd ← gets wakeup_fd_;
  if 0 <=? fd then
    epoll ← gets epoll_fd_;
    (if 0 <=? epoll then on_kernel (kernel_unwatch fd) else mret tt);;
    close fd;;
    modify (set_wakeup (-1))
  else mret tt.

Definition closeStartupDescriptors : prog t unit :=
  closeClientFds;;
  close_listening;;
  close_wakeup;;
  fd ← gets epoll_fd_;
  if 0 <=? fd then close fd;; modify (set_epoll (-1)) else mret tt.

(** *** Starting and stopping *)
Definition fail_start : prog t bool :=
  closeStartupDescriptors;;
  modify (set_state kStopped);;
  mret false.

(** Assigning to [thread_] while it is joinable ends the program. *)
Definition start : prog t bool :=
  current ← gets state_;
  if negb (bool_decide (current = kStopped)) then mret false else
  modify (set_state kStarting);;
  epoll ← open_descriptor;
  modify (set_epoll epoll);;
  if epoll <? 0 then fail_start else
  wakeup ← open_descriptor;
  modify (set_wakeup wakeup);;
  ok ← (if wakeup <? 0 then mret false else setNonBlocking wakeup);
  if negb ok then fail_start else
  listening ← open_descriptor;
  modify (set_listening listening);;
  ok ← (if listening <? 0 then mret false else setNonBlocking listening);
  if negb ok then fail_start else
  ok ← and_also call (setSocketTimeouts listening);
  if negb ok then fail_start else
  ok ← and_also call call;
  if negb ok then fail_start else
  name ← ask;
  if negb (a_ok name) then fail_start else
  modify (set_bound_port (a_port name));;
  ok ← and_also (registerFd wakeup false) (registerFd listening false);
  if negb ok then fail_start else
  modify (set_state kRunning);;
  created ← call;
  if negb created then fail_start else
  old ← gets thread_;
  if negb (bool_decide (old = NoThread)) then throw Terminate else
  modify (set_thread Looping);;
  mret true.

(** The join of [stop], when the thread has ended or there is none. *)
Definition join (s : t) : t :=
  set_stops (joining_ s - 1) (S (finishing_ s)) (set_thread NoThread s).

(** [stop] after the join. *)
Definition stop_finish : prog t unit :=
  closeStartupDescriptors;;
  modify (set_bound_port 0);;
  modify (set_state kStopped);;
  modify (fun s => set_stops (joining_ s) (finishing_ s - 1) s).

(** *** Serving *)
(** Every call fails on a descriptor that is not a connection. *)
Definition on_socket {A} (fd : Z) (m : prog conn A) : prog t A := fun s =>
  match sockets (kernel_ s) !! fd with
  | Some c =>
      match m c with
      | (r, c') => (r, set_kernel (kernel_connect fd c' (kernel_ s)) s)
      end
  | None => ((m (mk_conn [] [] [] [])).1, s)
  end.

(** False when the connection is to be dropped. *)
Definition handleLogRequest (fd : Z) : prog t bool :=
  buffer ← on_socket fd TcpSocket.readData;
  if bool_decide (buffer = []) then mret false else
  st ← load_state;
  if negb (bool_decide (st = kRunning)) then mret false else
  catch_all
    (st ← load_state;
     if negb (bool_decide (st = kRunning)) then mret false else
     result ← zoom target_ set_target (callback buffer);
     (if bool_decide (result = []) then mret tt
      else
        st ← load_state;
        if bool_decide (st = kRunning)
        then _ ← on_socket fd (TcpSocket.sendData result); mret tt
        else mret tt);;
     mret true)
    (mret false).

Definition accept_client : prog t unit :=
  a ← ask;
  if negb (a_ok a) then mret tt else
  k ← gets kernel_;
  let client := unused (a_fd a) (open_fds k) in
  on_kernel (kernel_open client);;
  on_kernel (kernel_connect client (a_conn a));;
  st ← load_state;
  ok ← (if bool_decide (st = kRunning) then registerFd client true else mret false);
  if negb (ok : bool) then close client else mret tt.

(** One event: a descriptor, and whether it can be read. True to leave the loop. *)
Definition handle_event (event : Z * bool) : prog t bool :=
  wakeup ← gets wakeup_fd_;
  if fst event =? wakeup then mret true else
  st ← load_state;
  if negb (bool_decide (st = kRunning)) then mret true else
  listening ← gets listening_fd_;
  if fst event =? listening then accept_client;; mret false
  else if snd event then
    ok ← handleLogRequest (fst event);
    (if negb (ok : bool) then unregisterFd (fst event) else mret tt);;
    mret false
  else unregisterFd (fst event);; mret false.

Fixpoint handle_events (events : list (Z * bool)) : prog t bool :=
  match events with
  | [] => mret false
  | event :: rest =>
      leave ← handle_event event;
      if (leave : bool) then mret true else handle_events rest
  end.

(** What [epoll_wait] returns. *)
Inductive wait_result :=
| WaitInterrupted
| WaitFailed
| Events (events : list (Z * bool)).

(** One round of the loop of [run]; true when it is left, also by an exception. *)
Definition round (w : wait_result) : prog t bool :=
  match w with
  | WaitInterrupted => mret false
  | WaitFailed => mret true
  | Events events => catch_all (handle_events events) (mret true)
  end.

Definition run_end : prog t unit :=
  closeClientFds;;
  close_listening;;
  modify (set_thread Finished).

Definition run_round (w : wait_result) : prog t unit :=
  leave ← round w;
  if (leave : bool) then run_end else mret tt.

(** *** Interleavings

    [start], the parts of [stop] and the rounds of the loop are the steps. A batch
    of events has each watched descriptor at most once. *)
Definition batch_ok (s : t) (w : wait_result) : Prop :=
  match w with
  | Events events => NoDup (map fst events) /\ forall e, e ∈ events -> fst e ∈ interest (kernel_ s)
  | _ => True
  end.

Inductive step : t -> t -> Prop :=
| step_start s : step s (start s).2
| step_stop s : step s (request_stop s)
| step_join s : (0 < joining_ s)%nat -> thread_ s <> Looping -> step s (join s)
| step_finish s : (0 < finishing_ s)%nat -> step s (stop_finish s).2
| step_round s w : thread_ s = Looping -> batch_ok s w -> step s (run_round w s).2.

(** One thread at a time calls [start] and [stop]. *)
Definition no_stop (s : t) : Prop := joining_ s = 0%nat /\ finishing_ s = 0%nat.

Inductive owned_step : t -> t -> Prop :=
| owned_start s : no_stop s -> owned_step s (start s).2
| owned_stop s : no_stop s -> owned_step s (request_stop s)
| owned_join s : (0 < joining_ s)%nat -> thread_ s <> Looping -> owned_step s (join s)
| owned_finish s : (0 < finishing_ s)%nat -> owned_step s (stop_finish s).2
| owned_round s w : thread_ s = Looping -> batch_ok s w -> owned_step s (run_round w s).2.
End Ops.
Arguments t C : clear implicits.
End Server.
