(* ===== verification/TcpServerSpec.v ===== *)
(** * Descriptors of the server

    What each operation of the server does to the descriptors it owns: every one
    is closed exactly once, a failed start leaves nothing open, and the loop keeps
    to the descriptors it watches. *)
From S2P Require Import Prelude TcpSocket Kernel TcpServer.
Local Open Scope Z_scope.

(** ** Descriptors of the server *)
Section Descriptors.
Context {C : Type} (callback : bytes -> prog C bytes).
Import Server.
Implicit Types (s : t C) (F : gset Z).

Definition slot (n : Z) : list Z := if 0 <=? n then [n] else [].
Definition own_fds (s : t C) : list Z :=
  slot (epoll_fd_ s) ++ slot (wakeup_fd_ s) ++ slot (listening_fd_ s) ++ client_fd_ s.

Definition owns F (s : t C) : Prop := held F (own_fds s) (kernel_ s).

(** What is watched is the wake-up descriptor, the listening one or a client. *)
Definition watched (s : t C) (x : Z) : Prop :=
  (x = wakeup_fd_ s \/ x = listening_fd_ s \/ x ∈ client_fd_ s).
Definition watches (s : t C) : Prop := forall x, x ∈ interest (kernel_ s) -> 0 <= x /\ watched s x.

Definition good F (s : t C) : Prop := owns F s /\ watches s.

(** A program that only makes system calls. *)
Definition quiet {A} (m : prog (t C) A) : Prop := forall s F, good F s ->
  wp m (fun o s' => exists a k, o = Ok a /\ s' = set_kernel k s /\ good F s') s.

Lemma set_kernel_twice k k' s : set_kernel k' (set_kernel k s) = set_kernel k' s.
Proof. done. Qed.

Lemma set_kernel_same s : set_kernel (kernel_ s) s = s.
Proof. by destruct s. Qed.

Lemma no_clients s : client_fd_ s = [] -> set_clients [] s = s.
Proof. destruct s; cbn. by intros ->. Qed.

Lemma good_called F s : good F s -> good F (set_kernel (called (kernel_ s)) s).
Proof. intros [Ho Hw]. done. Qed.

Lemma quiet_ask : quiet ask.
Proof. intros s F Hg. unfold wp, ask. cbn. eexists _, _. split; [done|]. split; [done|]. by apply good_called. Qed.

Lemma quiet_ret {A} (a : A) : quiet (mret a).
Proof. intros s F Hg. wp_step. exists a, (kernel_ s). by rewrite set_kernel_same. Qed.

Lemma quiet_bind {A B} (m : prog (t C) A) (f : A -> prog (t C) B) :
  quiet m -> (forall a, quiet (f a)) -> quiet (m ≫= f).
Proof.
  intros Hm Hf s F Hg. wp_step. eapply wp_mono; [by apply (Hm s F)|].
  intros o s1 (a & k & -> & -> & Hg1). cbn [wp_rest].
  eapply wp_mono; [by apply (Hf a _ F)|]. intros o s2 (b & k2 & -> & -> & Hg2).
  eexists _, _. done.
Qed.

Lemma quiet_and_also (m n : prog (t C) bool) : quiet m -> quiet n -> quiet (and_also m n).
Proof.
  intros Hm Hn. apply quiet_bind; [done|]. intros []; [done|]. apply quiet_ret.
Qed.

Lemma quiet_call : quiet (call : prog (t C) bool).
Proof. apply quiet_bind; [apply quiet_ask|intros]. apply quiet_ret. Qed.

Lemma quiet_setNonBlocking fd : quiet (setNonBlocking fd).
Proof. apply quiet_bind; [apply quiet_call|]. intros []; [apply quiet_call|apply quiet_ret]. Qed.

Lemma quiet_setSocketTimeouts fd : quiet (setSocketTimeouts fd).
Proof. apply quiet_bind; [apply quiet_call|]. intros []; [apply quiet_call|apply quiet_ret]. Qed.

Lemma wp_quiet {A} (m : prog (t C) A) (Q : outcome A -> t C -> Prop) s F :
  quiet m -> good F s -> (forall a k, good F (set_kernel k s) -> Q (Ok a) (set_kernel k s)) -> wp m Q s.
Proof.
  intros Hm Hg HQ. eapply wp_mono; [by apply (Hm s F)|]. intros o s' (a & k & -> & -> & Hg'). by apply HQ.
Qed.

(** *** New descriptors *)
Lemma wp_open_descriptor s F :
  good F s ->
  wp open_descriptor (fun o s' => exists n k, o = Ok n /\ s' = set_kernel k s /\
    ((n = -1 /\ good F s') \/
     (0 <= n /\ (n ∉ F) /\ (n ∉ own_fds s) /\ good ({[ n ]} ∪ F) s'))) s.
Proof.
  intros Hg. unfold open_descriptor. wp_step. apply (wp_quiet _ _ s F quiet_ask Hg).
  intros a k Hg1. cbn [wp_rest]. wp_step.
  2: { wp_step. eexists _, _. split; [done|]. split; [done|]. by left. }
  wp_step. wp_step. cbn [wp_rest]. wp_step. unfold on_kernel. wp_step. cbn [wp_rest]. wp_step.
  cbn [kernel_ set_kernel]. destruct (unused_fresh (a_fd a) (open_fds k)) as [Hn H0].
  eexists _, _. split; [done|]. split; [done|]. right.
  destruct Hg1 as [Ho Hw]. destruct (held_open _ _ _ _ Hn H0 Ho) as (H1 & H2 & H3). done.
Qed.

Ltac slots := unfold own_fds, slot in *; cbn [epoll_fd_ wakeup_fd_ listening_fd_ client_fd_
  set_epoll set_wakeup set_listening set_clients set_kernel set_state set_thread set_bound_port
  set_target set_stops kernel_] in *.

Lemma slot_neg n : n < 0 -> slot n = [].
Proof. intros. unfold slot. by rewrite (proj2 (Z.leb_gt _ _)) by lia. Qed.

Lemma slot_pos n : 0 <= n -> slot n = [n].
Proof. intros. unfold slot. by rewrite (proj2 (Z.leb_le _ _)) by lia. Qed.

Lemma good_adopt s s' F n :
  good ({[ n ]} ∪ F) s -> n ∉ F -> n ∉ own_fds s -> 0 <= n -> own_fds s' ≡ₚ n :: own_fds s ->
  kernel_ s' = kernel_ s -> (forall x, 0 <= x -> watched s x -> watched s' x) -> good F s'.
Proof.
  intros [Ho Hw] Hf Hn H0 Hp Ek Hx. split.
  - unfold owns. rewrite Ek. eapply held_perm; [symmetry; exact Hp|]. by apply held_adopt.
  - intros x. rewrite Ek. intros [H1 H2]%Hw. auto.
Qed.

Lemma good_set_epoll s F n :
  good ({[ n ]} ∪ F) s -> n ∉ F -> n ∉ own_fds s -> 0 <= n -> epoll_fd_ s < 0 -> good F (set_epoll n s).
Proof.
  intros Hg Hf Hn H0 He. eapply good_adopt; try done.
  unfold own_fds. cbn. by rewrite (slot_neg (epoll_fd_ s)), (slot_pos n).
Qed.

Lemma good_set_wakeup s F n :
  good ({[ n ]} ∪ F) s -> n ∉ F -> n ∉ own_fds s -> 0 <= n -> wakeup_fd_ s < 0 -> good F (set_wakeup n s).
Proof.
  intros Hg Hf Hn H0 He. eapply good_adopt; try done.
  - unfold own_fds. cbn. rewrite (slot_neg (wakeup_fd_ s)), (slot_pos n) by done. cbn [app].
    symmetry. apply Permutation_middle.
  - intros x Hx [->|[Hw|Hw]]; unfold watched; cbn; [lia|tauto|tauto].
Qed.

Lemma good_set_listening s F n :
  good ({[ n ]} ∪ F) s -> n ∉ F -> n ∉ own_fds s -> 0 <= n -> listening_fd_ s < 0 ->
  good F (set_listening n s).
Proof.
  intros Hg Hf Hn H0 He. eapply good_adopt; try done.
  - unfold own_fds. cbn. rewrite (slot_neg (listening_fd_ s)), (slot_pos n) by done. cbn [app].
    rewrite (app_assoc (slot (epoll_fd_ s))), (app_assoc (slot (epoll_fd_ s)) _ (client_fd_ s)).
    symmetry. apply Permutation_middle.
  - intros x Hx [Hw|[->|Hw]]; unfold watched; cbn; [tauto|lia|tauto].
Qed.

Lemma good_add_client s F n :
  good ({[ n ]} ∪ F) s -> n ∉ F -> n ∉ own_fds s -> 0 <= n ->
  good F (set_clients (client_fd_ s ++ [n]) s).
Proof.
  intros Hg Hf Hn H0. eapply good_adopt; try done.
  - unfold own_fds. cbn. rewrite !app_assoc. by rewrite <- Permutation_cons_append.
  - intros x Hx Hw. unfold watched in *. cbn. rewrite elem_of_app. tauto.
Qed.

(** *** Closing *)
Lemma erase_perm fd l : fd ∈ l -> l ≡ₚ fd :: erase fd l.
Proof.
  induction l as [|x l IH]; [by intros ?%not_elem_of_nil|]. cbn.
  case_decide as E; [by subst x|]. intros [->|Hl]%elem_of_cons; [done|].
  rewrite (IH Hl) at 1. apply Permutation_swap.
Qed.

Lemma watches_close s x n :
  watches s -> x ∈ interest (kernel_close n (kernel_ s)) -> x <> n /\ 0 <= x /\ watched s x.
Proof.
  intros Hw. cbn. rewrite elem_of_difference, elem_of_singleton. intros [Hx Hn]. split; [done|]. by apply Hw.
Qed.

Lemma wp_unregisterFd fd s F :
  good F s -> fd ∈ client_fd_ s ->
  wp (unregisterFd fd) (fun o s' => o = Ok tt /\ exists k,
    s' = set_clients (erase fd (client_fd_ s)) (set_kernel k s) /\ good F s') s.
Proof.
  intros Hg Hfd. unfold unregisterFd. wp_step. wp_step. cbn [wp_rest]. wp_step.
  assert (exists k, kernel_unwatch fd (kernel_ s) = k) as [_ _] by eauto.
  set (P := fun s1 => exists k, s1 = set_kernel k s /\ owns F s1 /\
    forall x, x ∈ interest k -> 0 <= x /\ watched s x).
  assert (wp (if 0 <=? epoll_fd_ s then on_kernel (kernel_unwatch fd) else mret tt)
    (fun o s1 => o = Ok tt /\ P s1) s) as W.
  { destruct Hg as [Ho Hw]. unfold on_kernel. wp_step; wp_step; (split; [done|]).
    - exists (kernel_unwatch fd (kernel_ s)). split; [done|]. split; [exact Ho|].
      intros x. cbn. rewrite elem_of_difference. intros [Hx _]. by apply Hw.
    - exists (kernel_ s). by rewrite set_kernel_same. }
  eapply wp_mono; [exact W|]. intros o s1 (-> & k & -> & Ho & Hw). cbn [wp_rest].
  wp_step. wp_step. cbn [wp_rest]. unfold close, on_kernel. wp_step. split; [done|].
  eexists. split; [reflexivity|]. cbn.
  pose proof (erase_perm _ _ Hfd) as Hp. split.
  - unfold owns in *. cbn in *. apply held_close_own. eapply held_perm; [|exact Ho].
    slots. rewrite Hp at 1. rewrite !app_assoc. by rewrite <- Permutation_middle.
  - intros x. cbn. rewrite elem_of_difference, elem_of_singleton. intros [[Hx Hw'%id]%Hw Hne].
    split; [done|]. unfold watched in *. cbn in *.
    destruct Hw' as [?|[?|Hc]]; [tauto|tauto|]. rewrite Hp in Hc. apply elem_of_cons in Hc. tauto.
Qed.

Lemma wp_close_clients n s F :
  good F s -> (length (client_fd_ s) <= n)%nat ->
  wp (close_clients n) (fun o s' => o = Ok tt /\ exists k, s' = set_clients [] (set_kernel k s) /\ good F s') s.
Proof.
  revert s. induction n as [|n IH]; intros s Hg Hn; cbn [close_clients]; wp_step; wp_step; cbn [wp_rest].
  - destruct (client_fd_ s) eqn:E; [|cbn in Hn; lia]. cbn. wp_step. split; [done|].
    exists (kernel_ s). rewrite set_kernel_same. rewrite (no_clients s) by done.
    done.
  - destruct (last (client_fd_ s)) as [fd|] eqn:E.
    + apply last_Some in E as [l E]. wp_step.
      assert (fd ∈ client_fd_ s) as Hfd by (rewrite E; apply elem_of_app; right; by left).
      eapply wp_mono; [by apply (wp_unregisterFd fd s F)|]. intros o s1 (-> & k & -> & Hg1). cbn [wp_rest].
      eapply wp_mono; [apply IH; [done|]|].
      * cbn. pose proof (erase_perm _ _ Hfd) as Hp. apply Permutation_length in Hp. cbn in Hp. lia.
      * intros o s2 (-> & k2 & -> & Hg2). split; [done|]. by exists k2.
    + apply last_None in E. wp_step. split; [done|]. exists (kernel_ s). rewrite set_kernel_same.
      rewrite (no_clients s) by done. done.
Qed.

Lemma wp_closeClientFds s F :
  good F s ->
  wp closeClientFds (fun o s' => o = Ok tt /\ exists k, s' = set_clients [] (set_kernel k s) /\ good F s') s.
Proof. intros Hg. unfold closeClientFds. wp_step. wp_step. cbn [wp_rest]. by apply wp_close_clients. Qed.

(** What closing leaves alone. *)
Definition same_control s s' : Prop :=
  state_ s' = state_ s /\ thread_ s' = thread_ s /\ joining_ s' = joining_ s /\
  finishing_ s' = finishing_ s /\ target_ s' = target_ s /\ bound_port_ s' = bound_port_ s.

Lemma same_control_trans s1 s2 s3 : same_control s1 s2 -> same_control s2 s3 -> same_control s1 s3.
Proof. unfold same_control. intuition congruence. Qed.

(** Closing an own descriptor that is not watched any more under another name. *)
Lemma good_close s s' F n :
  good F s -> own_fds s ≡ₚ n :: own_fds s' -> kernel_ s' = kernel_close n (kernel_ s) ->
  (forall x, x <> n -> 0 <= x -> watched s x -> watched s' x) -> good F s'.
Proof.
  intros [Ho Hw] Hp Ek Hx. split.
  - unfold owns. rewrite Ek. apply held_close_own. by eapply held_perm.
  - intros x. rewrite Ek. intros (H1 & H2 & H3)%watches_close; auto.
Qed.

Lemma wp_close_listening s F :
  good F s ->
  wp close_listening (fun o s' => o = Ok tt /\ exists k n, n < 0 /\
    s' = set_listening n (set_kernel k s) /\ good F s') s.
Proof.
  intros Hg. unfold close_listening. wp_step. wp_step. cbn [wp_rest]. wp_step.
  - apply Z.leb_le in Heqb. unfold close, on_kernel. wp_step. wp_step. cbn [wp_rest]. wp_step.
    split; [done|]. exists (kernel_close (listening_fd_ s) (kernel_ s)), (-1).
    split; [lia|]. split; [done|]. eapply good_close; [exact Hg| |done|].
    + unfold own_fds. cbn. rewrite (slot_pos (listening_fd_ s)) by done. cbn [app].
      rewrite (app_assoc (slot (epoll_fd_ s))), (app_assoc (slot (epoll_fd_ s)) _ (client_fd_ s)).
      symmetry. apply Permutation_middle.
    + intros x Hx H0 [Hw|[->|Hw]]; unfold watched; cbn; [tauto|done|tauto].
  - apply Z.leb_gt in Heqb. wp_step. split; [done|]. exists (kernel_ s), (listening_fd_ s).
    split; [done|]. assert (set_listening (listening_fd_ s) (set_kernel (kernel_ s) s) = s) as -> by (by destruct s).
    done.
Qed.

Lemma good_unwatch F s n : good F s -> good F (set_kernel (kernel_unwatch n (kernel_ s)) s).
Proof.
  intros [Ho Hw]. split; [exact Ho|]. intros x. cbn. rewrite elem_of_difference. intros [Hx _].
  by apply Hw.
Qed.

Lemma wp_close_wakeup s F :
  good F s ->
  wp close_wakeup (fun o s' => o = Ok tt /\ exists k n, n < 0 /\
    s' = set_wakeup n (set_kernel k s) /\ good F s') s.
Proof.
  intros Hg. unfold close_wakeup. wp_step. wp_step. cbn [wp_rest]. wp_step.
  2: { apply Z.leb_gt in Heqb. wp_step. split; [done|]. exists (kernel_ s), (wakeup_fd_ s).
       split; [done|]. assert (set_wakeup (wakeup_fd_ s) (set_kernel (kernel_ s) s) = s) as -> by (by destruct s).
       done. }
  apply Z.leb_le in Heqb. wp_step. wp_step. cbn [wp_rest].
  assert (wp (if 0 <=? epoll_fd_ s then on_kernel (kernel_unwatch (wakeup_fd_ s)) else mret tt)
    (fun o s1 => o = Ok tt /\ exists k, s1 = set_kernel k s /\ good F s1) s) as W.
  { unfold on_kernel. wp_step; wp_step; (split; [done|]).
    - eexists. split; [done|]. by apply good_unwatch.
    - exists (kernel_ s). by rewrite set_kernel_same. }
  wp_step. eapply wp_mono; [exact W|]. intros o s1 (-> & k & -> & Hg1). cbn [wp_rest].
  unfold close, on_kernel. wp_step. wp_step. cbn [wp_rest]. wp_step. split; [done|].
  exists (kernel_close (wakeup_fd_ s) k), (-1). split; [lia|]. split; [done|].
  eapply good_close; [exact Hg1| |done|].
  - unfold own_fds. cbn. rewrite (slot_pos (wakeup_fd_ s)) by done. cbn [app].
    symmetry. apply Permutation_middle.
  - intros x Hx H0 [->|[Hw|Hw]]; unfold watched; cbn; [done|tauto|tauto].
Qed.

(** Everything is closed, once. *)
Lemma wp_closeStartupDescriptors s F :
  good F s ->
  wp closeStartupDescriptors (fun o s' => o = Ok tt /\ good F s' /\ own_fds s' = [] /\ same_control s s') s.
Proof.
  intros Hg. unfold closeStartupDescriptors. wp_step.
  eapply wp_mono; [by apply wp_closeClientFds|]. intros o s1 (-> & k1 & -> & Hg1). cbn [wp_rest].
  wp_step. eapply wp_mono; [by apply wp_close_listening|]. intros o s2 (-> & k2 & n2 & Hn2 & -> & Hg2).
  cbn [wp_rest].
  wp_step. eapply wp_mono; [by apply wp_close_wakeup|].
  intros o s3 (-> & k3 & n3 & Hn3 & -> & Hg3). cbn [wp_rest].
  wp_step. wp_step. cbn [wp_rest]. cbn [epoll_fd_ set_wakeup set_listening set_clients set_kernel].
  wp_step.
  - apply Z.leb_le in Heqb. unfold close, on_kernel. wp_step. wp_step. cbn [wp_rest]. wp_step.
    split; [done|]. split; [|split; [|done]].
    + eapply good_close; [exact Hg3| |done|].
      * unfold own_fds. cbn. rewrite (slot_pos (epoll_fd_ s)) by done. done.
      * intros x Hx H0 Hw. exact Hw.
    + unfold own_fds. cbn. by rewrite !slot_neg.
  - apply Z.leb_gt in Heqb. wp_step. split; [done|]. split; [done|]. split; [|done].
    unfold own_fds. cbn. by rewrite !slot_neg.
Qed.

(** *** Starting *)
Lemma good_set_state F s x : good F s -> good F (set_state x s).
Proof. done. Qed.

Lemma wp_fail_start s F :
  good F s -> wp fail_start (fun o s' => o = Ok false /\ good F s' /\ own_fds s' = [] /\
    state_ s' = kStopped /\ thread_ s' = thread_ s /\ joining_ s' = joining_ s /\
    finishing_ s' = finishing_ s) s.
Proof.
  intros Hg. unfold fail_start. wp_step. eapply wp_mono; [by apply wp_closeStartupDescriptors|].
  intros o s' (-> & Hg' & Hn & (H1 & H2 & H3 & H4 & H5 & H6)). repeat wp_step. done.
Qed.

(** Registration of the descriptors of the server itself. *)
Lemma wp_registerFd_own fd s F (Q : outcome bool -> t C -> Prop) :
  good F s -> 0 <= fd -> fd = wakeup_fd_ s \/ fd = listening_fd_ s ->
  (forall b k, good F (set_kernel k s) -> Q (Ok b) (set_kernel k s)) ->
  wp (registerFd fd false) Q s.
Proof.
  intros Hg H0 Hfd HQ. unfold registerFd. wp_step.
  apply (wp_quiet _ _ s F (quiet_setNonBlocking fd) Hg). intros b k Hg1. cbn [wp_rest].
  destruct b; cbn [negb]; [|wp_step; by apply HQ]. wp_step.
  apply (wp_quiet _ _ _ F quiet_call Hg1). intros b k2 Hg2. cbn [wp_rest].
  destruct b; cbn [negb]; [|wp_step; by apply (HQ false k2)]. wp_step. unfold on_kernel. wp_step.
  cbn [wp_rest]. wp_step. apply (HQ true (kernel_watch fd k2)). destruct Hg2 as [Ho Hw]. split; [exact Ho|].
  intros x. cbn. rewrite elem_of_union, elem_of_singleton. intros [->|Hx]; [|by apply Hw].
  split; [done|]. unfold watched. cbn. tauto.
Qed.

(** The descriptors of a server that has started. *)
Definition started s : Prop :=
  0 <= epoll_fd_ s /\ 0 <= wakeup_fd_ s /\ 0 <= listening_fd_ s /\ state_ s = kRunning /\
  thread_ s = Looping.

Lemma own_fds_none s :
  own_fds s = [] -> epoll_fd_ s < 0 /\ wakeup_fd_ s < 0 /\ listening_fd_ s < 0 /\ client_fd_ s = [].
Proof.
  unfold own_fds, slot. repeat case_match; try done. cbn [app]. intros Hc.
  split_and!; try done; by apply Z.leb_gt.
Qed.

(** A new descriptor goes into an empty slot, -1 leaves it empty. *)
Lemma wp_new_slot {A} (put : Z -> t C -> t C) (f : Z -> prog (t C) A) (Q : outcome A -> t C -> Prop) s F :
  good F s ->
  (forall n k, good ({[ n ]} ∪ F) (set_kernel k s) -> n ∉ F -> n ∉ own_fds s -> 0 <= n ->
     good F (put n (set_kernel k s))) ->
  (forall k, good F (set_kernel k s) -> good F (put (-1) (set_kernel k s))) ->
  (forall n k, -1 <= n -> good F (put n (set_kernel k s)) -> wp (f n) Q (put n (set_kernel k s))) ->
  wp (n ← open_descriptor; modify (put n);; f n) Q s.
Proof.
  intros Hg Hput Hnone Hf. wp_step. eapply wp_mono; [by apply (wp_open_descriptor _ F)|].
  intros o s1 (n & k & -> & -> & [[-> Hg1]|(H0 & H1 & H2 & Hg1)]); cbn [wp_rest]; wp_step; wp_step;
    cbn [wp_rest]; apply Hf; try lia; auto.
Qed.

Lemma good_same F s s' :
  good F s -> own_fds s' = own_fds s -> kernel_ s' = kernel_ s ->
  (forall x, 0 <= x -> watched s x -> watched s' x) -> good F s'.
Proof.
  intros [Ho Hw] E1 E2 H. split; [by unfold owns in *; rewrite E1, E2|].
  intros x. rewrite E2. intros [H1 H2]%Hw. auto.
Qed.

(** The way to a started server: the slots so far, and what does not change. *)
Record begun F (s0 : t C) (e w l : Z) (s : t C) : Prop := {
  bg_good : good F s;
  bg_epoll : epoll_fd_ s = e;
  bg_wakeup : wakeup_fd_ s = w;
  bg_listening : listening_fd_ s = l;
  bg_clients : client_fd_ s = [];
  bg_thread : thread_ s = thread_ s0;
  bg_joining : joining_ s = joining_ s0;
  bg_finishing : finishing_ s = finishing_ s0
}.

Definition start_post F (s0 : t C) (o : outcome bool) (s' : t C) : Prop :=
  good F s' /\ joining_ s' = joining_ s0 /\ finishing_ s' = finishing_ s0 /\
  ((o = Ok true /\ started s' /\ client_fd_ s' = []) \/
   (o = Ok false /\ state_ s' = kStopped /\ own_fds s' = [] /\ thread_ s' = thread_ s0)).

Section Starting.
Context (F : gset Z) (s0 : t C).

Lemma begun_fail e w l s : begun F s0 e w l s -> wp fail_start (start_post F s0) s.
Proof.
  intros [Hg _ _ _ _ Et Ej Ef]. eapply wp_mono; [by apply wp_fail_start|].
  intros o s' (-> & H1 & H2 & H3 & H4 & H5 & H6). split; [exact H1|].
  split; [congruence|]. split; [congruence|]. right. split_and!; congruence.
Qed.

Lemma begun_quiet {A} (m : prog (t C) A) Q e w l s :
  quiet m -> begun F s0 e w l s ->
  (forall a s', begun F s0 e w l s' -> state_ s' = state_ s -> Q (Ok a) s') -> wp m Q s.
Proof.
  intros Hm [Hg] HQ. apply (wp_quiet _ _ s F Hm Hg). intros a k Hg'. by apply HQ.
Qed.

(** A call whose failure ends the start. *)
Lemma begun_check (m : prog (t C) bool) (f : prog (t C) bool) e w l s :
  quiet m -> begun F s0 e w l s ->
  (forall s', begun F s0 e w l s' -> state_ s' = state_ s -> wp f (start_post F s0) s') ->
  wp (ok ← m; if negb ok then fail_start else f) (start_post F s0) s.
Proof.
  intros Hm Hb Hf. wp_step. apply (begun_quiet _ _ _ _ _ _ Hm Hb). intros [] s' Hb' Es; cbn [wp_rest negb].
  - by apply Hf.
  - by eapply begun_fail.
Qed.

Lemma begun_epoll {A} (f : Z -> prog (t C) A) Q e w l s :
  e < 0 -> begun F s0 e w l s -> (forall n s', begun F s0 n w l s' -> wp (f n) Q s') ->
  wp (n ← open_descriptor; modify (set_epoll n);; f n) Q s.
Proof.
  intros He [Hg E1 E2 E3 E4 E5 E6 E7] Hf. apply (wp_new_slot set_epoll _ _ _ F); [done| | |].
  - intros n k Hg1 H1 H2 H3. apply good_set_epoll; try done. cbn. lia.
  - intros k Hg1. eapply good_same; [exact Hg1| |done|done]. unfold own_fds. cbn.
    by rewrite (slot_neg (epoll_fd_ s)) by lia.
  - intros n k _ Hg1. apply Hf. by split.
Qed.

Lemma begun_wakeup {A} (f : Z -> prog (t C) A) Q e w l s :
  w < 0 -> begun F s0 e w l s -> (forall n s', begun F s0 e n l s' -> wp (f n) Q s') ->
  wp (n ← open_descriptor; modify (set_wakeup n);; f n) Q s.
Proof.
  intros He [Hg E1 E2 E3 E4 E5 E6 E7] Hf. apply (wp_new_slot set_wakeup _ _ _ F); [done| | |].
  - intros n k Hg1 H1 H2 H3. apply good_set_wakeup; try done. cbn. lia.
  - intros k Hg1. eapply good_same; [exact Hg1| |done|].
    + unfold own_fds. cbn. by rewrite (slot_neg (wakeup_fd_ s)) by lia.
    + intros x Hx [E|Hw]; unfold watched; cbn in *; [lia|tauto].
  - intros n k _ Hg1. apply Hf. by split.
Qed.

Lemma begun_listening {A} (f : Z -> prog (t C) A) Q e w l s :
  l < 0 -> begun F s0 e w l s -> (forall n s', begun F s0 e w n s' -> wp (f n) Q s') ->
  wp (n ← open_descriptor; modify (set_listening n);; f n) Q s.
Proof.
  intros He [Hg E1 E2 E3 E4 E5 E6 E7] Hf. apply (wp_new_slot set_listening _ _ _ F); [done| | |].
  - intros n k Hg1 H1 H2 H3. apply good_set_listening; try done. cbn. lia.
  - intros k Hg1. eapply good_same; [exact Hg1| |done|].
    + unfold own_fds. cbn. by rewrite (slot_neg (listening_fd_ s)) by lia.
    + intros x Hx [E|[E|Hw]]; unfold watched; cbn in *; [tauto|lia|tauto].
  - intros n k _ Hg1. apply Hf. by split.
Qed.

(** A descriptor that could not be opened, or not be made non-blocking. *)
Lemma begun_nonblocking n (f : prog (t C) bool) e w l s :
  begun F s0 e w l s ->
  (0 <= n -> forall s', begun F s0 e w l s' -> wp f (start_post F s0) s') ->
  wp (ok ← (if n <? 0 then mret false else setNonBlocking n); if negb ok then fail_start else f)
    (start_post F s0) s.
Proof.
  intros Hb Hf. destruct (n <? 0) eqn:E.
  - wp_step. wp_step. cbn [wp_rest negb]. by eapply begun_fail.
  - apply Z.ltb_ge in E. eapply begun_check; [apply quiet_setNonBlocking|exact Hb|auto].
Qed.

(** The two registrations. *)
Lemma begun_register (f : prog (t C) bool) e w l s :
  0 <= w -> 0 <= l -> begun F s0 e w l s ->
  (forall s', begun F s0 e w l s' -> wp f (start_post F s0) s') ->
  wp (ok ← and_also (registerFd w false) (registerFd l false); if negb ok then fail_start else f)
    (start_post F s0) s.
Proof.
  intros Hw Hl Hb Hf. wp_step. wp_step. pose proof Hb as [Hg E1 E2 E3 E4 E5 E6 E7].
  apply (wp_registerFd_own w _ F); [exact Hg|exact Hw|left; congruence|].
  intros b k Hg1. assert (begun F s0 e w l (set_kernel k s)) as Hb1 by (by split).
  generalize dependent (set_kernel k s). clear s Hb Hg E1 E2 E3 E4 E5 E6 E7.
  intros s Hg Hb. destruct b; [|cbn [wp_rest negb]; by eapply begun_fail].
  pose proof Hb as [_ E1 E2 E3 E4 E5 E6 E7].
  apply (wp_registerFd_own l _ F); [exact Hg|exact Hl|right; congruence|].
  intros b k2 Hg2. assert (begun F s0 e w l (set_kernel k2 s)) as Hb1 by (by split).
  cbn [wp_rest]. destruct b; cbn [negb]; [by apply Hf|by eapply begun_fail].
Qed.
End Starting.

Lemma wp_start s F :
  good F s -> state_ s = kStopped -> own_fds s = [] -> thread_ s = NoThread ->
  wp start (start_post F s) s.
Proof.
  intros Hg Hs Hn Hth. apply own_fds_none in Hn as (Ne & Nw & Nl & Nc).
  unfold start. wp_step. wp_step. cbn [wp_rest]. rewrite bool_decide_eq_true_2 by done. cbn [negb].
  wp_step. wp_step. cbn [wp_rest].
  assert (begun F s (epoll_fd_ s) (wakeup_fd_ s) (listening_fd_ s) (set_state kStarting s)) as Hb by (by split).
  revert Hb. generalize (set_state kStarting s). intros s1 Hb.
  eapply begun_epoll; [exact Ne|exact Hb|]. clear s1 Hb. intros e s1 Hb.
  destruct (e <? 0) eqn:He; [by eapply begun_fail|]. apply Z.ltb_ge in He.
  eapply begun_wakeup; [exact Nw|exact Hb|]. clear s1 Hb. intros w s1 Hb.
  eapply begun_nonblocking; [exact Hb|]. clear s1 Hb. intros Hw s1 Hb.
  eapply begun_listening; [exact Nl|exact Hb|]. clear s1 Hb. intros l s1 Hb.
  eapply begun_nonblocking; [exact Hb|]. clear s1 Hb. intros Hl s1 Hb.
  eapply begun_check; [apply quiet_and_also; [apply quiet_call|apply quiet_setSocketTimeouts]|exact Hb|].
  clear Hb. intros s2 Hb _. clear s1.
  eapply begun_check; [apply quiet_and_also; apply quiet_call|exact Hb|]. clear Hb. intros s1 Hb _. clear s2.
  wp_step. eapply begun_quiet; [apply quiet_ask|exact Hb|]. clear Hb. intros nm s2 Hb _. clear s1. cbn [wp_rest].
  rename s2 into s1.
  destruct (a_ok nm); cbn [negb]; [|by eapply begun_fail].
  wp_step. wp_step. cbn [wp_rest].
  assert (begun F s e w l (set_bound_port (a_port nm) s1)) as Hb1 by (destruct Hb; by split).
  revert Hb1. generalize (set_bound_port (a_port nm) s1). clear s1 Hb. intros s1 Hb.
  eapply begun_register; [exact Hw|exact Hl|exact Hb|]. clear s1 Hb. intros s1 Hb.
  wp_step. wp_step. cbn [wp_rest].
  assert (begun F s e w l (set_state kRunning s1)) as Hb1 by (destruct Hb; by split).
  assert (state_ (set_state kRunning s1) = kRunning) as Hst by done.
  revert Hb1 Hst. generalize (set_state kRunning s1). clear s1 Hb. intros s1 Hb Hst.
  eapply begun_check; [apply quiet_call|exact Hb|]. clear Hb. intros s2 [Hg2 E1 E2 E3 E4 E5 E6 E7] Es.
  wp_step. wp_step. cbn [wp_rest]. rewrite bool_decide_eq_true_2 by congruence. cbn [negb].
  wp_step. wp_step. cbn [wp_rest]. wp_step. split; [exact Hg2|]. split; [exact E6|]. split; [exact E7|]. left.
  split; [done|]. split; [|exact E4]. unfold started. cbn. rewrite E1, E2, E3, Es. done.
Qed.

(** *** Stopping *)
Lemma wp_stop_finish s F :
  good F s ->
  wp stop_finish (fun o s' => o = Ok tt /\ good F s' /\ own_fds s' = [] /\ state_ s' = kStopped /\
    thread_ s' = thread_ s /\ joining_ s' = joining_ s /\ finishing_ s' = (finishing_ s - 1)%nat) s.
Proof.
  intros Hg. unfold stop_finish. wp_step. eapply wp_mono; [by apply wp_closeStartupDescriptors|].
  intros o s' (-> & Hg' & Hn & (H1 & H2 & H3 & H4 & H5 & H6)). repeat wp_step.
  split; [done|]. split; [exact Hg'|]. split; [exact Hn|]. cbn. by rewrite H4.
Qed.

(** *** Serving

    What the loop leaves alone; another thread may have requested a stop. *)
Definition served s s' : Prop :=
  epoll_fd_ s' = epoll_fd_ s /\ wakeup_fd_ s' = wakeup_fd_ s /\ listening_fd_ s' = listening_fd_ s /\
  thread_ s' = thread_ s /\ finishing_ s' = finishing_ s /\
  ((state_ s' = state_ s /\ joining_ s' = joining_ s) \/
   (state_ s = kRunning /\ state_ s' = kStopping /\ joining_ s' = S (joining_ s))).

Lemma served_refl s : served s s.
Proof. unfold served. tauto. Qed.

Lemma served_trans s1 s2 s3 : served s1 s2 -> served s2 s3 -> served s1 s3.
Proof.
  intros (A1 & A2 & A3 & A4 & A5 & A6) (B1 & B2 & B3 & B4 & B5 & B6).
  do 5 (split; [congruence|]). destruct A6 as [[]|(?&?&?)], B6 as [[]|(?&?&?)]; try congruence.
  - left. split; congruence.
  - right. split_and!; congruence.
  - right. split_and!; congruence.
Qed.

Lemma served_kernel k s : served s (set_kernel k s).
Proof. unfold served. tauto. Qed.

(** The loop invariant: [F] is foreign, the clients are among [cs] or new. *)
Definition serving F s (cs : list Z) s' : Prop :=
  good F s' /\ served s s' /\ forall x, x ∈ cs -> x ∈ client_fd_ s'.

Lemma serving_quiet F s cs s1 k :
  serving F s cs s1 -> good F (set_kernel k s1) -> serving F s cs (set_kernel k s1).
Proof.
  intros (H1 & H2 & H3) Hg. split; [done|]. split; [|exact H3].
  eapply served_trans; [exact H2|]. apply served_kernel.
Qed.

Lemma wp_load_state s F cs s1 (Q : outcome State -> t C -> Prop) :
  serving F s cs s1 -> (forall s2, serving F s cs s2 -> client_fd_ s2 = client_fd_ s1 ->
     target_ s2 = target_ s1 -> served s1 s2 -> Q (Ok (state_ s2)) s2) ->
  wp load_state Q s1.
Proof.
  intros (Hg & Hs & Hc) HQ. unfold load_state. wp_step.
  apply (wp_quiet _ _ s1 F quiet_ask Hg). intros a k Hg1. cbn [wp_rest]. wp_step.
  assert (served s1 (set_kernel k s1)) as Hs1 by apply served_kernel.
  destruct (a_stop a); wp_step; cbn [wp_rest]; wp_step; (apply HQ; [| | |]); cbn [state_ set_kernel].
  all: try (case_decide as E); try done.
  all: try (split; [exact Hg1|split; [by eapply served_trans|exact Hc]]).
  - unfold request_stop. cbn. rewrite E. split; [exact Hg1|]. split; [|exact Hc].
    eapply served_trans; [exact Hs|]. unfold served. cbn. tauto.
  - unfold request_stop. cbn. by rewrite E.
  - unfold request_stop. cbn. by rewrite E.
  - unfold request_stop. cbn. rewrite E. unfold served. cbn. tauto.
Qed.

Lemma good_connect F s fd c : good F s -> good F (set_kernel (kernel_connect fd c (kernel_ s)) s).
Proof. done. Qed.

Lemma wp_on_socket {A} fd (m : prog conn A) s F cs s1 (Q : outcome A -> t C -> Prop) :
  serving F s cs s1 -> (forall c, exists a, (m c).1 = Ok a) ->
  (forall a s2, serving F s cs s2 -> client_fd_ s2 = client_fd_ s1 -> target_ s2 = target_ s1 ->
     served s1 s2 -> Q (Ok a) s2) ->
  wp (on_socket fd m) Q s1.
Proof.
  intros Hs Hm HQ. unfold wp, on_socket. destruct (sockets (kernel_ s1) !! fd) as [c|].
  - destruct (Hm c) as [a Ha]. destruct (m c) as [r c']. cbn in Ha. subst r. cbn [fst snd].
    apply HQ; [|reflexivity|reflexivity|apply served_kernel].
    apply serving_quiet; [exact Hs|]. apply good_connect, Hs.
  - destruct (Hm (mk_conn [] [] [] [])) as [a ->]. cbn [fst snd].
    apply HQ; [exact Hs|reflexivity|reflexivity|apply served_refl].
Qed.

Lemma readData_ok c : exists a, (TcpSocket.readData c).1 = Ok a.
Proof. pose proof (wp_readDataWith c) as (bs & taken & E & _). eauto. Qed.

Lemma sendData_ok data c : exists a, (TcpSocket.sendData data c).1 = Ok a.
Proof. pose proof (wp_sendDataWith data c) as (b & part & E & _). eauto. Qed.

(** What the handler of an event guarantees, whatever the callback does. *)
Definition handled {A} F s cs (o : outcome A) s' : Prop :=
  serving F s cs s' /\ match o with Ok _ => True | Throw e => cpp_exn e = false end.

Lemma wp_handleLogRequest fd s F cs s1 :
  serving F s cs s1 -> wp (handleLogRequest callback fd) (handled F s cs) s1.
Proof.
  intros Hs. unfold handleLogRequest. wp_step.
  eapply wp_on_socket; [exact Hs|apply readData_ok|]. intros buffer s2 Hs2 _ _ _. cbn [wp_rest].
  destruct (bool_decide (buffer = [])); [wp_step; split; [exact Hs2|done]|].
  wp_step. eapply wp_load_state; [exact Hs2|]. intros s3 Hs3 _ _ _. cbn [wp_rest].
  destruct (negb _); [wp_step; split; [exact Hs3|done]|].
  unfold catch_all. apply wp_try_catch.
  assert (forall s4, serving F s cs s4 -> wp (mret true)
    (fun r s' => match r with
     | Ok _ => handled F s cs r s'
     | Throw e => wp (if cpp_exn e then mret false else throw e) (handled F s cs) s' end) s4) as Hret.
  { intros s4 Hs4. wp_step. split; [exact Hs4|done]. }
  wp_step. eapply wp_load_state; [exact Hs3|]. intros s4 Hs4 _ _ _. cbn [wp_rest].
  destruct (negb _); [wp_step; split; [exact Hs4|done]|].
  wp_step. wp_step. unfold wp at 1.
  destruct (callback buffer (target_ s4)) as [[result|e] c']; cbn [fst snd wp_rest].
  2: { assert (serving F s cs (set_target c' s4)) as Hs5 by exact Hs4.
       destruct (cpp_exn e) eqn:E; wp_step; (split; [exact Hs5|]); [done|exact E]. }
  assert (serving F s cs (set_target c' s4)) as Hs5 by exact Hs4.
  revert Hs5. generalize (set_target c' s4). intros s5 Hs5. wp_step.
  destruct (bool_decide (result = [])); [wp_step; cbn [wp_rest]; by apply Hret|].
  wp_step. eapply wp_load_state; [exact Hs5|]. intros s6 Hs6 _ _ _. cbn [wp_rest].
  destruct (bool_decide _); [|wp_step; cbn [wp_rest]; by apply Hret].
  wp_step. eapply wp_on_socket; [exact Hs6|apply sendData_ok|]. intros b s7 Hs7 _ _ _. cbn [wp_rest].
  wp_step. cbn [wp_rest]. by apply Hret.
Qed.

(** A client is registered, or stays foreign. *)
Lemma wp_registerFd_client fd F s :
  good ({[ fd ]} ∪ F) s -> fd ∉ F -> fd ∉ own_fds s -> 0 <= fd ->
  wp (registerFd fd true) (fun o s' => exists b k, o = Ok b /\
    if (b : bool) then s' = set_clients (client_fd_ s ++ [fd]) (set_kernel k s) /\ good F s'
    else s' = set_kernel k s /\ good ({[ fd ]} ∪ F) s') s.
Proof.
  intros Hg Hf Hn H0. unfold registerFd. wp_step.
  apply (wp_quiet _ _ s _ (quiet_setNonBlocking fd) Hg). intros b k Hg1. cbn [wp_rest].
  destruct b; cbn [negb]; [|wp_step; by exists false, k]. wp_step.
  apply (wp_quiet _ _ _ _ quiet_call Hg1). intros b k2 Hg2. cbn [wp_rest].
  destruct b; cbn [negb]; [|wp_step; by exists false, k2]. wp_step. unfold on_kernel. wp_step.
  cbn [wp_rest kernel_ set_kernel].
  (* the descriptor is in the epoll set and not yet among the clients *)
  change (set_kernel (kernel_watch fd k2) (set_kernel k2 s)) with (set_kernel (kernel_watch fd k2) s).
  assert (forall k3, open_fds k3 = open_fds k2 -> bad_close k3 = bad_close k2 ->
    (forall x, x ∈ interest k3 -> x = fd \/ x ∈ interest k2) ->
    good F (set_clients (client_fd_ s ++ [fd]) (set_kernel k3 s))) as Hadd.
  { intros k3 Eo Eb Hi. destruct (good_add_client (set_kernel k2 s) F fd Hg2 Hf Hn H0) as [Ho Hw].
    split; [unfold owns, held in *; cbn in *; by rewrite Eo, Eb|].
    intros x [->|Hx]%Hi; [|by apply Hw]. split; [done|]. unfold watched. cbn.
    rewrite elem_of_app, list_elem_of_singleton. tauto. }
  assert (forall (Q : outcome bool -> t C -> Prop),
    (forall b k3, open_fds k3 = open_fds k2 -> bad_close k3 = bad_close k2 ->
       interest k3 = {[ fd ]} ∪ interest k2 -> Q (Ok b) (set_kernel k3 s)) ->
    wp (setSocketTimeouts fd) Q (set_kernel (kernel_watch fd k2) s)) as Htimeouts.
  { intros Q HQ. unfold setSocketTimeouts, call, ask, wp, mbind, prog_bind. cbn.
    destruct (a_ok _); cbn; by apply HQ. }
  wp_step. apply Htimeouts. intros b k3 Eo Eb Ei. cbn [wp_rest]. destruct b; cbn [negb].
  - wp_step. wp_step. cbn [wp_rest]. wp_step. exists true, k3. split; [done|]. split; [done|].
    apply Hadd; [done|done|]. intros x. rewrite Ei, elem_of_union, elem_of_singleton. done.
  - wp_step. wp_step. cbn [wp_rest]. wp_step. exists false, (kernel_unwatch fd k3). split; [done|].
    split; [done|]. destruct Hg2 as [Ho Hw]. split; [unfold owns, held in *; cbn in *; by rewrite Eo, Eb|].
    intros x. cbn. rewrite elem_of_difference, Ei, elem_of_union, elem_of_singleton.
    intros [[?|Hx] ?]; [done|by apply Hw].
Qed.

Lemma good_close_foreign F s fd :
  fd ∉ F -> good ({[ fd ]} ∪ F) s -> good F (set_kernel (kernel_close fd (kernel_ s)) s).
Proof.
  intros Hf [Ho Hw]. split; [by apply held_close_foreign|].
  intros x (H1 & H2 & H3)%watches_close; done.
Qed.

Lemma serving_foreign F fd s cs s' :
  good F s' -> serving ({[ fd ]} ∪ F) s cs s' -> serving F s cs s'.
Proof. intros Hg (_ & H2 & H3). done. Qed.

Lemma wp_accept_client s F cs s1 :
  serving F s cs s1 -> wp accept_client (fun o s' => o = Ok tt /\ serving F s cs s') s1.
Proof.
  intros Hs. unfold accept_client. wp_step.
  apply (wp_quiet _ _ s1 F quiet_ask (proj1 Hs)). intros a k Hg1. cbn [wp_rest].
  apply (serving_quiet _ _ _ _ _ Hs) in Hg1 as Hs1. destruct (negb _); [by wp_step|].
  wp_step. wp_step. cbn [wp_rest]. cbn [kernel_ set_kernel].
  destruct (unused_fresh (a_fd a) (open_fds k)) as [Hn H0].
  set (fd := unused (a_fd a) (open_fds k)) in *. clearbody fd.
  destruct Hg1 as [Ho Hw]. destruct (held_open _ _ _ _ Hn H0 Ho) as (Hf & Hl & Ho').
  unfold on_kernel. wp_step. wp_step. cbn [wp_rest]. wp_step. wp_step. cbn [wp_rest kernel_ set_kernel].
  set (k2 := kernel_connect fd (a_conn a) (kernel_open fd k)).
  change (set_kernel k2 _) with (set_kernel k2 s1).
  assert (serving ({[ fd ]} ∪ F) s cs (set_kernel k2 s1)) as Hs2.
  { destruct Hs1 as (_ & H2 & H3). split; [split; [exact Ho'|exact Hw]|]. split; [|exact H3]. exact H2. }
  assert (fd ∉ own_fds (set_kernel k2 s1)) as Hl2 by exact Hl.
  revert Hs2 Hl2. generalize (set_kernel k2 s1). clear - Hf H0. intros s2 Hs2 Hl.
  wp_step. apply (wp_load_state _ _ _ _ _ Hs2). intros s3 Hs3 Ec _ Hsv. cbn [wp_rest].
  assert (fd ∉ own_fds s3) as Hl3.
  { destruct Hsv as (E1 & E2 & E3 & _). unfold own_fds in *. by rewrite E1, E2, E3, Ec. }
  assert (forall s4, serving ({[ fd ]} ∪ F) s cs s4 ->
    wp (close fd) (fun o s' => o = Ok tt /\ serving F s cs s') s4) as Hclose.
  { intros s4 (Hg4 & H4 & H5). unfold close, on_kernel. wp_step. split; [done|].
    split; [by apply good_close_foreign|]. split; [exact H4|exact H5]. }
  wp_step. destruct (bool_decide (state_ s3 = kRunning)).
  - eapply wp_mono; [apply (wp_registerFd_client fd F s3); [apply Hs3|done..]|].
    intros o s4 (b & k & -> & Hb). cbn [wp_rest]. destruct Hs3 as (_ & H2 & H3). destruct b.
    + destruct Hb as [-> Hg4]. cbn [negb]. wp_step. split; [done|]. split; [exact Hg4|]. split; [exact H2|].
      intros x Hx. cbn. apply elem_of_app. left. by apply H3.
    + destruct Hb as [-> Hg4]. cbn [negb]. apply Hclose. split; [exact Hg4|]. split; [exact H2|exact H3].
  - wp_step. cbn [wp_rest negb]. by apply Hclose.
Qed.

(** One event of a descriptor that is watched. *)
Lemma wp_handle_event fd readable s F cs s1 :
  serving F s (fd :: cs) s1 \/ serving F s cs s1 /\ (fd = wakeup_fd_ s1 \/ fd = listening_fd_ s1) ->
  fd ∉ cs ->
  wp (handle_event callback (fd, readable)) (handled F s cs) s1.
Proof.
  intros Hfd Hcs.
  assert (serving F s cs s1) as Hs.
  { destruct Hfd as [(H1 & H2 & H3)|[? _]]; [|done]. split; [done|]. split; [done|].
    intros x Hx. apply H3. by right. }
  unfold handle_event. cbn [fst snd]. wp_step. wp_step. cbn [wp_rest].
  destruct (fd =? wakeup_fd_ s1) eqn:Ew; [by wp_step|]. apply Z.eqb_neq in Ew.
  wp_step. apply (wp_load_state _ _ _ _ _ Hs). intros s2 Hs2 Ec _ Hsv. cbn [wp_rest].
  destruct (negb _); [by wp_step|]. wp_step. wp_step. cbn [wp_rest].
  destruct Hsv as (_ & _ & El & _).
  destruct (fd =? listening_fd_ s2) eqn:E.
  - wp_step. eapply wp_mono; [by apply (wp_accept_client s F cs)|]. intros o s3 (-> & Hs3). cbn [wp_rest].
    by wp_step.
  - apply Z.eqb_neq in E.
    assert (fd ∈ client_fd_ s1) as Hc.
    { destruct Hfd as [(_ & _ & H3)|[_ [?|?]]]; [apply H3; by left|done|congruence]. }
    assert (forall s3, serving F s cs s3 -> fd ∈ client_fd_ s3 ->
      wp (unregisterFd fd) (fun o s' => o = Ok tt /\ serving F s cs s') s3) as Hun.
    { intros s3 (Hg3 & H3 & H4) Hc3. eapply wp_mono; [by apply (wp_unregisterFd fd s3 F)|].
      intros o s' (-> & k & -> & Hg'). split; [done|]. split; [exact Hg'|]. split; [exact H3|].
      intros x Hx. apply H4 in Hx as Hx3. pose proof (erase_perm _ _ Hc3) as Hp. rewrite Hp in Hx3.
      apply elem_of_cons in Hx3 as [->|?]; [done|assumption]. }
    destruct readable.
    + wp_step. assert (serving F s (fd :: cs) s2) as Hs2'.
      { destruct Hs2 as (H1 & H2 & H3). split; [done|]. split; [done|].
        intros x [->|Hx]%elem_of_cons; [by rewrite Ec|by apply H3]. }
      eapply wp_mono; [apply (wp_handleLogRequest fd s F (fd :: cs) s2 Hs2')|].
      intros o s3 [Hs3 Ho]. assert (serving F s cs s3) as Hs3'.
      { destruct Hs3 as (H1 & H2 & H3). split; [done|]. split; [done|]. intros x Hx. apply H3. by right. }
      destruct o as [ok|e]; cbn [wp_rest]; [|by split]. wp_step. destruct ok; cbn [negb].
      * wp_step. cbn [wp_rest]. by wp_step.
      * eapply wp_mono; [apply (Hun s3 Hs3'); apply Hs3; by left|].
        intros o s4 (-> & Hs4). cbn [wp_rest]. by wp_step.
    + wp_step. eapply wp_mono; [apply (Hun s2 Hs2); by rewrite Ec|]. intros o s3 (-> & Hs3). cbn [wp_rest].
      by wp_step.
Qed.

(** Once the state is not [kRunning] any event ends the loop. *)
Lemma wp_handle_events_stopping events s F :
  good F s -> state_ s <> kRunning -> events <> [] ->
  wp (handle_events callback events) (fun o s' => o = Ok true) s.
Proof.
  intros Hg Hst Hne. destruct events as [|[fd readable] events]; [done|]. cbn [handle_events].
  assert (serving F s [] s) as Hs.
  { split; [done|]. split; [apply served_refl|]. intros x Hx. by apply not_elem_of_nil in Hx. }
  wp_step. unfold handle_event. cbn [fst]. wp_step. wp_step. cbn [wp_rest].
  destruct (fd =? wakeup_fd_ s); [by repeat wp_step|]. wp_step.
  apply (wp_load_state _ _ _ _ _ Hs). intros s2 _ _ _ (_ & _ & _ & _ & _ & Hs2). cbn [wp_rest].
  rewrite bool_decide_eq_false_2 by (destruct Hs2 as [[-> _]|(? & _)]; done). cbn [negb].
  by repeat wp_step.
Qed.

(** A batch of events with different descriptors, each watched. *)
Lemma wp_handle_events events s F s1 :
  NoDup (map fst events) -> good F s1 -> served s s1 ->
  (forall e, e ∈ events -> watched s1 (fst e)) ->
  wp (handle_events callback events) (handled F s []) s1.
Proof.
  intros Hnd Hg Hs Hw.
  assert (forall cs, (forall x, x ∈ map fst events -> x ∈ cs \/ x = wakeup_fd_ s \/ x = listening_fd_ s) ->
    (forall x, x ∈ cs -> x ∈ map fst events) ->
    serving F s cs s1 -> wp (handle_events callback events) (handled F s []) s1) as Hmain.
  { clear Hg Hs Hw. revert s1. induction events as [|[fd readable] events IH]; intros s1 cs H1 H2 Hs.
    - cbn [handle_events]. wp_step. destruct Hs as (? & ? & _). split; [|done]. split; [done|]. split; [done|].
      intros x Hx. by apply not_elem_of_nil in Hx.
    - cbn [handle_events]. apply NoDup_cons in Hnd as [Hfd Hnd]. cbn [map fst] in H1, H2, Hfd.
      set (cs' := filter (fun x => x <> fd) cs). wp_step.
      assert (serving F s cs' s1) as Hs'.
      { destruct Hs as (? & ? & H3). split; [done|]. split; [done|]. intros x [_ Hx]%list_elem_of_filter. by apply H3. }
      eapply wp_mono; [apply (wp_handle_event fd readable s F cs' s1)|].
      + destruct Hs as (Hg & Hsv & H3).
        destruct (H1 fd ltac:(by left)) as [Hc|Hc].
        * left. split; [done|]. split; [done|]. intros x [->|Hx]%elem_of_cons; [by apply H3|by apply Hs'].
        * right. split; [done|]. destruct Hsv as (_ & -> & -> & _). exact Hc.
      + intros [Hx _]%list_elem_of_filter. done.
      + intros o s2 [Hs2 Ho]. destruct o as [[]|e]; cbn [wp_rest].
        * wp_step. split; [|done]. destruct Hs2 as (? & ? & _). split; [done|]. split; [done|].
          intros x Hx. by apply not_elem_of_nil in Hx.
        * apply (IH Hnd s2 cs'); [| |exact Hs2].
          -- intros x Hx. destruct (H1 x ltac:(by right)) as [Hc|Hc]; [left|by right].
             apply list_elem_of_filter. split; [|done]. intros ->. done.
          -- intros x [Hx Hc]%list_elem_of_filter. apply H2 in Hc. apply elem_of_cons in Hc as [?|?]; [done|assumption].
        * split; [|exact Ho]. destruct Hs2 as (? & ? & _). split; [done|]. split; [done|].
          intros x Hx. by apply not_elem_of_nil in Hx. }
  apply (Hmain (filter (fun x => x ∈ client_fd_ s1) (map fst events))).
  - intros x Hx. assert (watched s1 x) as Hwx.
    { apply list_elem_of_fmap in Hx as (e & -> & He). by apply Hw. }
    destruct Hs as (_ & E1 & E2 & _). unfold watched in Hwx. rewrite <- E1, <- E2.
    destruct Hwx as [?|[?|Hc]]; [tauto|tauto|]. left. by apply list_elem_of_filter.
  - intros x [_ Hx]%list_elem_of_filter. done.
  - split; [exact Hg|]. split; [exact Hs|]. intros x [Hx _]%list_elem_of_filter. done.
Qed.

(** The end of [run]. *)
Lemma wp_run_end s F :
  good F s -> wp run_end (fun o s' => o = Ok tt /\ good F s' /\ thread_ s' = Finished /\
    client_fd_ s' = [] /\ listening_fd_ s' < 0 /\ state_ s' = state_ s /\ joining_ s' = joining_ s /\
    finishing_ s' = finishing_ s) s.
Proof.
  intros Hg. unfold run_end. wp_step. eapply wp_mono; [by apply wp_closeClientFds|].
  intros o s1 (-> & k1 & -> & Hg1). cbn [wp_rest]. wp_step.
  eapply wp_mono; [by apply wp_close_listening|]. intros o s2 (-> & k2 & n & Hn & -> & Hg2). cbn [wp_rest].
  wp_step. split; [done|]. split; [exact Hg2|]. done.
Qed.

(** One round of the loop: it may end the loop, and a stop may be requested. *)
Definition rounded F s s' : Prop :=
  good F s' /\ finishing_ s' = finishing_ s /\ (thread_ s' = Looping \/ thread_ s' = Finished) /\
  ((state_ s' = state_ s /\ joining_ s' = joining_ s) \/
   (state_ s = kRunning /\ state_ s' = kStopping /\ joining_ s' = S (joining_ s))).

Lemma served_rounded F s s' : thread_ s = Looping -> good F s' -> served s s' -> rounded F s s'.
Proof.
  intros Ht Hg (_ & _ & _ & H1 & H2 & H3). split; [done|]. split; [done|]. split; [|done].
  left. congruence.
Qed.

Lemma wp_leave F s s1 :
  thread_ s = Looping -> good F s1 -> served s s1 ->
  wp run_end (fun o s' => rounded F s s' /\ o = Ok tt /\ thread_ s' = Finished) s1.
Proof.
  intros Ht Hg (_ & _ & _ & _ & E1 & E2). eapply wp_mono; [by apply wp_run_end|].
  intros o s' (-> & H1 & H2 & _ & _ & H5 & H6 & H7). split; [|done].
  split; [done|]. split; [congruence|]. split; [by right|]. rewrite H5, H6. exact E2.
Qed.

Lemma wp_run_round w s F :
  good F s -> thread_ s = Looping -> batch_ok s w ->
  wp (run_round callback w) (fun o s' => rounded F s s' /\
    (state_ s <> kRunning -> (exists ev, w = Events ev /\ ev <> []) -> thread_ s' = Finished)) s.
Proof.
  intros Hg Ht Hb. unfold run_round. wp_step. destruct w as [| |events]; cbn [round].
  - wp_step. cbn [wp_rest]. wp_step. split; [|by intros _ (? & ? & _)].
    apply served_rounded; [done|exact Hg|apply served_refl].
  - wp_step. cbn [wp_rest]. eapply wp_mono; [apply (wp_leave F s s); try done; apply served_refl|].
    intros o s' (H1 & _ & H2). done.
  - destruct Hb as [Hnd Hi].
    assert (forall e, e ∈ events -> watched s (fst e)) as Hw.
    { intros e He. by apply (proj2 Hg), Hi. }
    pose proof (wp_handle_events events s F s Hnd Hg (served_refl s) Hw) as W.
    pose proof (wp_handle_events_stopping events s F Hg) as W2. unfold catch_all.
    unfold wp in W, W2. unfold wp, try_catch.
    destruct (handle_events callback events s) as [o s1]. cbn [fst snd] in *.
    destruct W as [(Hg1 & Hs1 & _) Ho]. destruct o as [[]|e].
    + cbn [fst snd wp_rest]. apply (wp_mono _ _ _ _ (wp_leave F s s1 Ht Hg1 Hs1)). intros o s' (H1 & _ & H2). done.
    + cbn [fst snd wp_rest]. split; [by apply served_rounded|].
      intros Hst (ev & [= <-] & Hne). specialize (W2 Hst Hne). discriminate.
    + rewrite Ho. cbn [fst snd wp_rest]. split; [by apply served_rounded|].
      intros Hst (ev & [= <-] & Hne). specialize (W2 Hst Hne). discriminate.
Qed.
End Descriptors.
