(* ===== verification/ServerLife.v ===== *)
(** * The life cycle of the server

    The interleavings of [start], [stop] and the rounds of the loop: the phases a
    server goes through, that a stopped server owns nothing, that [stop] ends, and
    what happens when calls overlap or a message arrives in parts. *)
From S2P Require Import Prelude TcpSocket Kernel TcpServer TcpServerSpec.
Local Open Scope Z_scope.

(** ** The life cycle *)
Section Life.
Context {C : Type} (callback : bytes -> prog C bytes).
Import Server.

(** The states a server is in when its owner calls [start] and [stop] one at a
    time. *)
Inductive phase (s : t C) : Prop :=
| phase_stopped : no_stop s -> state_ s = kStopped -> thread_ s = NoThread -> own_fds s = [] -> phase s
| phase_running : no_stop s -> state_ s = kRunning -> thread_ s <> NoThread -> phase s
| phase_stopping : joining_ s = 1%nat -> finishing_ s = 0%nat -> state_ s = kStopping ->
    thread_ s <> NoThread -> phase s
| phase_stopped_again : joining_ s = 1%nat -> finishing_ s = 0%nat -> state_ s = kStopped ->
    thread_ s = NoThread -> own_fds s = [] -> phase s
| phase_joined : joining_ s = 0%nat -> finishing_ s = 1%nat -> state_ s <> kRunning ->
    thread_ s = NoThread -> phase s.

Definition living (F : gset Z) (s : t C) : Prop := good F s /\ phase s.

Lemma not_stopped_start (s : t C) : state_ s <> kStopped -> start s = (Ok false, s).
Proof.
  intros Hs. unfold start, mbind, prog_bind, gets. by rewrite bool_decide_eq_false_2.
Qed.

Lemma owned_step_living F (s s' : t C) : living F s -> owned_step callback s s' -> living F s'.
Proof.
  intros [Hg Hp] Hs. destruct Hs as [s Hn|s Hn|s Hj Ht|s Hf|s w Ht Hb].
  - destruct Hp as [_ H1 H2 H3|_ H1 H2|H1 _ _ _|H1 _ _ _ _|_ H1 _ _]; try (destruct Hn; lia).
    + pose proof (wp_start s F Hg H1 H3 H2) as (H4 & H5 & H6 & H7). split; [exact H4|].
      destruct Hn as [N1 N2].
      destruct H7 as [(_ & (_ & _ & _ & H8 & H9) & _)|(_ & H8 & H9 & H10)].
      * apply phase_running; [split; congruence|done|congruence].
      * apply phase_stopped; [split; congruence|done|congruence|done].
    + rewrite not_stopped_start by congruence. split; [done|]. by apply phase_running.
  - unfold request_stop. destruct Hn as [N1 N2].
    destruct Hp as [_ H1 H2 H3|_ H1 H2|H1 _ _ _|H1 _ _ _ _|_ H1 _ _]; try lia; rewrite H1.
    + split; [exact Hg|]. apply phase_stopped_again; cbn; try done; by rewrite N1.
    + split; [exact Hg|]. apply phase_stopping; cbn; try done; by rewrite N1.
  - assert (good F (join s)) as Hg' by exact Hg. split; [exact Hg'|].
    destruct Hp as [[N1 _] H1 H2 H3|[N1 _] H1 H2|H1 H2 H3 H4|H1 H2 H3 H4 H5|H1 _ _ _]; try lia;
      apply phase_joined; cbn; try done; try congruence; lia.
  - destruct Hp as [[_ N1] H1 H2 H3|[_ N1] H1 H2|_ H1 _ _|_ H1 _ _ _|H1 H2 H3 H4]; try lia.
    pose proof (wp_stop_finish s F Hg) as (_ & H5 & H6 & H7 & H8 & H9 & H10).
    split; [exact H5|]. apply phase_stopped; [split; [congruence|by rewrite H10, H2]|done|congruence|done].
  - pose proof (wp_run_round callback w s F Hg Ht Hb) as [(H1 & H2 & H3 & H4) _]. split; [exact H1|].
    assert (thread_ (run_round callback w s).2 <> NoThread) as Hth by (by destruct H3 as [-> | ->]).
    destruct Hp as [_ _ N _|[N1 N2] N3 _|N1 N2 N3 _|_ _ _ N _|_ _ _ N]; try congruence.
    + destruct H4 as [[H4 H5]|(_ & H4 & H5)].
      * apply phase_running; [split; congruence|congruence|done].
      * apply phase_stopping; [congruence|congruence|done|done].
    + destruct H4 as [[H4 H5]|(H4 & _)]; [|congruence].
      apply phase_stopping; congruence.
Qed.

Lemma create_living port k c :
  interest k = ∅ -> bad_close k = false -> living (open_fds k) (create port k c).
Proof.
  intros Hi Hb. split; [|apply phase_stopped; done].
  split; [|intros x; cbn; rewrite Hi; by intros ?%elem_of_empty].
  split; [constructor|]. split; [|split; [|done]]; cbn; intros x.
  - split; [by left|]. intros [?|Hx]; [done|by apply not_elem_of_nil in Hx].
  - intros Hx. by apply not_elem_of_nil in Hx.
Qed.

Lemma reachable_living port k c (s : t C) :
  interest k = ∅ -> bad_close k = false -> rtc (owned_step callback) (create port k c) s ->
  living (open_fds k) s.
Proof.
  intros Hi Hb Hr. pose proof (create_living port k c Hi Hb) as Hl.
  induction Hr as [|s1 s2 s3 H12 _ IH]; [done|]. apply IH. by eapply owned_step_living.
Qed.

Lemma living_open F (s : t C) : good F s -> own_fds s = [] -> open_fds (kernel_ s) = F.
Proof.
  intros [(_ & Ho & _) _] Hn. apply set_eq. intros x. rewrite Ho, Hn.
  split; [|by left]. intros [?|Hx]; [done|by apply not_elem_of_nil in Hx].
Qed.

(** C16: descriptors. When its owner calls [start] and [stop] one at a time, and
    whatever calls of the kernel fail, whatever clients and callbacks do and
    whenever [stop] comes, the server never closes a descriptor twice or one that
    is not its own, and a stopped server - after a stop or a failed start - has no
    thread and has left open exactly what was open before. *)
Theorem server_descriptors port k c (s : t C) :
  interest k = ∅ -> bad_close k = false -> rtc (owned_step callback) (create port k c) s ->
  bad_close (kernel_ s) = false /\ open_fds k ⊆ open_fds (kernel_ s) /\
  (state_ s = kStopped -> no_stop s -> thread_ s = NoThread /\ open_fds (kernel_ s) = open_fds k) /\
  (state_ s = kRunning -> thread_ s <> NoThread).
Proof.
  intros Hi Hb Hr. destruct (reachable_living port k c s Hi Hb Hr) as [Hg Hp].
  pose proof Hg as [(_ & Ho & _ & Hbad) _]. split; [done|]. split.
  { intros x Hx. apply Ho. by left. }
  split.
  - intros Hst [N1 N2]. destruct Hp; try congruence; try lia. split; [done|]. by apply living_open.
  - intros Hst. destruct Hp; try congruence.
Qed.

(** C26: [stop] comes to an end. Once a stop was requested, the next batch of events
    - the wake-up that [stop] sends is one - ends the loop with all clients and the
    listening socket closed; then the join returns and the server is stopped with
    nothing left open. *)
Theorem stop_completes port k c (s : t C) events :
  interest k = ∅ -> bad_close k = false -> rtc (owned_step callback) (create port k c) s ->
  state_ s = kStopping -> thread_ s = Looping -> batch_ok s (Events events) -> events <> [] ->
  let s1 := (run_round callback (Events events) s).2 in
  let s2 := (stop_finish (join s1)).2 in
  thread_ s1 = Finished /\ (0 < joining_ s1)%nat /\
  rtc (owned_step callback) s s2 /\ state_ s2 = kStopped /\ open_fds (kernel_ s2) = open_fds k.
Proof.
  intros Hi Hb Hr Hst Ht Hbt Hne s1 s2. destruct (reachable_living port k c s Hi Hb Hr) as [Hg Hp].
  pose proof (wp_run_round callback (Events events) s _ Hg Ht Hbt) as [(H1 & H2 & H3 & H4) H5].
  fold s1 in H1, H2, H3, H4, H5.
  assert (thread_ s1 = Finished) as Hth by (apply H5; [congruence|eauto]).
  assert (joining_ s1 = 1%nat) as Hj.
  { destruct H4 as [[_ ->]|(? & _)]; [|congruence]. destruct Hp; try congruence. }
  split; [exact Hth|]. split; [lia|].
  pose proof (wp_stop_finish (join s1) _ (H1 : good _ (join s1))) as (_ & H6 & H7 & H8 & _).
  fold s2 in H6, H7, H8. split; [|split; [exact H8|by apply living_open]].
  eapply rtc_l; [by apply owned_round|]. fold s1.
  eapply rtc_l; [apply owned_join; [lia|congruence]|]. eapply rtc_l; [apply owned_finish; cbn; lia|].
  apply rtc_refl.
Qed.

(** C40: short reads. The client sockets do not block, so a message of which only a
    part has arrived is taken for an error: the connection is dropped and the
    callback does not see the message. *)
Theorem partial_message_dropped (s : t C) fd c :
  sockets (kernel_ s) !! fd = Some c -> incomplete (in_wire c) ->
  wp (handleLogRequest callback fd) (fun o s' => o = Ok false /\ target_ s' = target_ s) s.
Proof.
  intros Hc Hi. unfold handleLogRequest. wp_step. unfold wp at 1, on_socket. rewrite Hc.
  pose proof (wp_readDataWith c) as (bs & taken & E & Ew & _ & _ & Hbs & _).
  change TcpSocket.readData with TcpSocket.readDataWith.
  destruct (TcpSocket.readDataWith c) as [o c']. cbn in E, Ew. subst o. cbn [fst snd wp_rest].
  destruct (decide (bs = [])) as [->|Hne]; [by wp_step|].
  destruct (Hbs Hne) as [-> Hb]. by apply incomplete_no_frame with (bs := bs) (rest := in_wire c') in Hi.
Qed.
End Life.

(** *** The guarantees at concrete inputs

    A kernel that grants everything; the first client sends one message in two
    parts; a callback that answers and counts. *)
Definition granting (stop_at : nat) : kernel :=
  mk_kernel {[ 0; 1; 2 ]} ∅ false ∅
    (fun n => mk_answer true (3 + Z.of_nat n) 8080 (bool_decide (n = stop_at))
       (mk_conn (replicate 8 (Transfer 100)) [] (replicate 8 (Transfer 3)) (TcpSocket.frame [x61; x62])) false) 0.

Definition counting (data : bytes) : prog nat bytes := fun n => (Ok data, S n).


(** The server has started, accepted a client, served its message, and another
    thread has called [stop]. *)
Definition started_server : Server.t nat := (Server.start (Server.create 0 (granting 1000) 0%nat)).2.
Definition accepted_server : Server.t nat :=
  (Server.run_round counting (Server.Events [(Server.listening_fd_ started_server, true)]) started_server).2.
Definition client_events : list (Z * bool) := map (fun fd => (fd, true)) (Server.client_fd_ accepted_server).
Definition served_server : Server.t nat :=
  (Server.run_round counting (Server.Events client_events) accepted_server).2.
Definition stopping_server : Server.t nat := Server.request_stop served_server.

Example callback_called : Server.target_ stopping_server = 1%nat.
Proof. vm_compute. reflexivity. Qed.

Lemma stopping_server_reachable :
  rtc (Server.owned_step counting) (Server.create 0 (granting 1000) 0%nat) stopping_server.
Proof.
  eapply rtc_l; [apply Server.owned_start; done|]. fold started_server.
  eapply rtc_l; [apply Server.owned_round with (w := Server.Events [(Server.listening_fd_ started_server, true)]);
    [vm_compute; reflexivity|]|].
  { split; [apply NoDup_singleton|]. intros e ->%list_elem_of_singleton.
    apply (bool_decide_unpack _). vm_compute. exact I. }
  fold accepted_server.
  eapply rtc_l; [apply Server.owned_round with (w := Server.Events client_events); [vm_compute; reflexivity|]|].
  { split; [apply (bool_decide_unpack _); vm_compute; exact I|].
    assert (client_events = [(24, true)]) as -> by (vm_compute; reflexivity).
    intros e ->%list_elem_of_singleton.
    apply (bool_decide_unpack _). vm_compute. exact I. }
  fold served_server. eapply rtc_l; [apply Server.owned_stop; vm_compute; done|]. apply rtc_refl.
Qed.

Lemma server_descriptors_witness :
  bad_close (Server.kernel_ stopping_server) = false /\
  {[ 0; 1; 2 ]} ⊆ open_fds (Server.kernel_ stopping_server).
Proof.
  destruct (server_descriptors counting 0 (granting 1000) 0%nat stopping_server eq_refl eq_refl
    stopping_server_reachable) as (H1 & H2 & _). split; [exact H1|exact H2].
Defined.

Lemma stop_completes_witness :
  let s1 := (Server.run_round counting (Server.Events [(Server.wakeup_fd_ stopping_server, true)])
    stopping_server).2 in
  Server.thread_ s1 = Server.Finished /\
  open_fds (Server.kernel_ (Server.stop_finish (Server.join s1)).2) = {[ 0; 1; 2 ]}.
Proof.
  intros s1.
  destruct (stop_completes counting 0 (granting 1000) 0%nat stopping_server
    [(Server.wakeup_fd_ stopping_server, true)] eq_refl eq_refl stopping_server_reachable)
    as (H1 & _ & _ & _ & H5).
  - vm_compute. reflexivity.
  - vm_compute. reflexivity.
  - split; [apply NoDup_singleton|]. intros e ->%list_elem_of_singleton.
    apply (bool_decide_unpack _). vm_compute. exact I.
  - discriminate.
  - split; [exact H1|exact H5].
Defined.

(** Two of the six bytes of a frame have arrived. *)
Definition waiting_server : Server.t nat :=
  Server.set_kernel (mk_kernel {[ 7 ]} {[ 7 ]} false
    {[ 7 := mk_conn [] [] [Transfer 100] (take 2 (TcpSocket.frame [x61; x62])) ]}
    (answers (granting 1000)) 0) started_server.

Lemma partial_message_dropped_witness :
  exists s', Server.handleLogRequest counting 7 waiting_server = (Ok false, s') /\ Server.target_ s' = 0%nat.
Proof.
  pose proof (partial_message_dropped counting waiting_server 7
    (mk_conn [] [] [Transfer 100] (take 2 (TcpSocket.frame [x61; x62]))) ltac:(vm_compute; reflexivity)) as W.
  unfold wp in W. destruct (Server.handleLogRequest counting 7 waiting_server) as [o s'].
  destruct W as [E1 E2].
  - right. exists [x61; x62]. split; [vm_compute; reflexivity|]. split; [|discriminate].
    exists (drop 2 (TcpSocket.frame [x61; x62])). reflexivity.
  - cbn in E1, E2. subst o. exists s'. split; [reflexivity|]. rewrite E2. vm_compute. reflexivity.
Defined.
