(* ===== verification/Folder.v ===== *)
(** * Folder

    [libs/log_writer/storage_management/folder.{h,cpp}]: the directory of one
    day, with one [StreamWriter] per channel. *)
From S2P Require Import Prelude DataTypes Protos FileSystem FileIO StreamWriter.
Local Open Scope Z_scope.

(** [std::filesystem::create_directories]: the environment can make it fail. *)
Definition make_directories (s : string) : prog world bool := fun w =>
  match (if ev_ok (event w) then create_directories (w_fs w) s else None) with
  | Some (created, f) => (Ok created, tick (set_fs f w))
  | None => (Throw FilesystemError, tick w)
  end.

Module Folder.
Abbreviation writer := (StreamWriter.t StandardFileIO.t) (only parsing).

Record t := mk {
  yyyymmdd_ : Z;                   (* uint32_t; 0: no day *)
  folder_ : string;
  files_ : gmap string writer
}.

Definition M (A : Type) : Type := prog (t * world) A.

Definition get_f {A} (f : t -> A) : M A := gets (fun s => f s.1).
Definition modify_f (f : t -> t) : M unit := modify (fun s => (f s.1, s.2)).
Definition in_world {A} (m : prog world A) : M A :=
  zoom snd (fun w s => (s.1, w)) m.

Definition set_day (d : Z) (f : t) : t := mk d (folder_ f) (files_ f).
Definition set_folder (s : string) (f : t) : t := mk (yyyymmdd_ f) s (files_ f).
Definition set_files (m : gmap string writer) (f : t) : t := mk (yyyymmdd_ f) (folder_ f) m.

Definition create_object (folder : string) : t := mk 0 folder ∅.

(** A call on the writer of a channel in [files_]. *)
Definition on_file {A} (channel : string) (m : prog (writer * world) A) : M A :=
  fun '(f, w) =>
    match files_ f !! channel with
    | Some sw =>
        match m (sw, w) with
        | (r, (sw', w')) => (r, (set_files (<[channel := sw']> (files_ f)) f, w'))
        end
    | None => (Throw NullDeref, (f, w))
    end.

(** [files_.clear()]: every writer is destroyed, which closes its files. *)
Fixpoint close_files (l : list (string * writer)) : prog world unit :=
  match l with
  | [] => mret tt
  | (_, sw) :: rest =>
      (fun w => match StreamWriter.closeFile (sw, w) with (r, (_, w')) => (r, w') end);;
      close_files rest
  end.

Definition close : M unit :=
  files ← get_f files_;
  in_world (close_files (map_to_list files));;
  modify_f (set_files ∅);;
  modify_f (set_day 0).

Section Ops.
Context {L : LocalTime}.

Definition sameDay (f : t) (time_ns : Z) : bool :=
  yyyymmdd_ f =? Time2YYYYMMDD time_ns.

Definition create (time_ns : Z) : M bool :=
  modify_f (set_day (Time2YYYYMMDD time_ns));;
  modify_f (fun f => set_folder (folder_ f +:+ "/" +:+ to_string (yyyymmdd_ f))%string f);;
  failed ← and_also (gets (fun s => negb (exists_ (w_fs s.2) (folder_ s.1))))
                    (folder ← get_f folder_;
                     created ← in_world (make_directories folder);
                     mret (negb created));
  if (failed : bool) then modify_f (set_day 0);; mret false else mret true.

Definition write (request : LogRequest.t) : M Z :=
  day ← get_f yyyymmdd_;
  created ← (if day =? 0 then create (LogRequest.time_ns request) else mret true);
  if negb created then mret (- EINVAL) else
  let channel := LogRequest.channel request in
  files ← get_f files_;
  result ← (match files !! channel with
            | Some _ => mret 1
            | None =>
                (* a new logging channel *)
                modify_f (fun f => set_files
                  (<[channel := StreamWriter.create (folder_ f)]> (files_ f)) f);;
                on_file channel (StreamWriter.openFile request)
            end);
  if result <=? 0 then mret result else
  on_file channel (StreamWriter.write (LogRequest.time_ns request) (LogRequest.data request)).
End Ops.
End Folder.
