(* ===== verification/StorageBackend.v ===== *)
(** * Storage backends

    [libs/log_writer/storage_management/storage_backend.{h,cpp}]: the interface
    [StorageBackend] between the retention policy and the medium, and its
    implementation on the file system. *)
From Stdlib Require Import Ascii.
From S2P Require Import Prelude DataTypes Protos FileSystem FileIO StreamWriter Folder.
Local Open Scope Z_scope.

(** The operations of a backend with state [B]. *)
Class StorageBackend (B : Type) := {
  sb_usedBytes : prog B Z;
  sb_removeOldest : prog B (bool * Z);     (** the result and [freed_bytes] *)
  sb_write : LogRequest.t -> prog B Z
}.

(** ** [std::stoi] and [std::stoul]

    Leading white space, an optional sign and decimal digits; what follows the
    digits is ignored. [None] stands for the exception, thrown when there is no
    digit or the value does not fit. *)
Definition is_space (c : ascii) : bool :=
  let n := N_of_ascii c in ((n =? 32) || ((9 <=? n) && (n <=? 13)))%N.

Definition digit (c : ascii) : option Z :=
  let n := Z.of_N (N_of_ascii c) in
  if (48 <=? n) && (n <=? 57) then Some (n - 48) else None.

Fixpoint skip_space (s : string) : string :=
  match s with
  | String c s' => if is_space c then skip_space s' else s
  | EmptyString => s
  end.

(** The value of the digits at the start of the string, after [acc]. *)
Fixpoint digits (acc : Z) (s : string) : Z :=
  match s with
  | String c s' => match digit c with
                   | Some d => digits (10 * acc + d) s'
                   | None => acc
                   end
  | EmptyString => acc
  end.

Definition starts_with_digit (s : string) : bool :=
  match s with
  | String c _ => bool_decide (is_Some (digit c))
  | EmptyString => false
  end.

(** The sign and the magnitude. *)
Definition parse_number (s : string) : option (bool * Z) :=
  let s := skip_space s in
  let '(neg, s) := match s with
                   | String "-" s' => (true, s')
                   | String "+" s' => (false, s')
                   | _ => (false, s)
                   end in
  if starts_with_digit s then Some (neg, digits 0 s) else None.

Definition stoi (s : string) : option Z :=
  match parse_number s with
  | Some (neg, m) =>
      let v := if (neg : bool) then - m else m in
      if (- 2 ^ 31 <=? v) && (v <? 2 ^ 31) then Some v else None
  | None => None
  end.

Definition stoul (s : string) : option Z :=
  match parse_number s with
  | Some (neg, m) =>
      if m <? 2 ^ 64 then Some (u64 (if (neg : bool) then - m else m)) else None
  | None => None
  end.

(** ** FilesystemStorageBackend *)
Module FilesystemStorageBackend.
Definition kMaxDay : Z := 99999999.

Record t := mk {
  folder_path_ : string;
  folder_ : Folder.t
}.

(** The backend object with the world it acts on. *)
Definition state : Type := t * world.
Definition M (A : Type) : Type := prog state A.

Definition create (folder : string) : t := mk folder (Folder.create_object folder).

(** The sizes of the regular files among the entries, added up until one of
    them has no size; the boolean tells that this was thrown. *)
Fixpoint sum_sizes (f : fs) (dir : string) (names : list string) (acc : Z) : Z * bool :=
  match names with
  | [] => (acc, false)
  | n :: rest =>
      let entry := join_slash dir n in
      if is_directory f entry then sum_sizes f dir rest acc
      else match file_size f entry with
           | Some k => sum_sizes f dir rest (u64 (acc + k))
           | None => (acc, true)
           end
  end.

(** One round of the outer loop of [usedBytes]; the inner loop catches. *)
Definition add_day (f : fs) (root : string) (size : Z) (name : string) : Z :=
  let entry := join_slash root name in
  if is_directory f entry then
    match directory_iterator f entry with
    | Some names => (sum_sizes f entry names size).1
    | None => size
    end
  else size.

Definition usedBytes : M Z := fun '(b, w) =>
  match directory_iterator (w_fs w) (folder_path_ b) with
  | Some names => (Ok (foldl (add_day (w_fs w) (folder_path_ b)) 0 names), (b, w))
  | None => (Throw FilesystemError, (b, w))
  end.

(** One round of the loop of [findOldest]. *)
Definition older (f : fs) (root : string) (oldest : Z) (name : string) : Z :=
  if is_directory f (join_slash root name) then
    match stoi name with
    | Some day => if day <? oldest then day else oldest
    | None => oldest
    end
  else oldest.

Definition findOldest : M Z := fun '(b, w) =>
  match directory_iterator (w_fs w) (folder_path_ b) with
  | Some names => (Ok (foldl (older (w_fs w) (folder_path_ b)) kMaxDay names), (b, w))
  | None => (Throw FilesystemError, (b, w))
  end.

(** [remove_all] of a directory below the root. When the environment fails it,
    some of the entries are gone and an exception is thrown. *)
Definition remove_all_dir (folder : string) : M unit := fun '(b, w) =>
  if ev_ok (event w)
  then (Ok tt, (b, tick (set_fs (remove_all (w_fs w) (folder_path_ b) folder) w)))
  else
    let dir := join_slash (folder_path_ b) folder in
    let names := default [] (directory_iterator (w_fs w) dir) in
    let f := foldl (fun f n => remove_all f dir n) (w_fs w)
               (take (ev_drain (event w)) names) in
    (Throw FilesystemError, (b, tick (set_fs f w))).

Definition deleteFolder (folder : string) : M Z :=
  freed ← (fun '(b, w) =>
    let dir := join_slash (folder_path_ b) folder in
    match directory_iterator (w_fs w) dir with
    | Some names =>
        match sum_sizes (w_fs w) dir names 0 with
        | (n, false) => (Ok n, (b, w))
        | (_, true) => (Throw FilesystemError, (b, w))
        end
    | None => (Throw FilesystemError, (b, w))
    end);
  remove_all_dir folder;;
  mret freed.

Definition removeOldest : M (bool * Z) :=
  oldest ← findOldest;
  if oldest =? kMaxDay then mret (false, 0)
  else freed ← deleteFolder (to_string oldest);
       mret (true, freed).

Definition on_folder {A} (m : Folder.M A) : M A := fun '(b, w) =>
  match m (folder_ b, w) with
  | (r, (f, w')) => (r, (mk (folder_path_ b) f, w'))
  end.

Section Ops.
Context {L : LocalTime}.

Definition write (request : LogRequest.t) : M Z :=
  same ← gets (fun s => Folder.sameDay (folder_ s.1) (LogRequest.time_ns request));
  (if negb same then
     (* the new folder replaces the old one, which is closed *)
     on_folder Folder.close;;
     modify (fun s => (mk (folder_path_ s.1) (Folder.create_object (folder_path_ s.1)), s.2))
   else mret tt);;
  on_folder (Folder.write request).
End Ops.
End FilesystemStorageBackend.

#[export] Instance FilesystemStorageBackend_backend `{LocalTime} :
    StorageBackend FilesystemStorageBackend.state := {
  sb_usedBytes := FilesystemStorageBackend.usedBytes;
  sb_removeOldest := FilesystemStorageBackend.removeOldest;
  sb_write := FilesystemStorageBackend.write
}.
