(* ===== verification/Storage.v ===== *)
(** * Storage

    [libs/log_writer/storage_management/storage.{h,cpp}]: the byte budget and
    the retention policy, over the [StorageBackend] interface. *)
From S2P Require Import Prelude DataTypes Protos FileSystem FileIO StreamWriter Folder StorageBackend.
Local Open Scope Z_scope.

Module Storage.
Record t (B : Type) := mk {
  available_bytes_ : Z;    (* size_t *)
  backend_ : B
}.
Arguments mk {B}.
Arguments available_bytes_ {B}.
Arguments backend_ {B}.

Section Ops.
Context {B : Type} {SB : StorageBackend B}.

Definition M (A : Type) : Type := prog (t B) A.

Definition on_backend {A} (m : prog B A) : M A :=
  zoom backend_ (fun b s => mk (available_bytes_ s) b) m.
Definition get_available : M Z := gets available_bytes_.
Definition modify_available (f : Z -> Z) : M unit :=
  modify (fun s => mk (f (available_bytes_ s)) (backend_ s)).

(** [while (used > available_bytes_)]: the result of [removeOldest] is not
    looked at. *)
Fixpoint trim (fuel : nat) (used : Z) : M unit :=
  match fuel with
  | O => throw OutOfFuel
  | S n =>
      available ← get_available;
      if available <? used then
        r ← on_backend sb_removeOldest;
        modify_available (fun a => u64 (a + snd r));;
        trim n used
      else mret tt
  end.

(** The constructor: [max_size] is an [int]. *)
Definition construct (fuel : nat) (max_size : Z) : M unit :=
  modify_available (fun _ => u64 (i32 max_size));;
  used ← on_backend sb_usedBytes;
  trim fuel used;;
  modify_available (fun a => u64 (a - used)).

(** [while (maxRecordSize(...) > available_bytes_)]: false when there is
    nothing left to remove. *)
Fixpoint make_room (fuel : nat) (need : Z) : M bool :=
  match fuel with
  | O => throw OutOfFuel
  | S n =>
      available ← get_available;
      if available <? need then
        r ← on_backend sb_removeOldest;
        if negb (fst r) then mret false else
        modify_available (fun a => u64 (a + snd r));;
        make_room n need
      else mret true
  end.

Definition write (fuel : nat) (request : LogRequest.t) : M Z :=
  room ← make_room fuel (maxRecordSize (zlen (LogRequest.data request)));
  if negb room then mret 0 else
  written ← on_backend (sb_write request);
  (if 0 <? written then modify_available (fun a => u64 (a - written)) else mret tt);;
  mret written.
End Ops.
End Storage.

(** ** What the policy relies on

    A backend in good order ([bv_ok]) holds a number of removable days and a
    number of bytes, some of them in places the backend never removes. *)
Class BackendView (B : Type) := {
  bv_ok : B -> Prop;
  bv_days : B -> nat;
  bv_used : B -> Z;
  bv_pinned : B -> Z
}.

Class BackendSpec (B : Type) {SB : StorageBackend B} {BV : BackendView B} : Prop := {
  bs_pinned b : bv_ok b -> 0 <= bv_pinned b <= bv_used b;
  bs_no_days b : bv_ok b -> bv_days b = 0%nat -> bv_used b = bv_pinned b;
  bs_usedBytes b :
    bv_ok b -> bv_used b < 2 ^ 64 ->
    wp sb_usedBytes (fun r b' => r = Ok (bv_used b) /\ b' = b) b;
  bs_removeOldest b :
    bv_ok b -> bv_used b < 2 ^ 64 ->
    wp sb_removeOldest (fun r b' =>
      match r with
      | Ok (true, freed) =>
          bv_ok b' /\ 0 <= freed /\ bv_used b' + freed = bv_used b /\ bv_pinned b' = bv_pinned b /\
          (bv_days b' < bv_days b)%nat
      | Ok (false, freed) => freed = 0 /\ b' = b /\ bv_days b = 0%nat
      | Throw e => cpp_exn e = true /\ bv_days b <> 0%nat
      end) b;
  bs_write b request :
    bv_ok b -> 0 <= LogRequest.time_ns request < 2 ^ 64 ->
    wp (sb_write request) (fun r b' =>
      match r with
      | Ok n => bv_ok b' /\ n <= maxRecordSize (zlen (LogRequest.data request))
      | Throw _ => True
      end) b
}.

Section Policy.
Context {B : Type} {SB : StorageBackend B} {BV : BackendView B} {BS : BackendSpec B}.
Import Storage.

(** A storage whose counter and contents stay below 2^64 together. *)
Definition storage_ok (s : t B) : Prop :=
  bv_ok (backend_ s) /\ 0 <= available_bytes_ s /\
  available_bytes_ s + bv_used (backend_ s) < 2 ^ 64.

Lemma storage_used s : storage_ok s -> 0 <= bv_used (backend_ s) < 2 ^ 64.
Proof. intros (Hb & Ha & Hs). pose proof (bs_pinned _ Hb). lia. Qed.

(** One removal, with the counter updated. *)
Lemma wp_remove {A} (k : bool * Z -> M A) (Q : outcome A -> t B -> Prop) s :
  storage_ok s ->
  (forall s' freed, storage_ok s' -> 0 <= freed ->
     available_bytes_ s' = available_bytes_ s ->
     bv_used (backend_ s') + freed = bv_used (backend_ s) ->
     bv_pinned (backend_ s') = bv_pinned (backend_ s) ->
     (bv_days (backend_ s') < bv_days (backend_ s))%nat -> wp (k (true, freed)) Q s') ->
  (bv_days (backend_ s) = 0%nat -> wp (k (false, 0)) Q s) ->
  (forall e s', cpp_exn e = true -> available_bytes_ s' = available_bytes_ s -> Q (Throw e) s') ->
  wp (r ← on_backend sb_removeOldest; k r) Q s.
Proof.
  intros Hs HT HF HE. pose proof (storage_used s Hs) as Hu. destruct Hs as (Hb & Ha & Hsum).
  wp_step. unfold on_backend. apply wp_zoom.
  eapply wp_mono; [apply bs_removeOldest; [done|lia]|].
  intros [[[] freed]|e] b'; cbn [wp_rest].
  - intros (Hb' & Hf & Hu' & Hp & Hd). apply HT; try done. split; [done|]. cbn. lia.
  - intros (-> & -> & Hd). destruct s. by apply HF.
  - intros [He _]. by apply HE.
Qed.

(** The room a request asks for. *)
Definition need (request : LogRequest.t) : Z := maxRecordSize (zlen (LogRequest.data request)).

(** [make_room]: oldest days go one by one until there is room, or until there is
    no day left. *)
Lemma wp_make_room fuel n s :
  storage_ok s -> (bv_days (backend_ s) < fuel)%nat ->
  wp (make_room fuel n) (fun r s' =>
    available_bytes_ s <= available_bytes_ s' /\
    match r with
    | Ok true => storage_ok s' /\ n <= available_bytes_ s'
    | Ok false => storage_ok s' /\ available_bytes_ s' < n /\ bv_days (backend_ s') = 0%nat
    | Throw e => cpp_exn e = true
    end /\
    (forall x, r = Ok x -> available_bytes_ s' + bv_used (backend_ s') =
                           available_bytes_ s + bv_used (backend_ s)) /\
    (n <= available_bytes_ s -> s' = s)) s.
Proof.
  revert s; induction fuel as [|fuel IH]; intros s Hs Hd; [lia|]. cbn [make_room].
  wp_step. unfold get_available. wp_step. cbn [wp_rest].
  destruct (available_bytes_ s <? n) eqn:E.
  - apply Z.ltb_lt in E. apply wp_remove; [done| | |].
    + intros s' freed Hs' Hf Ha Hu Hp Hd'. cbn [fst negb]. wp_step. unfold modify_available. wp_step.
      cbn [wp_rest snd]. pose proof (storage_used _ Hs'). destruct Hs as (_ & H0 & Hsum).
      rewrite Ha, u64_small by lia.
      eapply wp_mono; [apply IH; [|cbn; lia]|].
      * split; [apply Hs'|]. cbn. lia.
      * cbn [available_bytes_ backend_]. intros r s2 (H1 & H2 & H3 & _). split; [lia|].
        split; [done|]. split; [|lia]. intros x Hx. rewrite (H3 x Hx). lia.
    + intros Hd0. cbn [fst negb]. wp_step. split; [lia|]. split; [done|]. split; [done|lia].
    + intros e s' He Ha. split; [lia|]. split; [done|]. split; [done|lia].
  - apply Z.ltb_ge in E. wp_step. split; [lia|]. done.
Qed.


(** The loop of the constructor. *)
Lemma wp_trim fuel used max s :
  storage_ok s -> (bv_days (backend_ s) < fuel)%nat ->
  bv_pinned (backend_ s) <= max -> available_bytes_ s + bv_used (backend_ s) = max + used ->
  wp (trim fuel used) (fun r s' =>
    match r with
    | Ok _ => storage_ok s' /\ used <= available_bytes_ s' /\
              available_bytes_ s' + bv_used (backend_ s') = max + used
    | Throw e => cpp_exn e = true
    end) s.
Proof.
  revert s; induction fuel as [|fuel IH]; intros s Hs Hd Hp Hsum; [lia|]. cbn [trim].
  wp_step. unfold get_available. wp_step. cbn [wp_rest].
  destruct (available_bytes_ s <? used) eqn:E.
  - apply Z.ltb_lt in E. apply wp_remove; [done| | |].
    + intros s' freed Hs' Hf Ha Hu Hp' Hd'. wp_step. unfold modify_available. wp_step.
      cbn [wp_rest snd]. pose proof (storage_used _ Hs'). destruct Hs as (_ & H0 & Hsm).
      rewrite Ha, u64_small by lia. apply IH; cbn; [split; [apply Hs'|cbn; lia]|lia|lia|lia].
    + intros Hd0. pose proof (bs_no_days _ (proj1 Hs) Hd0). lia.
    + done.
  - apply Z.ltb_ge in E. wp_step. done.
Qed.

(** C22: the constructor. With a non-negative budget that covers what can never be
    removed, the constructor ends, and the counter is the budget less the bytes
    that are left. *)
Theorem construct_budget fuel max_size a b :
  bv_ok b -> bv_used b < 2 ^ 63 -> 0 <= max_size < 2 ^ 31 -> bv_pinned b <= max_size ->
  (bv_days b < fuel)%nat ->
  wp (construct fuel max_size) (fun r s' =>
    match r with
    | Ok _ => storage_ok s' /\ available_bytes_ s' + bv_used (backend_ s') = max_size
    | Throw e => cpp_exn e = true
    end) (mk a b).
Proof.
  intros Hb Hu Hm Hp Hd. pose proof (bs_pinned b Hb). unfold construct, modify_available.
  wp_step. wp_step. cbn [wp_rest backend_ available_bytes_].
  rewrite i32_small, u64_small by lia. wp_step. unfold on_backend. apply wp_zoom.
  eapply wp_mono; [apply bs_usedBytes; [done|cbn; lia]|]. intros r b' (-> & ->). cbn [wp_rest].
  wp_step. eapply wp_mono; [apply (wp_trim fuel (bv_used b) max_size); cbn;
    [split; [done|cbn; lia]|done|done|lia]|].
  intros [[]|e] s'; cbn [wp_rest]; [|done]. intros (Hs' & Hle & Hsum). wp_step.
  pose proof (storage_used _ Hs'). destruct Hs' as (? & ? & ?).
  cbn [backend_ available_bytes_] in *. rewrite u64_small by lia.
  split; [split; [done|cbn; lia]|cbn; lia].
Qed.

(** C33: the constructor ignores that nothing could be removed: with more bytes in
    place than the budget and no day to remove, it does not end, whatever the
    bound on the number of rounds. *)
Theorem construct_diverges fuel max_size a b :
  bv_ok b -> bv_days b = 0%nat -> 0 <= max_size < bv_used b -> max_size < 2 ^ 31 ->
  bv_used b < 2 ^ 63 -> exists s', construct fuel max_size (mk a b) = (Throw OutOfFuel, s').
Proof.
  intros Hb Hd Hm Hm' Hu.
  assert (wp (construct fuel max_size) (fun r _ => r = Throw OutOfFuel) (mk a b)) as W.
  { unfold construct, modify_available. wp_step. wp_step. cbn [wp_rest backend_ available_bytes_].
    rewrite i32_small, u64_small by lia. wp_step. unfold on_backend. apply wp_zoom.
    eapply wp_mono; [apply bs_usedBytes; [done|cbn; lia]|]. intros r b' (-> & ->). cbn [wp_rest].
    wp_step. cbn [backend_ available_bytes_].
    assert (wp (trim fuel (bv_used b)) (fun r _ => r = Throw OutOfFuel) (mk max_size b)) as W.
    { induction fuel as [|fuel IH]; [done|]. cbn [trim]. wp_step. unfold get_available. wp_step.
      cbn [wp_rest available_bytes_]. rewrite (proj2 (Z.ltb_lt _ _)) by lia.
      wp_step. unfold on_backend. apply wp_zoom. cbn [backend_ available_bytes_].
      pose proof (bs_removeOldest b Hb ltac:(lia)) as R. unfold wp in R |- *.
      destruct (sb_removeOldest b) as [[[[] freed]|e] b']; cbn [fst snd] in *; [lia| |tauto].
      destruct R as (-> & -> & _). cbn [wp_rest]. apply wp_bind. unfold modify_available. wp_step.
      cbn [wp_rest available_bytes_ backend_ snd]. rewrite Z.add_0_r, u64_small by lia. exact IH. }
    eapply wp_mono; [exact W|]. intros r s' ->. done. }
  unfold wp in W. destruct (construct fuel max_size (mk a b)) as [r s']. cbn in W. subst r. eauto.
Qed.
End Policy.
