(* ===== verification/BackendSpec.v ===== *)
(** * Correctness of FilesystemStorageBackend

    The file system backend meets the contract [BackendSpec] the retention policy
    relies on: the bytes it reports are those of the files in the day folders, and
    removing the oldest day frees exactly the bytes of that day. *)
From Stdlib Require Import Ascii.
From S2P Require Import Prelude DataTypes Calendar Format Protos FileSystem FileIO StreamWriter FileNames StreamWriterSpec Samples Folder StorageBackend Storage.
Local Open Scope Z_scope.
Import FilesystemStorageBackend.

(** ** Directories and sizes *)

(** A tree without symbolic links, whose names are names of entries. *)
Definition tree_plain (f : fs) : Prop :=
  forall p n, nodes f !! p = Some n -> Forall plain p /\ forall t, n <> NLink t.

Definition file_len (f : fs) (p : path) (n : string) : Z :=
  match nodes f !! (p ++ [n]) with
  | Some (NFile i) => zlen (contents f i)
  | _ => 0
  end.

(** The bytes of the files in directory [p]. *)
Definition dir_size (f : fs) (p : path) : Z := zsum (map (file_len f p) (entries f p)).

(** The bytes in the entry [n] of the root, when it is a directory. *)
Definition day_size (f : fs) (root : path) (n : string) : Z :=
  if decide (nodes f !! (root ++ [n]) = Some NDir) then dir_size f (root ++ [n]) else 0.

(** An entry [removeOldest] may choose. *)
Definition removable (f : fs) (root : path) (n : string) : bool :=
  bool_decide (nodes f !! (root ++ [n]) = Some NDir) &&
  match stoi n with Some d => d <? kMaxDay | None => false end.

Definition used_in (f : fs) (root : path) : Z := zsum (map (day_size f root) (entries f root)).
Definition pinned_in (f : fs) (root : path) : Z :=
  zsum (map (day_size f root) (filter (fun n => removable f root n = false) (entries f root))).
Definition days_in (f : fs) (root : path) : nat :=
  length (filter (fun n => removable f root n = true) (entries f root)).

Lemma file_len_nonneg f p n : 0 <= file_len f p n.
Proof. unfold file_len. repeat case_match; try lia. apply zlen_nonneg. Qed.

Lemma zsum_map_nonneg {A} (g : A -> Z) l : (forall x, 0 <= g x) -> 0 <= zsum (map g l).
Proof. intros Hg. apply zsum_nonneg, Forall_map, Forall_true. intros x. apply Hg. Qed.

Lemma day_size_nonneg f root n : 0 <= day_size f root n.
Proof. unfold day_size. case_decide; [|lia]. apply zsum_map_nonneg. intros. apply file_len_nonneg. Qed.

Section Directory.
Context (f : fs) (s : string) (p : path).
Context (Hd : directory_at f s p) (Ht : tree_plain f).

Lemma entry_plain n : n ∈ entries f p -> plain n.
Proof.
  intros [nd Hn]%elem_of_entries. destruct (Ht _ _ Hn) as [Hp _].
  apply Forall_app in Hp as [_ Hp]. by inversion Hp.
Qed.

Lemma entry_status n : n ∈ entries f p -> status f (join_slash s n) = nodes f !! (p ++ [n]).
Proof.
  intros Hn. apply status_child; [done|by apply entry_plain|].
  intros t Ht'. destruct (Ht _ _ Ht') as [_ Hl]. by apply (Hl t).
Qed.

Lemma is_directory_entry n :
  n ∈ entries f p -> is_directory f (join_slash s n) = bool_decide (nodes f !! (p ++ [n]) = Some NDir).
Proof. intros Hn. unfold is_directory. by rewrite entry_status. Qed.

Lemma directory_iterator_at : directory_iterator f s = Some (entries f p).
Proof. destruct Hd as [Hr Hn]. unfold directory_iterator. by rewrite Hr, Hn. Qed.

Lemma directory_at_entry n :
  nodes f !! (p ++ [n]) = Some NDir -> directory_at f (join_slash s n) (p ++ [n]).
Proof.
  intros Hn. split; [|by rewrite node_at_snoc].
  apply resolve_child; [done| |by rewrite Hn].
  apply entry_plain, elem_of_entries. eauto.
Qed.

Lemma sum_sizes_spec names acc :
  Forall (fun n => n ∈ entries f p) names -> 0 <= acc ->
  acc + zsum (map (file_len f p) names) < 2 ^ 64 ->
  sum_sizes f s names acc = (acc + zsum (map (file_len f p) names), false).
Proof.
  revert acc; induction names as [|n names IH]; intros acc Hn Ha Hb; cbn [sum_sizes map].
  { cbn. by rewrite Z.add_0_r. }
  inversion Hn as [|? ? Hn1 Hn2]; subst. cbn [map] in Hb. rewrite zsum_cons in Hb |- *.
  pose proof (file_len_nonneg f p n) as Hl.
  pose proof (zsum_map_nonneg (file_len f p) names (file_len_nonneg f p)).
  rewrite is_directory_entry by done.
  pose proof (elem_of_entries f p n) as [He _]. destruct (He Hn1) as [nd End].
  unfold file_size. rewrite entry_status, End by done.
  assert (file_len f p n = match nd with NFile i => zlen (contents f i) | _ => 0 end) as El
    by (unfold file_len; by rewrite End).
  destruct (Ht _ _ End) as [_ Hlink]. destruct nd as [|i|t]; [| |by destruct (Hlink t)].
  - rewrite bool_decide_true by done. rewrite IH by (done || lia). rewrite El. f_equal; lia.
  - rewrite bool_decide_false by done. rewrite <- El, u64_small by lia.
    rewrite IH by (done || lia). f_equal; lia.
Qed.
End Directory.

Section Root.
Context (f : fs) (s : string) (root : path).
Context (Hd : directory_at f s root) (Ht : tree_plain f).

Lemma used_in_nonneg : 0 <= used_in f root.
Proof. apply zsum_map_nonneg, day_size_nonneg. Qed.

Lemma add_day_spec names acc :
  Forall (fun n => n ∈ entries f root) names -> 0 <= acc ->
  acc + zsum (map (day_size f root) names) < 2 ^ 64 ->
  foldl (add_day f s) acc names = acc + zsum (map (day_size f root) names).
Proof.
  revert acc; induction names as [|n names IH]; intros acc Hn Ha Hb; cbn [foldl map].
  { cbn. lia. }
  inversion Hn as [|? ? Hn1 Hn2]; subst. cbn [map] in Hb. rewrite zsum_cons in Hb |- *.
  pose proof (day_size_nonneg f root n).
  pose proof (zsum_map_nonneg (day_size f root) names (day_size_nonneg f root)).
  assert (add_day f s acc n = acc + day_size f root n) as ->; [|rewrite IH by (done || lia); lia].
  unfold add_day. rewrite (is_directory_entry f s root Hd Ht n Hn1). unfold day_size in *.
  destruct (decide (nodes f !! (root ++ [n]) = Some NDir)) as [Hdir|Hdir].
  - rewrite bool_decide_true by done. pose proof (directory_at_entry f s root Hd Ht n Hdir) as Hdn.
    rewrite (directory_iterator_at _ _ _ Hdn).
    rewrite (sum_sizes_spec f _ _ Hdn Ht) by (try apply Forall_forall; auto; unfold dir_size in *; lia).
    done.
  - rewrite bool_decide_false by done. lia.
Qed.

(** The smallest day among the entries. *)
Lemma older_spec names acc :
  Forall (fun n => n ∈ entries f root) names ->
  let m := foldl (older f s) acc names in
  m <= acc /\
  (forall n d, n ∈ names -> nodes f !! (root ++ [n]) = Some NDir -> stoi n = Some d -> m <= d) /\
  (m = acc \/ exists n, n ∈ names /\ nodes f !! (root ++ [n]) = Some NDir /\ stoi n = Some m).
Proof.
  revert acc; induction names as [|n names IH]; intros acc Hn; cbn [foldl].
  { split; [lia|]. split; [|by left]. intros n d Hn'. by apply not_elem_of_nil in Hn'. }
  inversion Hn as [|? ? Hn1 Hn2]; subst. destruct (IH (older f s acc n) Hn2) as (H1 & H2 & H3).
  set (m := foldl (older f s) (older f s acc n) names) in *.
  assert (older f s acc n <= acc /\
    (forall d, nodes f !! (root ++ [n]) = Some NDir -> stoi n = Some d -> older f s acc n <= d) /\
    (older f s acc n = acc \/ nodes f !! (root ++ [n]) = Some NDir /\ stoi n = Some (older f s acc n)))
    as (G1 & G2 & G3).
  { unfold older. rewrite (is_directory_entry f s root Hd Ht n Hn1). case_bool_decide; [|naive_solver lia].
    destruct (stoi n) as [d|] eqn:E; [|naive_solver lia].
    destruct (d <? acc) eqn:El; [apply Z.ltb_lt in El|apply Z.ltb_ge in El]; naive_solver lia. }
  split; [lia|]. split.
  - intros n' d [->|Hin]%elem_of_cons Hdir Hs; [specialize (G2 d Hdir Hs); lia|by eapply H2].
  - destruct H3 as [->|(n' & Hin & ?)]; [|right; exists n'; split; [set_solver|done]].
    destruct G3 as [->|[? ?]]; [by left|]. right. exists n. split; [set_solver|done].
Qed.
End Root.

(** ** Removing a day *)

(** A path without [".."] depends only on the entries on the way. *)
Lemma walk_stable f f' n l cur todo p :
  (forall q t, nodes f !! q <> Some (NLink t)) -> ".."%string ∉ todo ->
  walk l f cur todo = Some p -> node_at f p = Some n ->
  (forall q, q `prefix_of` p -> nodes f' !! q = nodes f !! q) ->
  cur `prefix_of` p /\ walk l f' cur todo = Some p.
Proof.
  intros Hl Hdots Hw Hn Hq. revert l cur todo Hdots Hw. refine (walk_induction _ _ _).
  - intros l cur _. rewrite !walk_nil. intros [= ->]. done.
  - intros l cur c rest H1 H2 H3 _ Hdots. rewrite !walk_cons.
    apply not_elem_of_cons in Hdots as [Hc Hdots].
    destruct (decide (c = _ \/ _)); [by apply H1|].
    destruct (decide (c = ".."%string)) as [->|_]; [done|].
    assert (forall o, nodes f !! (cur ++ [c]) = o -> (cur ++ [c]) `prefix_of` p ->
              nodes f' !! (cur ++ [c]) = o) as Hsame by (intros o <- Hp; by apply Hq).
    destruct (nodes f !! (cur ++ [c])) as [[| |t]|] eqn:E.
    + intros Hw. destruct (H3 Hdots Hw) as [Hp Hw'].
      rewrite (Hsame _ eq_refl Hp). split; [|done]. etrans; [|exact Hp]. by apply prefix_app_r.
    + case_decide; [|done]. subst rest. rewrite walk_nil. intros [= <-].
      rewrite (Hsame _ eq_refl) by done. rewrite walk_nil. split; [by apply prefix_app_r|done].
    + by destruct (Hl _ _ E).
    + case_decide; [|done]. subst rest. rewrite walk_nil. intros [= <-].
      rewrite node_at_snoc, E in Hn. done.
Qed.

Lemma directory_at_stable f f' s p :
  tree_plain f -> ".."%string ∉ split_slash s -> directory_at f s p ->
  (forall q, q `prefix_of` p -> nodes f' !! q = nodes f !! q) -> directory_at f' s p.
Proof.
  intros Ht Hdots [Hr Hd] Hq. split.
  - unfold resolve, resolve_c in *. case_decide; [done|].
    eapply (walk_stable f f'); [|done|exact Hr|exact Hd|done].
    intros q t E. destruct (Ht _ _ E) as [_ Hl]. by apply (Hl t).
  - unfold node_at in *. destruct p; [done|]. by rewrite Hq.
Qed.

Section Remove.
Context (f : fs) (root : path) (n : string).
Context (Hn : nodes f !! (root ++ [n]) = Some NDir).
Let f' := remove_tree f (root ++ [n]).

Lemma remove_entry_in : n ∈ entries f root.
Proof. apply elem_of_entries. eauto. Qed.

Lemma remove_other q : ~ (root ++ [n]) `prefix_of` q -> nodes f' !! q = nodes f !! q.
Proof. intros Hq. unfold f'. by rewrite lookup_remove_tree, decide_False. Qed.

Lemma not_below m q : m <> n -> ~ (root ++ [n]) `prefix_of` (root ++ [m] ++ q).
Proof.
  intros Hm Hp. apply prefix_app_inv in Hp. destruct Hp as [k Hk]. by inversion Hk.
Qed.

Lemma day_size_remove m : m <> n -> day_size f' root m = day_size f root m.
Proof.
  intros Hm. unfold day_size, dir_size.
  rewrite (remove_other (root ++ [m])) by (by apply (not_below m [])).
  case_decide; [|done].
  assert (forall c, nodes f' !! ((root ++ [m]) ++ [c]) = nodes f !! ((root ++ [m]) ++ [c])) as Hc.
  { intros c. rewrite <- app_assoc. by apply remove_other, not_below. }
  assert (entries f' (root ++ [m]) ≡ₚ entries f (root ++ [m])) as Hp.
  { apply NoDup_Permutation; [apply NoDup_entries|apply NoDup_entries|].
    intros c. by rewrite !elem_of_entries, Hc. }
  rewrite (zsum_Permutation _ _ (Permutation_map (file_len f' (root ++ [m])) Hp)).
  f_equal. apply map_ext. intros c. unfold file_len. by rewrite Hc.
Qed.

Lemma removable_remove m : m <> n -> removable f' root m = removable f root m.
Proof.
  intros Hm. unfold removable. by rewrite (remove_other (root ++ [m])) by (by apply (not_below m [])).
Qed.

Lemma remaining_ne m : m ∈ entries f' root -> m <> n.
Proof.
  intros Hm ->. apply elem_of_entries in Hm. unfold f' in Hm.
  rewrite lookup_remove_tree, decide_True in Hm by done. by destruct Hm.
Qed.

Lemma used_remove : used_in f root = day_size f root n + used_in f' root.
Proof.
  unfold used_in.
  rewrite (zsum_Permutation _ _ (Permutation_map (day_size f root) (entries_remove_tree f root n remove_entry_in))).
  cbn [map]. rewrite zsum_cons. f_equal. f_equal. apply map_ext_in. intros m Hm.
  symmetry. apply day_size_remove, remaining_ne. by apply list_elem_of_In.
Qed.

Lemma filter_remove (b : bool) :
  filter (fun m => removable f root m = b) (entries f root) ≡ₚ
  (if decide (removable f root n = b) then [n] else []) ++
  filter (fun m => removable f' root m = b) (entries f' root).
Proof.
  rewrite (entries_remove_tree f root n remove_entry_in). fold f'. rewrite filter_cons.
  assert (filter (fun m => removable f root m = b) (entries f' root) =
          filter (fun m => removable f' root m = b) (entries f' root)) as ->.
  { pose proof remaining_ne as Hne. induction (entries f' root) as [|m l IH]; [done|].
    rewrite !filter_cons, removable_remove by (apply Hne; set_solver).
    case_decide; rewrite IH by (intros; apply Hne; set_solver); done. }
  case_decide; done.
Qed.

Lemma days_remove : removable f root n = true -> days_in f root = S (days_in f' root).
Proof.
  intros Hr. unfold days_in. rewrite (filter_remove true), decide_True by done. done.
Qed.

Lemma pinned_remove : removable f root n = true -> pinned_in f' root = pinned_in f root.
Proof.
  intros Hr. unfold pinned_in.
  rewrite (zsum_Permutation _ _ (Permutation_map (day_size f root) (filter_remove false))).
  rewrite decide_False by congruence. cbn [app].
  f_equal. apply map_ext_in. intros m Hm%list_elem_of_In. apply list_elem_of_filter in Hm as [_ Hm].
  by apply day_size_remove, remaining_ne.
Qed.
End Remove.

(** ** The contract: sizes and removal *)
Lemma filter_nil_intro {A} (P : A -> Prop) `{forall x, Decision (P x)} (l : list A) :
  (forall x, x ∈ l -> ~ P x) -> filter P l = [].
Proof.
  induction l as [|x l IH]; intros Hn; [done|].
  rewrite filter_cons_False by (apply Hn; by left). apply IH. intros y Hy. apply Hn. by right.
Qed.

Definition root_of (st : state) : path := default [] (resolve (w_fs st.2) (folder_path_ st.1)).

Definition canonical_days (f : fs) (root : path) : Prop :=
  forall n d, nodes f !! (root ++ [n]) = Some NDir -> stoi n = Some d -> d < kMaxDay -> to_string d = n.

(** A storage directory in good order: it can be reached, there are no symbolic
    links, and a directory whose name is read as a day is named as that day. *)
Record storage_tree (f : fs) (s : string) (root : path) : Prop := {
  st_dir : directory_at f s root;
  st_dots : ".."%string ∉ split_slash s;
  st_plain : tree_plain f;
  st_days : canonical_days f root
}.

Definition backend_ok (st : state) : Prop :=
  storage_tree (w_fs st.2) (folder_path_ st.1) (root_of st).

#[export] Instance FilesystemStorageBackend_view : BackendView state := {
  bv_ok := backend_ok;
  bv_days := fun st => days_in (w_fs st.2) (root_of st);
  bv_used := fun st => used_in (w_fs st.2) (root_of st);
  bv_pinned := fun st => pinned_in (w_fs st.2) (root_of st)
}.

Lemma root_of_dir st root : directory_at (w_fs st.2) (folder_path_ st.1) root -> root_of st = root.
Proof. intros [Hr _]. unfold root_of. by rewrite Hr. Qed.

Lemma zsum_filter_le {A} (g : A -> Z) (P : A -> Prop) `{forall x, Decision (P x)} l :
  (forall x, 0 <= g x) -> 0 <= zsum (map g (filter P l)) <= zsum (map g l).
Proof.
  intros Hg. induction l as [|x l IH]; [done|]. rewrite filter_cons. pose proof (Hg x).
  case_decide; cbn [map]; rewrite ?zsum_cons; lia.
Qed.

Lemma wp_usedBytes st :
  backend_ok st -> used_in (w_fs st.2) (root_of st) < 2 ^ 64 ->
  wp usedBytes (fun r st' => r = Ok (used_in (w_fs st.2) (root_of st)) /\ st' = st) st.
Proof.
  destruct st as [b w]. intros [Hd _ Ht _] Hu. unfold wp, usedBytes. cbn [fst snd] in *.
  rewrite (directory_iterator_at _ _ _ Hd). cbn.
  rewrite (add_day_spec _ _ _ Hd Ht) by (try apply Forall_forall; auto; unfold used_in in *; lia).
  done.
Qed.

Lemma storage_tree_remove f s root n :
  storage_tree f s root -> nodes f !! (root ++ [n]) = Some NDir ->
  storage_tree (remove_tree f (root ++ [n])) s root.
Proof.
  intros [Hd Hdots Ht Hc] Hn. split; [|done| |].
  - eapply directory_at_stable; [exact Ht|done|exact Hd|]. intros q Hq. apply remove_other.
    intros Hp. pose proof (prefix_length _ _ Hq). pose proof (prefix_length _ _ Hp) as Hl.
    rewrite length_app in Hl. cbn in Hl. lia.
  - intros q nd Hq. rewrite lookup_remove_tree in Hq. case_decide; [done|]. by eapply Ht.
  - intros m d Hm. rewrite lookup_remove_tree in Hm. case_decide; [done|]. by apply Hc.
Qed.

(** [deleteFolder] of a day. *)
Lemma wp_deleteFolder b w root n (Q : outcome Z -> state -> Prop) :
  storage_tree (w_fs w) (folder_path_ b) root -> nodes (w_fs w) !! (root ++ [n]) = Some NDir ->
  used_in (w_fs w) root < 2 ^ 64 ->
  (forall w', w_fs w' = remove_tree (w_fs w) (root ++ [n]) -> w_env w' = w_env w ->
     Q (Ok (day_size (w_fs w) root n)) (b, w')) ->
  (forall st', ~ reliable w -> Q (Throw FilesystemError) st') ->
  wp (deleteFolder n) Q (b, w).
Proof.
  intros Hs Hn Hu HQ HE. pose proof Hs as [Hd Hdots Ht Hc].
  pose proof (directory_at_entry _ _ _ Hd Ht n Hn) as Hdn.
  pose proof (used_remove (w_fs w) root n Hn) as Hur.
  pose proof (used_in_nonneg (remove_tree (w_fs w) (root ++ [n])) root).
  assert (day_size (w_fs w) root n = dir_size (w_fs w) (root ++ [n])) as Eds
    by (unfold day_size; by rewrite decide_True).
  unfold deleteFolder. wp_step. unfold wp at 1. cbn [fst snd].
  rewrite (directory_iterator_at _ _ _ Hdn).
  rewrite (sum_sizes_spec _ _ _ Hdn Ht) by (try apply Forall_forall; auto; unfold dir_size in *; lia).
  cbn [wp_rest fst snd]. wp_step. unfold remove_all_dir. unfold wp at 1.
  destruct (ev_ok (event w)) eqn:Eok; cbn [fst snd wp_rest].
  - wp_step. rewrite Z.add_0_l. fold (dir_size (w_fs w) (root ++ [n])). rewrite <- Eds. apply HQ; [|done].
    cbn. unfold remove_all. by rewrite (proj1 Hd).
  - apply HE. intros Hr. specialize (Hr (w_tick w)). unfold event in Eok. congruence.
Qed.

Lemma wp_removeOldest st :
  backend_ok st -> used_in (w_fs st.2) (root_of st) < 2 ^ 64 ->
  wp removeOldest (fun r st' =>
    match r with
    | Ok (true, freed) =>
        exists n, removable (w_fs st.2) (root_of st) n = true /\
          (forall m d d', removable (w_fs st.2) (root_of st) m = true -> stoi m = Some d ->
             stoi n = Some d' -> d' <= d) /\
          freed = day_size (w_fs st.2) (root_of st) n /\
          root_of st' = root_of st /\ st'.1 = st.1 /\ w_env st'.2 = w_env st.2 /\
          w_fs st'.2 = remove_tree (w_fs st.2) (root_of st ++ [n])
    | Ok (false, freed) => freed = 0 /\ st' = st /\ days_in (w_fs st.2) (root_of st) = 0%nat
    | Throw e => e = FilesystemError /\ days_in (w_fs st.2) (root_of st) <> 0%nat /\ ~ reliable st.2
    end) st.
Proof.
  destruct st as [b w]. intros Hok Hu. unfold backend_ok in Hok. cbn [fst snd] in *.
  set (root := root_of (b, w)) in *. pose proof Hok as [Hd Hdots Ht Hc].
  destruct (older_spec _ _ _ Hd Ht (entries (w_fs w) root) kMaxDay) as (H1 & H2 & H3);
    [by apply Forall_forall|].
  unfold removeOldest. wp_step. unfold findOldest, wp at 1. cbn [fst snd].
  rewrite (directory_iterator_at _ _ _ Hd). cbn [wp_rest fst snd].
  set (m := foldl _ _ _) in *. destruct (m =? kMaxDay) eqn:E.
  - apply Z.eqb_eq in E. wp_step. split; [done|]. split; [done|]. unfold days_in.
    apply length_zero_iff_nil. apply filter_nil_intro. intros n Hn Hr.
    apply andb_true_iff in Hr as [Hdir%bool_decide_eq_true Hs].
    destruct (stoi n) as [d|] eqn:Es; [|done]. apply Z.ltb_lt in Hs.
    specialize (H2 n d Hn Hdir Es). lia.
  - apply Z.eqb_neq in E. destruct H3 as [H3|(n & Hin & Hdir & Hs)]; [done|].
    assert (to_string m = n) as En by (apply (Hc n m); [done|done|lia]). rewrite En.
    assert (removable (w_fs w) root n = true) as Hr.
    { unfold removable. rewrite bool_decide_true, Hs by done. apply Z.ltb_lt. lia. }
    wp_step. eapply wp_deleteFolder; [exact Hok|exact Hdir|exact Hu| |].
    + intros w' Hw' He'. wp_step. wp_step. exists n. split; [done|]. split.
      { intros m' d d' Hm' Hd1 Hd2. assert (d' = m) as -> by congruence.
        apply andb_true_iff in Hm' as [Hdir'%bool_decide_eq_true _].
        apply (H2 m'); [by apply elem_of_entries; eauto|done|done]. }
      split; [done|]. split; [|done]. apply root_of_dir. cbn [fst snd]. rewrite Hw'.
      apply (storage_tree_remove _ _ _ n Hok Hdir).
    + intros st' Hrel. split; [done|]. split; [|done]. by rewrite (days_remove _ _ _ Hdir Hr).
Qed.

(** ** Writing keeps the tree in order *)

(** Decimal text read back. *)
Lemma digit_pretty x : (x < 10)%N -> digit (pretty_N_char x) = Some (Z.of_N x).
Proof. intros Hx. destruct x as [|p]; [done|]. do 4 (destruct p; try done; try lia). Qed.

Lemma digits_pretty x s : digits 0 (pretty_N_go x s) = digits (Z.of_N x) s.
Proof.
  revert s. induction (N.lt_wf_0 x) as [x _ IH]; intros s.
  destruct (decide (x = 0)%N) as [->|Hx]; [by rewrite pretty_N_go_0|].
  rewrite pretty_N_go_step by lia. rewrite IH by (apply N.div_lt; lia). cbn [digits].
  rewrite digit_pretty by (apply N.mod_lt; lia). f_equal.
  rewrite N2Z.inj_div, N2Z.inj_mod. pose proof (Z.div_mod (Z.of_N x) 10 ltac:(lia)). lia.
Qed.

Lemma starts_pretty x s : (0 < x)%N \/ starts_with_digit s = true ->
  starts_with_digit (pretty_N_go x s) = true.
Proof.
  revert s. induction (N.lt_wf_0 x) as [x _ IH]; intros s Hs.
  destruct (decide (x = 0)%N) as [->|Hx]; [rewrite pretty_N_go_0; destruct Hs; [lia|done]|].
  rewrite pretty_N_go_step by lia. apply IH; [apply N.div_lt; lia|]. right. cbn.
  rewrite digit_pretty by (apply N.mod_lt; lia). done.
Qed.

Lemma parse_digits s : starts_with_digit s = true -> parse_number s = Some (false, digits 0 s).
Proof.
  intros Hs. destruct s as [|c s]; [done|]. unfold parse_number.
  assert (is_space c = false /\ c <> "-"%char /\ c <> "+"%char) as (H1 & H2 & H3)
    by (clear -Hs; destruct c as [[] [] [] [] [] [] [] []]; try done).
  cbn [skip_space]. rewrite H1.
  assert (match String c s with
          | String "-" s' => (true, s')
          | String "+" s' => (false, s')
          | _ => (false, String c s)
          end = (false, String c s)) as ->
    by (clear -H2 H3; destruct c as [[] [] [] [] [] [] [] []]; done).
  by rewrite Hs.
Qed.

Lemma stoi_to_string d : 0 <= d < 2 ^ 31 -> stoi (to_string d) = Some d.
Proof.
  intros Hd. unfold stoi, to_string.
  assert (exists n, d = Z.of_N n) as [n ->] by (exists (Z.to_N d); lia).
  assert (pretty (Z.of_N n) = pretty n) as -> by (by destruct n).
  assert (parse_number (pretty n) = Some (false, Z.of_N n)) as ->.
  { unfold pretty, pretty_N. case_decide; [by subst|].
    rewrite parse_digits by (apply starts_pretty; left; lia). by rewrite digits_pretty. }
  rewrite (proj2 (Z.leb_le _ _)), (proj2 (Z.ltb_lt _ _)) by lia. done.
Qed.

(** New nodes have plain names. *)
Lemma plain_parent (p : path) : Forall plain p -> Forall plain (parent p).
Proof. intros. by apply Forall_take. Qed.

Lemma walk_plain f l cur todo p :
  (forall q t, nodes f !! q <> Some (NLink t)) ->
  Forall plain cur -> Forall (fun c => no_slash c = true) todo -> walk l f cur todo = Some p ->
  Forall plain p.
Proof.
  intros Hl Hc Hs Hw. revert l cur todo Hc Hs Hw. refine (walk_induction _ _ _).
  - intros l cur Hc _. rewrite walk_nil. by intros [= <-].
  - intros l cur c rest H1 H2 H3 _ Hc Hs. inversion Hs as [|? ? Hs1 Hs2]; subst. rewrite walk_cons.
    destruct (decide (c = _ \/ _)) as [|Hne]; [by apply H1|].
    destruct (decide (c = ".."%string)) as [|Hne']; [apply H2; [by apply plain_parent|done]|].
    assert (Forall plain (cur ++ [c])) as Hp.
    { apply Forall_app. split; [done|]. constructor; [|done].
      apply plain_intro; [done| | |done]; intros ->; apply Hne; auto. }
    destruct (nodes f !! (cur ++ [c])) as [[| |t]|] eqn:E; [by apply H3| | |];
      [case_decide; [by apply H3|done]|by destruct (Hl _ _ E)|case_decide; [by apply H3|done]].
Qed.

Lemma tree_plain_links f : tree_plain f -> forall q t, nodes f !! q <> Some (NLink t).
Proof. intros Ht q t E. destruct (Ht _ _ E) as [_ Hl]. by apply (Hl t). Qed.

Lemma resolve_plain f s p : tree_plain f -> resolve f s = Some p -> Forall plain p.
Proof.
  intros Ht. unfold resolve, resolve_c. case_decide; [done|].
  apply walk_plain; [by apply tree_plain_links|done|apply split_slash_pieces].
Qed.

(** A node that is added. *)
Lemma storage_tree_add f f' s root q nd :
  storage_tree f s root -> nodes f !! q = None -> nodes f' = <[q := nd]> (nodes f) ->
  Forall plain q -> (forall t, nd <> NLink t) ->
  (nd = NDir -> exists d, 0 <= d < 2 ^ 31 /\ q = root ++ [to_string d]) ->
  storage_tree f' s root.
Proof.
  intros [Hd Hdots Ht Hc] Hq En Hp Hl Hday. split.
  - eapply directory_at_mono; [|exact Hd]. rewrite En. by apply insert_subseteq.
  - done.
  - intros k n. rewrite En. destruct (decide (k = q)) as [->|Hne].
    + rewrite lookup_insert_eq. by intros [= <-].
    + rewrite lookup_insert_ne by done. apply Ht.
  - intros n d. rewrite En. destruct (decide (root ++ [n] = q)) as [<-|Hne].
    + rewrite lookup_insert_eq. intros [= ->] Hs _. destruct (Hday eq_refl) as (d' & Hd' & E).
      apply (inj (app root)) in E as [= ->]. rewrite stoi_to_string in Hs by done. congruence.
    + rewrite lookup_insert_ne by done. apply Hc.
Qed.

(** *** The properties of the world the writers keep *)
Record world_inv (I : world -> Prop) : Prop := {
  wi_tick w : I w -> I (tick w);
  wi_append w i bs : I w -> I (set_fs (append_inode i bs (w_fs w)) w);
  wi_open w s i f : I w -> open_append (w_fs w) s = Some (i, f) -> I (set_fs f w)
}.

Lemma storage_tree_inv s root : world_inv (fun w => storage_tree (w_fs w) s root).
Proof.
  split.
  - done.
  - intros w i bs [Hd Hdots Ht Hc]. split; [|done|exact Ht|exact Hc].
    eapply directory_at_mono; [|exact Hd]. done.
  - intros w p i f Hs. unfold open_append. destruct (resolve (w_fs w) p) as [q|] eqn:Er; [|done].
    destruct (node_at (w_fs w) q) as [[| |t]|] eqn:En; [done| |done|]; intros [= <- <-]; [done|].
    destruct q as [|c q]; [done|].
    eapply storage_tree_add; [exact Hs|exact En|reflexivity| |done|done].
    eapply resolve_plain; [apply Hs|exact Er].
Qed.

Section Keeps.
Context {L : LocalTime} (I : world -> Prop) (HI : world_inv I).
Import StreamWriter.

Definition keeps {A} (m : @M StandardFileIO.t A) : Prop :=
  forall s, I s.2 -> wp m (fun _ s' => I s'.2) s.

Definition keeps_io {A} (m : prog (StandardFileIO.t * world) A) : Prop :=
  forall s, I s.2 -> wp m (fun _ s' => I s'.2) s.

Lemma keeps_ret {A} (a : A) : keeps (mret a).
Proof. intros s Hs. by wp_step. Qed.

Lemma keeps_bind {A B} (m : M A) (k : A -> M B) :
  keeps m -> (forall a, keeps (k a)) -> keeps (m ≫= k).
Proof.
  intros Hm Hk s Hs. wp_step. eapply wp_mono; [by apply Hm|]. intros [a|e] s' Hs'; cbn; [by apply Hk|done].
Qed.

Lemma keeps_and (a b : M bool) : keeps a -> keeps b -> keeps (and_also a b).
Proof. intros Ha Hb. apply keeps_bind; [done|]. intros []; [done|apply keeps_ret]. Qed.

Lemma keeps_get {A} (g : t StandardFileIO.t -> A) : keeps (get_sw g).
Proof. intros s Hs. by sw_step. Qed.

Lemma keeps_modify (g : t StandardFileIO.t -> t StandardFileIO.t) : keeps (modify_sw g).
Proof. intros s Hs. by sw_step. Qed.

Lemma keeps_on_index {A} (m : prog (StandardFileIO.t * world) A) : keeps_io m -> keeps (on_index m).
Proof.
  intros Hm [sw w] Hw. cbn in Hw. unfold wp, on_index. destruct (index_ sw) as [h|]; [|done].
  specialize (Hm (h, w) Hw). unfold wp in Hm. by destruct (m (h, w)) as [r [h' w']].
Qed.

Lemma keeps_on_data {A} (m : prog (StandardFileIO.t * world) A) : keeps_io m -> keeps (on_data m).
Proof.
  intros Hm [sw w] Hw. cbn in Hw. unfold wp, on_data. destruct (data_ sw) as [h|]; [|done].
  specialize (Hm (h, w) Hw). unfold wp in Hm. by destruct (m (h, w)) as [r [h' w']].
Qed.

Lemma keeps_clock : keeps (in_world clock_now).
Proof. intros [sw w] Hw. apply wp_in_world. by apply (wi_tick _ HI). Qed.

Lemma keeps_make : keeps (in_world fio_make).
Proof. intros [sw w] Hw. apply wp_in_world. done. Qed.

Lemma keeps_fio_open p : keeps_io (fio_open p).
Proof.
  intros [[fi bu ba] w] Hw. unfold wp. cbn in *. destruct fi; [by apply (wi_tick _ HI)|].
  destruct (ev_ok (event w)); [|by apply (wi_tick _ HI)].
  destruct (open_append (w_fs w) p) as [[i f]|] eqn:E; [|by apply (wi_tick _ HI)].
  apply (wi_tick _ HI). by eapply (wi_open _ HI).
Qed.

Lemma keeps_fio_write bs : keeps_io (fio_write bs).
Proof.
  intros [[fi bu ba] w] Hw. unfold wp. cbn in *.
  destruct fi; [|by apply (wi_tick _ HI)]. destruct ba; [by apply (wi_tick _ HI)|].
  destruct (ev_ok (event w)); by apply (wi_tick _ HI), (wi_append _ HI).
Qed.

Lemma keeps_fio_flush : keeps_io fio_flush.
Proof.
  intros [[fi bu ba] w] Hw. unfold wp. cbn in *.
  destruct fi; [|by apply (wi_tick _ HI)]. destruct ba; [by apply (wi_tick _ HI)|].
  destruct (ev_ok (event w)); by apply (wi_tick _ HI), (wi_append _ HI).
Qed.

Lemma keeps_fio_close : keeps_io fio_close.
Proof.
  intros [[fi bu ba] w] Hw. unfold wp. cbn in *.
  destruct fi; [|by apply (wi_tick _ HI)]. by apply (wi_tick _ HI), (wi_append _ HI).
Qed.

Lemma keeps_fio_destroy : keeps_io fio_destroy.
Proof.
  intros [[fi bu ba] w] Hw. unfold wp. cbn in *.
  destruct fi; [|done]. by apply (wi_tick _ HI), (wi_append _ HI).
Qed.

Lemma keeps_choose time_ns : keeps (choose_name time_ns).
Proof. intros [sw w] Hw. unfold wp, choose_name. by destruct (free_name _ _ _ _ _ _). Qed.
End Keeps.

(** Walks through the statements of an operation. *)
Ltac keeps_step HI :=
  lazymatch goal with
  | |- keeps _ (mbind _ _) => apply keeps_bind; [|intros ?]
  | |- keeps _ (mret _) => apply keeps_ret
  | |- keeps _ (and_also _ _) => apply keeps_and
  | |- keeps _ (StreamWriter.get_sw _) => apply keeps_get
  | |- keeps _ (StreamWriter.modify_sw _) => apply keeps_modify
  | |- keeps _ (StreamWriter.on_index _) => apply keeps_on_index
  | |- keeps _ (StreamWriter.on_data _) => apply keeps_on_data
  | |- keeps _ (StreamWriter.in_world clock_now) => apply (keeps_clock _ HI)
  | |- keeps _ (StreamWriter.in_world fio_make) => apply keeps_make
  | |- keeps _ (StreamWriter.choose_name _) => apply keeps_choose
  | |- keeps_io _ (fio_open _) => apply (keeps_fio_open _ HI)
  | |- keeps_io _ (fio_write _) => apply (keeps_fio_write _ HI)
  | |- keeps_io _ fio_flush => apply (keeps_fio_flush _ HI)
  | |- keeps_io _ fio_close => apply (keeps_fio_close _ HI)
  | |- keeps_io _ fio_destroy => apply (keeps_fio_destroy _ HI)
  | |- keeps _ (if ?b then _ else _) => destruct b
  | |- keeps _ (match ?x with _ => _ end) => destruct x
  | |- keeps _ (let _ := _ in _) => cbn zeta
  end.

Section KeepsOps.
Context {L : LocalTime} (I : world -> Prop) (HI : world_inv I).
Import StreamWriter.

Lemma keeps_reopenFile time_ns : keeps I (reopenFile time_ns).
Proof. unfold reopenFile, assign, open_stream, writeHeader. repeat keeps_step HI. Qed.

Lemma keeps_openFile request : keeps I (openFile request).
Proof. unfold openFile. repeat keeps_step HI. apply keeps_reopenFile. Qed.

Lemma keeps_closeFile : keeps I closeFile.
Proof. unfold closeFile, close_stream. repeat keeps_step HI. Qed.

Lemma keeps_write time_ns data : keeps I (write time_ns data).
Proof.
  unfold write, write_fixed, write_variable, write_variable_record.
  repeat (keeps_step HI || apply keeps_closeFile || apply keeps_reopenFile).
  all: intros s Hs; unfold wp; done.
Qed.
End KeepsOps.

(** *** The number of bytes a write reports *)
Lemma i32_le_need k z : 0 <= k <= 122 -> i32 (k + z) <= maxRecordSize z.
Proof.
  intros Hk. unfold maxRecordSize, LogFileHeader.size, VariableRecordIdx.size,
    VariableRecordDataHeader.size, u64, i32. Z.to_euclidean_division_equations. lia.
Qed.

Lemma i32_u32 k z : i32 (k + u32 z) = i32 (k + z).
Proof.
  unfold i32, u32. f_equal. replace (k + z mod 2 ^ 32 + 2 ^ 31) with ((k + 2 ^ 31) + z mod 2 ^ 32) by lia.
  rewrite Zplus_mod_idemp_r. f_equal. lia.
Qed.

Lemma maxRecordSize_nonneg z : 0 <= maxRecordSize z.
Proof. apply u64_range. Qed.

Section Returns.
Context {L : LocalTime}.
Import StreamWriter.

(** Every value [m] returns satisfies [P]. *)
Definition returns {A} (P : A -> Prop) (m : @M StandardFileIO.t A) : Prop :=
  forall s, wp m (fun o _ => forall a, o = Ok a -> P a) s.

Lemma returns_ret {A} (P : A -> Prop) a : P a -> returns P (mret a).
Proof. intros Ha s. wp_step. by intros ? [= <-]. Qed.

Lemma returns_any {A} (m : M A) : returns (fun _ => True) m.
Proof. intros s. done. Qed.

Lemma returns_bind {A B} (P : A -> Prop) (Q : B -> Prop) (m : M A) (k : A -> M B) :
  returns P m -> (forall a, P a -> returns Q (k a)) -> returns Q (m ≫= k).
Proof.
  intros Hm Hk s. wp_step. eapply wp_mono; [apply Hm|]. intros [a|e] s' Ha; cbn; [by apply Hk, Ha|done].
Qed.

Lemma returns_then {A B} (Q : B -> Prop) (m : M A) (k : A -> M B) :
  (forall a, returns Q (k a)) -> returns Q (m ≫= k).
Proof. intros Hk. eapply returns_bind; [apply returns_any|]. auto. Qed.

Lemma returns_if {A} (P : A -> Prop) (b : bool) (m k : M A) :
  (b = true -> returns P m) -> (b = false -> returns P k) -> returns P (if b then m else k).
Proof. destruct b; auto. Qed.

Definition header_result (n : Z) : Prop := n <= LogFileHeader.size.

Lemma returns_writeHeader fld onf time_ns type :
  returns header_result (writeHeader fld onf time_ns type).
Proof.
  unfold writeHeader. apply returns_then; intros h. apply returns_if; intros _.
  - apply returns_then; intros hd. apply returns_then; intros [];
      apply returns_ret; unfold header_result, LogFileHeader.size, EIO; lia.
  - apply returns_ret. unfold header_result, LogFileHeader.size, EINVAL. lia.
Qed.

Lemma returns_reopenFile time_ns : returns (fun n => n <= 2 * LogFileHeader.size) (reopenFile time_ns).
Proof.
  unfold reopenFile. repeat (apply returns_then; intros ?).
  apply returns_if; intros _; [apply returns_ret; unfold LogFileHeader.size, EINVAL; lia|].
  eapply returns_bind; [apply returns_writeHeader|]. intros r Hr. unfold header_result in Hr.
  apply returns_if; intros E.
  { apply returns_then; intros ?. apply returns_ret. apply Z.leb_le in E. unfold LogFileHeader.size. lia. }
  apply Z.leb_gt in E. apply returns_then; intros rs. apply returns_if; intros _.
  - apply returns_then; intros ?. apply returns_then; intros opened.
    eapply (returns_bind header_result).
    { apply returns_if; intros _; [apply returns_writeHeader|].
      apply returns_ret. unfold header_result, LogFileHeader.size, EINVAL. lia. }
    intros d Hd. unfold header_result in Hd. apply returns_then; intros ?.
    apply returns_if; intros Ed.
    { apply returns_then; intros ?. apply returns_ret. apply Z.ltb_lt in Ed. unfold LogFileHeader.size. lia. }
    apply Z.ltb_ge in Ed. repeat (apply returns_then; intros ?). apply returns_ret.
    unfold LogFileHeader.size in *. rewrite i32_small; lia.
  - repeat (apply returns_then; intros ?). apply returns_ret. unfold LogFileHeader.size in *. lia.
Qed.

Lemma returns_write time_ns data : returns (fun n => n <= maxRecordSize (zlen data)) (write time_ns data).
Proof.
  pose proof (maxRecordSize_nonneg (zlen data)).
  assert (forall e, 0 <= e -> returns (fun n => n <= maxRecordSize (zlen data)) (mret (- e))) as Herr
    by (intros e He; apply returns_ret; lia).
  unfold write, write_fixed, write_variable, EINVAL, EIO.
  apply returns_then; intros i. apply returns_if; intros _; [apply Herr; lia|].
  apply returns_then; intros now. apply returns_then; intros last.
  apply returns_then; intros rs. apply returns_if; intros _.
  - apply returns_then; intros rs'. apply returns_if; intros E; [|apply Herr; lia].
    apply Z.eqb_eq in E. apply returns_then; intros ok1.
    apply returns_if; intros _; [apply Herr; lia|]. apply returns_then; intros ok2.
    apply returns_if; intros _; [apply Herr; lia|]. apply returns_ret.
    rewrite <- E, Z.add_comm. by apply i32_le_need.
  - apply returns_then; intros d. apply returns_if; intros _; [apply Herr; lia|].
    apply returns_then; intros offset. cbn zeta.
    set (o := UINT32_MAX <? _). eapply (returns_bind (fun r => r <= 98 /\ (o = false -> r = 0))).
    { apply returns_if; intros ->; [|by apply returns_ret].
      apply returns_then; intros ?. intros s. eapply wp_mono; [apply returns_reopenFile|].
      intros x s' Hx v Hv. specialize (Hx v Hv). unfold LogFileHeader.size in Hx. split; [lia|done]. }
    intros r [Hr Hr0]. apply returns_if; intros Eo; [|apply returns_then; intros ok].
    + apply andb_true_iff in Eo as [_ Eo%Z.leb_le]. apply returns_ret. lia.
    + apply returns_if; intros _; [apply Herr; lia|]. apply returns_ret.
      replace (r + (8 + 4 + (8 + 4 + u32 (zlen data)))) with ((r + 24) + u32 (zlen data)) by lia.
      rewrite i32_u32. apply i32_le_need. destruct o; [|rewrite Hr0 by done; lia].
      cbn in Eo. apply Z.leb_gt in Eo. lia.
Qed.
End Returns.

(** *** Creating the folder of a day *)
Lemma walk_dirs f l cur a b p :
  tree_plain f -> ".."%string ∉ a ++ b -> node_at f cur = Some NDir ->
  walk l f cur (a ++ b) = Some p -> node_at f p = Some NDir ->
  exists q, walk l f cur a = Some q /\ node_at f q = Some NDir.
Proof.
  intros Ht. revert cur; induction a as [|c a IH]; intros cur Hdots Hc Hw Hp.
  { exists cur. by rewrite walk_nil. }
  cbn [app] in *. apply not_elem_of_cons in Hdots as [Hne Hdots]. rewrite walk_cons in Hw |- *.
  destruct (decide (c = _ \/ _)); [by apply IH|].
  destruct (decide (c = ".."%string)) as [->|_]; [done|].
  destruct (nodes f !! (cur ++ [c])) as [[| |t]|] eqn:E.
  - apply IH; try done. by rewrite node_at_snoc.
  - case_decide as Hab; [|done]. rewrite Hab, walk_nil in Hw. injection Hw as <-.
    by rewrite node_at_snoc, E in Hp.
  - by destruct (tree_plain_links f Ht _ _ E).
  - case_decide as Hab; [|done]. rewrite Hab, walk_nil in Hw. injection Hw as <-.
    by rewrite node_at_snoc, E in Hp.
Qed.

Lemma make_dirs_existing f acc a b p c :
  tree_plain f -> ".."%string ∉ acc ++ a -> resolve_c f (acc ++ a) = Some p ->
  node_at f p = Some NDir ->
  exists c', make_dirs f acc (a ++ b) c = make_dirs f (acc ++ a) b c'.
Proof.
  intros Ht. revert acc c; induction a as [|x a IH]; intros acc c Hdots Hr Hp.
  { exists c. by rewrite app_nil_r. }
  cbn [app make_dirs]. rewrite (cons_middle x acc a) in Hr, Hdots |- *. rewrite app_assoc in Hr, Hdots |- *.
  destruct (walk_dirs f max_links [] (acc ++ [x]) a p Ht Hdots eq_refl Hr Hp) as (q & Hq & Hqd).
  unfold resolve_c at 1. rewrite Hq, Hqd. by apply IH.
Qed.

Lemma plain_day d : 0 <= d < 2 ^ 31 -> plain (to_string d).
Proof.
  intros Hd. apply plain_intro; [apply no_slash_pretty_Z| | |];
    intros E; apply (f_equal stoi) in E; rewrite (stoi_to_string d Hd) in E; done.
Qed.

(** [create_directories] of an entry of a directory. *)
Lemma create_directories_entry f s root n :
  tree_plain f -> ".."%string ∉ split_slash s -> directory_at f s root -> plain n ->
  match nodes f !! (root ++ [n]) with
  | Some NDir => exists c, create_directories f (join_slash s n) = Some (c, f)
  | Some _ => create_directories f (join_slash s n) = None
  | None => create_directories f (join_slash s n) = Some (true, set_node (root ++ [n]) NDir f)
  end.
Proof.
  intros Ht Hdots [Hr Hn] Hp. pose proof Hp as (Hp1 & Hp2 & Hp3 & Hp4). unfold create_directories.
  rewrite split_slash_join, Hp4. unfold resolve in Hr. case_decide; [done|].
  destruct (make_dirs_existing f [] (split_slash s) [n] root false Ht Hdots Hr Hn) as [c' ->].
  cbn [app make_dirs]. unfold resolve_c.
  rewrite (walk_child f _ _ _ _ root); [|done|exact Hr|done|by intros; apply tree_plain_links].
  rewrite node_at_snoc. destruct (nodes f !! (root ++ [n])) as [[| |]|]; [by eexists|done..].
Qed.

Lemma create_day f s root d c f' :
  storage_tree f s root -> 0 <= d < 2 ^ 31 ->
  create_directories f (join_slash s (to_string d)) = Some (c, f') -> storage_tree f' s root.
Proof.
  intros Hs Hd. pose proof Hs as [Hdir Hdots Ht Hc].
  pose proof (create_directories_entry f s root (to_string d) Ht Hdots Hdir (plain_day d Hd)) as He.
  destruct (nodes f !! (root ++ [to_string d])) as [[| |]|] eqn:E.
  - destruct He as [c' ->]. by intros [= <- <-].
  - by rewrite He.
  - by rewrite He.
  - rewrite He. intros [= <- <-]. eapply storage_tree_add; [exact Hs|exact E|reflexivity| |done|eauto].
    apply Forall_app. split; [eapply (resolve_plain f s); [done|apply Hdir]|].
    constructor; [by apply plain_day|done].
Qed.

(** *** Writing *)
Section Write.
Context {L : LocalTime} {LO : LocalTimeOk L}.

Lemma day_range t : 0 <= t < 2 ^ 64 -> 0 < Time2YYYYMMDD t < 2 ^ 31.
Proof.
  intros Ht. unfold Time2YYYYMMDD.
  destruct (localtime_ok (seconds_of_ns t) (seconds_of_ns_range t Ht)) as [_ _ _ H1 H2 H3].
  rewrite u32_small by lia. lia.
Qed.

Section Keep.
Context (s : string) (root : path).
Let I (w : world) : Prop := storage_tree (w_fs w) s root.

(** A folder whose next [create], if any, happens in the root. *)
Definition folder_at_root (fo : Folder.t) : Prop :=
  Folder.yyyymmdd_ fo = 0 -> Folder.folder_ fo = s.

Lemma wp_create t fo w :
  I w -> Folder.folder_ fo = s -> 0 <= t < 2 ^ 64 ->
  wp (Folder.create t) (fun _ s' => I s'.2) (fo, w).
Proof.
  intros Hw Hfo Ht. pose proof (day_range t Ht) as Hd. unfold Folder.create, Folder.modify_f, Folder.get_f.
  wp_step. wp_step. cbn [wp_rest]. wp_step. wp_step.
  cbn [wp_rest fst snd Folder.folder_ Folder.yyyymmdd_ Folder.set_day]. rewrite Hfo.
  change (s +:+ "/" +:+ to_string (Time2YYYYMMDD t))%string with (join_slash s (to_string (Time2YYYYMMDD t))).
  wp_step. apply wp_and_also. wp_step. cbn [fst snd Folder.folder_ Folder.set_folder].
  destruct (exists_ _ _); cbn [negb].
  { cbn [wp_rest]. wp_step. exact Hw. }
  wp_step. wp_step. cbn [wp_rest fst snd Folder.folder_ Folder.set_folder]. wp_step.
  unfold Folder.in_world. apply wp_zoom. unfold make_directories, wp at 1. cbn [fst snd].
  assert (forall c f, create_directories (w_fs w) (join_slash s (to_string (Time2YYYYMMDD t))) = Some (c, f) ->
    storage_tree f s root) as Hc by (intros c f; apply create_day; [exact Hw|lia]).
  destruct (ev_ok (event w)); [|exact Hw].
  destruct (create_directories _ _) as [[c f]|]; [|exact Hw]. specialize (Hc c f eq_refl).
  cbn [fst snd wp_rest]. wp_step. destruct c; cbn [negb]; repeat wp_step; exact Hc.
Qed.

Lemma wp_on_file {A} channel (m : prog (Folder.writer * world) A) (P : A -> Prop) fo w :
  I w -> keeps I m -> (forall sw, wp m (fun o _ => forall a, o = Ok a -> P a) (sw, w)) ->
  wp (Folder.on_file channel m) (fun o s' => I s'.2 /\ forall a, o = Ok a -> P a) (fo, w).
Proof.
  intros Hw Hk Hr. unfold wp, Folder.on_file. destruct (Folder.files_ fo !! channel) as [sw|]; [|done].
  specialize (Hk (sw, w) Hw). specialize (Hr sw). unfold wp in Hk, Hr.
  destruct (m (sw, w)) as [r [sw' w']]. done.
Qed.

Lemma wp_folder_write request fo w :
  I w -> folder_at_root fo -> 0 <= LogRequest.time_ns request < 2 ^ 64 ->
  wp (Folder.write request) (fun o s' => I s'.2 /\
    forall n, o = Ok n -> n <= maxRecordSize (zlen (LogRequest.data request))) (fo, w).
Proof.
  intros Hw Hfo Ht. pose proof (maxRecordSize_nonneg (zlen (LogRequest.data request))) as Hm.
  pose proof (storage_tree_inv s root) as HI.
  assert (forall fo w, I w -> wp (
      files ← Folder.get_f Folder.files_;
      result ← (match files !! LogRequest.channel request with
                | Some _ => mret 1
                | None =>
                    Folder.modify_f (fun f => Folder.set_files
                      (<[LogRequest.channel request := StreamWriter.create (Folder.folder_ f)]> (Folder.files_ f)) f);;
                    Folder.on_file (LogRequest.channel request) (StreamWriter.openFile request)
                end);
      if result <=? 0 then mret result else
      Folder.on_file (LogRequest.channel request)
        (StreamWriter.write (LogRequest.time_ns request) (LogRequest.data request)))
      (fun o s' => I s'.2 /\ forall n, o = Ok n -> n <= maxRecordSize (zlen (LogRequest.data request))) (fo, w)) as Hrest.
  { clear fo w Hw Hfo. intros fo w Hw. unfold Folder.get_f, Folder.modify_f. wp_step. wp_step. cbn [wp_rest fst].
    wp_step.
    assert (forall fo w, I w -> wp (Folder.on_file (LogRequest.channel request)
        (StreamWriter.write (LogRequest.time_ns request) (LogRequest.data request)))
        (fun o s' => I s'.2 /\ forall n, o = Ok n -> n <= maxRecordSize (zlen (LogRequest.data request))) (fo, w)) as Hlast.
    { intros fo1 w1 Hw1. apply wp_on_file; [done|by apply keeps_write|]. intros sw. apply returns_write. }
    destruct (Folder.files_ fo !! LogRequest.channel request).
    - wp_step. cbn [wp_rest Z.leb Z.compare]. by apply Hlast.
    - wp_step. wp_step. cbn [wp_rest].
      eapply wp_mono; [apply (wp_on_file _ _ (fun _ => True)); [done|by apply keeps_openFile|done]|].
      intros [n|e] [fo1 w1] [Hw1 _]; cbn [wp_rest]; [|done]. cbn [snd] in Hw1.
      destruct (n <=? 0) eqn:E; [|by apply Hlast]. apply Z.leb_le in E. wp_step. split; [done|].
      intros ? [= <-]. lia. }
  unfold Folder.write, Folder.get_f. wp_step. wp_step. cbn [wp_rest fst]. wp_step.
  destruct (Folder.yyyymmdd_ fo =? 0) eqn:E.
  - apply Z.eqb_eq in E. eapply wp_mono; [apply wp_create; [exact Hw|by apply Hfo|done]|].
    intros [[]|e] [fo1 w1] Hw1; cbn [wp_rest negb snd] in *; [by apply Hrest| |done].
    wp_step. split; [done|]. intros ? [= <-]. unfold EINVAL. lia.
  - wp_step. cbn [wp_rest negb]. by apply Hrest.
Qed.

Lemma wp_close_files l w : I w -> wp (Folder.close_files l) (fun _ w' => I w') w.
Proof.
  revert w; induction l as [|[c sw] l IH]; intros w Hw; cbn [Folder.close_files]; [by wp_step|].
  wp_step. pose proof (keeps_closeFile _ (storage_tree_inv s root) (sw, w) Hw) as Hc.
  unfold wp in Hc |- *. destruct (StreamWriter.closeFile (sw, w)) as [[[]|e] [sw' w']]; cbn in *; [by apply IH|done].
Qed.

Lemma wp_backend_write request b w :
  I w -> folder_path_ b = s -> 0 <= LogRequest.time_ns request < 2 ^ 64 ->
  wp (write request) (fun o st => I st.2 /\ folder_path_ st.1 = s /\
    forall n, o = Ok n -> n <= maxRecordSize (zlen (LogRequest.data request))) (b, w).
Proof.
  intros Hw Hb Ht. unfold write. wp_step. wp_step. cbn [wp_rest fst]. wp_step.
  assert (forall b w, I w -> folder_path_ b = s -> folder_at_root (folder_ b) ->
    wp (on_folder (Folder.write request)) (fun o st => I st.2 /\ folder_path_ st.1 = s /\
      forall n, o = Ok n -> n <= maxRecordSize (zlen (LogRequest.data request))) (b, w)) as Hrest.
  { intros b1 w1 Hw1 Hb1 Hf1. pose proof (wp_folder_write request (folder_ b1) w1 Hw1 Hf1 Ht) as W.
    unfold wp, on_folder in *. destruct (Folder.write request (folder_ b1, w1)) as [r [fo' w']].
    cbn in *. tauto. }
  unfold Folder.sameDay. pose proof (day_range _ Ht).
  destruct (Folder.yyyymmdd_ (folder_ b) =? _) eqn:E; cbn [negb].
  - apply Z.eqb_eq in E. wp_step. cbn [wp_rest]. apply Hrest; [done|done|]. intros E0. lia.
  - wp_step. unfold on_folder at 1, wp at 1. unfold Folder.close, Folder.get_f.
    assert (wp Folder.close (fun o st => I st.2) (folder_ b, w)) as Wc.
    { unfold Folder.close, Folder.get_f, Folder.in_world, Folder.modify_f. wp_step. wp_step. cbn [wp_rest fst].
      wp_step. apply wp_zoom. eapply wp_mono; [by apply wp_close_files|].
      intros [[]|e] w' Hw'; cbn [wp_rest]; [|done]. repeat wp_step. done. }
    fold (Folder.get_f Folder.files_). fold Folder.close. unfold wp in Wc.
    destruct (Folder.close (folder_ b, w)) as [[[]|e] [fo' w']]; cbn [fst snd wp_rest] in *; [|done].
    wp_step. cbn [wp_rest fst snd folder_path_]. apply Hrest; [done|done|]. intros _. cbn. done.
Qed.
End Keep.
End Write.

(** ** The contract *)
#[export] Instance FilesystemStorageBackend_spec {L : LocalTime} {LO : LocalTimeOk L} :
  BackendSpec state.
Proof.
  split.
  - intros st _. apply zsum_filter_le. apply day_size_nonneg.
  - intros [b w] [Hd Hdots Ht Hc] Hn. cbn in *. unfold used_in, pinned_in, days_in in *. f_equal.
    f_equal. apply length_zero_iff_nil in Hn. revert Hn. generalize (entries (w_fs w) (root_of (b, w))).
    intros l. induction l as [|n l IH]; [done|]. rewrite !filter_cons.
    destruct (removable (w_fs w) (root_of (b, w)) n); cbn; [done|]. intros Hl. f_equal. by apply IH.
  - intros st Hok Hu. by apply wp_usedBytes.
  - intros st Hok Hu. eapply wp_mono; [by apply wp_removeOldest|].
    intros [[[] freed]|e] st'; [|done|by intros (-> & ? & _)].
    intros (n & Hr & _ & -> & Er & Ep & _ & Ef). cbn. unfold backend_ok. rewrite Er, Ep, Ef.
    pose proof Hr as [Hdir%bool_decide_eq_true _]%andb_true_iff.
    split; [by apply storage_tree_remove|]. split; [apply day_size_nonneg|].
    rewrite (used_remove _ _ n Hdir), (pinned_remove _ _ n Hdir Hr), (days_remove _ _ n Hdir Hr).
    split; [lia|]. split; [done|lia].
  - intros [b w] request Hok Ht.
    eapply wp_mono; [by apply (wp_backend_write (folder_path_ b) (root_of (b, w)) request b w Hok eq_refl)|].
    intros [n|e] st' (Hi & Hp & Hn); [|done]. split; [|by apply Hn].
    cbn. unfold backend_ok. rewrite Hp. rewrite (root_of_dir st' (root_of (b, w))); [done|].
    rewrite Hp. apply Hi.
Qed.

(** ** The guarantees of the backend *)

(** C21: retention. In a storage directory in good order, [removeOldest] removes the
    day folder with the smallest date and nothing else, and reports exactly the
    bytes of its files; it reports that there is nothing to remove, and changes
    nothing, exactly when no day folder is left. *)
Theorem oldest_day_only st :
  backend_ok st -> used_in (w_fs st.2) (root_of st) < 2 ^ 64 ->
  wp removeOldest (fun r st' =>
    match r with
    | Ok (true, freed) =>
        exists n, removable (w_fs st.2) (root_of st) n = true /\
          (forall m d d', removable (w_fs st.2) (root_of st) m = true -> stoi m = Some d ->
             stoi n = Some d' -> d' <= d) /\
          freed = dir_size (w_fs st.2) (root_of st ++ [n]) /\
          backend_ok st' /\ inodes (w_fs st'.2) = inodes (w_fs st.2) /\
          forall q, nodes (w_fs st'.2) !! q =
            if decide ((root_of st ++ [n]) `prefix_of` q) then None else nodes (w_fs st.2) !! q
    | Ok (false, freed) =>
        freed = 0 /\ st' = st /\ forall n, removable (w_fs st.2) (root_of st) n = false
    | Throw e => e = FilesystemError
    end) st.
Proof.
  intros Hok Hu. eapply wp_mono; [by apply wp_removeOldest|].
  intros [[[] freed]|e] st'; [| |by intros [-> _]].
  - intros (n & Hr & Hmin & -> & Er & Ep & _ & Ef). exists n. split; [done|]. split; [done|].
    pose proof Hr as [Hdir%bool_decide_eq_true _]%andb_true_iff.
    split; [unfold day_size; by rewrite decide_True|].
    split; [unfold backend_ok; rewrite Er, Ep, Ef; by apply storage_tree_remove|].
    rewrite Ef. split; [done|]. intros q. apply lookup_remove_tree.
  - intros (-> & -> & Hd). split; [done|]. split; [done|]. intros n.
    destruct (removable (w_fs st.2) (root_of st) n) eqn:E; [|done]. exfalso.
    unfold days_in in Hd. apply length_zero_iff_nil in Hd.
    apply (not_elem_of_nil n). rewrite <- Hd. apply list_elem_of_filter. split; [done|].
    apply andb_true_iff in E as [E%bool_decide_eq_true _]. apply elem_of_entries. eauto.
Qed.

(** C27: accounting. [usedBytes] is the number of bytes of the files that lie
    directly in the directories of the storage folder. *)
Theorem used_bytes_exact st :
  backend_ok st -> used_in (w_fs st.2) (root_of st) < 2 ^ 64 ->
  usedBytes st = (Ok (used_in (w_fs st.2) (root_of st)), st).
Proof.
  intros Hok Hu. pose proof (wp_usedBytes st Hok Hu) as W. unfold wp in W.
  destruct (usedBytes st) as [r st']. cbn in W. destruct W as [-> ->]. done.
Qed.


(** *** The guarantees at concrete inputs *)
#[local] Existing Instance utc_localtime.
Definition days_state : state := (create "/log", days_world).

Lemma days_state_ok : backend_ok days_state.
Proof.
  assert (root_of days_state = ["log"%string]) as Er by (vm_compute; reflexivity).
  unfold backend_ok. rewrite Er. split.
  - split; vm_compute; reflexivity.
  - apply (bool_decide_unpack _). vm_compute. exact I.
  - intros p n Hp. apply elem_of_list_to_map_2 in Hp. cbn in Hp.
    rewrite !elem_of_cons in Hp. destruct_or? Hp; try by apply not_elem_of_nil in Hp.
    all: injection Hp as -> ->; split; [|done];
      apply (bool_decide_unpack _); vm_compute; exact I.
  - intros n d Hn. apply elem_of_list_to_map_2 in Hn. cbn in Hn.
    rewrite !elem_of_cons in Hn. destruct_or? Hn; try by apply not_elem_of_nil in Hn.
    all: try discriminate Hn; injection Hn as Hn; try subst n; intros Hd _; vm_compute in Hd;
      first [discriminate Hd | injection Hd as <-; vm_compute; reflexivity].
Qed.

Lemma oldest_day_only_witness :
  exists freed st', removeOldest days_state = (Ok (true, freed), st') /\
    freed = dir_size days_fs ["log"; "20240101"]%string.
Proof.
  pose proof (oldest_day_only days_state days_state_ok ltac:(vm_compute; reflexivity)) as W.
  unfold wp in W. destruct (removeOldest days_state) as [r st'] eqn:E.
  assert (r = Ok (true, 3)) as -> by (apply (f_equal fst) in E; vm_compute in E; by rewrite <- E).
  eexists _, _. split; [reflexivity|]. vm_compute. reflexivity.
Defined.

Lemma used_bytes_exact_witness : usedBytes days_state = (Ok 5, days_state).
Proof.
  rewrite (used_bytes_exact days_state days_state_ok ltac:(vm_compute; reflexivity)).
  vm_compute. reflexivity.
Defined.


(** Five bytes in place and a budget of four: the older day goes. *)
Lemma construct_budget_witness :
  exists s', Storage.construct 3 4 (Storage.mk 0 days_state) = (Ok tt, s') /\
    Storage.available_bytes_ s' + bv_used (Storage.backend_ s') = 4.
Proof.
  pose proof (construct_budget 3 4 0 days_state days_state_ok ltac:(vm_compute; reflexivity)
    ltac:(vm_compute; split; [discriminate|reflexivity]) ltac:(vm_compute; discriminate)
    ltac:(apply Nat.ltb_lt; vm_compute; reflexivity)) as W.
  unfold wp in W. destruct (Storage.construct 3 4 (Storage.mk 0 days_state)) as [r s'] eqn:E.
  assert (r = Ok tt) as -> by (apply (f_equal fst) in E; vm_compute in E; by rewrite <- E).
  exists s'. split; [done|]. apply W.
Defined.

(** Two bytes in a directory that is not a day and a budget of one. *)
Definition notes_fs : fs :=
  mk_fs (list_to_map [(["log"], NDir); (["log"; "notes"], NDir);
      (["log"; "notes"; "a"], NFile 0)]%string) {[ 0%nat := [x01; x02] ]} 1.
Definition notes_state : state := (create "/log", mk_world notes_fs sample_env 0).

Lemma notes_state_ok : backend_ok notes_state.
Proof.
  assert (root_of notes_state = ["log"%string]) as Er by (vm_compute; reflexivity).
  unfold backend_ok. rewrite Er. split.
  - split; vm_compute; reflexivity.
  - apply (bool_decide_unpack _). vm_compute. exact I.
  - intros p n Hp. apply elem_of_list_to_map_2 in Hp. cbn in Hp.
    rewrite !elem_of_cons in Hp. destruct_or? Hp; try by apply not_elem_of_nil in Hp.
    all: injection Hp as -> ->; split; [|done];
      apply (bool_decide_unpack _); vm_compute; exact I.
  - intros n d Hn. apply elem_of_list_to_map_2 in Hn. cbn in Hn.
    rewrite !elem_of_cons in Hn. destruct_or? Hn; try by apply not_elem_of_nil in Hn.
    all: try discriminate Hn; injection Hn as Hn; try subst n; intros Hd _; vm_compute in Hd;
      discriminate Hd.
Qed.

Lemma construct_diverges_witness :
  exists s', Storage.construct 1000 1 (Storage.mk 0 notes_state) = (Throw OutOfFuel, s').
Proof.
  apply (construct_diverges (BV := FilesystemStorageBackend_view) 1000 1 0 notes_state notes_state_ok).
  all: vm_compute; done.
Defined.
