(* ===== verification/LogWriter.v ===== *)
(** * LogWriter

    [libs/log_writer/writer/log_writer.{h,cpp}]: a queue of requests between the
    threads that call [add] and [stop] and the thread that writes to the storage.
    A step of the relation is what one thread does while it holds the mutex, a
    notification, or one call of [Storage::write]; the threads interleave freely. *)
From S2P Require Import Prelude DataTypes Calendar Protos FileSystem FileIO StreamWriter Samples Storage StorageBackend BackendSpec.
Local Open Scope Z_scope.

Module LogWriter.
(** Where the writing thread is. *)
Inductive worker :=
| Running                       (** about to evaluate the predicate of [wait] *)
| Waiting                       (** blocked on the condition variable *)
| Holding (r : LogRequest.t)    (** writing a request *)
| Exited
| Terminated (r : LogRequest.t). (** [Storage::write] threw: [std::terminate] *)

Section Ops.
Context {B : Type} {SB : StorageBackend B} (fuel : nat).

Record t := mk {
  queue_ : list LogRequest.t;
  stopping_ : bool;
  storage_ : Storage.t B;
  thread_ : worker;
  notifications_ : nat;           (** calls of [notify_one] that are due *)
  stopped_ : bool;                (** some call of [stop] has returned *)
  accepted_ : list LogRequest.t;  (** history: requests for which [add] is true *)
  written_ : list LogRequest.t    (** history: requests passed to the storage *)
}.

Definition create (storage : Storage.t B) : t := mk [] false storage Running 0 false [] [].

(** The part of [add] under the lock; the notification follows. *)
Definition add (request : LogRequest.t) (s : t) : bool * t :=
  if stopping_ s then (false, s)
  else (true, mk (queue_ s ++ [request]) (stopping_ s) (storage_ s) (thread_ s)
                 (S (notifications_ s)) (stopped_ s) (accepted_ s ++ [request]) (written_ s)).

(** The part of [stop] under the lock; the notification follows. *)
Definition stop (s : t) : t :=
  mk (queue_ s) true (storage_ s) (thread_ s) (S (notifications_ s)) (stopped_ s)
     (accepted_ s) (written_ s).

(** [condition_.notify_one()] *)
Definition notify_one (s : t) : t :=
  mk (queue_ s) (stopping_ s) (storage_ s)
     (match thread_ s with Waiting => Running | w => w end)
     (notifications_ s - 1) (stopped_ s) (accepted_ s) (written_ s).

Definition set_thread (w : worker) (s : t) : t :=
  mk (queue_ s) (stopping_ s) (storage_ s) w (notifications_ s) (stopped_ s) (accepted_ s) (written_ s).

(** The predicate of [wait]. *)
Definition ready (s : t) : bool := stopping_ s || bool_decide (queue_ s <> []).

(** [wait] under the lock: block, leave the loop, or take the first request. *)
Definition wait (s : t) : t :=
  if negb (ready s) then set_thread Waiting s
  else match queue_ s with
       | [] => set_thread Exited s
       | request :: rest =>
           mk rest (stopping_ s) (storage_ s) (Holding request) (notifications_ s) (stopped_ s)
              (accepted_ s) (written_ s)
       end.

(** The call of [Storage::write]: its result is not looked at. *)
Definition write_request (request : LogRequest.t) (s : t) : t :=
  match Storage.write fuel request (storage_ s) with
  | (Ok _, st) =>
      mk (queue_ s) (stopping_ s) st Running (notifications_ s) (stopped_ s)
         (accepted_ s) (written_ s ++ [request])
  | (Throw _, st) =>
      mk (queue_ s) (stopping_ s) st (Terminated request) (notifications_ s) (stopped_ s)
         (accepted_ s) (written_ s)
  end.

Definition alive (s : t) : bool := match thread_ s with Terminated _ => false | _ => true end.

(** Steps of the writing thread and the notifications that are due. *)
Inductive internal : t -> t -> Prop :=
| internal_wait s : thread_ s = Running -> internal s (wait s)
| internal_write s r : thread_ s = Holding r -> internal s (write_request r s)
| internal_notify s : alive s = true -> (0 < notifications_ s)%nat -> internal s (notify_one s).

(** All steps: those of the callers as well, and wake-ups without a reason. *)
Inductive step : t -> t -> Prop :=
| step_internal s s' : internal s s' -> step s s'
| step_add s r : alive s = true -> step s (add r s).2
| step_stop s : alive s = true -> step s (stop s)
| step_spurious s : thread_ s = Waiting -> step s (set_thread Running s)
| step_joined s : stopping_ s = true -> thread_ s = Exited ->
    step s (mk (queue_ s) (stopping_ s) (storage_ s) (thread_ s) (notifications_ s) true
               (accepted_ s) (written_ s)).

Inductive reachable (storage : Storage.t B) : t -> Prop :=
| reachable_create : reachable storage (create storage)
| reachable_step s s' : reachable storage s -> step s s' -> reachable storage s'.
End Ops.
Arguments t B : clear implicits.
End LogWriter.

(** ** What the writer promises *)
Section Promises.
Context {B : Type} {SB : StorageBackend B} (fuel : nat).
Import LogWriter.

(** The requests written one after the other. *)
Fixpoint store_all (rs : list LogRequest.t) (st : Storage.t B) : option (Storage.t B) :=
  match rs with
  | [] => Some st
  | r :: rs' =>
      match Storage.write fuel r st with
      | (Ok _, st') => store_all rs' st'
      | (Throw _, _) => None
      end
  end.

Definition held (s : t B) : list LogRequest.t :=
  match thread_ s with Holding r | Terminated r => [r] | _ => [] end.

Record writer_ok (storage : Storage.t B) (s : t B) : Prop := {
  wo_order : accepted_ s = written_ s ++ held s ++ queue_ s;
  wo_storage : alive s = true -> store_all (written_ s) storage = Some (storage_ s);
  wo_exited : thread_ s = Exited -> queue_ s = [] /\ stopping_ s = true;
  wo_waiting : thread_ s = Waiting -> ready s = true -> (0 < notifications_ s)%nat;
  wo_stopped : stopped_ s = true -> thread_ s = Exited
}.

Lemma store_all_snoc rs r st :
  store_all (rs ++ [r]) st =
    match store_all rs st with
    | Some st' => match Storage.write fuel r st' with (Ok _, st2) => Some st2 | (Throw _, _) => None end
    | None => None
    end.
Proof.
  revert st. induction rs as [|x rs IH]; intros st; cbn.
  - by destruct (Storage.write fuel r st) as [[]].
  - destruct (Storage.write fuel x st) as [[]]; [apply IH|done].
Qed.

Lemma ready_false (s : t B) : ready s = false -> stopping_ s = false /\ queue_ s = [].
Proof.
  unfold ready. intros [-> H%bool_decide_eq_false]%orb_false_iff. split; [done|].
  by destruct (queue_ s); [|destruct H].
Qed.

Ltac solve_ok := split; unfold held, alive; cbn; try done; try congruence;
  try (by intros); try (by intros Hst; match goal with H : stopped_ _ = true -> _ |- _ => specialize (H Hst) end);
  auto.

Lemma internal_ok storage s s' : writer_ok storage s -> internal fuel s s' -> writer_ok storage s'.
Proof.
  intros [H1 H2 H3 H4 H5] Hs. unfold held, alive in *.
  destruct Hs as [s Ht|s r Ht|s Ha Hn].
  - rewrite Ht in *. unfold wait. destruct (ready s) eqn:Er; cbn [negb].
    + destruct (queue_ s) as [|r q] eqn:Eq; [|solve_ok].
      unfold ready in Er. rewrite Eq, bool_decide_eq_false_2, orb_false_r in Er by congruence.
      solve_ok; by rewrite Eq.
    + solve_ok. intros _ Hr. unfold ready in *. cbn in Hr. congruence.
  - rewrite Ht in *. unfold write_request. specialize (H2 eq_refl).
    pose proof (store_all_snoc (written_ s) r storage) as Hsn. rewrite H2 in Hsn.
    destruct (Storage.write fuel r (storage_ s)) as [[n|e] st]; solve_ok.
    by rewrite H1, <- app_assoc.
  - unfold notify_one. destruct (thread_ s) eqn:Ht; rewrite ?Ht in *; solve_ok.
Qed.

Lemma reachable_ok storage s : reachable fuel storage s -> writer_ok storage s.
Proof.
  induction 1 as [|s s' _ Hok Hs]; [by split|].
  destruct Hs as [s s' Hs|s r Ha|s Ha|s Ht|s Hst He].
  - by eapply internal_ok.
  - unfold add. destruct (stopping_ s) eqn:Es; [exact Hok|]. destruct Hok as [H1 H2 H3 H4 H5].
    split; cbn; try done.
    + unfold held in *. cbn. by rewrite H1, <- !app_assoc.
    + intros He. apply H3 in He as [_ He]. congruence.
    + intros ? _. lia.
  - destruct Hok as [H1 H2 H3 H4 H5]. split; cbn; try done; [|lia].
    intros He. split; [by apply H3|done].
  - destruct Hok as [H1 H2 H3 H4 H5]. unfold held, alive in *. rewrite Ht in *. solve_ok.
  - destruct Hok as [H1 H2 H3 H4 H5]. split; cbn; try done.
Qed.

(** Work that is left for the thread and the notifications. *)
Definition work (s : t B) : nat :=
  3 * length (queue_ s) + 2 * notifications_ s +
  match thread_ s with Running => 1 | Holding _ => 2 | _ => 0 end.

Lemma internal_work s s' : internal fuel s s' -> (work s' < work s)%nat.
Proof.
  intros [s1 Ht|s1 r Ht|s1 Ha Hn]; unfold work; rewrite ?Ht.
  - unfold wait. destruct (ready s1); cbn [negb]; [|cbn; lia].
    destruct (queue_ s1) as [|r q] eqn:Eq; cbn; rewrite ?Eq; cbn; lia.
  - unfold write_request. destruct (Storage.write fuel r (storage_ s1)) as [[n|e] st]; cbn; lia.
  - unfold notify_one. cbn. destruct (thread_ s1); cbn; lia.
Qed.

Lemma internal_sn s : sn (internal fuel) s.
Proof.
  remember (work s) as n eqn:E. revert s E. induction (lt_wf n) as [n _ IH]. intros s ->.
  constructor. intros s' Hs. apply internal_work in Hs as Hw. by apply (IH (work s') Hw).
Qed.

Lemma internal_stopping s s' : internal fuel s s' -> stopping_ s' = stopping_ s /\ accepted_ s' = accepted_ s.
Proof.
  intros [s1 Ht|s1 r Ht|s1 Ha Hn]; [|unfold write_request; by destruct (Storage.write _ _ _) as [[]]|done].
  unfold wait. destruct (negb _); [done|]. by destruct (queue_ s1).
Qed.

Definition is_exited (s : t B) : bool := match thread_ s with Exited => true | _ => false end.

(** While there is something to do, some step can be taken: a waiting thread is
    always woken up. *)
Lemma internal_enabled storage s :
  writer_ok storage s -> ready s = true -> alive s = true -> thread_ s <> Exited ->
  exists s', internal fuel s s'.
Proof.
  intros [_ _ _ Hw _] Hr Ha He. destruct (thread_ s) eqn:Ht; try done.
  - eexists. by apply internal_wait.
  - eexists. apply internal_notify; [done|by apply Hw].
  - eexists. by eapply internal_write.
  - unfold alive in Ha. by rewrite Ht in Ha.
Qed.

(** What the thread and the notifications do leaves what was accepted as it is. *)
Lemma internal_run storage s s' :
  rtc (internal fuel) s s' -> reachable fuel storage s ->
  reachable fuel storage s' /\ stopping_ s' = stopping_ s /\ accepted_ s' = accepted_ s.
Proof.
  induction 1 as [s|s1 s2 s3 H12 _ IH]; intros Hr; [done|].
  destruct (internal_stopping _ _ H12) as [E1 E2].
  destruct IH as (? & ? & ?); [|split_and!; congruence].
  eapply reachable_step; [exact Hr|by apply step_internal].
Qed.

(** A thread that is gone leaves nothing behind. *)
Lemma exited_written storage s :
  writer_ok storage s -> thread_ s = Exited -> queue_ s = [] /\ written_ s = accepted_ s.
Proof.
  intros [H1 _ H3 _ _] He. destruct (H3 He) as [Hq _]. split; [done|].
  rewrite H1, Hq. unfold held. by rewrite He, !app_nil_r.
Qed.

(** After [stop] a run can only end with the thread gone or dead. *)
Lemma stopped_run_end storage s s' :
  reachable fuel storage s -> stopping_ s = true -> rtc (internal fuel) s s' ->
  (forall s2, ~ internal fuel s' s2) -> alive s' = true ->
  thread_ s' = Exited /\ queue_ s' = [] /\ written_ s' = accepted_ s.
Proof.
  intros Hr Hst Hs Hmax Ha. destruct (internal_run storage s s' Hs Hr) as (Hr' & Hst' & Ea).
  apply reachable_ok in Hr' as Hok.
  assert (thread_ s' = Exited) as He.
  { destruct (thread_ s') eqn:Ht; [..|done|].
    all: destruct (internal_enabled storage s' Hok) as [s2 H2];
      [unfold ready; by rewrite Hst', Hst|done|congruence|by destruct (Hmax s2)]. }
  destruct (exited_written storage s' Hok He) as [Hq Hw]. split_and!; congruence.
Qed.

(** The thread dies of a request that cannot be stored, and of nothing else. *)
Lemma reachable_dead storage s r :
  reachable fuel storage s -> thread_ s = Terminated r -> store_all (written_ s ++ [r]) storage = None.
Proof.
  intros Hr. revert r. induction Hr as [|s s' Hr IH Hs]; intros r Ht; [done|].
  apply reachable_ok in Hr as [_ H2 _ _ _]. unfold alive in *.
  destruct Hs as [s s' [s1 E|s1 r1 E|s1 Ha _]|s r1 Ha|s Ha|s E|s _ E]; try (cbn in *; congruence).
  - unfold wait in Ht. destruct (negb _); [done|]. by destruct (queue_ s1).
  - rewrite E in H2. specialize (H2 eq_refl). unfold write_request in *.
    destruct (Storage.write fuel r1 (storage_ s1)) as [[n|e] st] eqn:Ew; [done|].
    cbn in Ht. injection Ht as ->. cbn. by rewrite store_all_snoc, H2, Ew.
  - unfold notify_one, alive in *. cbn in *. by destruct (thread_ s1).
  - unfold add, alive in *. destruct (stopping_ s); cbn in *; [by apply IH|]. by rewrite Ht in Ha.
  - unfold alive in *. cbn in *. by rewrite Ht in Ha.
Qed.

Lemma store_all_app rs qs st :
  store_all (rs ++ qs) st = match store_all rs st with Some st' => store_all qs st' | None => None end.
Proof.
  revert st. induction rs as [|r rs IH]; intros st; cbn; [done|].
  by destruct (Storage.write fuel r st) as [[]].
Qed.

(** Where everything that was accepted can be stored, the thread lives. *)
Lemma reachable_alive storage s :
  reachable fuel storage s -> is_Some (store_all (accepted_ s) storage) -> alive s = true.
Proof.
  intros Hr [st Hst]. unfold alive. destruct (thread_ s) eqn:Ht; try done.
  pose proof (reachable_dead storage s r Hr Ht) as Hd. apply reachable_ok in Hr as [H1 _ _ _ _].
  unfold held in H1. rewrite Ht in H1. by rewrite H1, app_assoc, store_all_app, Hd in Hst.
Qed.

(** Then the thread comes to its end after [stop]. *)
Lemma drains storage s :
  reachable fuel storage s -> stopping_ s = true -> is_Some (store_all (accepted_ s) storage) ->
  exists s', rtc (internal fuel) s s' /\ thread_ s' = Exited.
Proof.
  intros Hr Hst Hok. revert Hr Hst Hok. induction (internal_sn s) as [s _ IH]. intros Hr Hst Hok.
  destruct (decide (is_exited s = true)) as [He|He].
  - exists s. split; [done|]. unfold is_exited in He. by destruct (thread_ s).
  - destruct (internal_enabled storage s (reachable_ok _ _ Hr)) as [s1 H1].
    + unfold ready. by rewrite Hst.
    + by eapply reachable_alive.
    + intros E. apply He. unfold is_exited. by rewrite E.
    + destruct (internal_stopping _ _ H1) as [E1 E2].
      destruct (IH s1 H1) as (s' & Hs' & Ht'); [|congruence|congruence|exists s'; split; [by eapply rtc_l|done]].
      eapply reachable_step; [exact Hr|by apply step_internal].
Qed.

(** C10: refinement. However the callers, the writing thread and the notifications
    interleave, the requests for which [add] returned true are those written, the
    one being written and those queued, in this order, each exactly once, and the
    storage is that of a program that writes them one after the other. When [stop]
    has returned, all of them are written and nothing is accepted any more. *)
Theorem writer_refines_sequence storage s :
  reachable fuel storage s ->
  accepted_ s = written_ s ++ held s ++ queue_ s /\
  (alive s = true -> store_all (written_ s) storage = Some (storage_ s)) /\
  (stopped_ s = true -> written_ s = accepted_ s /\
     forall r, (add r s).1 = false /\ (add r s).2 = s).
Proof.
  intros [H1 H2 H3 H4 H5]%reachable_ok. split; [done|]. split; [done|].
  intros Hst. specialize (H5 Hst). destruct (H3 H5) as [Hq Hs]. split.
  - rewrite H1, Hq. unfold held. by rewrite H5, !app_nil_r.
  - intros r. unfold add. by rewrite Hs.
Qed.

(** C19: shutdown. Once [stop] was called, every run of the writing thread and the
    due notifications ends, and it ends with the thread gone and everything that
    was accepted written; only an exception from the storage can prevent that. *)
Theorem stop_drains storage s :
  reachable fuel storage s -> stopping_ s = true ->
  sn (internal fuel) s /\
  forall s', rtc (internal fuel) s s' -> (forall s2, ~ internal fuel s' s2) ->
    (thread_ s' = Exited /\ queue_ s' = [] /\ written_ s' = accepted_ s) \/ alive s' = false.
Proof.
  intros Hr Hst. split; [apply internal_sn|]. intros s' Hs Hmax.
  destruct (alive s') eqn:Ha; [left|by right]. by apply (stopped_run_end storage).
Qed.
End Promises.

(** *** The guarantees at concrete inputs *)
#[local] Existing Instance utc_localtime.
Import LogWriter.

Definition full_storage : Storage.t FilesystemStorageBackend.state := Storage.mk 100000 days_state.

(** Two requests are accepted, the first is written, and [stop] is called. *)
Definition busy_writer : t FilesystemStorageBackend.state :=
  let s1 := (add sample_request (create full_storage)).2 in
  let s2 := (add sample_request s1).2 in
  stop (write_request 3 sample_request (wait s2)).

Lemma busy_writer_reachable : reachable 3 full_storage busy_writer.
Proof.
  unfold busy_writer.
  eapply reachable_step; [|apply step_stop; vm_compute; reflexivity].
  eapply reachable_step; [|apply step_internal, internal_write; vm_compute; reflexivity].
  eapply reachable_step; [|apply step_internal, internal_wait; vm_compute; reflexivity].
  eapply reachable_step; [|apply step_add; vm_compute; reflexivity].
  eapply reachable_step; [|apply step_add; vm_compute; reflexivity].
  apply reachable_create.
Qed.

Lemma writer_refines_sequence_witness :
  accepted_ busy_writer = written_ busy_writer ++ held busy_writer ++ queue_ busy_writer /\
  store_all 3 (written_ busy_writer) full_storage = Some (storage_ busy_writer).
Proof.
  destruct (writer_refines_sequence 3 full_storage busy_writer busy_writer_reachable) as (H1 & H2 & _).
  split; [exact H1|]. apply H2. vm_compute. reflexivity.
Defined.

Lemma stop_drains_witness :
  sn (internal 3) busy_writer /\
  (thread_ (wait (write_request 3 sample_request (wait busy_writer))) = Exited).
Proof.
  split; [|vm_compute; reflexivity].
  apply (stop_drains 3 full_storage busy_writer busy_writer_reachable). reflexivity.
Defined.
