(* ===== verification/FileReader.v ===== *)
(** * File readers

    [libs/log_reader/file_reader.h], [idx_file_reader.h], [data_file_reader.h]:
    a read-only file, an index file and a data file. Reading does not change the
    file system, so every operation is a [prog] on the reader for a fixed file
    system. The text of an error is kept in [last_error_] as in the source. *)
From S2P Require Import Prelude DataTypes Protos FileSystem FileIO StreamWriter.
Local Open Scope Z_scope.

(** ** [std::ifstream] *)
Module Ifstream.
Record t := mk {
  file_ : option nat;   (** the inode, when the stream is open *)
  pos_ : Z;
  fail_ : bool          (** [failbit]; nothing clears it *)
}.
Definition closed : t := mk None 0 false.

Definition open (f : fs) (path : string) : t :=
  match open_read f path with
  | Some i => mk (Some i) 0 false
  | None => mk None 0 true
  end.

(** [seekg]: no effect on a failed stream. *)
Definition seekg (p : Z) (s : t) : t :=
  if fail_ s then s else mk (file_ s) p false.

(** [read]: [None] when fewer than [n] bytes are left, which fails the stream. *)
Definition read (f : fs) (n : Z) (s : t) : option bytes * t :=
  match file_ s with
  | Some i =>
      let bs := sub (contents f i) (Z.to_nat (pos_ s)) (Z.to_nat n) in
      if fail_ s || negb (zlen bs =? n) then (None, mk (Some i) (pos_ s) true)
      else (Some bs, mk (Some i) (pos_ s + n) false)
  | None => (None, mk None (pos_ s) true)
  end.
End Ifstream.

(** ** FileReader *)
Module FileReader.
Record t := mk {
  path_ : string;
  if_ : Ifstream.t;
  header_ : option LogFileHeader.t;     (* unique_ptr<LogFileHeader> *)
  size_bytes_ : Z;                      (* uint32_t *)
  last_error_ : string
}.

Definition set_if (s : Ifstream.t) (r : t) : t :=
  mk (path_ r) s (header_ r) (size_bytes_ r) (last_error_ r).
Definition set_header (h : option LogFileHeader.t) (r : t) : t :=
  mk (path_ r) (if_ r) h (size_bytes_ r) (last_error_ r).
Definition set_size (n : Z) (r : t) : t :=
  mk (path_ r) (if_ r) (header_ r) n (last_error_ r).
Definition log_error (e : string) (r : t) : t :=
  mk (path_ r) (if_ r) (header_ r) (size_bytes_ r) e.

Section Ops.
Context (f : fs).

(** The size of the file in 32 bits, 0 on error. *)
Definition fileSize (path : string) (r : t) : t :=
  match file_size f path with
  | Some size => if size =? 2 ^ 64 - 1 then set_size 0 r else set_size (u32 size) r
  | None => set_size 0 r
  end.

(** [if_.read] into an object of [n] bytes. *)
Definition read_bytes (n : Z) : prog t (option bytes) := fun r =>
  match Ifstream.read f n (if_ r) with
  | (bs, s) => (Ok bs, set_if s r)
  end.

Definition getHeader : prog t bool :=
  is_open ← gets (fun r => bool_decide (is_Some (Ifstream.file_ (if_ r))));
  if negb is_open then
    modify (fun r => log_error ("Couldn't open file " +:+ path_ r)%string r);;
    mret false
  else
    bs ← read_bytes LogFileHeader.size;
    match bs with
    | Some bs =>
        modify (set_header (Some (LogFileHeader.decode bs)));;
        mret true
    | None =>
        modify (fun r => log_error ("Couldn't read LogFileHeader from " +:+ path_ r)%string r);;
        modify (set_header None);;
        mret false
    end.

Definition construct (path : string) : t :=
  let r := fileSize path (mk path Ifstream.closed None 0 EmptyString) in
  if size_bytes_ r =? 0 then r
  else (getHeader (set_if (Ifstream.open f path) r)).2.

(** The stream name from the header: [header_->name_] as a C string. *)
Definition name (r : t) : outcome bytes :=
  match header_ r with
  | Some h => LogFileHeader.c_str (LogFileHeader.name_ h)
  | None => Ok []
  end.
End Ops.
End FileReader.

(** ** IndexFileReader *)
Module IndexFileReader.
Record t := mk {
  base : FileReader.t;
  records_cnt_ : Z;      (* uint32_t *)
  start_ns_ : Z;         (* uint64_t *)
  end_ns_ : Z            (* uint64_t *)
}.

Definition set_base (b : FileReader.t) (r : t) : t :=
  mk b (records_cnt_ r) (start_ns_ r) (end_ns_ r).
Definition log_error (e : string) : prog t unit :=
  modify (fun r => set_base (FileReader.log_error e (base r)) r).
Definition path (r : t) : string := FileReader.path_ (base r).
Definition header (r : t) : option LogFileHeader.t := FileReader.header_ (base r).
Definition last_error (r : t) : string := FileReader.last_error_ (base r).

(** The width of one index record. *)
Definition record_width (h : LogFileHeader.t) : Z :=
  if negb (LogFileHeader.record_size_ h =? 0)
  then FixedRecordIdx.size + LogFileHeader.record_size_ h
  else VariableRecordIdx.size.

Section Ops.
Context (f : fs).

Definition read_bytes (n : Z) : prog t (option bytes) :=
  zoom base set_base (FileReader.read_bytes f n).

(** [seekg] to the record; false when the stream has failed. *)
Definition selectRecord (h : LogFileHeader.t) (index : Z) : prog t bool :=
  let p := u64 (LogFileHeader.header_size_ h + u64 (index * record_width h)) in
  modify (fun r => set_base
    (FileReader.set_if (Ifstream.seekg p (FileReader.if_ (base r))) (base r)) r);;
  gets (fun r => negb (Ifstream.fail_ (FileReader.if_ (base r)))).

(** The timestamp of a record, 0 on error. *)
Definition timeOf (index : Z) : prog t Z :=
  log_error EmptyString;;
  h ← gets header;
  match h with
  | None =>
      p ← gets path;
      log_error ("File " +:+ p +:+ " was not opened")%string;;
      mret 0
  | Some h =>
      r ← gets id;
      if (records_cnt_ r <=? index) || negb (LogFileHeader.file_type_ h =? kIndexFile) then
        log_error ("Invalid index " +:+ to_string index +:+ " for file " +:+ path r +:+
                   " which has " +:+ to_string (FileReader.size_bytes_ (base r)) +:+
                   " bytes")%string;;
        mret 0
      else
        ok ← selectRecord h (u32 index);
        if negb ok then mret 0 else
        bs ← read_bytes 8;
        match bs with
        | Some bs => mret (le_decode bs)
        | None =>
            log_error ("Couldn't read timestamp from record " +:+ to_string index +:+
                       " in " +:+ path r)%string;;
            mret 0
        end
  end.

Definition construct (p : string) : t :=
  let b := FileReader.construct f p in
  let r := mk b 0 0 0 in
  match FileReader.header_ b with
  | Some h =>
      if negb (FileReader.size_bytes_ b =? 0) &&
         (LogFileHeader.header_size_ h <=? FileReader.size_bytes_ b) then
        let cnt := u32 (u32 (FileReader.size_bytes_ b - LogFileHeader.header_size_ h) /
                        record_width h) in
        let r := mk b cnt 0 0 in
        match timeOf 0 r with
        | (Ok s, r) =>
            match timeOf (u32 (cnt - 1)) r with
            | (Ok e, r) => mk (base r) cnt s e
            | (Throw _, r) => r
            end
        | (Throw _, r) => r
        end
      else r
  | None => r
  end.

(** A readable header that identifies an index file. *)
Definition validIndex (r : t) : bool :=
  match header r with
  | Some h =>
      (LogFileHeader.header_size_ h <=? FileReader.size_bytes_ (base r)) &&
      (LogFileHeader.size <=? LogFileHeader.header_size_ h) &&
      (LogFileHeader.file_type_ h =? kIndexFile)
  | None => false
  end.

(** Some record may belong to the time range. *)
Definition matchTime (r : t) (start end_ : Z) : bool :=
  negb (records_cnt_ r =? 0) && (start <=? end_) && (start_ns_ r <=? end_) &&
  (start <=? end_ns_ r).

Definition fixedSize (r : t) : bool :=
  match header r with
  | Some h => 0 <? LogFileHeader.record_size_ h
  | None => true
  end.

(** The payload of a fixed-size record into [payload]; the result is its
    length, 0 on error. A null pointer is [None]. *)
Definition readPayload (index : Z) (payload : option bytes) : prog t (Z * option bytes) :=
  log_error EmptyString;;
  h ← gets header;
  p ← gets path;
  match h with
  | None => log_error ("File " +:+ p +:+ " was not opened")%string;; mret (0, payload)
  | Some h =>
      cnt ← gets records_cnt_;
      if (LogFileHeader.record_size_ h =? 0) || negb (bool_decide (is_Some payload)) ||
         (cnt <=? index) then
        log_error ("Can't read fixed payload from a variable length file " +:+ p)%string;;
        mret (0, payload)
      else
        ok ← selectRecord h index;
        if negb ok then mret (0, payload) else
        bs ← read_bytes FixedRecordIdx.size;
        match bs with
        | None =>
            log_error ("Couldn't read fixed record " +:+ to_string index +:+ " from " +:+ p)%string;;
            mret (0, payload)
        | Some _ =>
            bs ← read_bytes (LogFileHeader.record_size_ h);
            match bs with
            | None =>
                log_error ("Couldn't read fixed payload " +:+ to_string index +:+ " from " +:+ p)%string;;
                mret (0, payload)
            | Some bs => mret (LogFileHeader.record_size_ h, Some bs)
            end
        end
  end.

(** The offset in the data file, 0 on error. *)
Definition readOffset (index : Z) : prog t Z :=
  log_error EmptyString;;
  h ← gets header;
  p ← gets path;
  match h with
  | None => log_error ("File " +:+ p +:+ " was not opened")%string;; mret 0
  | Some h =>
      cnt ← gets records_cnt_;
      if negb (LogFileHeader.record_size_ h =? 0) || (cnt <=? index) then
        log_error ("Can't read offset from a fixed length file " +:+ p)%string;;
        mret 0
      else
        ok ← selectRecord h index;
        if negb ok then mret 0 else
        bs ← read_bytes VariableRecordIdx.size;
        match bs with
        | None =>
            log_error ("Couldn't read variable index record " +:+ to_string index +:+
                       " from " +:+ p)%string;;
            mret 0
        | Some bs => mret (VariableRecordIdx.offset_ (VariableRecordIdx.decode bs))
        end
  end.
End Ops.
End IndexFileReader.

(** ** DataFileReader *)
Module DataFileReader.
Definition t : Type := FileReader.t.

Definition construct (f : fs) (path : string) : t := FileReader.construct f path.

Definition log_error (e : string) : prog t unit := modify (FileReader.log_error e).

Section Ops.
Context (f : fs).

(** The record at [offset] into [result]; the result is the payload size, 0
    on error. *)
Definition read (offset : Z) (result : option DataPiece.t) : prog t (Z * option DataPiece.t) :=
  log_error EmptyString;;
  r ← gets id;
  let p := FileReader.path_ r in
  match FileReader.header_ r, result with
  | Some h, Some piece =>
      let size := FileReader.size_bytes_ r in
      if (size <? LogFileHeader.header_size_ h) ||
         (offset <? LogFileHeader.header_size_ h) ||
         (u64 (size - VariableRecordDataHeader.size) <? offset) ||
         negb (LogFileHeader.file_type_ h =? kDataFile) then
        log_error ("Invalid offset " +:+ to_string offset +:+ " for file " +:+ p +:+
                   " which has " +:+ to_string size +:+ " bytes")%string;;
        mret (0, result)
      else
        modify (fun r => FileReader.set_if (Ifstream.seekg offset (FileReader.if_ r)) r);;
        failed ← gets (fun r => Ifstream.fail_ (FileReader.if_ r));
        if (failed : bool) then
          log_error ("Couldn't position file " +:+ p +:+ " to the offset " +:+
                     to_string offset)%string;;
          mret (0, result)
        else
          bs ← FileReader.read_bytes f VariableRecordDataHeader.size;
          match bs with
          | None =>
              log_error ("Couldn't read " +:+ to_string VariableRecordDataHeader.size +:+
                         " from " +:+ p +:+ " at " +:+ to_string offset)%string;;
              mret (0, result)
          | Some bs =>
              let rec_header := VariableRecordDataHeader.decode bs in
              let n := VariableRecordDataHeader.size_ rec_header in
              if u64 (size - offset - VariableRecordDataHeader.size) <? n then
                log_error ("Record at " +:+ to_string offset +:+ " in " +:+ p +:+
                           " extends beyond the end of the file")%string;;
                mret (0, result)
              else
                bs ← FileReader.read_bytes f n;
                match bs with
                | None =>
                    log_error ("Couldn't read " +:+ to_string n +:+ " from " +:+ p +:+ " at " +:+
                               to_string (offset + VariableRecordDataHeader.size))%string;;
                    mret (0, result)
                | Some bs =>
                    mret (n, Some (DataPiece.mk
                                     (Some (VariableRecordDataHeader.time_ns_ rec_header))
                                     (Some bs) (DataPiece.stream_idx_ piece)))
                end
          end
  | _, _ =>
      log_error ("File " +:+ p +:+ " was not opened")%string;;
      mret (0, result)
  end.
End Ops.
End DataFileReader.

(** ** What the readers return

    A reader is [ready] for inode [i] when its header was read, the stream is
    good and the cached size is the size of the file. Bounds are checked against
    that size, so a ready reader stays ready. *)
Section Ready.
Context (f : fs).

Record ready (i : nat) (h : LogFileHeader.t) (r : FileReader.t) : Prop := {
  ready_file : Ifstream.file_ (FileReader.if_ r) = Some i;
  ready_good : Ifstream.fail_ (FileReader.if_ r) = false;
  ready_header : FileReader.header_ r = Some h;
  ready_size : FileReader.size_bytes_ r = zlen (contents f i);
  ready_small : zlen (contents f i) < 2 ^ 32
}.

Lemma ready_log_error i h r e : ready i h r -> ready i h (FileReader.log_error e r).
Proof. by intros []. Qed.

Lemma ready_seekg i h r p :
  ready i h r ->
  ready i h (FileReader.set_if (Ifstream.seekg p (FileReader.if_ r)) r).
Proof.
  intros []. split; cbn; unfold Ifstream.seekg; rewrite ?ready_good0; done.
Qed.

(** A read of [n] bytes inside the file. *)
Lemma wp_read_bytes i h r p n (Q : outcome (option bytes) -> FileReader.t -> Prop) :
  ready i h r -> Ifstream.pos_ (FileReader.if_ r) = p ->
  0 <= p -> 0 <= n -> p + n <= zlen (contents f i) ->
  (forall r', ready i h r' -> FileReader.path_ r' = FileReader.path_ r ->
     FileReader.last_error_ r' = FileReader.last_error_ r ->
     Ifstream.pos_ (FileReader.if_ r') = p + n ->
     Q (Ok (Some (sub (contents f i) (Z.to_nat p) (Z.to_nat n)))) r') ->
  wp (FileReader.read_bytes f n) Q r.
Proof.
  intros [] Hp Hp0 Hn Hb HQ. unfold wp, FileReader.read_bytes, Ifstream.read.
  rewrite ready_file0, ready_good0, Hp. cbn [orb].
  assert ((zlen (sub (contents f i) (Z.to_nat p) (Z.to_nat n)) =? n) = true) as E.
  { apply Z.eqb_eq. unfold zlen in *. rewrite length_sub; lia. }
  rewrite E. cbn. apply HQ; done.
Qed.
End Ready.

(** What a freshly constructed reader has read. *)
Lemma FileReader_construct_ready f path i :
  status f path = Some (NFile i) ->
  LogFileHeader.size <= zlen (contents f i) < 2 ^ 32 ->
  exists h, h = LogFileHeader.decode (take (Z.to_nat LogFileHeader.size) (contents f i)) /\
    ready f i h (FileReader.construct f path) /\
    FileReader.path_ (FileReader.construct f path) = path /\
    FileReader.last_error_ (FileReader.construct f path) = EmptyString.
Proof.
  intros Hs Hl. eexists; split; [reflexivity|].
  unfold FileReader.construct, FileReader.fileSize, file_size. rewrite Hs.
  rewrite (proj2 (Z.eqb_neq _ (2 ^ 64 - 1))) by (unfold LogFileHeader.size in *; lia).
  rewrite u32_small by (unfold LogFileHeader.size in *; lia). cbn [FileReader.size_bytes_ FileReader.set_size].
  rewrite (proj2 (Z.eqb_neq _ _)) by (unfold LogFileHeader.size in *; lia).
  unfold FileReader.getHeader, gets, mbind, prog_bind.
  cbn [FileReader.set_if FileReader.if_].
  unfold Ifstream.open, open_read. rewrite Hs. cbn [Ifstream.file_].
  rewrite bool_decide_true by eauto. cbn [negb].
  unfold FileReader.read_bytes, Ifstream.read. cbn -[sub Z.to_nat Z.eqb].
  assert ((zlen (sub (contents f i) (Z.to_nat 0) (Z.to_nat LogFileHeader.size)) =?
           LogFileHeader.size) = true) as E.
  { apply Z.eqb_eq. unfold zlen in *. rewrite length_sub; unfold LogFileHeader.size in *; lia. }
  rewrite E. cbn. split; [|done].
  split; cbn; try done; lia.
Qed.

(** A file too short for a header gives no header. *)
Lemma FileReader_construct_short f path :
  (forall i, status f path = Some (NFile i) -> zlen (contents f i) < LogFileHeader.size) ->
  FileReader.header_ (FileReader.construct f path) = None.
Proof.
  intros Hs. unfold FileReader.construct, FileReader.fileSize, file_size.
  destruct (status f path) as [[|i|]|] eqn:E; try done.
  specialize (Hs i eq_refl). unfold LogFileHeader.size in Hs.
  pose proof (zlen_nonneg (contents f i)).
  rewrite (proj2 (Z.eqb_neq _ (2 ^ 64 - 1))) by lia. rewrite u32_small by lia.
  cbn [FileReader.size_bytes_ FileReader.set_size]. case_match; [done|].
  unfold FileReader.getHeader, gets, mbind, prog_bind.
  cbn [FileReader.set_if FileReader.if_].
  unfold Ifstream.open, open_read. rewrite E. cbn [Ifstream.file_].
  rewrite bool_decide_true by eauto. cbn [negb].
  unfold FileReader.read_bytes, Ifstream.read. cbn -[sub Z.to_nat Z.eqb].
  assert ((zlen (sub (contents f i) (Z.to_nat 0) (Z.to_nat LogFileHeader.size)) =?
           LogFileHeader.size) = false) as ->; [|done].
  apply Z.eqb_neq. unfold sub, zlen in *. rewrite length_take, length_drop.
  unfold LogFileHeader.size. lia.
Qed.

(** *** Index files *)
Section IndexReady.
Context (f : fs).

(** An index reader over inode [i] with header [h]: its records are inside the
    file. [iframe r r'] says that only the stream moved. *)
Record iready (i : nat) (h : LogFileHeader.t) (r : IndexFileReader.t) : Prop := {
  ir_base : ready f i h (IndexFileReader.base r);
  ir_type : LogFileHeader.file_type_ h = kIndexFile;
  ir_header_size : 0 <= LogFileHeader.header_size_ h;
  ir_record_size : 0 <= LogFileHeader.record_size_ h;
  ir_cnt : 0 <= IndexFileReader.records_cnt_ r;
  ir_bound : LogFileHeader.header_size_ h +
    IndexFileReader.records_cnt_ r * IndexFileReader.record_width h <= zlen (contents f i)
}.

Definition iframe (r r' : IndexFileReader.t) : Prop :=
  IndexFileReader.records_cnt_ r' = IndexFileReader.records_cnt_ r /\
  IndexFileReader.start_ns_ r' = IndexFileReader.start_ns_ r /\
  IndexFileReader.end_ns_ r' = IndexFileReader.end_ns_ r /\
  IndexFileReader.path r' = IndexFileReader.path r /\
  IndexFileReader.last_error r' = EmptyString.

(** The position of a record in the file. *)
Definition record_pos (h : LogFileHeader.t) (index : Z) : Z :=
  LogFileHeader.header_size_ h + index * IndexFileReader.record_width h.

Lemma record_width_pos h :
  0 <= LogFileHeader.record_size_ h -> 8 <= IndexFileReader.record_width h.
Proof.
  unfold IndexFileReader.record_width, FixedRecordIdx.size, VariableRecordIdx.size.
  case_match; lia.
Qed.

Lemma record_pos_bound i h r index :
  iready i h r -> 0 <= index < IndexFileReader.records_cnt_ r ->
  0 <= record_pos h index /\
  record_pos h index + IndexFileReader.record_width h <= zlen (contents f i) < 2 ^ 32.
Proof.
  intros [[] ? ? Hr ? ?] Hi. unfold record_pos.
  pose proof (record_width_pos h Hr). nia.
Qed.

Lemma iready_count i h r : iready i h r -> IndexFileReader.records_cnt_ r < 2 ^ 32.
Proof.
  intros [[] ? ? Hr ? ?]. pose proof (record_width_pos h Hr). nia.
Qed.

Lemma wp_clear_error i h r (Q : outcome unit -> IndexFileReader.t -> Prop) :
  iready i h r ->
  (forall r', iready i h r' -> iframe r r' -> Q (Ok tt) r') ->
  wp (IndexFileReader.log_error EmptyString) Q r.
Proof.
  intros [] HQ. apply wp_modify, HQ; [|done].
  split; try done. by apply ready_log_error.
Qed.

(** Seeking to a record of the file succeeds. *)
Lemma wp_selectRecord i h r index (Q : outcome bool -> IndexFileReader.t -> Prop) :
  iready i h r -> 0 <= index < IndexFileReader.records_cnt_ r ->
  IndexFileReader.last_error r = EmptyString ->
  (forall r', iready i h r' -> iframe r r' ->
     Ifstream.pos_ (FileReader.if_ (IndexFileReader.base r')) = record_pos h index ->
     Q (Ok true) r') ->
  wp (IndexFileReader.selectRecord h index) Q r.
Proof.
  intros Hr Hi He HQ. destruct (record_pos_bound _ _ _ _ Hr Hi).
  pose proof (iready_count _ _ _ Hr). destruct Hr as [[Hf Hg Hh Hs Hsm] ? ? ? ? ?].
  pose proof (record_width_pos h ltac:(done)).
  assert (0 <= index * IndexFileReader.record_width h <= record_pos h index)
    by (unfold record_pos in *; nia).
  unfold IndexFileReader.selectRecord. wp_step. wp_step. wp_step. wp_step.
  cbn [IndexFileReader.base IndexFileReader.set_base FileReader.if_ FileReader.set_if].
  unfold Ifstream.seekg at 1. rewrite Hg. cbn [Ifstream.fail_ negb].
  apply HQ.
  - split; try done. cbn. split; cbn; unfold Ifstream.seekg; rewrite ?Hg; done.
  - done.
  - cbn. unfold Ifstream.seekg. rewrite Hg. cbn.
    rewrite (u64_small (index * _)) by lia. rewrite u64_small; unfold record_pos in *; lia.
Qed.

Lemma wp_index_read i h r p n (Q : outcome (option bytes) -> IndexFileReader.t -> Prop) :
  iready i h r -> IndexFileReader.last_error r = EmptyString ->
  Ifstream.pos_ (FileReader.if_ (IndexFileReader.base r)) = p ->
  0 <= p -> 0 <= n -> p + n <= zlen (contents f i) ->
  (forall r', iready i h r' -> iframe r r' ->
     Ifstream.pos_ (FileReader.if_ (IndexFileReader.base r')) = p + n ->
     Q (Ok (Some (sub (contents f i) (Z.to_nat p) (Z.to_nat n)))) r') ->
  wp (IndexFileReader.read_bytes f n) Q r.
Proof.
  intros [] He Hp Hp0 Hn Hb HQ. apply wp_zoom.
  eapply wp_read_bytes; [done|done|done|done|done|].
  intros b Hb1 Hb2 Hb3 Hb4. apply HQ; [by split|split_and!; try done|done].
  unfold IndexFileReader.last_error in *. cbn. congruence.
Qed.
End IndexReady.

Section IndexSpec.
Context (f : fs).

Lemma iframe_trans r1 r2 r3 : iframe r1 r2 -> iframe r2 r3 -> iframe r1 r3.
Proof. unfold iframe. intuition congruence. Qed.

(** [timeOf] of a record returns the first word of the record. *)
Lemma wp_timeOf i h r index :
  iready f i h r -> 0 <= index < IndexFileReader.records_cnt_ r ->
  wp (IndexFileReader.timeOf f index) (fun o r' =>
    o = Ok (le_decode (sub (contents f i) (Z.to_nat (record_pos h index)) 8)) /\
    iready f i h r' /\ iframe r r') r.
Proof.
  intros Hr Hi. unfold IndexFileReader.timeOf. wp_step.
  eapply wp_clear_error; [done|]. intros r1 Hr1 F1. wp_step. wp_step. wp_step. wp_step.
  unfold IndexFileReader.header. rewrite (ready_header _ _ _ _ (ir_base _ _ _ _ Hr1)).
  wp_step. wp_step. wp_step. cbn [id].
  destruct F1 as (Ec & F1). rewrite Ec.
  rewrite (proj2 (Z.leb_gt _ _)), (ir_type _ _ _ _ Hr) by lia. cbn [orb negb Z.eqb kIndexFile Pos.eqb].
  destruct (record_pos_bound _ _ _ _ _ Hr Hi) as [B1 B2].
  pose proof (iready_count _ _ _ _ Hr).
  pose proof (record_width_pos h (ir_record_size _ _ _ _ Hr)).
  wp_step. rewrite u32_small by lia.
  eapply wp_selectRecord; [exact Hr1|rewrite Ec; exact Hi|tauto|].
  intros r2 Hr2 F2 Hp2. wp_step. cbn [negb]. wp_step.
  eapply wp_index_read; [exact Hr2|apply F2|exact Hp2|lia|lia|lia|].
  intros r3 Hr3 F3 _. wp_step. wp_step.
  split; [done|]. split; [done|].
  eapply iframe_trans, iframe_trans; [|exact F2|exact F3]. split; [done|exact F1].
Qed.

(** Outside the records the timestamp is 0. *)
Lemma wp_timeOf_out i h r index :
  iready f i h r -> IndexFileReader.records_cnt_ r <= index ->
  wp (IndexFileReader.timeOf f index) (fun o r' =>
    o = Ok 0 /\ iready f i h r' /\
    IndexFileReader.records_cnt_ r' = IndexFileReader.records_cnt_ r) r.
Proof.
  intros Hr Hi. unfold IndexFileReader.timeOf. wp_step.
  eapply wp_clear_error; [done|]. intros r1 Hr1 F1. wp_step. wp_step. wp_step. wp_step.
  unfold IndexFileReader.header. rewrite (ready_header _ _ _ _ (ir_base _ _ _ _ Hr1)).
  wp_step. wp_step. wp_step. cbn [id]. destruct F1 as (Ec & F1). rewrite Ec.
  rewrite (proj2 (Z.leb_le _ _)) by lia. cbn [orb].
  unfold IndexFileReader.log_error. repeat wp_step. split; [done|].
  split; [|done]. destruct Hr1. split; try done. by apply ready_log_error.
Qed.

(** [readPayload] of a fixed-size record returns the bytes after the time. *)
Lemma wp_readPayload i h r index :
  iready f i h r -> 0 <= index < IndexFileReader.records_cnt_ r ->
  LogFileHeader.record_size_ h <> 0 ->
  wp (IndexFileReader.readPayload f index (Some [])) (fun o r' =>
    o = Ok (LogFileHeader.record_size_ h,
            Some (sub (contents f i) (Z.to_nat (record_pos h index + 8))
                    (Z.to_nat (LogFileHeader.record_size_ h)))) /\
    iready f i h r' /\ iframe r r') r.
Proof.
  intros Hr Hi Hs. unfold IndexFileReader.readPayload. wp_step.
  eapply wp_clear_error; [done|]. intros r1 Hr1 F1. wp_step. wp_step. wp_step. wp_step.
  wp_step. wp_step. wp_step.
  unfold IndexFileReader.header. rewrite (ready_header _ _ _ _ (ir_base _ _ _ _ Hr1)).
  wp_step. wp_step. wp_step. destruct F1 as (Ec & F1). rewrite Ec.
  rewrite (proj2 (Z.leb_gt _ _)), (proj2 (Z.eqb_neq _ _)) by lia. rewrite bool_decide_true by eauto.
  cbn [orb negb].
  destruct (record_pos_bound _ _ _ _ _ Hr Hi) as [B1 B2].
  pose proof (ir_record_size _ _ _ _ Hr).
  assert (IndexFileReader.record_width h = 8 + LogFileHeader.record_size_ h) as Ew.
  { unfold IndexFileReader.record_width. by rewrite (proj2 (Z.eqb_neq _ _)). }
  wp_step. eapply wp_selectRecord; [exact Hr1|rewrite Ec; exact Hi|tauto|].
  intros r2 Hr2 F2 Hp2. wp_step. cbn [negb]. wp_step. unfold FixedRecordIdx.size.
  eapply wp_index_read; [exact Hr2|apply F2|exact Hp2|lia|lia|lia|].
  intros r3 Hr3 F3 Hp3. wp_step. wp_step.
  eapply wp_index_read; [exact Hr3|apply F3|exact Hp3|lia|lia|lia|].
  intros r4 Hr4 F4 _. wp_step. wp_step.
  split; [done|]. split; [done|].
  eapply iframe_trans, iframe_trans, iframe_trans; [|exact F2|exact F3|exact F4].
  split; [done|exact F1].
Qed.

(** [readOffset] of a variable-size record returns its second word. *)
Lemma wp_readOffset i h r index :
  iready f i h r -> 0 <= index < IndexFileReader.records_cnt_ r ->
  LogFileHeader.record_size_ h = 0 ->
  wp (IndexFileReader.readOffset f index) (fun o r' =>
    o = Ok (le_decode (sub (sub (contents f i) (Z.to_nat (record_pos h index)) 12) 8 4)) /\
    iready f i h r' /\ iframe r r') r.
Proof.
  intros Hr Hi Hs. unfold IndexFileReader.readOffset. wp_step.
  eapply wp_clear_error; [done|]. intros r1 Hr1 F1. wp_step. wp_step. wp_step. wp_step.
  wp_step. wp_step. wp_step.
  unfold IndexFileReader.header. rewrite (ready_header _ _ _ _ (ir_base _ _ _ _ Hr1)).
  wp_step. wp_step. wp_step. destruct F1 as (Ec & F1). rewrite Ec.
  rewrite (proj2 (Z.leb_gt _ _)), (proj2 (Z.eqb_eq _ _)) by lia. cbn [orb negb].
  destruct (record_pos_bound _ _ _ _ _ Hr Hi) as [B1 B2].
  assert (IndexFileReader.record_width h = 12) as Ew.
  { unfold IndexFileReader.record_width. by rewrite (proj2 (Z.eqb_eq _ _)). }
  wp_step. eapply wp_selectRecord; [exact Hr1|rewrite Ec; exact Hi|tauto|].
  intros r2 Hr2 F2 Hp2. wp_step. cbn [negb]. wp_step. unfold VariableRecordIdx.size.
  eapply wp_index_read; [exact Hr2|apply F2|exact Hp2|lia|lia|lia|].
  intros r3 Hr3 F3 Hp3. wp_step. wp_step.
  split; [done|]. split; [done|].
  eapply iframe_trans, iframe_trans; [|exact F2|exact F3]. split; [done|exact F1].
Qed.
End IndexSpec.

(** The constructor of an index reader: the number of complete records, and the
    timestamps of the first and the last one. *)
Lemma IndexFileReader_construct_ready f path i :
  status f path = Some (NFile i) ->
  LogFileHeader.size <= zlen (contents f i) < 2 ^ 32 ->
  let h := LogFileHeader.decode (take (Z.to_nat LogFileHeader.size) (contents f i)) in
  LogFileHeader.header_size_ h <= zlen (contents f i) ->
  LogFileHeader.file_type_ h = kIndexFile ->
  let r := IndexFileReader.construct f path in
  iready f i h r /\
  IndexFileReader.records_cnt_ r =
    (zlen (contents f i) - LogFileHeader.header_size_ h) / IndexFileReader.record_width h /\
  (0 < IndexFileReader.records_cnt_ r ->
   IndexFileReader.last_error r = EmptyString /\
   IndexFileReader.start_ns_ r =
     le_decode (sub (contents f i) (Z.to_nat (record_pos h 0)) 8) /\
   IndexFileReader.end_ns_ r =
     le_decode (sub (contents f i)
       (Z.to_nat (record_pos h (IndexFileReader.records_cnt_ r - 1))) 8)).
Proof.
  intros Hs Hl h Hhs Hty. cbn zeta.
  destruct (FileReader_construct_ready f path i Hs Hl) as (h' & Eh & Hb & Hp & He).
  assert (h' = h) as -> by (by rewrite Eh). clear Eh.
  assert (0 <= LogFileHeader.header_size_ h /\ 0 <= LogFileHeader.record_size_ h) as [Hh0 Hr0]
    by (unfold h; cbn; split; apply le_decode_range).
  pose proof (record_width_pos h Hr0) as Hw.
  unfold IndexFileReader.construct. rewrite (ready_header _ _ _ _ Hb), (ready_size _ _ _ _ Hb).
  rewrite (proj2 (Z.eqb_neq _ _)) by (unfold LogFileHeader.size in *; lia).
  rewrite (proj2 (Z.leb_le _ _)) by lia. cbn [andb negb].
  rewrite (u32_small (zlen _ - _)) by lia.
  set (cnt := (zlen (contents f i) - LogFileHeader.header_size_ h) / IndexFileReader.record_width h).
  assert (0 <= cnt) by (apply Z.div_pos; lia).
  assert (cnt * IndexFileReader.record_width h <= zlen (contents f i) - LogFileHeader.header_size_ h)
    by (rewrite Z.mul_comm; apply Z.mul_div_le; lia).
  assert (cnt < 2 ^ 32) by nia.
  rewrite (u32_small cnt) by lia.
  set (r0 := IndexFileReader.mk (FileReader.construct f path) cnt 0 0).
  assert (forall r, ready f i h (IndexFileReader.base r) ->
            IndexFileReader.records_cnt_ r = cnt -> iready f i h r) as Hmk.
  { intros r Hb' Ec. split; rewrite ?Ec; try done. lia. }
  assert (iready f i h r0) as Hr1 by (by apply Hmk).
  clearbody cnt.
  destruct (Z.eq_dec cnt 0) as [Ez|Ez].
  - (* no record: both timestamps are errors *)
    pose proof (wp_timeOf_out f i h r0 0 Hr1 ltac:(cbn; lia)) as W1. unfold wp in W1.
    destruct (IndexFileReader.timeOf f 0 r0) as [o1 r1] eqn:T1.
    destruct W1 as (E1 & R1 & C1). cbn in E1, R1. cbn [snd] in C1. subst o1.
    change (IndexFileReader.records_cnt_ r0) with cnt in C1.
    pose proof (u32_range (cnt - 1)).
    pose proof (wp_timeOf_out f i h r1 (u32 (cnt - 1)) R1 ltac:(lia)) as W2. unfold wp in W2.
    destruct (IndexFileReader.timeOf f (u32 (cnt - 1)) r1) as [o2 r2] eqn:T2.
    destruct W2 as (E2 & R2 & C2). cbn in E2, R2, C2. subst o2. cbn.
    split; [|split; [done|lia]]. apply Hmk; [apply R2|done].
  - pose proof (wp_timeOf f i h r0 0 Hr1 ltac:(cbn; lia)) as W1. unfold wp in W1.
    destruct (IndexFileReader.timeOf f 0 r0) as [o1 r1] eqn:T1.
    destruct W1 as (E1 & R1 & F1). cbn in E1, R1, F1. subst o1.
    assert (IndexFileReader.records_cnt_ r1 = cnt) as C1 by (destruct F1; done).
    rewrite (u32_small (cnt - 1)) by lia.
    pose proof (wp_timeOf f i h r1 (cnt - 1) R1 ltac:(lia)) as W2. unfold wp in W2.
    destruct (IndexFileReader.timeOf f (cnt - 1) r1) as [o2 r2] eqn:T2.
    destruct W2 as (E2 & R2 & F2). cbn in E2, R2. subst o2.
    assert (IndexFileReader.records_cnt_ r2 = cnt) as C2
      by (rewrite <- C1; apply F2).
    cbn. split; [|split; [done|]].
    + apply Hmk; [apply R2|done].
    + intros _. split; [|done]. apply F2.
Qed.

(** *** Data files *)

(** [read] at an offset: the record when it lies inside the file, an error
    otherwise. *)
Lemma wp_data_read f i h r offset piece :
  ready f i h r -> LogFileHeader.file_type_ h = kDataFile ->
  VariableRecordDataHeader.size <= LogFileHeader.header_size_ h <= zlen (contents f i) ->
  0 <= offset < 2 ^ 32 ->
  let c := contents f i in
  let rec_header := VariableRecordDataHeader.decode (sub c (Z.to_nat offset) 12) in
  let n := VariableRecordDataHeader.size_ rec_header in
  wp (DataFileReader.read f offset (Some piece)) (fun o r' =>
    ready f i h r' /\
    if bool_decide (LogFileHeader.header_size_ h <= offset /\ offset + 12 <= zlen c /\
                    offset + 12 + n <= zlen c)
    then FileReader.last_error_ r' = EmptyString /\
         o = Ok (n, Some (DataPiece.mk (Some (VariableRecordDataHeader.time_ns_ rec_header))
                            (Some (sub c (Z.to_nat (offset + 12)) (Z.to_nat n)))
                            (DataPiece.stream_idx_ piece)))
    else FileReader.last_error_ r' <> EmptyString /\ o = Ok (0, Some piece)) r.
Proof.
  intros Hr Hty Hhs Ho c rec_header n.
  assert (0 <= n < 2 ^ 32) as Hn.
  { unfold n, rec_header; cbn. pose proof (le_decode_range (sub (sub c (Z.to_nat offset) 12) 8 4)) as R.
    assert (zlen (sub (sub c (Z.to_nat offset) 12) 8 4) <= 4)
      by (unfold zlen, sub; rewrite length_take; lia).
    pose proof (Z.pow_le_mono_r 256 (zlen (sub (sub c (Z.to_nat offset) 12) 8 4)) 4). lia. }
  unfold VariableRecordDataHeader.size in Hhs. unfold DataFileReader.read.
  pose proof (ready_log_error f i h r EmptyString Hr) as Hr1.
  set (r1 := FileReader.log_error EmptyString r) in *.
  unfold DataFileReader.log_error.
  wp_step. wp_step. fold r1. wp_step. wp_step. wp_step. wp_step. cbn [id].
  rewrite (ready_header _ _ _ _ Hr1), (ready_size _ _ _ _ Hr1). fold c.
  pose proof (ready_small _ _ _ _ Hr) as Hsm. fold c in Hsm, Hhs.
  unfold VariableRecordDataHeader.size.
  rewrite (u64_small (zlen c - _)) by lia.
  rewrite Hty. cbn [Z.eqb kDataFile Pos.eqb negb]. rewrite orb_false_r.
  rewrite (proj2 (Z.ltb_ge _ _)) by lia. cbn [orb].
  destruct ((offset <? LogFileHeader.header_size_ h) || (zlen c - (8 + 4) <? offset)) eqn:B.
  { repeat wp_step. split; [by repeat apply ready_log_error|].
    rewrite bool_decide_false by (rewrite orb_true_iff, !Z.ltb_lt in B; lia). done. }
  rewrite orb_false_iff, !Z.ltb_ge in B. destruct B as [B1 B2].
  wp_step. wp_step. wp_step. wp_step. wp_step.
  pose proof (ready_seekg f i h r1 offset Hr1) as Hr2.
  set (r2 := FileReader.set_if _ r1) in *. rewrite (ready_good _ _ _ _ Hr2). wp_step. wp_step.
  assert (Ifstream.pos_ (FileReader.if_ r2) = offset) as Hp2.
  { unfold r2; cbn. unfold Ifstream.seekg. by rewrite (ready_good _ _ _ _ Hr). }
  eapply wp_read_bytes; [exact Hr2|exact Hp2|lia|lia|fold c; lia|].
  intros r3 Hr3 P3 E3 Hp3. wp_step. fold c.
  change (Z.to_nat (8 + 4)) with 12%nat. fold rec_header. fold n.
  destruct (u64 (zlen c - offset - (8 + 4)) <? n) eqn:B3; rewrite u64_small in B3 by lia.
  { apply Z.ltb_lt in B3. repeat wp_step. split; [by apply ready_log_error|].
    rewrite bool_decide_false by lia. done. }
  apply Z.ltb_ge in B3. wp_step.
  eapply wp_read_bytes; [exact Hr3|exact Hp3|lia|lia|fold c; lia|].
  intros r4 Hr4 P4 E4 Hp4. wp_step. wp_step. split; [done|].
  rewrite bool_decide_true by lia. split; [|done].
  rewrite E4, E3. done.
Qed.
