(* ===== verification/StreamReader.v ===== *)
(** * StreamReader

    [libs/log_reader/stream_reader.{h,cpp}]: an index file with, for variable
    length records, its data file. *)
From Stdlib Require String.
From S2P Require Import Prelude DataTypes Format Protos FileSystem FileIO StreamWriter FileReader.
Local Open Scope Z_scope.

Module StreamReader.
Record t := mk {
  index_ : option IndexFileReader.t;
  data_ : option DataFileReader.t;
  status_ : StreamStatus
}.

Definition set_index (i : option IndexFileReader.t) (r : t) : t :=
  mk i (data_ r) (status_ r).
Definition set_data (d : option DataFileReader.t) (r : t) : t :=
  mk (index_ r) d (status_ r).

Section Ops.
Context (f : fs).

(** The constructor. The name of the data file is the part of the path before
    the first occurrence of [".idx"], followed by [".data"]. *)
Definition construct (path : string) : outcome t :=
  if negb (is_regular_file f path) then Ok (mk None None kUnknown) else
  match String.index 0 ".idx" path with
  | None => Ok (mk None None kUnknown)
  | Some ext_pos =>
      let index := IndexFileReader.construct f path in
      if IndexFileReader.records_cnt_ index =? 0 then Ok (mk (Some index) None kEmpty)
      else if negb (IndexFileReader.fixedSize index) then
        let basename := String.substring 0 ext_pos path in
        let data := DataFileReader.construct f (basename +:+ ".data")%string in
        match FileReader.name data, FileReader.name (IndexFileReader.base index) with
        | Ok d, Ok i =>
            Ok (mk (Some index) (Some data)
                   (if decide (d = i) then kHealthy else kHeadersDifferent))
        | Throw e, _ => Throw e
        | _, Throw e => Throw e
        end
      else Ok (mk (Some index) None kHealthy)
  end.

Definition matchTime (r : t) (start end_ : Z) : bool :=
  bool_decide (status_ r = kHealthy) &&
  match index_ r with
  | Some i => IndexFileReader.matchTime i start end_
  | None => false
  end.

(** The accessors dereference [index_]. *)
Definition streamName (r : t) : outcome bytes :=
  match index_ r with
  | Some i => FileReader.name (IndexFileReader.base i)
  | None => Throw NullDeref
  end.
Definition records_cnt (r : t) : outcome Z :=
  match index_ r with
  | Some i => Ok (IndexFileReader.records_cnt_ i)
  | None => Throw NullDeref
  end.
Definition start_ns (r : t) : outcome Z :=
  match index_ r with
  | Some i => Ok (IndexFileReader.start_ns_ i)
  | None => Throw NullDeref
  end.
Definition end_ns (r : t) : outcome Z :=
  match index_ r with
  | Some i => Ok (IndexFileReader.end_ns_ i)
  | None => Throw NullDeref
  end.

Definition last_error (r : t) : string :=
  match index_ r with
  | Some i =>
      if decide (IndexFileReader.last_error i = EmptyString)
      then match data_ r with Some d => FileReader.last_error_ d | None => EmptyString end
      else IndexFileReader.last_error i
  | None => match data_ r with Some d => FileReader.last_error_ d | None => EmptyString end
  end.

Definition on_index {A} (m : prog IndexFileReader.t A) : prog t A := fun r =>
  match index_ r with
  | Some i => match m i with (o, i') => (o, set_index (Some i') r) end
  | None => (Throw NullDeref, r)
  end.
Definition on_data {A} (m : prog DataFileReader.t A) : prog t A := fun r =>
  match data_ r with
  | Some d => match m d with (o, d') => (o, set_data (Some d') r) end
  | None => (Throw NullDeref, r)
  end.

(** The record with the given index into [payload]. *)
Definition read (rec_index : Z) (payload : option DataPiece.t) :
    prog t (bool * option DataPiece.t) :=
  r ← gets id;
  match payload with
  | None => mret (false, payload)
  | Some piece =>
      if negb (bool_decide (status_ r = kHealthy)) then mret (false, payload) else
      time_ns ← on_index (IndexFileReader.timeOf f rec_index);
      if time_ns =? 0 then mret (false, payload) else
      fixed ← on_index (gets IndexFileReader.fixedSize);
      if (fixed : bool) then
        d ← on_index (IndexFileReader.readPayload f (u32 rec_index) (Some []));
        match d with
        | (n, Some data) =>
            if n =? 0 then mret (false, payload)
            else mret (true, Some (DataPiece.mk (Some time_ns) (Some data)
                                     (DataPiece.stream_idx_ piece)))
        | (_, None) => throw NullDeref
        end
      else
        offset ← on_index (IndexFileReader.readOffset f (u32 rec_index));
        if offset =? 0 then mret (false, payload) else
        d ← on_data (DataFileReader.read f offset payload);
        err ← on_data (gets FileReader.last_error_);
        if (d.1 =? 0) && negb (bool_decide (err = EmptyString)) then mret (false, d.2)
        else mret (true, d.2)
  end.
End Ops.
End StreamReader.

(** ** Reading records

    A stream reader in good order: [fixed_reader] over an index file of fixed-size
    records, [var_reader] over an index file and a data file. *)
Section Readers.
Context (f : fs).
Import StreamReader.

Definition fixed_reader (i : nat) (h : LogFileHeader.t) (cnt : Z) (rd : t) : Prop :=
  exists ir, index_ rd = Some ir /\ iready f i h ir /\ IndexFileReader.records_cnt_ ir = cnt /\
    data_ rd = None /\ status_ rd = kHealthy /\ LogFileHeader.record_size_ h <> 0.

Definition var_reader (i : nat) (h : LogFileHeader.t) (d : nat) (hd : LogFileHeader.t)
    (cnt : Z) (rd : t) : Prop :=
  exists ir dr, index_ rd = Some ir /\ iready f i h ir /\ IndexFileReader.records_cnt_ ir = cnt /\
    data_ rd = Some dr /\ ready f d hd dr /\
    LogFileHeader.file_type_ hd = kDataFile /\
    VariableRecordDataHeader.size <= LogFileHeader.header_size_ hd <= zlen (contents f d) /\
    status_ rd = kHealthy /\ LogFileHeader.record_size_ h = 0.

Lemma wp_on_index {A} (m : prog IndexFileReader.t A) rd ir Q :
  index_ rd = Some ir ->
  wp m (fun o ir' => Q o (set_index (Some ir') rd)) ir ->
  wp (on_index m) Q rd.
Proof. unfold wp, on_index. intros ->. by destruct (m ir). Qed.

Lemma wp_on_data {A} (m : prog DataFileReader.t A) rd dr Q :
  data_ rd = Some dr ->
  wp m (fun o dr' => Q o (set_data (Some dr') rd)) dr ->
  wp (on_data m) Q rd.
Proof. unfold wp, on_data. intros ->. by destruct (m dr). Qed.

(** The record [k] of a fixed-size stream. A timestamp of 0 is taken for an
    error. *)
Lemma wp_read_fixed i h cnt rd k piece :
  fixed_reader i h cnt rd -> 0 <= k < cnt ->
  let t := le_decode (sub (contents f i) (Z.to_nat (record_pos h k)) 8) in
  wp (read f k (Some piece)) (fun o rd' =>
    fixed_reader i h cnt rd' /\ last_error rd' = EmptyString /\
    o = Ok (if t =? 0 then (false, Some piece)
            else (true, Some (DataPiece.mk (Some t)
                   (Some (sub (contents f i) (Z.to_nat (record_pos h k + 8))
                            (Z.to_nat (LogFileHeader.record_size_ h))))
                   (DataPiece.stream_idx_ piece))))) rd.
Proof.
  intros (ir & Ei & Hr & Ec & Hd & Hst & Hn) Hk t. unfold read.
  wp_step. wp_step. wp_step. cbn [id]. rewrite Hst, bool_decide_true by done. cbn [negb].
  wp_step. eapply wp_on_index; [exact Ei|].
  eapply wp_mono; [apply (wp_timeOf f i h ir k Hr); lia|].
  intros o r1 (-> & R1 & F1). fold t. wp_step.
  assert (forall r, iready f i h r -> iframe ir r ->
    fixed_reader i h cnt (set_index (Some r) rd) /\
    last_error (set_index (Some r) rd) = EmptyString) as Hdone.
  { intros r Hr' (E1 & _ & _ & _ & E2). split.
    - exists r. split_and!; try done. congruence.
    - unfold last_error. cbn [index_ set_index data_].
      by rewrite E2, decide_True, Hd by done. }
  destruct (t =? 0) eqn:Et.
  { wp_step. destruct (Hdone _ R1 F1). done. }
  wp_step. eapply wp_on_index; [done|]. wp_step. wp_step.
  assert (IndexFileReader.fixedSize r1 = true) as ->.
  { unfold IndexFileReader.fixedSize, IndexFileReader.header.
    rewrite (ready_header _ _ _ _ (ir_base _ _ _ _ R1)). apply Z.ltb_lt.
    pose proof (ir_record_size _ _ _ _ R1). lia. }
  wp_step. eapply wp_on_index; [done|].
  assert (IndexFileReader.records_cnt_ r1 = cnt) as Ec1 by (destruct F1; congruence).
  pose proof (iready_count _ _ _ _ R1). rewrite u32_small by lia.
  eapply wp_mono; [apply (wp_readPayload f i h r1 k R1); [lia|done]|].
  intros o r2 (-> & R2 & F2). wp_step.
  rewrite (proj2 (Z.eqb_neq _ _)) by done. wp_step.
  destruct (Hdone _ R2 (iframe_trans _ _ _ F1 F2)). done.
Qed.

(** The record [k] of a variable-size stream: the data record its index entry
    points to, when that lies inside the data file. *)
Lemma wp_read_var i h d hd cnt rd k piece :
  var_reader i h d hd cnt rd -> 0 <= k < cnt ->
  let entry := sub (contents f i) (Z.to_nat (record_pos h k)) 12 in
  let t := le_decode (sub (contents f i) (Z.to_nat (record_pos h k)) 8) in
  let offset := le_decode (sub entry 8 4) in
  let c := contents f d in
  let rec_header := VariableRecordDataHeader.decode (sub c (Z.to_nat offset) 12) in
  let n := VariableRecordDataHeader.size_ rec_header in
  wp (read f k (Some piece)) (fun o rd' =>
    var_reader i h d hd cnt rd' /\
    o = Ok (if (t =? 0) || (offset =? 0) ||
               negb (bool_decide (LogFileHeader.header_size_ hd <= offset /\
                                  offset + 12 <= zlen c /\ offset + 12 + n <= zlen c))
            then (false, Some piece)
            else (true, Some (DataPiece.mk
                   (Some (VariableRecordDataHeader.time_ns_ rec_header))
                   (Some (sub c (Z.to_nat (offset + 12)) (Z.to_nat n)))
                   (DataPiece.stream_idx_ piece))))) rd.
Proof.
  intros (ir & dr & Ei & Hr & Ec & Ed & Hrd & Hty & Hhs & Hst & Hn) Hk entry t offset c
    rec_header n.
  assert (0 <= offset < 2 ^ 32) as Ho.
  { unfold offset. pose proof (le_decode_range (sub entry 8 4)) as R.
    assert (zlen (sub entry 8 4) <= 4) by (unfold zlen, sub; rewrite length_take; lia).
    pose proof (Z.pow_le_mono_r 256 (zlen (sub entry 8 4)) 4). lia. }
  unfold read. wp_step. wp_step. wp_step. cbn [id].
  rewrite Hst, bool_decide_true by done. cbn [negb].
  wp_step. eapply wp_on_index; [exact Ei|].
  eapply wp_mono; [apply (wp_timeOf f i h ir k Hr); lia|].
  intros o r1 (-> & R1 & F1). fold t. wp_step.
  assert (forall r d', iready f i h r -> iframe ir r -> ready f d hd d' ->
    var_reader i h d hd cnt (mk (Some r) (Some d') kHealthy)) as Hdone.
  { intros r d' Hr' F Hd'. exists r, d'. split_and!; try done; destruct F; try congruence; lia. }
  destruct (t =? 0) eqn:Et.
  { wp_step. split; [|done]. unfold set_index. rewrite Ed, Hst. by apply Hdone. }
  wp_step. eapply wp_on_index; [done|]. wp_step. wp_step.
  assert (IndexFileReader.fixedSize r1 = false) as ->.
  { unfold IndexFileReader.fixedSize, IndexFileReader.header.
    rewrite (ready_header _ _ _ _ (ir_base _ _ _ _ R1)). apply Z.ltb_ge. lia. }
  wp_step. eapply wp_on_index; [done|].
  assert (IndexFileReader.records_cnt_ r1 = cnt) as Ec1 by (destruct F1; congruence).
  pose proof (iready_count _ _ _ _ R1). rewrite u32_small by lia.
  eapply wp_mono; [apply (wp_readOffset f i h r1 k R1); [lia|done]|].
  intros o r2 (-> & R2 & F2). fold entry. fold offset. wp_step. cbn [orb].
  pose proof (iframe_trans _ _ _ F1 F2) as F3.
  destruct (offset =? 0) eqn:Eo.
  { wp_step. split; [|done]. unfold set_index; cbn. rewrite Ed, Hst. by apply Hdone. }
  wp_step. eapply wp_on_data; [exact Ed|].
  eapply wp_mono; [apply (wp_data_read f d hd dr offset piece Hrd Hty Hhs Ho)|].
  intros o d1 (D1 & Hcase). fold c in Hcase. fold rec_header in Hcase. fold n in Hcase.
  assert (forall o', set_data (Some o') (set_index (Some r2) (set_index (Some r1) (set_index (Some r1) rd)))
                     = mk (Some r2) (Some o') kHealthy) as Eset
    by (intros; unfold set_data, set_index; cbn; by rewrite Hst).
  rewrite Eset. cbn [orb].
  destruct (bool_decide _) eqn:Eb; cbn [negb orb].
  - destruct Hcase as [He ->]. wp_step. wp_step. eapply wp_on_data; [done|].
    wp_step. wp_step. rewrite He, bool_decide_true by done. cbn [negb andb fst snd].
    rewrite andb_false_r. wp_step. split; [|done]. cbn. by apply Hdone.
  - destruct Hcase as [He ->]. wp_step. wp_step. eapply wp_on_data; [done|].
    wp_step. wp_step. rewrite bool_decide_false by done. cbn [negb andb fst snd Z.eqb].
    wp_step. split; [|done]. cbn. by apply Hdone.
Qed.

(** Outside the records nothing is read. *)
Lemma wp_read_var_out i h d hd cnt rd k piece :
  var_reader i h d hd cnt rd -> cnt <= k ->
  wp (read f k (Some piece)) (fun o rd' =>
    var_reader i h d hd cnt rd' /\ o = Ok (false, Some piece)) rd.
Proof.
  intros (ir & dr & Ei & Hr & Ec & Ed & Hrd & Hty & Hhs & Hst & Hn) Hk. unfold read.
  wp_step. wp_step. wp_step. cbn [id]. rewrite Hst, bool_decide_true by done. cbn [negb].
  wp_step. eapply wp_on_index; [exact Ei|].
  eapply wp_mono; [apply (wp_timeOf_out f i h ir k Hr); lia|].
  intros o r1 (-> & R1 & C1). wp_step. cbn [Z.eqb]. wp_step. split; [|done].
  exists r1, dr. split_and!; try done; try congruence; lia.
Qed.

Lemma wp_read_fixed_out i h cnt rd k piece :
  fixed_reader i h cnt rd -> cnt <= k ->
  wp (read f k (Some piece)) (fun o rd' =>
    fixed_reader i h cnt rd' /\ o = Ok (false, Some piece)) rd.
Proof.
  intros (ir & Ei & Hr & Ec & Hd & Hst & Hn) Hk. unfold read.
  wp_step. wp_step. wp_step. cbn [id]. rewrite Hst, bool_decide_true by done. cbn [negb].
  wp_step. eapply wp_on_index; [exact Ei|].
  eapply wp_mono; [apply (wp_timeOf_out f i h ir k Hr); lia|].
  intros o r1 (-> & R1 & C1). wp_step. cbn [Z.eqb]. wp_step. split; [|done].
  exists r1. split_and!; try done; congruence.
Qed.

(** Nor from a stream that is not healthy. *)
Lemma read_not_healthy k piece rd :
  status_ rd <> kHealthy -> read f k (Some piece) rd = (Ok (false, Some piece), rd).
Proof.
  intros Hs. unfold read, mbind, prog_bind, gets. cbn [id].
  by rewrite bool_decide_false.
Qed.
End Readers.

(** ** Streams on disk

    A stream whose files hold a sequence of records, possibly cut short: the index
    file is a leading part of the index of [rs], and the data file agrees with the
    data of [rs] as far as both go. This is what remains of a recording that was
    interrupted at any point. *)
Definition piece_of (r : record) : DataPiece.t :=
  DataPiece.mk (Some (r_time r)) (Some (r_data r)) None.

Record fixed_on_disk (f : fs) (path : string) (i : nat) (h : LogFileHeader.t) (n : Z)
    (rs : list record) : Prop := {
  fd_index : status f path = Some (NFile i);
  fd_ext : is_Some (String.index 0 ".idx" path);
  fd_header : header_ok kIndexFile n h;
  fd_size : 0 < n;
  fd_records : Forall (fun r => record_ok r /\ zlen (r_data r) = n) rs;
  fd_contents : contents f i `prefix_of` fixed_index_file h rs;
  fd_len : LogFileHeader.size <= zlen (contents f i) < 2 ^ 32
}.

Record var_on_disk (f : fs) (path : string) (i d : nat) (h hd : LogFileHeader.t)
    (rs : list record) : Prop := {
  vd_index : status f path = Some (NFile i);
  vd_data : exists k, String.index 0 ".idx" path = Some k /\
    status f (String.substring 0 k path +:+ ".data")%string = Some (NFile d);
  vd_header : header_ok kIndexFile 0 h;
  vd_data_header : header_ok kDataFile 0 hd;
  vd_name : exists nm, LogFileHeader.c_str (LogFileHeader.name_ h) = Ok nm /\
    LogFileHeader.c_str (LogFileHeader.name_ hd) = Ok nm;
  vd_records : Forall record_ok rs;
  vd_offsets : end_offset rs < 2 ^ 32;
  vd_contents : contents f i `prefix_of` var_index_file h rs;
  vd_data_contents : compat (contents f d) (data_file hd rs);
  vd_len : LogFileHeader.size <= zlen (contents f i) < 2 ^ 32;
  vd_data_len : LogFileHeader.size <= zlen (contents f d) < 2 ^ 32
}.

(** The number of complete index records of width [w] in a file. *)
Definition complete_records (c : bytes) (w : Z) : Z := (zlen c - LogFileHeader.size) / w.

Lemma prefix_header_decode type n h (c k : bytes) :
  header_ok type n h -> c `prefix_of` LogFileHeader.encode h ++ k ->
  LogFileHeader.size <= zlen c ->
  LogFileHeader.decode (take (Z.to_nat LogFileHeader.size) c) = h.
Proof.
  intros Hh Hp Hl. rewrite <- (header_decode type n h k) by done. f_equal.
  pose proof (sub_prefix _ _ 0 (Z.to_nat LogFileHeader.size) Hp) as E.
  unfold sub in E. rewrite !drop_0 in E. symmetry. apply E.
  unfold zlen in Hl. lia.
Qed.

Lemma compat_header_decode type n h (c k : bytes) :
  header_ok type n h -> compat c (LogFileHeader.encode h ++ k) ->
  LogFileHeader.size <= zlen c ->
  LogFileHeader.decode (take (Z.to_nat LogFileHeader.size) c) = h.
Proof.
  intros Hh [Hp|[r ->]] Hl; [by eapply prefix_header_decode|].
  rewrite <- app_assoc. by eapply header_decode.
Qed.

Lemma complete_records_bound c w m :
  0 < w -> zlen c <= LogFileHeader.size + w * m -> complete_records c w <= m.
Proof.
  intros. unfold complete_records. rewrite <- (Z.div_mul m w) by lia.
  apply Z.div_le_mono; lia.
Qed.

Lemma record_inside c w k :
  0 < w -> 0 <= k < complete_records c w -> LogFileHeader.size + k * w + w <= zlen c.
Proof.
  unfold complete_records. intros Hw Hk.
  pose proof (Z.mul_div_le (zlen c - LogFileHeader.size) w Hw). nia.
Qed.

Lemma prefix_zlen {A} (l k : list A) : l `prefix_of` k -> zlen l <= zlen k.
Proof. intros [r ->]. rewrite zlen_app. pose proof (zlen_nonneg r). lia. Qed.

Section OnDisk.
Context (f : fs).
Import StreamReader.

Lemma fixed_on_disk_reader path i h n rs :
  fixed_on_disk f path i h n rs ->
  exists ir, IndexFileReader.construct f path = ir /\
    iready f i h ir /\
    IndexFileReader.records_cnt_ ir = complete_records (contents f i) (8 + n) /\
    (0 < IndexFileReader.records_cnt_ ir ->
     construct f path = Ok (mk (Some ir) None kHealthy) /\
     fixed_reader f i h (complete_records (contents f i) (8 + n)) (mk (Some ir) None kHealthy)) /\
    (IndexFileReader.records_cnt_ ir = 0 -> construct f path = Ok (mk (Some ir) None kEmpty)).
Proof.
  intros [Hi [k Hk] Hh Hn _ Hp Hl]. eexists; split; [reflexivity|].
  pose proof (prefix_header_decode _ _ _ _ _ Hh Hp ltac:(lia)) as Ed.
  pose proof (IndexFileReader_construct_ready f path i Hi Hl) as Hc. cbn zeta in Hc.
  rewrite Ed, (ho_size _ _ _ Hh), (ho_type _ _ _ Hh) in Hc.
  destruct (Hc ltac:(lia) eq_refl) as (Hr & Ec & _).
  assert (IndexFileReader.record_width h = 8 + n) as Ew.
  { unfold IndexFileReader.record_width. rewrite (ho_record_size _ _ _ Hh).
    by rewrite (proj2 (Z.eqb_neq n 0)) by lia. }
  rewrite Ew in Ec. fold (complete_records (contents f i) (8 + n)) in Ec.
  split; [done|]. split; [done|]. unfold construct, is_regular_file. rewrite Hi, Hk. cbn [negb].
  assert (IndexFileReader.fixedSize (IndexFileReader.construct f path) = true) as Ef.
  { unfold IndexFileReader.fixedSize, IndexFileReader.header.
    rewrite (ready_header _ _ _ _ (ir_base _ _ _ _ Hr)), (ho_record_size _ _ _ Hh).
    by apply Z.ltb_lt. }
  rewrite Ef. split; intros Hcnt.
  - rewrite (proj2 (Z.eqb_neq _ _)) by lia. split; [done|].
    eexists. split_and!; try done. cbn. rewrite (ho_record_size _ _ _ Hh). lia.
  - by rewrite Hcnt.
Qed.

Lemma fixed_on_disk_read path i h n rs rd k :
  fixed_on_disk f path i h n rs ->
  fixed_reader f i h (complete_records (contents f i) (8 + n)) rd ->
  0 <= k < complete_records (contents f i) (8 + n) ->
  exists r, rs !! Z.to_nat k = Some r /\
    wp (read f k (Some DataPiece.empty)) (fun o rd' =>
      fixed_reader f i h (complete_records (contents f i) (8 + n)) rd' /\
      last_error rd' = EmptyString /\
      o = Ok (if r_time r =? 0 then (false, Some DataPiece.empty)
              else (true, Some (piece_of r)))) rd.
Proof.
  intros Hd Hrd Hk. pose proof Hd as [Hi _ Hh Hn Hrs Hp Hl].
  assert (Forall (fun r => zlen (r_data r) = n) rs) as Hlen
    by (eapply Forall_impl; [exact Hrs|]; by intros ? [??]).
  pose proof (prefix_zlen _ _ Hp) as Hz. rewrite (zlen_fixed_index h n) in Hz by done.
  pose proof (complete_records_bound _ (8 + n) (zlen rs) ltac:(lia) Hz) as Hcb.
  destruct (lookup_lt_is_Some_2 rs (Z.to_nat k)) as [r Er]; [unfold zlen in *; lia|].
  exists r. split; [done|].
  pose proof (record_inside _ (8 + n) k ltac:(lia) Hk) as Hin.
  pose proof (fixed_index_at h n rs _ r Hh Hlen Er) as Hat.
  rewrite Z2Nat.id in Hat by lia.
  rewrite (sub_prefix _ _ _ _ Hp) in Hat by (unfold zlen, LogFileHeader.size in *; lia).
  assert (record_pos h k = LogFileHeader.size + k * (8 + n)) as Epos.
  { unfold record_pos, IndexFileReader.record_width.
    rewrite (ho_size _ _ _ Hh), (ho_record_size _ _ _ Hh).
    by rewrite (proj2 (Z.eqb_neq n 0)) by lia. }
  rewrite (Z2Nat.inj_add 8 n), sub_split in Hat by lia.
  apply app_inj_1 in Hat as [Ht Hdata];
    [|rewrite length_sub; [done|unfold zlen, LogFileHeader.size in *; lia]].
  pose proof (Forall_lookup_1 _ _ _ _ Hrs Er) as [[Hrt _] _].
  eapply wp_mono; [apply (wp_read_fixed f i h _ rd k _ Hrd Hk)|].
  intros o rd' (H1 & H2 & ->). split; [done|]. split; [done|]. f_equal.
  rewrite Epos, (ho_record_size _ _ _ Hh).
  change 8%nat with (Z.to_nat 8) at 1 2. rewrite Ht, le_decode_encode_small by (cbn; lia).
  destruct (r_time r =? 0); [done|].
  replace (Z.to_nat (LogFileHeader.size + k * (8 + n) + 8))
    with (Z.to_nat (LogFileHeader.size + k * (8 + n)) + Z.to_nat 8)%nat
    by (unfold LogFileHeader.size in *; lia).
  by rewrite Hdata.
Qed.

Lemma var_on_disk_reader path i d h hd rs :
  var_on_disk f path i d h hd rs ->
  let cnt := complete_records (contents f i) 12 in
  if cnt =? 0 then exists ir, construct f path = Ok (mk (Some ir) None kEmpty)
  else exists rd, construct f path = Ok rd /\ var_reader f i h d hd cnt rd.
Proof.
  intros [Hi (k & Hk & Hd) Hh Hhd (nm & Hn1 & Hn2) _ _ Hp Hc Hl Hld] cnt.
  pose proof (prefix_header_decode _ _ _ _ _ Hh Hp ltac:(lia)) as Ed.
  pose proof (IndexFileReader_construct_ready f path i Hi Hl) as H. cbn zeta in H.
  rewrite Ed, (ho_size _ _ _ Hh), (ho_type _ _ _ Hh) in H.
  destruct (H ltac:(lia) eq_refl) as (Hr & Ec & _). clear H.
  assert (IndexFileReader.record_width h = 12) as Ew.
  { unfold IndexFileReader.record_width. by rewrite (ho_record_size _ _ _ Hh). }
  rewrite Ew in Ec. fold (complete_records (contents f i) 12) in Ec. fold cnt in Ec.
  pose proof (compat_header_decode _ _ _ _ _ Hhd Hc ltac:(lia)) as Edd.
  destruct (FileReader_construct_ready f _ d Hd Hld) as (hd' & Ehd & Hrd & _).
  assert (hd' = hd) as -> by (by rewrite Ehd). clear Ehd.
  unfold construct, is_regular_file. rewrite Hi, Hk, Ec. cbn [negb].
  destruct (cnt =? 0); [eauto|].
  assert (IndexFileReader.fixedSize (IndexFileReader.construct f path) = false) as ->.
  { unfold IndexFileReader.fixedSize, IndexFileReader.header.
    by rewrite (ready_header _ _ _ _ (ir_base _ _ _ _ Hr)), (ho_record_size _ _ _ Hh). }
  unfold DataFileReader.construct, FileReader.name. cbn [negb].
  rewrite (ready_header _ _ _ _ Hrd), (ready_header _ _ _ _ (ir_base _ _ _ _ Hr)), Hn1, Hn2.
  rewrite decide_True by done. eexists; split; [done|].
  eexists _, _. split_and!; try done; cbn.
  - by rewrite (ho_type _ _ _ Hhd).
  - by rewrite (ho_size _ _ _ Hhd).
  - rewrite (ho_size _ _ _ Hhd). lia.
  - by rewrite (ho_record_size _ _ _ Hh).
Qed.

(** The offset and the record behind an index entry, both files as they were
    written. *)
Lemma var_on_disk_entry path i d h hd rs k :
  var_on_disk f path i d h hd rs ->
  0 <= k < complete_records (contents f i) 12 ->
  exists r, rs !! Z.to_nat k = Some r /\
    sub (contents f i) (Z.to_nat (record_pos h k)) 12 =
      var_entry (end_offset (take (Z.to_nat k) rs)) r.
Proof.
  intros Hd Hk. pose proof (vd_header _ _ _ _ _ _ _ Hd) as Hh.
  pose proof (vd_contents _ _ _ _ _ _ _ Hd) as Hp.
  pose proof (prefix_zlen _ _ Hp) as Hz. rewrite zlen_var_index in Hz by done.
  pose proof (complete_records_bound _ 12 (zlen rs) ltac:(lia) Hz) as Hcb.
  destruct (lookup_lt_is_Some_2 rs (Z.to_nat k)) as [r Er]; [unfold zlen in *; lia|].
  exists r. split; [done|].
  pose proof (record_inside _ 12 k ltac:(lia) Hk) as Hin.
  pose proof (var_index_at h rs _ r Hh Er) as Hat. rewrite Z2Nat.id in Hat by lia.
  rewrite (sub_prefix _ _ _ _ Hp) in Hat by (unfold zlen, LogFileHeader.size in *; lia).
  unfold record_pos, IndexFileReader.record_width.
  by rewrite (ho_size _ _ _ Hh), (ho_record_size _ _ _ Hh).
Qed.

Lemma var_on_disk_read path i d h hd rs rd k :
  var_on_disk f path i d h hd rs ->
  var_reader f i h d hd (complete_records (contents f i) 12) rd ->
  0 <= k < complete_records (contents f i) 12 ->
  exists r, rs !! Z.to_nat k = Some r /\
    wp (read f k (Some DataPiece.empty)) (fun o rd' =>
      var_reader f i h d hd (complete_records (contents f i) 12) rd' /\
      o = Ok (if (r_time r =? 0) ||
                 (zlen (contents f d) <? end_offset (take (Z.to_nat k) rs) + data_entry_size r)
              then (false, Some DataPiece.empty)
              else (true, Some (piece_of r)))) rd.
Proof.
  intros Hd Hrd Hk. destruct (var_on_disk_entry _ _ _ _ _ _ _ Hd Hk) as (r & Er & Hent).
  exists r. split; [done|].
  destruct Hd as [_ _ Hh Hhd _ Hrs Hoff _ Hc Hl Hld].
  pose proof (Forall_lookup_1 _ _ _ _ Hrs Er) as [Hrt Hrn].
  pose proof (zlen_nonneg (r_data r)).
  set (o := end_offset (take (Z.to_nat k) rs)) in *.
  pose proof (end_offset_ge (take (Z.to_nat k) rs)) as Hog. fold o in Hog.
  pose proof (data_entry_end hd rs _ r Hhd Er) as Hend. fold o in Hend.
  rewrite (zlen_data_file _ _ Hhd) in Hend.
  pose proof (data_entry_size_pos r). unfold data_entry_size in *.
  eapply wp_mono; [apply (wp_read_var f i h d hd _ rd k _ Hrd Hk)|].
  intros res rd' (H1 & ->). split; [done|]. f_equal.
  assert (sub (contents f i) (Z.to_nat (record_pos h k)) 8 = le_encode 8 (r_time r)) as ->.
  { rewrite <- (Nat.add_0_r (Z.to_nat (record_pos h k))), <- (sub_sub _ _ 12 0 8), Hent by lia.
    unfold sub, var_entry. rewrite drop_0. by rewrite take_app_length'. }
  rewrite Hent.
  assert (sub (var_entry o r) 8 4 = le_encode 4 o) as -> by done.
  rewrite !le_decode_encode_small by (unfold LogFileHeader.size in *; cbn; lia).
  rewrite (ho_size _ _ _ Hhd).
  destruct (r_time r =? 0); [done|]. cbn [orb].
  rewrite (proj2 (Z.eqb_neq o 0)) by (unfold LogFileHeader.size in *; lia). cbn [orb].
  set (c := contents f d) in *.
  destruct (decide (o + 12 <= zlen c)) as [H12|H12]; cycle 1.
  { rewrite bool_decide_false by lia. rewrite (proj2 (Z.ltb_lt _ _)) by lia. done. }
  pose proof (compat_data_header hd rs _ r c Hhd Hc Er H12) as Eh. fold o in Eh. rewrite Eh.
  assert (VariableRecordDataHeader.decode (le_encode 8 (r_time r) ++ le_encode 4 (zlen (r_data r)))
          = VariableRecordDataHeader.mk (r_time r) (zlen (r_data r))) as ->.
  { apply (VariableRecordDataHeader_decode_encode (VariableRecordDataHeader.mk (r_time r) (zlen (r_data r)))); cbn [VariableRecordDataHeader.time_ns_
      VariableRecordDataHeader.size_]; lia. }
  cbn [VariableRecordDataHeader.size_ VariableRecordDataHeader.time_ns_].
  destruct (zlen c <? o + (12 + zlen (r_data r))) eqn:E.
  { apply Z.ltb_lt in E. rewrite bool_decide_false by lia. done. }
  apply Z.ltb_ge in E. rewrite bool_decide_true by lia. cbn [negb].
  unfold piece_of, o. by rewrite (compat_data_payload hd rs _ r c Hhd Hc Er E).
Qed.
End OnDisk.
