(* ===== verification/Recording.v ===== *)
(** * Recordings: what is written can be read

    The writer of one stream and the reader of its files, composed. The writer
    runs over any [FileIO] that meets the contract, under any environment. This file
    has the streams of variable-size records; [Recovery] adds those of one size and
    states the guarantees for both. *)
From Stdlib Require Import Ascii.
From Stdlib Require String.
From S2P Require Import Prelude DataTypes Calendar Format Protos FileSystem FileIO StreamWriter FileNames StreamWriterSpec Samples FileReader StreamReader.
Local Open Scope Z_scope.

(** ** Sequences of writes *)
Section Writes.
Context {H : Type} {FI : FileIO H} {FV : FileIOView H} {FS : FileIOSpec H} {L : LocalTime}.
Import StreamWriter.

(** A client that writes records one after the other and keeps the results; an
    exception ends it. *)
Fixpoint write_all (ts : list record) : @M H (list Z) :=
  match ts with
  | [] => mret []
  | r :: ts' =>
      n ← write (r_time r) (r_data r);
      ns ← write_all ts';
      mret (n :: ns)
  end.

Definition acknowledged (rs : list record) : list Z := map (fun r => i32 (24 + zlen (r_data r))) rs.

Definition injector_throws (sw : t H) : Prop :=
  exists f e, fault_injector_ sw = Some f /\ f kAfterDataWriteBeforeIndexWrite = Throw e.

Lemma injector_throws_config sw sw' :
  same_config sw sw' -> injector_throws sw' -> injector_throws sw.
Proof. intros (_ & _ & _ & _ & E) (f & e & Ef & Ee). exists f, e. by rewrite <- E. Qed.

Lemma same_config_trans sw1 sw2 sw3 :
  @same_config H sw1 sw2 -> same_config sw2 sw3 -> same_config sw1 sw3.
Proof. unfold same_config. intuition congruence. Qed.

Lemma only_appends_join ids w1 w2 w3 :
  only_appends ids w1 w2 -> only_appends ids w2 w3 -> only_appends ids w1 w3.
Proof.
  intros. apply (only_appends_weaken (ids ++ ids)); [set_solver|]. by eapply only_appends_trans.
Qed.

(** A bound on all records together leaves room for each of them. *)
Lemma fits_all rs ts :
  end_offset (rs ++ ts) + 12 <= UINT32_MAX -> Forall (fun r => fits (end_offset rs) (r_data r)) ts.
Proof.
  rewrite end_offset_app. intros Hb. apply Forall_forall. intros r (l1 & l2 & ->)%list_elem_of_split.
  rewrite map_app, zsum_app in Hb. cbn [map] in Hb. rewrite zsum_cons in Hb.
  pose proof (zsum_sizes_nonneg l1). pose proof (zsum_sizes_nonneg l2).
  unfold fits, data_entry_size in *. lia.
Qed.

Section Variable_.
Context (i d : nat) (h hd : LogFileHeader.t) (Hne : i <> d).

(** After a failure: every further write is refused. *)
Lemma var_write_all_stuck rs lost ts sw w :
  var_stuck i d h hd rs lost (sw, w) -> 0 <= offset_ sw ->
  Forall (fun r => fits (offset_ sw) (r_data r)) ts ->
  wp (write_all ts) (fun o s' => only_appends [d; i] w s'.2 /\ same_config sw s'.1 /\
    exists m, (m <= length ts)%nat /\ var_crash i d h hd rs (lost ++ take m ts) s' /\
    match o with
    | Ok ns => ns = replicate (length ts) (- EIO)
    | Throw _ => injector_throws sw
    end) (sw, w).
Proof.
  revert lost sw w; induction ts as [|[t dt] ts IH]; intros lost sw w Hs Ho Hf; cbn [write_all].
  - wp_step. split; [apply only_appends_refl|]. split; [done|]. exists 0%nat. split; [lia|].
    rewrite app_nil_r. by split; [apply var_stuck_crash|].
  - inversion Hf as [|? ? F1 F2]; subst. cbn [r_data r_time] in *. wp_step.
    eapply wp_mono; [apply (var_write_stuck i d h hd Hne rs lost t dt sw w Hs Ho F1)|].
    intros o [sw1 w1] (A1 & C1 & E1 & Hc). cbn [fst snd] in *.
    destruct o as [n|e]; cbn [wp_rest].
    + destruct Hc as [-> Hs1]. wp_step.
      eapply wp_mono; [apply (IH _ _ _ Hs1); by rewrite E1|].
      intros o [sw2 w2] (A2 & C2 & m & Hm & Hcr & Ho2). cbn [fst snd] in *.
      assert (only_appends [d; i] w w2) as A3 by (by eapply only_appends_join).
      assert (same_config sw sw2) as C3 by (by eapply same_config_trans).
      rewrite <- app_assoc in Hcr. change ([mk_record t dt] ++ take m ts)
        with (take (S m) (mk_record t dt :: ts)) in Hcr.
      destruct o as [ns|e]; cbn [wp_rest]; repeat wp_step;
        (split; [done|]; split; [done|]; exists (S m); split; [cbn; lia|]; split; [done|]).
      * by rewrite Ho2.
      * exact (injector_throws_config _ _ C1 Ho2).
    + destruct Hc as [(f & Ef & Ee) Hcr]. split; [done|]. split; [done|].
      exists 1%nat. split; [cbn; lia|]. split; [done|]. by exists f, e.
Qed.

(** From files in good order: the first [k] records are acknowledged; the index
    covers them and at most one more, and the data no record that was not written. *)
Lemma var_write_all rs ts sw w :
  var_good i d h hd rs (sw, w) -> end_offset (rs ++ ts) + 12 <= UINT32_MAX ->
  wp (write_all ts) (fun o s' => only_appends [d; i] w s'.2 /\ same_config sw s'.1 /\
    exists k m n, (k <= m <= S k)%nat /\ (m <= n <= length ts)%nat /\
      var_crash i d h hd (rs ++ take m ts) (sub ts m (n - m)) s' /\
      match o with
      | Ok ns => ns = acknowledged (take k ts) ++ replicate (length ts - k) (- EIO) /\
                 (reliable w -> k = length ts) /\
                 (k = length ts -> var_good i d h hd (rs ++ ts) s')
      | Throw _ => injector_throws sw
      end) (sw, w).
Proof.
  revert rs sw w; induction ts as [|[t dt] ts IH]; intros rs sw w Hg Hoff; cbn [write_all].
  - wp_step. split; [apply only_appends_refl|]. split; [done|]. exists 0%nat, 0%nat, 0%nat.
    split; [lia|]. split; [cbn; lia|]. rewrite !app_nil_r.
    split; [by apply var_good_crash|]. done.
  - pose proof (fits_all _ _ Hoff) as Hfit. inversion Hfit as [|? ? F1 F2]; subst.
    cbn [r_data r_time] in *. wp_step.
    eapply wp_mono; [apply (var_write_good i d h hd Hne rs t dt sw w Hg F1)|].
    intros o [sw1 w1] (A1 & C1 & Hc). cbn [fst snd] in *. set (r := mk_record t dt) in *.
    assert (offset_ sw = end_offset rs) as Eo by (destruct Hg as (? & ? & _ & _ & _ & E); exact E).
    pose proof (end_offset_ge rs). unfold LogFileHeader.size in *.
    destruct o as [n|e]; cbn [wp_rest].
    + destruct Hc as [[-> Hg1]|(-> & Hrel & E1 & Hs)].
      * wp_step. eapply wp_mono; [apply (IH _ _ _ Hg1); by rewrite <- app_assoc|].
        intros o [sw2 w2] (A2 & C2 & k & m & n & Hk & Hm & Hcr & Ho2). cbn [fst snd] in *.
        rewrite <- app_assoc in Hcr.
        destruct o as [ns|e]; cbn [wp_rest]; repeat wp_step;
          (split; [by eapply only_appends_join|]; split; [by eapply same_config_trans|];
           exists (S k), (S m), (S n); split; [lia|]; split; [cbn; lia|]; split; [done|]).
        -- destruct Ho2 as (-> & R2 & G2). rewrite <- app_assoc in G2. cbn [app length] in *.
           split; [done|]. split; [|intros [= E]; by apply G2].
           intros Hr. f_equal. apply R2. by eapply only_appends_reliable.
        -- exact (injector_throws_config _ _ C1 Ho2).
      * assert (Forall (fun r => fits (offset_ sw1) (r_data r)) ts) as F2' by (by rewrite E1, Eo).
        wp_step. destruct Hs as [Hs|Hs];
          (eapply wp_mono; [apply (var_write_all_stuck _ _ ts sw1 w1 Hs); [lia|done]|];
           intros o [sw2 w2] (A2 & C2 & m & Hm & Hcr & Ho2); cbn [fst snd] in * );
          (destruct o as [ns|e]; cbn [wp_rest]; repeat wp_step;
           (split; [by eapply only_appends_join|]; split; [by eapply same_config_trans|])).
        -- exists 0%nat, 0%nat, (S m). split; [lia|]. split; [cbn; lia|]. rewrite app_nil_r.
           split; [done|]. subst ns. done.
        -- exists 0%nat, 0%nat, (S m). split; [lia|]. split; [cbn; lia|]. rewrite app_nil_r.
           split; [done|]. exact (injector_throws_config _ _ C1 Ho2).
        -- exists 0%nat, 1%nat, (S m). split; [lia|]. split; [cbn; lia|]. cbn [Nat.sub].
           rewrite Nat.sub_0_r. split; [done|]. subst ns. done.
        -- exists 0%nat, 1%nat, (S m). split; [lia|]. split; [cbn; lia|]. cbn [Nat.sub].
           rewrite Nat.sub_0_r. split; [done|]. exact (injector_throws_config _ _ C1 Ho2).
    + destruct Hc as [(f & Ef & Ee) Hcr]. split; [done|]. split; [done|].
      exists 0%nat, 0%nat, 1%nat. split; [lia|]. split; [cbn; lia|]. rewrite app_nil_r.
      split; [done|]. by exists f, e.
Qed.
End Variable_.
End Writes.

(** ** Names *)
(** The extension that is found is the one that was added. *)
Lemma index_ext base : no_dot base = true ->
  String.index 0 ".idx" (base +:+ ".idx") = Some (String.length base).
Proof.
  unfold no_dot. induction base as [|c base IH]; [done|]. cbn [no_char].
  intros [Hc Hb]%andb_true_iff. specialize (IH Hb).
  change (String c base +:+ ".idx") with (String c (base +:+ ".idx")). cbn [String.index].
  rewrite IH. destruct (bool_decide_reflect (c = "."%char)) as [->|Hne]; [done|].
  cbn [String.prefix]. destruct (Ascii.ascii_dec _ _) as [E|_]; [by rewrite <- E in Hne|done].
Qed.

Lemma substring_app base s : String.substring 0 (String.length base) (base +:+ s) = base.
Proof.
  induction base as [|c base IH]; [by destruct s|].
  change (String c (String.substring 0 (String.length base) (base +:+ s)) = String c base).
  by rewrite IH.
Qed.

(** ** What is left on disk *)
Lemma header_of_ok {H} (sw : StreamWriter.t H) time_ns type :
  0 <= time_ns < 2 ^ 64 -> 0 <= StreamWriter.record_size_ sw < 2 ^ 32 -> 0 <= type < 256 ->
  header_ok type (StreamWriter.record_size_ sw) (StreamWriter.header_of sw time_ns type).
Proof.
  intros. split; try done. split; cbn; try (unfold LogFileHeader.size, LogFileHeader.kDlFormatMajor,
    LogFileHeader.kDlFormatMinor; lia). apply LogFileHeader.length_pad_name.
Qed.

Lemma compat_data_file hd rs lost (c : bytes) :
  c `prefix_of` data_file hd (rs ++ lost) -> compat c (data_file hd rs).
Proof.
  intros Hp. eapply compat_prefixes; [exact Hp|]. unfold data_file, data_entries.
  rewrite map_app, concat_app, app_assoc. by apply prefix_app_r.
Qed.

Lemma crash_on_disk f path i d h hd nm rs lost :
  status f path = Some (NFile i) ->
  (exists k, String.index 0 ".idx" path = Some k /\
     status f (String.substring 0 k path +:+ ".data")%string = Some (NFile d)) ->
  header_ok kIndexFile 0 h -> header_ok kDataFile 0 hd ->
  LogFileHeader.c_str (LogFileHeader.name_ h) = Ok nm ->
  LogFileHeader.name_ hd = LogFileHeader.name_ h ->
  Forall record_ok rs -> end_offset (rs ++ lost) < 2 ^ 32 ->
  LogFileHeader.encode h `prefix_of` contents f i ->
  contents f i `prefix_of` var_index_file h rs ->
  LogFileHeader.encode hd `prefix_of` contents f d ->
  contents f d `prefix_of` data_file hd (rs ++ lost) ->
  var_on_disk f path i d h hd rs.
Proof.
  intros Hi Hd Hh Hhd Hnm En Hrs Hoff Pi1 Pi2 Pd1 Pd2.
  assert (forall l, end_offset rs <= end_offset (rs ++ l)) as Hmono.
  { intros l. rewrite end_offset_app. pose proof (zsum_sizes_nonneg l). lia. }
  specialize (Hmono lost).
  assert (zlen rs * 12 <= end_offset rs - LogFileHeader.size) as Hlen.
  { unfold end_offset. clear. induction rs as [|r rs IH]; [unfold zlen; cbn; lia|].
    pose proof (data_entry_size_pos r). cbn [map]. rewrite zsum_cons.
    change (r :: rs) with ([r] ++ rs). rewrite zlen_app. unfold zlen in *; cbn [length] in *. lia. }
  pose proof (prefix_zlen _ _ Pi1) as Z1. pose proof (prefix_zlen _ _ Pi2) as Z2.
  pose proof (prefix_zlen _ _ Pd1) as Z3. pose proof (prefix_zlen _ _ Pd2) as Z4.
  rewrite zlen_var_index in Z2 by done. rewrite zlen_data_file in Z4 by done.
  assert (forall type h', header_ok type 0 h' -> zlen (LogFileHeader.encode h') = LogFileHeader.size) as Hz.
  { intros type h' [Hw _ _ _]. unfold zlen. by rewrite LogFileHeader.length_encode. }
  rewrite (Hz _ _ Hh) in Z1. rewrite (Hz _ _ Hhd) in Z3.
  split; try done; [|lia|by eapply compat_data_file|lia|lia].
  exists nm. by rewrite En.
Qed.

(** ** From opening to reading *)
Section Recordings.
Context {H : Type} {FI : FileIO H} {FV : FileIOView H} {FS : FileIOSpec H} {L : LocalTime}.
Import StreamWriter.

(** The life of a writer: the files are opened, records are written one after
    the other. What happens then is up to the client: the process may die here,
    or close the files. *)
Definition record_stream (request : LogRequest.t) (ts : list record) : @M H (Z * list Z) :=
  r ← openFile request;
  if r <=? 0 then mret (r, []) else
  ns ← write_all ts;
  mret (r, ns).

(** A request for a new stream of variable-size records, and a folder in which
    its files can be created and found again. *)
Record good_request (f : fs) (folder : string) (p : path) (request : LogRequest.t) : Prop := {
  gq_folder : folder_ready f folder p;
  gq_folder_dot : no_dot folder = true;
  gq_slash : no_slash (LogRequest.channel request) = true;
  gq_dot : no_dot (LogRequest.channel request) = true;
  gq_name : (x00 ∉ name_bytes (LogRequest.channel request)) /\
            (length (name_bytes (LogRequest.channel request)) < LogFileHeader.name_size)%nat;
  gq_time : 0 <= LogRequest.time_ns request < 2 ^ 64
}.

Definition good_records (ts : list record) : Prop :=
  Forall record_ok ts /\ end_offset ts + 12 <= UINT32_MAX.

Definition index_header (folder : string) (request : LogRequest.t) : LogFileHeader.t :=
  header_of (set_request (LogRequest.channel request) (LogRequest.size request)
               (@create H folder)) (LogRequest.time_ns request) kIndexFile.
Definition data_header (folder : string) (request : LogRequest.t) : LogFileHeader.t :=
  header_of (set_request (LogRequest.channel request) (LogRequest.size request)
               (@create H folder)) (LogRequest.time_ns request) kDataFile.

Definition stream_path (folder n : string) : string := join_slash folder (n +:+ ".idx").

Lemma stream_path_base folder n : stream_path folder n = join_slash folder n +:+ ".idx".
Proof. unfold stream_path, join_slash. by rewrite append_assoc. Qed.

(** The writer has the two files of the stream [folder/n] open. *)
Record stream_at (f : fs) (folder n : string) (i d : nat) : Prop := {
  sa_index : status f (stream_path folder n) = Some (NFile i);
  sa_data : exists k, String.index 0 ".idx" (stream_path folder n) = Some k /\
    status f (String.substring 0 k (stream_path folder n) +:+ ".data")%string = Some (NFile d)
}.

Lemma stream_at_intro f folder p n i d :
  directory_at f folder p -> no_slash n = true -> no_dot folder = true -> no_dot n = true ->
  nodes f !! (p ++ [n +:+ ".idx"]) = Some (NFile i) ->
  nodes f !! (p ++ [n +:+ ".data"]) = Some (NFile d) ->
  stream_at f folder n i d.
Proof.
  intros Hd Hn Hfd Hnd Hi Hdt. split.
  - unfold stream_path. rewrite (status_child f folder p); [done|done| |by rewrite Hi].
    apply plain_ext; [done|done|cbn; lia].
  - exists (String.length (join_slash folder n)). rewrite stream_path_base.
    rewrite index_ext, substring_app.
    + split; [done|]. unfold join_slash. rewrite append_assoc.
      change (folder +:+ (String slash n +:+ ".data")) with (join_slash folder (n +:+ ".data")).
      rewrite (status_child f folder p); [done|done| |by rewrite Hdt].
      apply plain_ext; [done|done|cbn; lia].
    + unfold join_slash. rewrite no_dot_app, Hfd. exact Hnd.
Qed.

(** A character that is not added to a name: no digit and no separator. *)
Definition not_added (x : Ascii.ascii) : Prop :=
  (forall d, pretty_N_char d <> x) /\ no_char x "-_" = true.

Lemma not_added_number x z : not_added x -> no_char x (to_string z) = true.
Proof.
  intros [Hd Hs]. unfold to_string. apply no_char_pretty_Z; [done|].
  cbn in *. by destruct (bool_decide ("-"%char = x)).
Qed.

Lemma candidate_no_char x base j :
  not_added x -> no_char x base = true -> no_char x (candidate base j) = true.
Proof.
  intros Hx Hb. destruct j; [done|]. unfold candidate.
  rewrite !no_char_app, Hb, not_added_number by done. destruct Hx as [_ Hs]. cbn in *.
  by destruct (bool_decide ("-"%char = x)), (bool_decide ("_"%char = x)).
Qed.

Lemma fileName_no_char x (sw : t H) time_ns :
  not_added x -> no_char x (name_ sw) = true -> no_char x (fileName sw time_ns) = true.
Proof.
  intros Hx Hn. unfold fileName, pad2.
  assert (H0 : no_char x "0" = true) by (pose proof (proj1 Hx 0%N); cbn in *; by rewrite bool_decide_false).
  assert (H_ : no_char x "_" = true).
  { destruct Hx as [_ Hs]. cbn in *. by destruct (bool_decide ("-"%char = x)), (bool_decide ("_"%char = x)). }
  repeat case_match; rewrite !no_char_app, ?not_added_number, ?H0, ?H_, Hn by done; done.
Qed.

Lemma candidate_nonempty base j : base <> EmptyString -> candidate base j <> EmptyString.
Proof. destruct j; [done|]. by destruct base. Qed.

Lemma fileName_nonempty (sw : t H) time_ns : fileName sw time_ns <> EmptyString.
Proof.
  intros E. apply (f_equal String.length) in E. unfold fileName in E.
  rewrite !length_append in E. cbn in E. lia.
Qed.

Lemma not_added_dot : not_added ".".
Proof. split; [|done]. intros d. unfold pretty_N_char. repeat case_match; done. Qed.

Lemma not_added_nul : not_added Ascii.zero.
Proof. split; [|done]. intros d. unfold pretty_N_char. repeat case_match; done. Qed.

Lemma not_added_backslash : not_added "\".
Proof. split; [|done]. intros d. unfold pretty_N_char. repeat case_match; done. Qed.

Lemma candidate_no_dot base j : no_dot base = true -> no_dot (candidate base j) = true.
Proof. apply candidate_no_char, not_added_dot. Qed.

Lemma fileName_no_dot (sw : t H) time_ns :
  no_dot (name_ sw) = true -> no_dot (fileName sw time_ns) = true.
Proof. apply fileName_no_char, not_added_dot. Qed.

(** [openFile] on a new writer. *)
Lemma wp_openFile_new folder p request w :
  good_request (w_fs w) folder p request -> LogRequest.size request = 0 ->
  wp (openFile request) (fun o s => exists r, o = Ok r /\
    grows w s.2 /\ fault_injector_ s.1 = None /\
    ((r = 2 * LogFileHeader.size /\ exists n i d, i <> d /\
        (next_ino (w_fs w) <= i)%nat /\ (next_ino (w_fs w) <= d)%nat /\
        stream_at (w_fs s.2) folder n i d /\
        contents (w_fs s.2) i = LogFileHeader.encode (index_header folder request) /\
        contents (w_fs s.2) d = LogFileHeader.encode (data_header folder request) /\
        var_good i d (index_header folder request) (data_header folder request) [] s) \/
     (r < 0 /\ ~ reliable w /\ is_open (index_ s.1) = false))) (create folder, w).
Proof.
  intros [Hf Hfd Hs Hd [Hz Hl] Ht] H0. unfold openFile. sw_step. sw_step. cbn [wp_rest fst snd].
  set (sw := set_request _ _ _).
  eapply wp_mono; [apply (wp_reopenFile _ sw w p); done|].
  intros o [sw' w'] (r & -> & Hrq & G & Hcase). cbn [fst snd] in *. exists r.
  split; [done|]. split; [done|]. split; [by destruct Hrq as (_ & _ & _ & ->)|].
  destruct Hcase as [Hr|([-> | ->] & Hrel & Ho)]; [left|right; done|right; done].
  unfold reopened in Hr. change (record_size_ sw) with (LogRequest.size request) in Hr.
  rewrite H0 in Hr. cbn [Z.eqb] in Hr. destruct Hr as [-> (n & i & d & [j ->] & Hn & ? & ? & ? & _ & _ & Hi & Hdt & Ci & Cd & Hg)].
  split; [done|]. eexists _, i, d. split; [done|]. split; [done|]. split; [done|]. split; [|done].
  eapply stream_at_intro; [|exact Hn|done| |exact Hi|exact Hdt].
  - eapply directory_at_mono; [apply (gr_nodes _ _ G)|apply Hf].
  - by apply candidate_no_dot, fileName_no_dot.
Qed.

(** The disk holds a readable recording of the first [m] records; the first [k]
    of them were acknowledged. *)
Definition recorded (w : world) (folder : string) (request : LogRequest.t) (ts : list record)
    (ns : list Z) (s : t H * world) (n : string) (i d k m : nat) : Prop :=
  i <> d /\ (k <= m <= S k)%nat /\ (m <= length ts)%nat /\
  ns = acknowledged (take k ts) ++ replicate (length ts - k) (- EIO) /\
  (reliable w -> k = length ts) /\
  grows w s.2 /\ stream_at (w_fs s.2) folder n i d /\
  var_on_disk (w_fs s.2) (stream_path folder n) i d
    (index_header folder request) (data_header folder request) (take m ts) /\
  (exists lost, var_crash i d (index_header folder request) (data_header folder request)
                  (take m ts) lost s /\ end_offset (take m ts ++ lost) < 2 ^ 32) /\
  (k = length ts -> var_good i d (index_header folder request) (data_header folder request) ts s) /\
  LogFileHeader.encode (index_header folder request) `prefix_of` contents (w_fs s.2) i /\
  LogFileHeader.encode (data_header folder request) `prefix_of` contents (w_fs s.2) d.

Lemma headers_ok folder request :
  LogRequest.size request = 0 -> 0 <= LogRequest.time_ns request < 2 ^ 64 ->
  header_ok kIndexFile 0 (index_header folder request) /\
  header_ok kDataFile 0 (data_header folder request).
Proof.
  intros H0 Ht. set (sw := set_request (LogRequest.channel request) (LogRequest.size request)
    (@create H folder)).
  assert (record_size_ sw = 0) as Es by (unfold sw; cbn; done).
  assert (forall type, 0 <= type < 256 ->
    header_ok type 0 (header_of sw (LogRequest.time_ns request) type)) as Hok.
  { intros type Hty. rewrite <- Es at 1. apply header_of_ok; lia. }
  split; by apply Hok.
Qed.

Lemma header_name_ok folder p request f :
  good_request f folder p request -> 
  LogFileHeader.c_str (LogFileHeader.name_ (index_header folder request)) =
  Ok (name_bytes (LogRequest.channel request)).
Proof. intros [_ _ _ _ [Hz Hl] _]. by apply LogFileHeader.c_str_pad_name. Qed.

Lemma end_offset_sub (ts : list record) m n :
  (m <= n)%nat -> end_offset (take m ts ++ sub ts m (n - m)) <= end_offset ts.
Proof.
  intros Hm. unfold sub. rewrite take_take_drop. rewrite <- (take_drop (m + (n - m)) ts) at 2.
  rewrite end_offset_app. pose proof (zsum_sizes_nonneg (drop (m + (n - m)) ts)). lia.
Qed.

Lemma stream_at_nodes f f' folder n i d :
  nodes f = nodes f' -> stream_at f folder n i d -> stream_at f' folder n i d.
Proof.
  intros En [Hi (k & Hk & Hd)]. split; [by rewrite <- (status_nodes f)|].
  exists k. by rewrite <- (status_nodes f f').
Qed.

Lemma wp_record_stream folder p request ts w :
  good_request (w_fs w) folder p request -> LogRequest.size request = 0 -> good_records ts ->
  wp (record_stream request ts) (fun o s => exists r ns, o = Ok (r, ns) /\
    ((r = 2 * LogFileHeader.size /\ exists n i d k m, recorded w folder request ts ns s n i d k m) \/
     (r < 0 /\ ~ reliable w))) (create folder, w).
Proof.
  intros Hq H0 [Hrs Hoff]. unfold record_stream. wp_step.
  eapply wp_mono; [by apply (wp_openFile_new folder p)|].
  intros o [sw1 w1] (r & -> & G1 & Hinj & [[-> Hop]|(Hr & Hrel & _)]); cbn [fst snd wp_rest] in *; cycle 1.
  { rewrite (proj2 (Z.leb_le r 0)) by lia. wp_step. eexists _, _. split; [done|]. by right. }
  change (2 * LogFileHeader.size <=? 0) with false. cbv iota. wp_step.
  destruct Hop as (n & i & d & Hne & Hi & Hd & Hat & Ci & Cd & Hg).
  eapply wp_mono; [apply (var_write_all i d _ _ Hne [] ts sw1 w1 Hg); done|].
  intros o [sw2 w2] (F & C & k & m & n' & Hk & Hm & Hcr & Ho). cbn [fst snd wp_rest app] in *.
  destruct o as [ns|e]; [|destruct Ho as (f & e' & E & _); congruence].
  destruct Ho as (-> & Hrel & Hgood). cbn [wp_rest]. wp_step. eexists _, _. split; [done|].
  left. split; [done|]. exists n, i, d, k, m.
  assert (stream_at (w_fs w2) folder n i d) as Hat2
    by (eapply stream_at_nodes; [symmetry; apply F|done]).
  pose proof (oa_grow _ _ _ F i) as Pi. rewrite Ci in Pi.
  pose proof (oa_grow _ _ _ F d) as Pd. rewrite Cd in Pd.
  pose proof (end_offset_sub ts m n' ltac:(lia)) as Hsub. unfold UINT32_MAX in Hoff.
  split; [done|]. split; [done|]. split; [lia|]. split; [done|].
  split; [intros; apply Hrel; by eapply reliable_env; [apply G1|]|].
  split; [eapply grows_appends; [exact G1|exact F|by repeat constructor]|]. split; [done|].
  split; [|split; [by eexists; split; [exact Hcr|lia]|split; [done|split; done]]].
  destruct Hcr as (hi & hdt & ci & cd & V & P1 & P2).
  eapply crash_on_disk; try done; try apply Hat2.
  - apply (headers_ok folder request H0), Hq.
  - apply (headers_ok folder request H0), Hq.
  - by eapply header_name_ok.
  - by apply Forall_take.
  - exact (Z.le_lt_trans _ _ (2 ^ 32) Hsub ltac:(lia)).
  - etrans; [|exact P1]. rewrite <- (vv_ci _ _ _ _ _ _ _ _ V). unfold logical. by apply prefix_app_r.
  - etrans; [|exact P2]. rewrite <- (vv_cd _ _ _ _ _ _ _ _ V). unfold logical. by apply prefix_app_r.
Qed.
End Recordings.

(** ** Reading a sequence of records *)
Fixpoint read_seq (f : fs) (ks : list Z) : prog StreamReader.t (list (bool * option DataPiece.t)) :=
  match ks with
  | [] => mret []
  | k :: ks' =>
      x ← StreamReader.read f k (Some DataPiece.empty);
      xs ← read_seq f ks';
      mret (x :: xs)
  end.

Lemma wp_read_seq f (Inv : StreamReader.t -> Prop) (R : Z -> bool * option DataPiece.t -> Prop) ks rd :
  Inv rd ->
  (forall k rd, k ∈ ks -> Inv rd ->
     wp (StreamReader.read f k (Some DataPiece.empty))
       (fun o rd' => Inv rd' /\ exists x, o = Ok x /\ R k x) rd) ->
  exists xs, (read_seq f ks rd).1 = Ok xs /\ Forall2 R ks xs.
Proof.
  intros Hi Hstep.
  assert (wp (read_seq f ks) (fun o rd' => exists xs, o = Ok xs /\ Forall2 R ks xs) rd) as W; [|exact W].
  revert rd Hi. induction ks as [|k ks IH]; intros rd Hi; cbn [read_seq].
  - wp_step. eauto.
  - wp_step. eapply wp_mono; [apply Hstep; [set_solver|done]|].
    intros o rd' (Hi' & x & -> & HR). wp_step. wp_step.
    eapply wp_mono; [apply IH; [intros; apply Hstep; [set_solver|done]|done]|].
    intros o rd2 (xs & -> & HF). wp_step. wp_step. eauto.
Qed.

(** A record that is returned is the record that was written. *)
Definition faithful (rs : list record) (k : Z) (x : bool * option DataPiece.t) : Prop :=
  x = (false, Some DataPiece.empty) \/
  exists r, rs !! Z.to_nat k = Some r /\ x = (true, Some (piece_of r)).

Definition exactly (rs : list record) (k : Z) (x : bool * option DataPiece.t) : Prop :=
  exists r, rs !! Z.to_nat k = Some r /\ x = (true, Some (piece_of r)).

(** A reader that is not healthy returns nothing. *)
Lemma unhealthy_faithful f rs ks rd :
  StreamReader.status_ rd <> kHealthy ->
  exists xs, (read_seq f ks rd).1 = Ok xs /\ Forall2 (faithful rs) ks xs.
Proof.
  intros Hs. apply (wp_read_seq f (fun r => StreamReader.status_ r <> kHealthy)); [done|].
  intros k rd' _ Hst. unfold wp. rewrite read_not_healthy by done. split; [done|].
  eexists; split; [done|by left].
Qed.

(** Whatever is left of a recording, reading is safe. *)
Lemma var_on_disk_faithful f path i d h hd rs ks :
  var_on_disk f path i d h hd rs -> Forall (fun k => 0 <= k) ks ->
  exists rd xs, StreamReader.construct f path = Ok rd /\ (read_seq f ks rd).1 = Ok xs /\
    Forall2 (faithful rs) ks xs.
Proof.
  intros Hd Hks. rewrite Forall_forall in Hks. pose proof (var_on_disk_reader f path i d h hd rs Hd) as Hc.
  cbn zeta in Hc. set (cnt := complete_records (contents f i) 12) in *.
  destruct (cnt =? 0) eqn:E.
  - destruct Hc as (ir & Hc). exists (StreamReader.mk (Some ir) None kEmpty).
    destruct (unhealthy_faithful f rs ks (StreamReader.mk (Some ir) None kEmpty)) as (xs & Hx & HF); eauto.
  - destruct Hc as (rd & Hc & Hv). exists rd.
    destruct (wp_read_seq f (var_reader f i h d hd cnt) (faithful rs) ks rd) as (xs & Hx & HF);
      [exact Hv| |by eauto].
    intros k rd' Hk Hv'. specialize (Hks k Hk). destruct (decide (k < cnt)) as [Hlt|Hge].
    + destruct (var_on_disk_read f path i d h hd rs rd' k Hd Hv' ltac:(lia)) as (r & Er & W).
      eapply wp_mono; [exact W|]. intros o rd2 (V2 & ->). split; [done|]. eexists; split; [done|].
      destruct (_ || _); [by left|right; eauto].
    + eapply wp_mono; [apply (wp_read_var_out f i h d hd cnt rd' k _ Hv' ltac:(lia))|].
      intros o rd2 (V2 & ->). split; [done|]. eexists; split; [done|by left].
Qed.

(** A complete recording is read back record for record. *)
Lemma var_on_disk_exactly f path i d h hd rs ks :
  var_on_disk f path i d h hd rs ->
  contents f i = var_index_file h rs -> contents f d = data_file hd rs ->
  rs <> [] -> Forall (fun r => r_time r <> 0) rs -> Forall (fun k => 0 <= k < zlen rs) ks ->
  exists rd xs, StreamReader.construct f path = Ok rd /\ (read_seq f ks rd).1 = Ok xs /\
    Forall2 (exactly rs) ks xs.
Proof.
  intros Hd Ci Cd Hne Ht Hks. rewrite Forall_forall in Hks.
  pose proof (vd_header _ _ _ _ _ _ _ Hd) as Hh. pose proof (vd_data_header _ _ _ _ _ _ _ Hd) as Hhd.
  pose proof (var_on_disk_reader f path i d h hd rs Hd) as Hc. cbn zeta in Hc.
  assert (complete_records (contents f i) 12 = zlen rs) as Ecnt.
  { unfold complete_records. rewrite Ci, zlen_var_index by done.
    rewrite Z.add_simpl_l, Z.mul_comm, Z.div_mul by lia. done. }
  rewrite Ecnt in Hc. destruct (zlen rs =? 0) eqn:E.
  { apply Z.eqb_eq in E. destruct rs; [done|]. unfold zlen in E; cbn in E. lia. }
  destruct Hc as (rd & Hc & Hv). exists rd.
  destruct (wp_read_seq f (var_reader f i h d hd (zlen rs)) (exactly rs) ks rd) as (xs & Hx & HF);
    [exact Hv| |by eauto].
  intros k rd' Hk Hv'. specialize (Hks k Hk). rewrite <- Ecnt in Hv'.
  destruct (var_on_disk_read f path i d h hd rs rd' k Hd Hv' ltac:(lia)) as (r & Er & W).
  eapply wp_mono; [exact W|]. intros o rd2 (V2 & ->). rewrite Ecnt in V2. split; [done|].
  eexists; split; [done|]. exists r. split; [done|].
  rewrite (proj2 (Z.eqb_neq _ 0)) by (apply (Forall_lookup_1 _ _ _ _ Ht Er)).
  pose proof (data_entry_end hd rs _ r Hhd Er). rewrite Cd, (proj2 (Z.ltb_ge _ _)) by lia. done.
Qed.

(** ** The guarantees of a recording *)
Section Guarantees.
Context {H : Type} {FI : FileIO H} {FV : FileIOView H} {FS : FileIOSpec H} {L : LocalTime}.
Import StreamWriter.

(** The client, which may also close the files. *)
Definition record_and (closing : bool) (request : LogRequest.t) (ts : list record) :
    @M H (Z * list Z) :=
  x ← record_stream request ts;
  (if closing then closeFile else mret tt);;
  mret x.

Lemma recorded_closed w folder p request ts ns s n i d k m :
  good_request (w_fs w) folder p request -> LogRequest.size request = 0 -> good_records ts ->
  recorded w folder request ts ns s n i d k m ->
  wp closeFile (fun o s' => o = Ok tt /\
    var_on_disk (w_fs s'.2) (stream_path folder n) i d
      (@index_header H folder request) (@data_header H folder request) (take m ts) /\
    (reliable w -> m = length ts /\
       contents (w_fs s'.2) i = var_index_file (@index_header H folder request) ts /\
       contents (w_fs s'.2) d = data_file (@data_header H folder request) ts)) s.
Proof.
  intros Hq H0 [Hrs Hoff] (Hne & Hk & Hm & _ & Hrel & G & Hat & _ & (lost & Hcr & Hend) & Hg & P1 & P2).
  destruct s as [sw1 w1]. pose proof Hcr as (hi & hdt & ci & cd & V & C1 & C2). cbn [fst snd] in *.
  eapply wp_mono; [by apply (wp_closeFile_var i d)|].
  intros o [sw2 w2] (-> & F & _ & _ & _ & Q1 & Q2 & R1 & R2). cbn [fst snd] in *. split; [done|].
  destruct (@headers_ok H folder request H0 (gq_time _ _ _ _ Hq)) as [Hh Hhd]. split.
  - assert (stream_at (w_fs w2) folder n i d) as Hat2
      by (eapply stream_at_nodes; [symmetry; apply F|done]).
    eapply crash_on_disk; try done; try apply Hat2.
    + by eapply header_name_ok.
    + by apply Forall_take.
    + etrans; [exact P1|apply F].
    + by etrans.
    + etrans; [exact P2|apply F].
    + by etrans.
  - intros Hr. pose proof (Hrel Hr) as Ek. specialize (Hg Ek).
    destruct Hg as (hi' & hdt' & V' & G1 & G2 & _). cbn [fst snd] in *.
    assert (hi' = hi) as -> by (pose proof (vv_index _ _ _ _ _ _ _ _ V);
      pose proof (vv_index _ _ _ _ _ _ _ _ V'); congruence).
    assert (hdt' = hdt) as -> by (pose proof (vv_data _ _ _ _ _ _ _ _ V);
      pose proof (vv_data _ _ _ _ _ _ _ _ V'); congruence).
    assert (reliable w1) as Hr1 by (eapply reliable_env; [apply G|done]).
    rewrite (R1 Hr1 G1), (R2 Hr1 G2), <- (vv_ci _ _ _ _ _ _ _ _ V), <- (vv_cd _ _ _ _ _ _ _ _ V).
    split; [lia|]. split; apply V'.
Qed.

(** The stream was opened ([r]); the results [ns] acknowledge a leading part of
    [ts]; a reader of the files returns only records of [ts]. *)
Definition recovered_variable (folder : string) (ts : list record) (ks : list Z) (r : Z) (ns : list Z)
    (f : fs) : Prop :=
  r = 2 * LogFileHeader.size /\ exists n k rd xs,
    (k <= length ts)%nat /\
    ns = acknowledged (take k ts) ++ replicate (length ts - k) (- EIO) /\
    StreamReader.construct f (stream_path folder n) = Ok rd /\
    (read_seq f ks rd).1 = Ok xs /\ Forall2 (faithful ts) ks xs.

(** Crash recovery of a stream of variable-size records; [Recovery] states it for
    all streams. *)
Lemma crash_recovery_variable closing folder p request ts ks w :
  good_request (w_fs w) folder p request -> LogRequest.size request = 0 -> good_records ts ->
  Forall (fun k => 0 <= k) ks ->
  wp (record_and closing request ts) (fun o s => exists r ns, o = Ok (r, ns) /\
    (recovered_variable folder ts ks r ns (w_fs s.2) \/ (r < 0 /\ ~ reliable w))) (@create H folder, w).
Proof.
  intros Hq H0 Hts Hks. unfold record_and. wp_step.
  eapply wp_mono; [by apply (wp_record_stream folder p)|].
  intros o s (r & ns & -> & Hcase). cbn [wp_rest]. wp_step.
  assert (forall f n i d k m, var_on_disk f (stream_path folder n) i d
    (@index_header H folder request) (@data_header H folder request) (take m ts) ->
    recorded w folder request ts ns s n i d k m -> r = 2 * LogFileHeader.size ->
    recovered_variable folder ts ks r ns f \/ (r < 0 /\ ~ reliable w)) as Hfin.
  { intros f n i d k m Hd (_ & Hk & Hm & Hns & _) ->. left. split; [done|].
    destruct (var_on_disk_faithful _ _ _ _ _ _ _ _ Hd Hks) as (rd & xs & Hc & Hx & HF).
    exists n, k, rd, xs. split_and!; try done; [lia|].
    eapply Forall2_impl; [exact HF|]. intros z x [->|(rc & Er & ->)]; [by left|right].
    exists rc. split; [|done]. by apply lookup_take_Some in Er as [? _]. }
  destruct Hcase as [[Er (n & i & d & k & m & Hrec)]|[Hr Hrel]]; destruct closing.
  - eapply wp_mono; [by eapply (recorded_closed w folder p)|].
    intros o s' (-> & Hd & _). repeat wp_step. eexists _, _. split; [done|]. by eapply Hfin.
  - repeat wp_step. eexists _, _. split; [done|]. eapply Hfin; try done. apply Hrec.
  - destruct s as [sw1 w1]. eapply wp_mono; [apply wp_closeFile|]. intros o s' (-> & _).
    repeat wp_step. eexists _, _. split; [done|]. by right.
  - repeat wp_step. eexists _, _. split; [done|]. by right.
Qed.

(** And the round trip on a medium that does not fail. *)
Lemma round_trip_variable folder p request ts ks w :
  good_request (w_fs w) folder p request -> LogRequest.size request = 0 -> good_records ts ->
  ts <> [] -> Forall (fun r => r_time r <> 0) ts -> Forall (fun k => 0 <= k < zlen ts) ks ->
  reliable w ->
  wp (record_and true request ts) (fun o s =>
    o = Ok (2 * LogFileHeader.size, acknowledged ts) /\ exists n rd xs,
      StreamReader.construct (w_fs s.2) (stream_path folder n) = Ok rd /\
      (read_seq (w_fs s.2) ks rd).1 = Ok xs /\ Forall2 (exactly ts) ks xs) (@create H folder, w).
Proof.
  intros Hq H0 Hts Hne Ht Hks Hr. unfold record_and. wp_step.
  eapply wp_mono; [by apply (wp_record_stream folder p)|].
  intros o s (r & ns & -> & [[-> (n & i & d & k & m & Hrec)]|[_ Hrel]]); [|done].
  cbn [wp_rest]. wp_step. eapply wp_mono; [by eapply (recorded_closed w folder p)|].
  intros o s' (-> & Hd & Hall). destruct (Hall Hr) as (-> & Ci & Cd). rewrite firstn_all in Hd.
  destruct Hrec as (_ & _ & _ & -> & Hk & _). rewrite (Hk Hr), firstn_all, Nat.sub_diag, app_nil_r.
  repeat wp_step. split; [done|]. exists n.
  by destruct (var_on_disk_exactly _ _ _ _ _ _ _ _ Hd Ci Cd Hne Ht Hks) as (rd & xs & ? & ? & ?); eauto.
Qed.

(** C18: power loss. A fault injected between the data write and the index write
    ends [write] with the injected exception. When the files are then closed on a
    medium that does not fail, the index is exactly that of the records before, so
    the interrupted record is not visible, and the data file holds it after them. *)
Theorem power_loss_hides_record i d h hd rs time_ns data sw w f e :
  i <> d -> var_good i d h hd rs (sw, w) -> fits (end_offset rs) data -> reliable w ->
  fault_injector_ sw = Some f -> f kAfterDataWriteBeforeIndexWrite = Throw e ->
  wp (catch_all (write (H := H) time_ns data;; mret false) (closeFile;; mret true)) (fun o s =>
    if cpp_exn e then o = Ok true /\
      contents (w_fs s.2) i = var_index_file h rs /\
      contents (w_fs s.2) d = data_file hd (rs ++ [mk_record time_ns data])
    else o = Throw e) (sw, w).
Proof.
  intros Hne (hi & hdt & V & Gi & Gd & Ho) Hfit Hr Hf He. cbn [fst snd] in *.
  rewrite <- Ho in Hfit. pose proof (end_offset_ge rs). unfold LogFileHeader.size in *.
  unfold catch_all. apply wp_try_catch. wp_step.
  eapply wp_mono; [apply (wp_write_var i d Hne _ _ _ _ _ _ _ _ V); [lia|done]|].
  intros o [sw' w'] (F & C & ok & hi' & hdt' & ci' & cd' & -> & V' & S').
  destruct S' as [Hnf ? ? ? ? -> -> Eo|? Hrel -> -> Eo P1 _|? ? ? Hrel -> P1 _ Eo|f' e' Ef' Ee' ? ? -> -> -> ?];
    [|specialize (Hrel Hr); congruence|specialize (Hrel Hr); congruence|].
  - specialize (Hnf f Hf). congruence.
  - assert (e' = e) as -> by congruence. cbn [write_result wp_rest].
    destruct (cpp_exn e); [|by wp_step]. wp_step.
    eapply wp_mono; [by apply (wp_closeFile_var i d)|].
    intros o [sw2 w2] (-> & _ & _ & _ & _ & _ & _ & R1 & R2). cbn [fst snd] in *. wp_step. wp_step. cbn [snd].
    assert (reliable w') as Hr' by (by eapply only_appends_reliable).
    rewrite R1, R2 by done. split; [done|]. split; [done|]. by rewrite data_file_snoc.
Qed.
End Guarantees.

(** *** The guarantees at concrete inputs *)
#[local] Existing Instance utc_localtime.

Lemma sample_good_request w :
  nodes (w_fs w) = nodes sample_fs ->
  good_request (w_fs w) "/log" ["log"%string] sample_request.
Proof.
  intros En. split; try done.
  - by apply sample_folder_ready.
  - split; [|vm_compute; lia]. apply (bool_decide_unpack _). vm_compute. exact I.
Qed.

Lemma sample_good_records : good_records sample_records.
Proof. split; [repeat constructor|]; vm_compute; congruence. Qed.

(** A writer with empty files and an injected power loss. *)
Definition sample_header (type : Z) : LogFileHeader.t :=
  LogFileHeader.mk LogFileHeader.size noon 0 1 0 type (LogFileHeader.pad_name [x63; x61; x6e; x30]).

Definition open_fs : fs :=
  mk_fs (<[ ["log"; "a.idx"]%string := NFile 0 ]> (<[ ["log"; "a.data"]%string := NFile 1 ]> (nodes sample_fs)))
    {[ 0%nat := LogFileHeader.encode (sample_header kIndexFile);
       1%nat := LogFileHeader.encode (sample_header kDataFile) ]} 2.

Definition power_loss : StreamWriter.FaultInjector := fun _ => Throw SimulatedPowerLoss.

Definition open_writer : StreamWriter.t StandardFileIO.t :=
  StreamWriter.mk "/log" "can0" 0 LogFileHeader.size
    (Some (StandardFileIO.mk (Some 0%nat) [] false)) (Some (StandardFileIO.mk (Some 1%nat) [] false))
    0 (Some power_loss).

Lemma open_writer_good env :
  var_good 0 1 (sample_header kIndexFile) (sample_header kDataFile) [] (open_writer, mk_world open_fs env 0).
Proof.
  eexists _, _. split; [split; reflexivity|]. done.
Qed.

Lemma power_loss_hides_record_witness :
  wp (catch_all (StreamWriter.write (H := StandardFileIO.t) noon [x01; x02];; mret false)
                (StreamWriter.closeFile;; mret true)) (fun o s =>
    o = Ok true /\
    contents (w_fs s.2) 0 = var_index_file (sample_header kIndexFile) [] /\
    contents (w_fs s.2) 1 = data_file (sample_header kDataFile) ([] ++ [mk_record noon [x01; x02]]))
    (open_writer, mk_world open_fs sample_env 0).
Proof.
  apply (power_loss_hides_record 0 1 (sample_header kIndexFile) (sample_header kDataFile) []
           noon [x01; x02] open_writer (mk_world open_fs sample_env 0) power_loss SimulatedPowerLoss).
  - discriminate.
  - apply open_writer_good.
  - vm_compute. congruence.
  - intros n. reflexivity.
  - reflexivity.
  - reflexivity.
Defined.
