(* ===== verification/StorageScanner.v ===== *)
(** * StorageScanner

    [libs/log_reader/storage_scanner.{h,cpp}]: discovery of the streams of a time
    range, extraction of the records of one stream, and the confinement of the
    identifiers a client may name. *)
From Stdlib Require Import Ascii.
From S2P Require Import Prelude DataTypes Protos FileSystem FileIO StreamWriter StorageBackend FileReader StreamReader.
Local Open Scope Z_scope.

(** ** [std::filesystem::path] functions *)

(** The string of a resolved path. *)
Definition path_string (p : path) : string :=
  match p with
  | [] => "/"
  | _ => foldr (fun c s => String slash (c +:+ s)) EmptyString p
  end.

(** The last component. *)
Definition filename (s : string) : string := List.last (split_slash s) EmptyString.

(** The part of a name from its last dot; empty when there is none, when the dot
    is the first character, and for ["."] and [".."]. *)
Fixpoint from_last_dot (s : string) : option string :=
  match s with
  | EmptyString => None
  | String c s' =>
      match from_last_dot s' with
      | Some e => Some e
      | None => if decide (c = "."%char) then Some s else None
      end
  end.

Definition name_extension (name : string) : string :=
  if decide (name = "."%string \/ name = ".."%string) then EmptyString
  else match name with
       | EmptyString => EmptyString
       | String _ rest => default EmptyString (from_last_dot rest)
       end.

Definition extension (s : string) : string := name_extension (filename s).

(** The path of [p] seen from [base], both resolved. *)
Fixpoint lexically_relative (p base : path) : list string :=
  match p, base with
  | x :: p', y :: b' =>
      if decide (x = y) then lexically_relative p' b'
      else map (fun _ => ".."%string) base ++ p
  | [], [] => ["."%string]
  | _, _ => map (fun _ => ".."%string) base ++ p
  end.

Definition generic_string (comps : list string) : string := String.concat "/" comps.

Fixpoint contains (c : ascii) (s : string) : bool :=
  match s with
  | EmptyString => false
  | String d s' => bool_decide (d = c) || contains c s'
  end.

Definition nul : ascii := Ascii.zero.

(** [root] is a leading part of [candidate]. *)
Fixpoint isWithinRoot (root candidate : path) : bool :=
  match root, candidate with
  | r :: root', c :: candidate' => if decide (r = c) then isWithinRoot root' candidate' else false
  | [], _ => true
  | _ :: _, [] => false
  end.

Fixpoint hasRejectedComponent (path : list string) : bool :=
  match path with
  | [] => false
  | component :: rest =>
      if decide (component = ".."%string) then true else hasRejectedComponent rest
  end.

Module StorageScanner.
(** The scanner keeps the canonical storage folder. *)
Record t := mk { folder_ : path }.

Section Ops.
Context (f : fs).

Definition construct (folder : string) : outcome t :=
  match weakly_canonical_c f (split_slash folder) with
  | Some p => Ok (mk p)
  | None => Throw FilesystemError
  end.

(** The confined, valid index file a client names. *)
Definition resolveIndexPath (s : t) (file : string) : option path :=
  if bool_decide (file = EmptyString) || contains nul file || contains "\" file then None
  else
    let requested := split_slash file in
    if is_absolute file || hasRejectedComponent requested ||
       negb (bool_decide (extension file = ".idx"%string)) then None
    else
      match weakly_canonical_c f (folder_ s ++ requested) with
      | None => None
      | Some candidate =>
          if negb (isWithinRoot (folder_ s) candidate) ||
             negb (is_regular_file f (path_string candidate)) then None
          else
            let index := IndexFileReader.construct f (path_string candidate) in
            if negb (IndexFileReader.validIndex index) then None else Some candidate
      end.

(** The identifier used by discovery. *)
Definition streamIdentifier (s : t) (path : string) : outcome string :=
  match weakly_canonical_c f (split_slash path) with
  | Some p => Ok (generic_string (lexically_relative p (folder_ s)))
  | None => Throw FilesystemError
  end.

(** The description of a stream that matches the time range. *)
Definition describe (reader : StreamReader.t) (day : Z) (identifier : string) :
    outcome DataStream.t :=
  match StreamReader.streamName reader, StreamReader.records_cnt reader,
        StreamReader.start_ns reader, StreamReader.end_ns reader with
  | Ok name, Ok cnt, Ok start, Ok end_ =>
      Ok (DataStream.mk (Some (String.string_of_list_byte name)) (Some day)
            (Some identifier) (Some (u32 cnt)) (Some (StreamReader.status_ reader))
            (Some start) (Some end_))
  | Throw e, _, _, _ => Throw e
  | _, Throw e, _, _ => Throw e
  | _, _, Throw e, _ => Throw e
  | _, _, _, Throw e => Throw e
  end.

(** The body of the loop of [extractStreams] for an entry of the day. *)
Definition extractStream (s : t) (dir : string) (start end_ day : Z) (name : string) :
    prog DataStreamsResponse.t unit :=
  let entry := join_slash dir name in
  if negb (is_directory f entry) && bool_decide (name_extension name = ".idx"%string) then
    identifier ← lift_outcome (streamIdentifier s entry);
    match resolveIndexPath s identifier with
    | None => mret tt
    | Some index_path =>
        reader ← lift_outcome (StreamReader.construct f (path_string index_path));
        if StreamReader.matchTime reader start end_ then
          stream ← lift_outcome (describe reader day identifier);
          modify (DataStreamsResponse.add_stream stream)
        else mret tt
    end
  else mret tt.

Definition extractStreams (s : t) (dir : string) (start end_ day : Z) :
    prog DataStreamsResponse.t unit :=
  match directory_iterator f dir with
  | Some names => for_each names (extractStream s dir start end_ day)
  | None => throw FilesystemError
  end.

Section Time.
Context {L : LocalTime}.

(** The body of the loop of [getStreams] for an entry of the root. *)
Definition getStreamsOfDay (s : t) (start end_ : Z) (name : string) :
    prog DataStreamsResponse.t unit :=
  let entry := join_slash (path_string (folder_ s)) name in
  if is_directory f entry then
    catch_all
      (day ← (match stoul name with Some d => mret d | None => throw ParseError end);
       if (Time2YYYYMMDD start <=? day) && (day <=? Time2YYYYMMDD end_)
       then extractStreams s entry start end_ (u32 day)
       else mret tt)
      (mret tt)
  else mret tt.

Definition getStreams (s : t) (start end_ : Z) : outcome DataStreamsResponse.t :=
  match directory_iterator f (path_string (folder_ s)) with
  | None => Throw FilesystemError
  | Some names =>
      match for_each names (getStreamsOfDay s start end_) DataStreamsResponse.empty with
      | (Ok _, result) => Ok result
      | (Throw e, _) => Throw e
      end
  end.
End Time.

(** The loop of [getData] over the records from [idx], [n] of them left; the
    state is the reader with the response and the number of pieces in it. *)
Fixpoint collect (n : nat) (idx start_time end_time max_size returned : Z) :
    prog (StreamReader.t * DataStreamsResponse.t) unit :=
  match n with
  | O => mret tt
  | S n' =>
      if returned <? max_size then
        d ← zoom fst (fun r s => (r, s.2)) (StreamReader.read f idx (Some DataPiece.empty));
        match d with
        | (false, _) =>
            e ← gets (fun s => StreamReader.last_error s.1);
            modify (fun s => (s.1, DataStreamsResponse.set_errors e s.2));;
            collect n' (idx + 1) start_time end_time max_size returned
        | (true, Some data) =>
            if (start_time <=? DataPiece.time_ns data) &&
               (DataPiece.time_ns data <=? end_time) then
              modify (fun s => (s.1, DataStreamsResponse.add_data data s.2));;
              collect n' (idx + 1) start_time end_time max_size (u32 (returned + 1))
            else collect n' (idx + 1) start_time end_time max_size returned
        | (true, None) => throw NullDeref
        end
      else mret tt
  end.

Definition getData (s : t) (file : string) (start_time end_time start_idx max_size : Z) :
    outcome DataStreamsResponse.t :=
  match resolveIndexPath s file with
  | None => Ok (DataStreamsResponse.set_errors "invalid reader path" DataStreamsResponse.empty)
  | Some index_path =>
      match StreamReader.construct f (path_string index_path) with
      | Throw e => Throw e
      | Ok reader =>
          if negb (StreamReader.matchTime reader start_time end_time)
          then Ok DataStreamsResponse.empty
          else
            match StreamReader.records_cnt reader with
            | Throw e => Throw e
            | Ok cnt =>
                if cnt <=? start_idx then Ok DataStreamsResponse.empty
                else
                  match collect (Z.to_nat (cnt - start_idx)) start_idx start_time end_time
                          max_size 0 (reader, DataStreamsResponse.empty) with
                  | (Ok _, (_, result)) => Ok result
                  | (Throw e, _) => Throw e
                  end
            end
      end
  end.
End Ops.
End StorageScanner.
