(* ===== verification/ScannerSpec.v ===== *)
(** * What the scanner promises

    Confinement of the identifiers a client sends, the identifiers that
    discovery hands out, and the records [getData] returns. *)
From Stdlib Require Import Ascii.
From S2P Require Import Prelude DataTypes Calendar Format Protos FileSystem FileIO StreamWriter FileNames StreamWriterSpec Samples FileReader StreamReader Recording StorageScanner.
Local Open Scope Z_scope.

(** ** Paths and their strings *)
Section Paths.
Context (f : fs).

Lemma split_slash_components p :
  Forall plain p ->
  split_slash (foldr (fun c s => String slash (c +:+ s)) EmptyString p) = ""%string :: p.
Proof.
  induction 1 as [|c p (_ & _ & _ & Hc) _ IH]; [done|]. cbn [foldr].
  change (split_slash (String slash ?x)) with (""%string :: split_slash x). f_equal.
  destruct p as [|d p]; [by rewrite append_nil_r|]. cbn [foldr] in *.
  change (split_slash (join_slash c (d +:+ foldr (fun c s => String slash (c +:+ s)) EmptyString p)) =
    c :: d :: p).
  rewrite split_slash_join, Hc. cbn [app]. f_equal.
  by injection IH.
Qed.

Lemma path_string_nonempty p : path_string p <> EmptyString.
Proof. by destruct p. Qed.

Lemma resolve_path_string p :
  Forall plain p -> resolve f (path_string p) = walk max_links f [] p.
Proof.
  intros Hp. unfold resolve. rewrite decide_False by apply path_string_nonempty.
  destruct p as [|c p]; [done|]. unfold path_string, resolve_c.
  by rewrite split_slash_components.
Qed.

(** *** Canonical paths *)
Definition kept (todo : list string) : list string :=
  filter (fun c => ~ (c = ""%string \/ c = "."%string)) todo.

Lemma lexically_normal_kept p todo :
  ".."%string ∉ todo -> lexically_normal p todo = p ++ kept todo.
Proof.
  revert p. induction todo as [|c rest IH]; intros p Hd; cbn [lexically_normal]; [by rewrite app_nil_r|].
  apply not_elem_of_cons in Hd as [Hc Hd]. unfold kept. rewrite filter_cons.
  destruct (decide (c = _ \/ _)); [rewrite decide_False by tauto; by apply IH|].
  rewrite (decide_False (P := c = ".."%string)), decide_True by done.
  rewrite IH by done. by rewrite <- app_assoc.
Qed.

Lemma existing_prefix_spec acc todo dn rest :
  existing_prefix f acc todo = Some (dn, rest) ->
  acc ++ todo = dn ++ rest /\
  match rest with
  | [] => True
  | c :: _ => status_c f (dn ++ [c]) = None /\ walk_loops max_links f [] (dn ++ [c]) = false
  end.
Proof.
  revert acc. induction todo as [|c todo IH]; intros acc; cbn [existing_prefix].
  - by intros [= <- <-].
  - destruct (status_c f (acc ++ [c])) eqn:E.
    + intros [Ha Hr]%IH. by rewrite <- app_assoc in Ha.
    + destruct (walk_loops max_links f [] (acc ++ [c])) eqn:El; [done|].
      by intros [= <- <-].
Qed.

Lemma canonical_c_spec comps p :
  canonical_c f comps = Some p -> walk max_links f [] comps = Some p /\ is_Some (node_at f p).
Proof.
  unfold canonical_c, resolve_c. destruct (walk _ _ _ _) as [q|]; [|done].
  destruct (node_at f q) eqn:E; [|done]. intros [= <-]. rewrite E. eauto.
Qed.

(** Nothing exists where the existing part ends. *)
Lemma existing_prefix_stop dn p0 c :
  fs_tree f -> walk max_links f [] dn = Some p0 -> node_at f p0 = Some NDir ->
  status_c f (dn ++ [c]) = None -> walk_loops max_links f [] (dn ++ [c]) = false ->
  forall tl q, walk max_links f p0 ([c] ++ tl) = Some q -> node_at f q = None.
Proof.
  intros Ht Hw Hd Hs Hl tl q Hq. destruct (node_at f q) eqn:E; [exfalso|done].
  destruct (walk_prefix f _ _ _ _ _ Ht Hd Hq ltac:(by eexists)) as (q' & Hq' & [n' Hn']).
  destruct (walk_app f _ _ _ _ [c] Hw Hd) as (l' & Hle & E1 & E2).
  rewrite E2 in Hl. rewrite (walk_more_links _ _ _ _ Hl _ Hle), <- E1 in Hq'.
  unfold status_c, resolve_c in Hs. rewrite Hq' in Hs. cbn in Hs. congruence.
Qed.

(** What exists at a weakly canonical path is really there: no component of the
    path is a symbolic link. *)
Lemma weakly_canonical_self comps p :
  fs_tree f -> ".."%string ∉ comps -> weakly_canonical_c f comps = Some p -> Forall plain p ->
  is_Some (status f (path_string p)) -> walk max_links f [] p = Some p.
Proof.
  intros Ht Hdots Hw Hp Hs. unfold status in Hs. rewrite resolve_path_string in Hs by done.
  assert (forall q comps, walk max_links f [] comps = Some q -> is_Some (node_at f q) ->
    walk max_links f [] q = Some q) as Hself.
  { intros q cs Hq [n Hn]. apply (walk_self f _ _ n Ht Hn). intros t ->.
    by eapply walk_target in Hq. }
  unfold weakly_canonical_c in Hw. destruct (canonical_c f comps) as [q|] eqn:Ec.
  - injection Hw as ->. apply canonical_c_spec in Ec as [Hq Hn]. by eapply Hself.
  - destruct (existing_prefix f [] comps) as [[dn rest]|] eqn:Ee; [|done].
    apply existing_prefix_spec in Ee as [Hcomps Hrest]. cbn [app] in Hcomps. subst comps.
    destruct (canonical_c f dn) as [p0|] eqn:Ed; [|done]. injection Hw as <-.
    destruct rest as [|c rest]; [rewrite app_nil_r in Ec; congruence|].
    apply not_elem_of_app in Hdots as [_ Hdots]. rewrite lexically_normal_kept in * by done.
    destruct Hrest as [Hst Hlp]. apply canonical_c_spec in Ed as [Hp0 [n0 Hn0]].
    destruct n0 as [|i|t].
    + destruct (decide (c = ""%string \/ c = "."%string)) as [Hskip|Hskip].
      * exfalso. pose proof (existing_prefix_stop _ _ c Ht Hp0 Hn0 Hst Hlp [] p0) as Hx.
        cbn [app] in Hx. rewrite walk_cons, decide_True, walk_nil in Hx by done.
        specialize (Hx eq_refl). congruence.
      * exfalso. rewrite walk_self_dir in Hs by done. unfold kept in Hs.
        rewrite filter_cons, decide_True in Hs by done.
        destruct (walk max_links f p0 _) as [q|] eqn:Eq in Hs; [|by destruct Hs].
        apply (existing_prefix_stop _ _ c Ht Hp0 Hn0 Hst Hlp) in Eq.
        cbn in Hs. rewrite Eq in Hs. by destruct Hs.
    + destruct (kept (c :: rest)) as [|y ks]; [rewrite app_nil_r; by eapply Hself|]. exfalso.
      destruct p0 as [|x p0 _] using rev_ind; [done|].
      rewrite node_at_snoc in Hn0. pose proof (Ht _ _ _ Hn0) as [(Hc1 & Hc2 & Hc3 & _) Hd].
      rewrite <- app_assoc in Hs. cbn [app] in Hs. rewrite walk_self_dir in Hs by done.
      rewrite walk_cons, decide_False in Hs by (by intros [?|?]).
      rewrite decide_False, Hn0, decide_False in Hs by done. by destruct Hs.
    + by eapply walk_target in Hp0.
Qed.
End Paths.

(** ** Confinement *)
Section Confinement.
Context (f : fs) (Ht : fs_tree f).
Import StorageScanner.

Lemma isWithinRoot_spec root candidate : isWithinRoot root candidate = true <-> root `prefix_of` candidate.
Proof.
  revert candidate. induction root as [|r root IH]; intros candidate; cbn.
  - split; [intros _; apply prefix_nil|done].
  - destruct candidate as [|c candidate].
    + split; [done|]. intros H%prefix_length. cbn in H. lia.
    + case_decide as E.
      * subst c. rewrite IH. split; [apply prefix_cons|apply prefix_cons_inv_2].
      * split; [done|]. intros H. by apply prefix_cons_inv_1 in H.
Qed.

Lemma hasRejectedComponent_spec l : hasRejectedComponent l = false -> ".."%string ∉ l.
Proof.
  induction l as [|c l IH]; cbn; [by intros ? []%not_elem_of_nil|].
  case_decide; [done|]. intros Hl. apply not_elem_of_cons. auto.
Qed.

Lemma plain_no_slash c : plain c -> no_slash c = true.
Proof. intros (_ & _ & _ & Hc). pose proof (split_slash_pieces c) as H. rewrite Hc in H. by inversion H. Qed.

Lemma lexically_normal_plain p todo :
  Forall plain p -> Forall (fun c => no_slash c = true) todo -> Forall plain (lexically_normal p todo).
Proof.
  intros Hp Hs. revert p Hp. induction Hs as [|c todo Hc Hs IH]; intros p Hp; cbn; [done|].
  case_decide as H1; [by apply IH|]. case_decide as H2; [apply IH, Forall_take, Hp|].
  apply IH, Forall_app. split; [done|]. constructor; [|done].
  apply plain_intro; tauto.
Qed.

Lemma weakly_canonical_plain comps p :
  Forall (fun c => no_slash c = true) comps -> weakly_canonical_c f comps = Some p -> Forall plain p.
Proof.
  intros Hc. unfold weakly_canonical_c. destruct (canonical_c f comps) as [q|] eqn:E.
  - intros [= <-]. apply canonical_c_spec in E as [_ Hn]. by eapply tree_plain_path.
  - destruct (existing_prefix f [] comps) as [[dn rest]|] eqn:Ee; [|done].
    apply existing_prefix_spec in Ee as [Ec _]. cbn [app] in Ec. subst comps.
    apply Forall_app in Hc as [_ Hr]. destruct (canonical_c f dn) as [q|] eqn:Ed; [|done].
    intros [= <-]. apply canonical_c_spec in Ed as [_ Hn].
    apply lexically_normal_plain; [by eapply tree_plain_path|done].
Qed.

Lemma construct_plain folder s : construct f folder = Ok s -> Forall plain (folder_ s).
Proof.
  unfold construct. destruct (weakly_canonical_c f _) as [p|] eqn:E; [|done]. intros [= <-]. cbn.
  eapply weakly_canonical_plain; [|exact E]. apply split_slash_pieces.
Qed.

(** The file behind a reader of an index. *)
Lemma FileReader_header_file path h :
  FileReader.header_ (FileReader.construct f path) = Some h ->
  exists i, status f path = Some (NFile i) /\ LogFileHeader.size <= zlen (contents f i) /\
    h = LogFileHeader.decode (take (Z.to_nat LogFileHeader.size) (contents f i)).
Proof.
  intros Hh. destruct (status f path) as [[|i|]|] eqn:Es.
  2: destruct (decide (LogFileHeader.size <= zlen (contents f i))) as [Hl|Hl].
  all: try (rewrite FileReader_construct_short in Hh; [done|]; intros j Hj; rewrite Es in Hj; try done;
    injection Hj as <-; lia).
  exists i. split; [done|]. split; [done|]. revert Hh.
  unfold FileReader.construct, FileReader.fileSize, file_size. rewrite Es.
  destruct (zlen (contents f i) =? 2 ^ 64 - 1); [done|].
  cbn [FileReader.size_bytes_ FileReader.set_size].
  destruct (u32 (zlen (contents f i)) =? 0); [done|].
  unfold FileReader.getHeader, gets, mbind, prog_bind.
  cbn [FileReader.set_if FileReader.if_].
  unfold Ifstream.open, open_read. rewrite Es. cbn [Ifstream.file_].
  rewrite bool_decide_true by eauto. cbn [negb].
  unfold FileReader.read_bytes, Ifstream.read. cbn -[sub Z.to_nat Z.eqb].
  rewrite (proj2 (Z.eqb_eq _ _)); [by cbn; intros [= <-]|].
  unfold zlen in *. rewrite length_sub; unfold LogFileHeader.size in *; lia.
Qed.

Lemma wp_timeOf_header index r :
  wp (IndexFileReader.timeOf f index) (fun _ r' => IndexFileReader.header r' = IndexFileReader.header r) r.
Proof.
  unfold IndexFileReader.timeOf, IndexFileReader.log_error, IndexFileReader.selectRecord,
    IndexFileReader.read_bytes.
  repeat (wp_step || (unfold wp, FileReader.read_bytes; destruct (Ifstream.read _ _ _)) || cbn [wp_rest]).
  all: try (unfold IndexFileReader.header; cbn; reflexivity).
  match goal with o : option (list _) |- _ => destruct o end; cbn [fst snd wp_rest];
    repeat wp_step; unfold IndexFileReader.header; cbn; reflexivity.
Qed.

Lemma construct_header path h :
  IndexFileReader.header (IndexFileReader.construct f path) = Some h ->
  FileReader.header_ (FileReader.construct f path) = Some h.
Proof.
  unfold IndexFileReader.construct. destruct (FileReader.header_ _) as [h0|] eqn:Eh;
    [|by unfold IndexFileReader.header; cbn; rewrite Eh].
  destruct (_ && _); [|by unfold IndexFileReader.header; cbn; rewrite Eh].
  set (r0 := IndexFileReader.mk _ _ _ _).
  assert (IndexFileReader.header r0 = Some h0) as E0 by done. clearbody r0.
  pose proof (wp_timeOf_header 0 r0) as W1. unfold wp in W1.
  destruct (IndexFileReader.timeOf f 0 r0) as [[x|e] r1]; cbn [snd] in W1; [|congruence].
  match goal with |- context [IndexFileReader.timeOf f ?k r1] => pose proof (wp_timeOf_header k r1) as W2;
    unfold wp in W2; destruct (IndexFileReader.timeOf f k r1) as [[y|e] r2] end; cbn [snd] in W2.
  - unfold IndexFileReader.header in *. cbn. congruence.
  - congruence.
Qed.

Lemma validIndex_file path :
  IndexFileReader.validIndex (IndexFileReader.construct f path) = true ->
  exists i, status f path = Some (NFile i) /\ LogFileHeader.size <= zlen (contents f i) /\
    LogFileHeader.file_type_ (LogFileHeader.decode (take (Z.to_nat LogFileHeader.size) (contents f i)))
      = kIndexFile.
Proof.
  unfold IndexFileReader.validIndex. destruct (IndexFileReader.header _) as [h|] eqn:Eh; [|done].
  intros [_ Hty%Z.eqb_eq]%andb_true_iff.
  apply construct_header, FileReader_header_file in Eh as (i & ? & ? & ->). eauto.
Qed.

End Confinement.

Section Guarantees.
Context (f : fs) (Ht : fs_tree f).
Import StorageScanner.


Lemma contains_no_char c x : contains c x = negb (no_char c x).
Proof.
  induction x as [|d x IH]; cbn; [done|]. rewrite IH. by destruct (bool_decide (d = c)), (no_char c x).
Qed.

Lemma lexically_relative_below root rest :
  rest <> [] -> lexically_relative (root ++ rest) root = rest.
Proof.
  intros Hr. induction root as [|r root IH]; cbn; [by destruct rest|].
  by rewrite decide_True, IH.
Qed.

Lemma canonical_self p n :
  node_at f p = Some n -> (forall t, n <> NLink t) -> weakly_canonical_c f p = Some p.
Proof.
  intros Hn Hl. unfold weakly_canonical_c, canonical_c, resolve_c.
  by rewrite (walk_self f _ _ n), Hn.
Qed.

Lemma status_path_string p n :
  node_at f p = Some n -> (forall t, n <> NLink t) -> status f (path_string p) = Some n.
Proof.
  intros Hn Hl. unfold status.
  rewrite resolve_path_string by (eapply tree_plain_path; eauto). by rewrite (walk_self f _ _ n).
Qed.

Lemma plain_relative c : plain c -> is_absolute c = false.
Proof.
  intros (Hc & _ & _ & Hs). destruct c as [|a c]; [done|]. cbn in *.
  destruct (decide (a = slash)) as [->|Ha]; [|by rewrite bool_decide_eq_false_2].
  destruct (split_slash_nonempty c). by injection Hs.
Qed.

Lemma identifier_resolves s day name i :
  node_at f (folder_ s) = Some NDir -> node_at f (folder_ s ++ [day; name]) = Some (NFile i) ->
  no_char nul (join_slash day name) = true -> no_char "\" (join_slash day name) = true ->
  name_extension name = ".idx"%string ->
  IndexFileReader.validIndex (IndexFileReader.construct f (path_string (folder_ s ++ [day; name]))) = true ->
  streamIdentifier f s (join_slash (join_slash (path_string (folder_ s)) day) name) =
    Ok (join_slash day name) /\
  resolveIndexPath f s (join_slash day name) = Some (folder_ s ++ [day; name]).
Proof.
  intros Hd Hf Hnul Hbs Hext Hv.
  assert (folder_ s ++ [day; name] = (folder_ s ++ [day]) ++ [name]) as Eassoc by (by rewrite <- app_assoc).
  pose proof Hf as Hf'. rewrite Eassoc, node_at_snoc in Hf'.
  destruct (Ht _ _ _ Hf') as [Hname Hdd]. pose proof Hdd as Hdd'. rewrite node_at_snoc in Hdd'.
  destruct (Ht _ _ _ Hdd') as [Hday _].
  assert (directory_at f (path_string (folder_ s)) (folder_ s)) as D0.
  { split; [|done]. rewrite resolve_path_string by (eapply tree_plain_path; eauto).
    by apply (walk_self f _ _ NDir). }
  assert (directory_at f (join_slash (path_string (folder_ s)) day) (folder_ s ++ [day])) as D1.
  { split; [|done]. apply resolve_child; try done. intros t. by rewrite Hdd'. }
  pose proof (resolve_child f _ _ name D1 Hname ltac:(by rewrite Hf')) as Hr.
  split.
  - unfold streamIdentifier, weakly_canonical_c, canonical_c.
    unfold resolve in Hr. case_decide; [done|]. rewrite Hr, node_at_snoc, Hf', <- Eassoc.
    by rewrite lexically_relative_below.
  - unfold resolveIndexPath. rewrite !contains_no_char, Hnul, Hbs.
    rewrite bool_decide_eq_false_2 by apply join_slash_nonempty. cbn [orb negb].
    pose proof Hday as (Hday0 & _ & Hday2 & Hsd). pose proof Hname as (_ & _ & Hname2 & Hsn).
    assert (split_slash (join_slash day name) = [day; name]) as Es
      by (by rewrite split_slash_join, Hsd, Hsn).
    rewrite Es. cbn [hasRejectedComponent]. rewrite !decide_False by done.
    assert (is_absolute (join_slash day name) = false) as ->.
    { pose proof (plain_relative _ Hday) as Ha. by destruct day. }
    unfold extension, filename. rewrite Es. cbn [List.last]. rewrite Hext.
    rewrite bool_decide_eq_true_2 by done. cbn [orb negb].
    rewrite (canonical_self _ _ Hf) by done.
    rewrite (proj2 (isWithinRoot_spec _ _)) by (by exists [day; name]).
    unfold is_regular_file. by rewrite (status_path_string _ _ Hf), Hv.
Qed.

(** Identifiers. The identifier that discovery computes for an index file of
    a day directory names that file: sent back by a client, it is resolved to the
    same path. *)
Lemma identifier_round_trip s day name i :
  node_at f (folder_ s) = Some NDir -> node_at f (folder_ s ++ [day; name]) = Some (NFile i) ->
  no_char nul (join_slash day name) = true -> no_char "\" (join_slash day name) = true ->
  name_extension name = ".idx"%string ->
  IndexFileReader.validIndex (IndexFileReader.construct f (path_string (folder_ s ++ [day; name]))) = true ->
  exists id, streamIdentifier f s (join_slash (join_slash (path_string (folder_ s)) day) name) = Ok id /\
    resolveIndexPath f s id = Some (folder_ s ++ [day; name]).
Proof.
  intros Hd Hf Hnul Hbs Hext Hv. exists (join_slash day name). by apply (identifier_resolves s day name i).
Qed.
End Guarantees.

(** ** The data of a stream *)
Section Data.
Context (f : fs).
Import StorageScanner.

Definition first_time (rs : list record) : Z := match rs with [] => 0 | r :: _ => r_time r end.
Definition last_time (rs : list record) : Z := List.last (map r_time rs) 0.

(** A reader of a complete stream with the records [rs]: [Inv] holds of the
    reader between two calls. *)
Record serving (path : string) (rs : list record) (rd : StreamReader.t)
    (Inv : StreamReader.t -> Prop) : Prop := {
  sv_construct : StreamReader.construct f path = Ok rd;
  sv_inv : Inv rd;
  sv_nonempty : rs <> [];
  sv_status : StreamReader.status_ rd = kHealthy;
  sv_count : StreamReader.records_cnt rd = Ok (zlen rs);
  sv_start : StreamReader.start_ns rd = Ok (first_time rs);
  sv_end : StreamReader.end_ns rd = Ok (last_time rs);
  sv_match a b : StreamReader.matchTime rd a b =
    ((a <=? b) && (first_time rs <=? b) && (a <=? last_time rs));
  sv_read k rd' : 0 <= k < zlen rs -> Inv rd' ->
    wp (StreamReader.read f k (Some DataPiece.empty)) (fun o rd2 => Inv rd2 /\
      exists r, rs !! Z.to_nat k = Some r /\ o = Ok (true, Some (piece_of r))) rd'
}.

(** The pieces a client asks for. *)
Definition in_range (a b : Z) (r : record) : bool := (a <=? r_time r) && (r_time r <=? b).
Definition selected (a b : Z) (rs : list record) : list DataPiece.t :=
  map piece_of (filter (fun r => in_range a b r = true) rs).

Lemma construct_index path rd :
  StreamReader.construct f path = Ok rd -> StreamReader.status_ rd = kHealthy ->
  StreamReader.index_ rd = Some (IndexFileReader.construct f path).
Proof.
  unfold StreamReader.construct. destruct (negb _); [by intros [= <-]|].
  destruct (String.index _ _ _); [|by intros [= <-]].
  destruct (_ =? 0); [by intros [= <-]|]. destruct (negb _); [|by intros [= <-]].
  destruct (FileReader.name _); [|done]. destruct (FileReader.name _); [|done]. by intros [= <-].
Qed.

(** The first and the last timestamp of the index are those of the records. *)
Lemma index_times path i h rs :
  status f path = Some (NFile i) -> LogFileHeader.size <= zlen (contents f i) < 2 ^ 32 ->
  LogFileHeader.decode (take (Z.to_nat LogFileHeader.size) (contents f i)) = h ->
  LogFileHeader.header_size_ h = LogFileHeader.size -> LogFileHeader.file_type_ h = kIndexFile ->
  rs <> [] -> IndexFileReader.records_cnt_ (IndexFileReader.construct f path) = zlen rs ->
  (forall k r, rs !! k = Some r ->
     le_decode (sub (contents f i) (Z.to_nat (record_pos h (Z.of_nat k))) 8) = r_time r) ->
  let ir := IndexFileReader.construct f path in
  IndexFileReader.start_ns_ ir = first_time rs /\ IndexFileReader.end_ns_ ir = last_time rs /\
  forall a b, IndexFileReader.matchTime ir a b =
    ((a <=? b) && (first_time rs <=? b) && (a <=? last_time rs)).
Proof.
  intros Hs Hl <- Hhs Hty Hne Hcnt Hat ir.
  pose proof (IndexFileReader_construct_ready f path i Hs Hl ltac:(lia) Hty) as (_ & _ & Hse).
  fold ir in Hcnt, Hse.
  destruct rs as [|r0 rs _] using rev_ind; [done|]. clear Hne.
  assert (0 < zlen (rs ++ [r0])) as Hpos by (unfold zlen; rewrite length_app; cbn; lia).
  rewrite Hcnt in Hse. destruct (Hse Hpos) as (_ & E1 & E2).
  assert (F1 : IndexFileReader.start_ns_ ir = first_time (rs ++ [r0])).
  { rewrite E1. destruct (rs ++ [r0]) as [|r1 rest] eqn:E; [by destruct rs|].
    cbn [first_time]. by rewrite <- (Hat 0%nat r1) by done. }
  assert (F2 : IndexFileReader.end_ns_ ir = last_time (rs ++ [r0])).
  { rewrite E2. unfold last_time. rewrite map_app. cbn [map].
    rewrite List.last_last, <- (Hat (length rs) r0); [|by rewrite list_lookup_middle].
    repeat f_equal. unfold zlen. rewrite length_app. cbn. lia. }
  split; [done|]. split; [done|]. intros a b. unfold IndexFileReader.matchTime.
  by rewrite Hcnt, (proj2 (Z.eqb_neq _ _)), F1, F2 by lia.
Qed.

(** A complete stream of records of any size. *)
Lemma var_serving path i d h hd rs :
  var_on_disk f path i d h hd rs ->
  contents f i = var_index_file h rs -> contents f d = data_file hd rs ->
  rs <> [] -> Forall (fun r => r_time r <> 0) rs ->
  exists rd, serving path rs rd (var_reader f i h d hd (zlen rs)).
Proof.
  intros Hd Ci Cd Hne Ht.
  pose proof (vd_header _ _ _ _ _ _ _ Hd) as Hh. pose proof (vd_data_header _ _ _ _ _ _ _ Hd) as Hhd.
  assert (complete_records (contents f i) 12 = zlen rs) as Ecnt.
  { unfold complete_records. rewrite Ci, zlen_var_index by done.
    by rewrite Z.add_simpl_l, Z.mul_comm, Z.div_mul by lia. }
  pose proof (var_on_disk_reader f path i d h hd rs Hd) as Hc. cbn zeta in Hc. rewrite Ecnt in Hc.
  rewrite (proj2 (Z.eqb_neq _ _)) in Hc by (destruct rs; [done|unfold zlen; cbn; lia]).
  destruct Hc as (rd & Hc & Hv). exists rd.
  pose proof Hv as (ir & dr & Ei & Hir & Ei_cnt & _ & _ & _ & _ & Hst & Hrs0).
  pose proof (construct_index _ _ Hc Hst) as Eix.
  assert (ir = IndexFileReader.construct f path) as -> by congruence.
  pose proof (vd_len _ _ _ _ _ _ _ Hd) as Hl.
  destruct (index_times path i h rs) as (F1 & F2 & Fm); try done.
  { exact (vd_index _ _ _ _ _ _ _ Hd). }
  { apply (prefix_header_decode _ _ _ _ _ Hh (vd_contents _ _ _ _ _ _ _ Hd)), Hl. }
  { exact (ho_size _ _ _ Hh). }
  { exact (ho_type _ _ _ Hh). }
  { intros k r Er. pose proof (Forall_lookup_1 _ _ _ _ (vd_records _ _ _ _ _ _ _ Hd) Er) as [Hrt _].
      pose proof (lookup_lt_Some _ _ _ Er).
      destruct (var_on_disk_entry f path i d h hd rs (Z.of_nat k) Hd ltac:(rewrite Ecnt; unfold zlen; lia))
        as (r' & Er' & Hent). rewrite Nat2Z.id in Er', Hent. assert (r' = r) as -> by congruence.
      rewrite <- (Nat.add_0_r (Z.to_nat (record_pos h _))), <- (sub_sub _ _ 12 0 8), Hent by lia.
      unfold sub, var_entry. rewrite drop_0, take_app_length' by done.
      rewrite le_decode_encode_small by (cbn; lia). done. }
  split; try done.
  - unfold StreamReader.records_cnt. by rewrite Ei, Ei_cnt.
  - unfold StreamReader.start_ns. by rewrite Ei, F1.
  - unfold StreamReader.end_ns. by rewrite Ei, F2.
  - intros a b. unfold StreamReader.matchTime. by rewrite Hst, Ei, bool_decide_eq_true_2, Fm by done.
  - intros k rd' Hk Hv'. rewrite <- Ecnt in Hv', Hk.
    destruct (var_on_disk_read f path i d h hd rs rd' k Hd Hv' Hk) as (r & Er & W).
    eapply wp_mono; [exact W|]. intros o rd2 (V2 & ->). rewrite Ecnt in V2. split; [done|].
    exists r. split; [done|].
    rewrite (proj2 (Z.eqb_neq _ 0)) by (apply (Forall_lookup_1 _ _ _ _ Ht Er)).
    pose proof (data_entry_end hd rs _ r Hhd Er). rewrite Cd, (proj2 (Z.ltb_ge _ _)) by lia. done.
Qed.

(** A complete stream of records of one size. *)
Lemma fixed_serving path i h n rs :
  fixed_on_disk f path i h n rs -> contents f i = fixed_index_file h rs ->
  rs <> [] -> Forall (fun r => r_time r <> 0) rs ->
  exists rd, serving path rs rd (fixed_reader f i h (zlen rs)).
Proof.
  intros Hd Ci Hne Ht. pose proof Hd as [Hi _ Hh Hn Hrs Hp Hl].
  assert (Forall (fun r => zlen (r_data r) = n) rs) as Hlen
    by (eapply Forall_impl; [exact Hrs|]; by intros ? [??]).
  assert (complete_records (contents f i) (8 + n) = zlen rs) as Ecnt.
  { unfold complete_records. rewrite Ci, (zlen_fixed_index h n) by done.
    by rewrite Z.add_simpl_l, Z.mul_comm, Z.div_mul by lia. }
  destruct (fixed_on_disk_reader f path i h n rs Hd) as (ir & Eir & Hir & Ec & Hc & _).
  rewrite Ecnt in *. destruct Hc as [Hc Hv]; [rewrite Ec; destruct rs; [done|unfold zlen; cbn; lia]|].
  destruct (index_times path i h rs) as (F1 & F2 & Fm); try done.
  { apply (prefix_header_decode _ _ _ _ _ Hh Hp), Hl. }
  { exact (ho_size _ _ _ Hh). }
  { exact (ho_type _ _ _ Hh). }
  { by rewrite Eir, Ec. }
  { intros k r Er. pose proof (Forall_lookup_1 _ _ _ _ Hrs Er) as [[Hrt _] Hrn].
      pose proof (lookup_lt_Some _ _ _ Er). pose proof (zlen_nonneg (r_data r)).
      pose proof (fixed_index_at h n rs _ r Hh Hlen Er) as Hat. rewrite <- Ci in Hat.
      rewrite (Z2Nat.inj_add 8 n), sub_split in Hat by lia.
      apply app_inj_1 in Hat as [Hat _].
    - unfold record_pos, IndexFileReader.record_width.
        rewrite (ho_size _ _ _ Hh), (ho_record_size _ _ _ Hh), (proj2 (Z.eqb_neq n 0)) by lia.
        cbn [negb]. change FixedRecordIdx.size with 8. change 8%nat with (Z.to_nat 8). rewrite Hat.
        by rewrite le_decode_encode_small by (cbn; lia).
    - rewrite length_sub; [done|]. rewrite Ci. pose proof (zlen_fixed_index h n rs Hh Hlen) as Ez.
        unfold zlen, LogFileHeader.size in *. nia. }
  rewrite Eir in F1, F2. eexists. split; [exact Hc|exact Hv|done|done|..].
  - unfold StreamReader.records_cnt. cbn. by rewrite Ec.
  - unfold StreamReader.start_ns. cbn. by rewrite F1.
  - unfold StreamReader.end_ns. cbn. by rewrite F2.
  - intros a b. unfold StreamReader.matchTime. rewrite <- Eir. cbn [StreamReader.status_ StreamReader.index_].
    by rewrite bool_decide_eq_true_2, Fm by done.
  - intros k rd' Hk Hv'. rewrite <- Ecnt in Hv', Hk.
    destruct (fixed_on_disk_read f path i h n rs rd' k Hd Hv' Hk) as (r & Er & W).
    eapply wp_mono; [exact W|]. intros o rd2 (V2 & _ & ->). rewrite Ecnt in V2. split; [done|].
    exists r. split; [done|]. by rewrite (proj2 (Z.eqb_neq _ 0)) by (apply (Forall_lookup_1 _ _ _ _ Ht Er)).
Qed.

(** The loop of [getData] over the records [rest] that are left. *)
Lemma wp_collect path rs rd0 Inv a b max rest :
  serving path rs rd0 Inv -> 0 <= max < 2 ^ 32 ->
  forall idx returned rd res, Inv rd -> 0 <= idx -> rest = drop (Z.to_nat idx) rs ->
  0 <= returned <= max ->
  wp (collect f (length rest) idx a b max returned) (fun o st => o = Ok tt /\
    st.2 = DataStreamsResponse.mk (DataStreamsResponse.stream res)
      (DataStreamsResponse.data res ++ take (Z.to_nat (max - returned)) (selected a b rest))
      (DataStreamsResponse.errors_ res)) (rd, res).
Proof.
  intros Hsv Hmax. induction rest as [|r rest IH]; intros idx returned rd res Hi Hidx Hrest Hret.
  - cbn [length collect]. wp_step. split; [done|]. cbn. rewrite firstn_nil, app_nil_r. by destruct res.
  - assert (rs !! Z.to_nat idx = Some r) as Er.
    { rewrite <- (Nat.add_0_r (Z.to_nat idx)), <- lookup_drop, <- Hrest. done. }
    assert (rest = drop (Z.to_nat (idx + 1)) rs) as Hrest'.
    { rewrite Z2Nat.inj_add, <- drop_drop, <- Hrest by lia. done. }
    cbn [length collect]. destruct (returned <? max) eqn:Em.
    2: { apply Z.ltb_ge in Em. wp_step. split; [done|]. cbn [snd].
         replace (Z.to_nat (max - returned)) with 0%nat by lia. rewrite take_0, app_nil_r. by destruct res. }
    apply Z.ltb_lt in Em. wp_step. wp_step.
    pose proof (lookup_lt_Some _ _ _ Er).
    eapply wp_mono; [apply (sv_read _ _ _ _ Hsv idx); [unfold zlen; lia|exact Hi]|].
    intros o rd' (Hi' & r' & Er' & ->). assert (r' = r) as -> by congruence. cbn [wp_rest].
    change (DataPiece.time_ns (piece_of r)) with (r_time r).
    assert (selected a b (r :: rest) = (if in_range a b r then [piece_of r] else []) ++ selected a b rest) as Esel.
    { unfold selected. rewrite filter_cons. destruct (in_range a b r) eqn:Ein.
      - by rewrite decide_True.
      - by rewrite decide_False. }
    rewrite Esel. fold (in_range a b r). destruct (in_range a b r).
    + wp_step. wp_step. cbn [wp_rest]. rewrite u32_small by lia.
      eapply wp_mono; [apply (IH (idx + 1) (returned + 1)); [done|lia|done|lia]|].
      intros o st (-> & ->). split; [done|]. cbn.
      replace (Z.to_nat (max - returned)) with (S (Z.to_nat (max - (returned + 1)))) by lia.
      by rewrite <- app_assoc.
    + eapply wp_mono; [apply (IH (idx + 1) returned); [done|lia|done|lia]|].
      intros o st (-> & ->). done.
Qed.

(** The files of a stream that was written and closed. *)
Definition complete_stream (path : string) (rs : list record) : Prop :=
  (exists i d h hd, var_on_disk f path i d h hd rs /\
     contents f i = var_index_file h rs /\ contents f d = data_file hd rs) \/
  (exists i h n, fixed_on_disk f path i h n rs /\ contents f i = fixed_index_file h rs).

Definition by_time (r1 r2 : record) : Prop := r_time r1 <= r_time r2.

Lemma complete_serving path rs :
  complete_stream path rs -> Forall (fun r => r_time r <> 0) rs ->
  (rs = [] /\ exists ir, StreamReader.construct f path = Ok (StreamReader.mk (Some ir) None kEmpty)) \/
  exists rd Inv, serving path rs rd Inv.
Proof.
  intros Hc Ht. destruct (decide (rs = [])) as [->|Hne]; [left; split; [done|]|right].
  - destruct Hc as [(i & d & h & hd & Hd & Ci & _)|(i & h & n & Hd & Ci)].
    + pose proof (var_on_disk_reader f path i d h hd [] Hd) as Hc. cbn zeta in Hc.
      unfold complete_records in Hc.
      rewrite Ci, (zlen_var_index h []), Z.add_simpl_l in Hc by (apply (vd_header _ _ _ _ _ _ _ Hd)). exact Hc.
    + destruct (fixed_on_disk_reader f path i h n [] Hd) as (ir & _ & _ & Ec & _ & Hc). exists ir. apply Hc.
      rewrite Ec. unfold complete_records.
      rewrite Ci, (zlen_fixed_index h n []), Z.add_simpl_l by (try done; apply (fd_header _ _ _ _ _ _ Hd)).
      by rewrite Z.mul_0_r.
  - destruct Hc as [(i & d & h & hd & Hd & Ci & Cd)|(i & h & n & Hd & Ci)].
    + destruct (var_serving path i d h hd rs Hd Ci Cd Hne Ht) as (rd & ?). eauto.
    + destruct (fixed_serving path i h n rs Hd Ci Hne Ht) as (rd & ?). eauto.
Qed.

Lemma sorted_first_last rs r :
  StronglySorted by_time rs -> r ∈ rs -> first_time rs <= r_time r <= last_time rs.
Proof.
  intros Hs. revert r. induction Hs as [|x rs Hs IH Hx]; intros r; [by intros ?%not_elem_of_nil|].
  rewrite Forall_forall in Hx. unfold last_time in *. cbn [first_time map].
  assert (rs <> [] -> x.(r_time) <= List.last (map r_time rs) 0) as Hl.
  { intros Hne. destruct rs as [|y rs]; [done|]. pose proof (Hx y ltac:(by left)).
    destruct (IH y ltac:(by left)) as [_ H2]. unfold by_time in *. cbn in *. lia. }
  intros [->|Hr]%elem_of_cons.
  - split; [lia|]. destruct rs as [|y rs]; [cbn; lia|]. by apply Hl.
  - pose proof (Hx r Hr). destruct (IH r Hr). destruct rs; [by apply not_elem_of_nil in Hr|].
    unfold by_time in *. cbn in *. lia.
Qed.

Lemma selected_none a b rs l :
  StronglySorted by_time rs -> (forall r, r ∈ l -> r ∈ rs) ->
  (a <=? b) && (first_time rs <=? b) && (a <=? last_time rs) = false -> selected a b l = [].
Proof.
  intros Hs Hl Hm. unfold selected. induction l as [|r l IH]; [done|].
  rewrite filter_cons, decide_False; [apply IH; intros; apply Hl; by right|].
  pose proof (sorted_first_last rs r Hs (Hl r ltac:(by left))). unfold in_range.
  intros [?%Z.leb_le ?%Z.leb_le]%andb_true_iff.
  rewrite !(proj2 (Z.leb_le _ _)) in Hm by lia. done.
Qed.

Lemma getData_complete s file p rs a b start max :
  resolveIndexPath f s file = Some p -> complete_stream (path_string p) rs ->
  Forall (fun r => r_time r <> 0) rs -> StronglySorted by_time rs ->
  0 <= start < 2 ^ 32 -> 0 <= max < 2 ^ 32 ->
  getData f s file a b start max =
    Ok (DataStreamsResponse.mk [] (take (Z.to_nat max) (selected a b (drop (Z.to_nat start) rs))) None).
Proof.
  intros Hp Hc Ht Hs Hstart Hmax. unfold getData. rewrite Hp.
  destruct (complete_serving _ _ Hc Ht) as [[-> (ir & ->)]|(rd & Inv & Hsv)].
  { unfold StreamReader.matchTime. cbn. by rewrite drop_nil, firstn_nil. }
  rewrite (sv_construct _ _ _ _ Hsv), (sv_match _ _ _ _ Hsv), (sv_count _ _ _ _ Hsv).
  destruct (_ && _ && _) eqn:Em; cbn [negb].
  2: { rewrite (selected_none a b rs); [by rewrite firstn_nil|done| |done].
       intros r [k Hk]%list_elem_of_lookup. rewrite lookup_drop in Hk.
       by eapply list_elem_of_lookup_2. }
  destruct (zlen rs <=? start) eqn:El.
  { apply Z.leb_le in El. unfold zlen in El. rewrite (drop_ge rs) by lia. by rewrite firstn_nil. }
  apply Z.leb_gt in El. unfold zlen in El.
  pose proof (wp_collect (path_string p) rs rd Inv a b max (drop (Z.to_nat start) rs) Hsv Hmax
    start 0 rd DataStreamsResponse.empty (sv_inv _ _ _ _ Hsv) ltac:(lia) eq_refl ltac:(lia)) as W.
  unfold wp in W. rewrite length_drop in W.
  replace (Z.to_nat (zlen rs - start)) with (length rs - Z.to_nat start)%nat by (unfold zlen; lia).
  destruct (collect _ _ _ _ _ _ _ _) as [o [rd' res]]. cbn [fst snd] in W. destruct W as [-> ->].
  by rewrite Z.sub_0_r.
Qed.

(** C14: extraction. For a stream whose records are in the order of their
    timestamps, [getData] returns exactly the records from [start] on whose
    timestamps lie in the requested range, in order, at most [max] of them, with
    no error; a range that touches no record is answered without reading any. *)
Theorem get_data_selects s file p rs a b start max :
  resolveIndexPath f s file = Some p -> complete_stream (path_string p) rs ->
  Forall (fun r => r_time r <> 0) rs -> StronglySorted by_time rs ->
  0 <= start < 2 ^ 32 -> 0 <= max < 2 ^ 32 ->
  getData f s file a b start max =
    Ok (DataStreamsResponse.mk [] (take (Z.to_nat max) (selected a b (drop (Z.to_nat start) rs))) None).
Proof. intros. by apply (getData_complete s file p rs). Qed.
End Data.

(** *** The guarantees at concrete inputs *)
Definition fs_tree_check (f : fs) : bool :=
  forallb (fun kv : path * node =>
    bool_decide (plain (List.last kv.1 EmptyString)) &&
    bool_decide (node_at f (parent kv.1) = Some NDir)) (map_to_list (nodes f)).

Lemma fs_tree_checked f : fs_tree_check f = true -> fs_tree f.
Proof.
  unfold fs_tree_check. rewrite forallb_forall. intros Hf p c n Hn.
  apply elem_of_map_to_list, list_elem_of_In, Hf in Hn.
  apply andb_true_iff in Hn as [H1%bool_decide_eq_true H2%bool_decide_eq_true]. cbn [fst snd] in *.
  rewrite List.last_last in H1. by rewrite parent_snoc in H2.
Qed.

(** A storage folder with one stream, and a symbolic link out of it. *)
Definition stream_header (type : Z) : LogFileHeader.t :=
  LogFileHeader.mk LogFileHeader.size noon 0 1 0 type (LogFileHeader.pad_name [x63; x61; x6e; x30]).

Definition stream_fs : fs :=
  mk_fs (list_to_map [(["log"], NDir); (["log"; "20240101"], NDir);
      (["log"; "20240101"; "can0.idx"], NFile 0); (["log"; "20240101"; "can0.data"], NFile 1);
      (["secret"], NDir); (["secret"; "a.idx"], NFile 0); (["log"; "out"], NLink "../secret")]%string)
    {[ 0%nat := var_index_file (stream_header kIndexFile) sample_records;
       1%nat := data_file (stream_header kDataFile) sample_records ]} 2.

Definition sample_scanner : StorageScanner.t := StorageScanner.mk ["log"%string].

Lemma stream_fs_tree : fs_tree stream_fs.
Proof. apply fs_tree_checked. vm_compute. reflexivity. Qed.


Lemma identifier_round_trip_witness :
  exists id, StorageScanner.streamIdentifier stream_fs sample_scanner "/log/20240101/can0.idx" = Ok id /\
    StorageScanner.resolveIndexPath stream_fs sample_scanner id =
      Some ["log"; "20240101"; "can0.idx"]%string.
Proof.
  apply (identifier_round_trip stream_fs stream_fs_tree sample_scanner "20240101" "can0.idx" 0).
  all: vm_compute; reflexivity.
Defined.

Lemma stream_header_ok type : type = kIndexFile \/ type = kDataFile -> header_ok type 0 (stream_header type).
Proof. intros [->| ->]; split; try done; apply (bool_decide_unpack _); vm_compute; exact I. Qed.

Lemma stream_complete : complete_stream stream_fs "/log/20240101/can0.idx" sample_records.
Proof.
  left. exists 0%nat, 1%nat, (stream_header kIndexFile), (stream_header kDataFile).
  split; [|split; reflexivity]. split.
  - vm_compute. reflexivity.
  - exists 18%nat. split; vm_compute; reflexivity.
  - apply stream_header_ok. by left.
  - apply stream_header_ok. by right.
  - eexists. split; vm_compute; reflexivity.
  - apply sample_good_records.
  - vm_compute. reflexivity.
  - exists []. by rewrite app_nil_r.
  - left. exists []. by rewrite app_nil_r.
  - split; vm_compute; congruence.
  - split; vm_compute; congruence.
Qed.

Lemma get_data_selects_witness :
  StorageScanner.getData stream_fs sample_scanner "20240101/can0.idx" (noon + 500) (noon + 5000) 0 1 =
    Ok (DataStreamsResponse.mk []
      [DataPiece.mk (Some (noon + 1000)) (Some []) None] None).
Proof.
  rewrite (get_data_selects stream_fs sample_scanner "20240101/can0.idx"
    ["log"; "20240101"; "can0.idx"]%string sample_records).
  - reflexivity.
  - vm_compute. reflexivity.
  - exact stream_complete.
  - repeat constructor; discriminate.
  - repeat constructor; unfold by_time; cbn; lia.
  - lia.
  - lia.
Defined.
