(* ===== verification/Discovery.v ===== *)
(** * Discovery

    What [StorageScanner::getStreams] answers for a storage folder whose days
    hold complete streams: one description for every stream that has a record in
    the requested range, and each of them can be read under the identifier it is
    listed with. *)
From Stdlib Require Import Ascii.
From S2P Require Import Prelude DataTypes Calendar Format Protos FileSystem FileIO StreamWriter FileReader StreamReader Recording StorageBackend StorageScanner ScannerSpec Samples.
Local Open Scope Z_scope.

Section Discovery.
Context (f : fs) (Ht : fs_tree f) {L : LocalTime} (s : StorageScanner.t).
Context (Hroot : node_at f (StorageScanner.folder_ s) = Some NDir).
Import StorageScanner.

(** The header's name and the records of the index file [name] of a day. *)
Context (streams : string -> string -> bytes * list record).

Definition day_path (day : string) : string := join_slash (path_string (folder_ s)) day.

Definition is_index (day name : string) : bool :=
  negb (is_directory f (join_slash (day_path day) name)) &&
  bool_decide (name_extension name = ".idx"%string).

Record index_ok (day name : string) : Prop := {
  ix_node : exists i, node_at f (folder_ s ++ [day; name]) = Some (NFile i);
  ix_nul : no_char nul (join_slash day name) = true;
  ix_backslash : no_char "\"%char (join_slash day name) = true;
  ix_stream : complete_stream f (path_string (folder_ s ++ [day; name])) (streams day name).2;
  ix_times : Forall (fun r => r_time r <> 0) (streams day name).2;
  ix_name : FileReader.name (IndexFileReader.base (IndexFileReader.construct f
              (path_string (folder_ s ++ [day; name])))) = Ok (streams day name).1
}.

(** The description of a stream with a record in the range. *)
Definition listing (a b : Z) (day : string) (d : Z) (name : string) : option DataStream.t :=
  let '(nm, rs) := streams day name in
  if is_index day name && negb (bool_decide (rs = [])) &&
     ((a <=? b) && (first_time rs <=? b) && (a <=? last_time rs))
  then Some (DataStream.mk (Some (String.string_of_list_byte nm)) (Some d)
               (Some (join_slash day name)) (Some (u32 (zlen rs))) (Some kHealthy)
               (Some (first_time rs)) (Some (last_time rs)))
  else None.

(** The number of the day of an entry of the root, if its streams are looked at. *)
Definition wanted (a b : Z) (day : string) : option Z :=
  if is_directory f (day_path day) then
    match stoul day with
    | Some d => if (Time2YYYYMMDD a <=? d) && (d <=? Time2YYYYMMDD b) then Some d else None
    | None => None
    end
  else None.

Definition day_listing (a b : Z) (day : string) : list DataStream.t :=
  match wanted a b day with
  | Some d => omap (listing a b day (u32 d)) (entries f (folder_ s ++ [day]))
  | None => []
  end.

(** The index of a complete stream is valid, and its header is that of the file. *)
Lemma complete_header path rs :
  complete_stream f path rs -> exists i, status f path = Some (NFile i) /\
    let ir := IndexFileReader.construct f path in
    IndexFileReader.header ir =
      Some (LogFileHeader.decode (take (Z.to_nat LogFileHeader.size) (contents f i))) /\
    IndexFileReader.validIndex ir = true.
Proof.
  assert (Hv : forall i h n, status f path = Some (NFile i) -> header_ok kIndexFile n h ->
    LogFileHeader.decode (take (Z.to_nat LogFileHeader.size) (contents f i)) = h ->
    LogFileHeader.size <= zlen (contents f i) < 2 ^ 32 ->
    exists i, status f path = Some (NFile i) /\
      let ir := IndexFileReader.construct f path in
      IndexFileReader.header ir =
        Some (LogFileHeader.decode (take (Z.to_nat LogFileHeader.size) (contents f i))) /\
      IndexFileReader.validIndex ir = true).
  { intros i h n Hs Hh Hd Hl. pose proof (IndexFileReader_construct_ready f path i Hs Hl) as Hr.
    cbn zeta in Hr. rewrite Hd, (ho_size _ _ _ Hh), (ho_type _ _ _ Hh) in Hr.
    destruct (Hr ltac:(lia) eq_refl) as (Hr' & _). pose proof (ir_base _ _ _ _ Hr') as Hb.
    exists i. split; [done|]. cbn zeta.
    unfold IndexFileReader.validIndex, IndexFileReader.header.
    rewrite (ready_header _ _ _ _ Hb), (ready_size _ _ _ _ Hb), Hd.
    rewrite (ho_size _ _ _ Hh), (ho_type _ _ _ Hh), (proj2 (Z.leb_le _ _)) by lia. done. }
  intros [(i & d & h & hd & Hd & _)|(i & h & n & Hd & _)].
  - eapply Hv; [exact (vd_index _ _ _ _ _ _ _ Hd)|exact (vd_header _ _ _ _ _ _ _ Hd)| |apply Hd].
    apply (prefix_header_decode _ _ _ _ _ (vd_header _ _ _ _ _ _ _ Hd) (vd_contents _ _ _ _ _ _ _ Hd)), Hd.
  - eapply Hv; [exact (fd_index _ _ _ _ _ _ Hd)|exact (fd_header _ _ _ _ _ _ Hd)| |apply Hd].
    apply (prefix_header_decode _ _ _ _ _ (fd_header _ _ _ _ _ _ Hd) (fd_contents _ _ _ _ _ _ Hd)), Hd.
Qed.

Lemma complete_validIndex path rs :
  complete_stream f path rs ->
  IndexFileReader.validIndex (IndexFileReader.construct f path) = true.
Proof. intros Hc. by destruct (complete_header _ _ Hc) as (i & _ & _ & ?). Qed.

(** What [describe] makes of the reader of a complete stream. *)
Lemma describe_serving day d name rd Inv :
  index_ok day name ->
  let rs := (streams day name).2 in
  serving f (path_string (folder_ s ++ [day; name])) rs rd Inv ->
  describe rd d (join_slash day name) =
    Ok (DataStream.mk (Some (String.string_of_list_byte (streams day name).1)) (Some d)
          (Some (join_slash day name)) (Some (u32 (zlen rs))) (Some kHealthy)
          (Some (first_time rs)) (Some (last_time rs))).
Proof.
  intros Hix rs Hsv. unfold describe.
  assert (StreamReader.streamName rd = Ok (streams day name).1) as ->.
  { unfold StreamReader.streamName.
    rewrite (construct_index f _ _ (sv_construct _ _ _ _ _ Hsv) (sv_status _ _ _ _ _ Hsv)).
    apply Hix. }
  by rewrite (sv_count _ _ _ _ _ Hsv), (sv_start _ _ _ _ _ Hsv), (sv_end _ _ _ _ _ Hsv),
    (sv_status _ _ _ _ _ Hsv).
Qed.

(** One entry of a day. *)
Lemma extractStream_listing a b d day name r :
  (is_index day name = true -> index_ok day name) ->
  extractStream f s (day_path day) a b d name r =
    (Ok tt, match listing a b day d name with
            | Some x => DataStreamsResponse.add_stream x r
            | None => r
            end).
Proof.
  intros Hix. unfold extractStream, listing. fold (is_index day name).
  destruct (streams day name) as [nm rs] eqn:Es.
  destruct (is_index day name) eqn:Ei; cbn [andb]; [|done]. specialize (Hix eq_refl).
  pose proof Hix as [[i Hn] Hnul Hbs Hst Htm Hnm]. rewrite Es in *. cbn [fst snd] in *.
  unfold is_index in Ei. apply andb_true_iff in Ei as [_ Hext%bool_decide_eq_true].
  destruct (identifier_resolves f Ht s day name i Hroot Hn Hnul Hbs Hext
              (complete_validIndex _ _ Hst)) as [Eid Er].
  rewrite (bind_ok _ _ r (join_slash day name) r) by (unfold lift_outcome, day_path; by rewrite Eid).
  rewrite Er.
  destruct (complete_serving _ _ _ Hst Htm) as [[-> (ir & Hc)]|(rd & Inv & Hsv)].
  { rewrite (bind_ok _ _ r (StreamReader.mk (Some ir) None kEmpty) r)
      by (unfold lift_outcome; by rewrite Hc).
    unfold StreamReader.matchTime. cbn [StreamReader.status_]. done. }
  rewrite (bind_ok _ _ r rd r) by (unfold lift_outcome; by rewrite (sv_construct _ _ _ _ _ Hsv)).
  rewrite (sv_match _ _ _ _ _ Hsv).
  rewrite (bool_decide_eq_false_2 (rs = [])) by apply Hsv. cbn [negb andb].
  destruct (_ && _ && _); [|done].
  pose proof (describe_serving day d name rd Inv Hix) as Hd. rewrite Es in Hd. cbn [fst snd] in Hd.
  by erewrite bind_ok by (unfold lift_outcome; by rewrite (Hd Hsv)).
Qed.

(** ** Days *)
Record day_ok (day : string) : Prop := {
  dy_node : node_at f (folder_ s ++ [day]) = Some NDir;
  dy_index name : name ∈ entries f (folder_ s ++ [day]) -> is_index day name = true ->
    index_ok day name
}.

Definition add_all (l : list DataStream.t) (r : DataStreamsResponse.t) : DataStreamsResponse.t :=
  DataStreamsResponse.mk (DataStreamsResponse.stream r ++ l) (DataStreamsResponse.data r)
    (DataStreamsResponse.errors_ r).

Lemma add_all_nil r : add_all [] r = r.
Proof. destruct r. unfold add_all. cbn. by rewrite app_nil_r. Qed.

Lemma add_all_app l k r : add_all k (add_all l r) = add_all (l ++ k) r.
Proof. unfold add_all. cbn. by rewrite app_assoc. Qed.

(** A loop whose body adds to the response. *)
Lemma for_each_adds {A} (l : list A) (m : A -> prog DataStreamsResponse.t unit) add r :
  (forall x r, x ∈ l -> m x r = (Ok tt, add_all (add x) r)) ->
  for_each l m r = (Ok tt, add_all (concat (map add l)) r).
Proof.
  revert r. induction l as [|x l IH]; intros r Hm; cbn [for_each map concat].
  { by rewrite add_all_nil. }
  rewrite (bind_ok _ _ r tt (add_all (add x) r)) by (apply Hm; by left).
  rewrite IH, add_all_app by (intros; apply Hm; by right). done.
Qed.

Lemma concat_option_list {A B} (g : A -> option B) l :
  concat (map (fun x => option_list (g x)) l) = omap g l.
Proof.
  induction l as [|x l IH]; [done|]. cbn [map concat omap list_omap]. rewrite IH. by destruct (g x).
Qed.

Lemma day_directory_at day :
  node_at f (folder_ s ++ [day]) = Some NDir ->
  directory_at f (day_path day) (folder_ s ++ [day]).
Proof.
  intros Hd. pose proof Hd as Hd'. rewrite node_at_snoc in Hd'. destruct (Ht _ _ _ Hd') as [Hday _].
  assert (directory_at f (path_string (folder_ s)) (folder_ s)) as D0.
  { split; [|done]. rewrite resolve_path_string by (eapply tree_plain_path; eauto).
    by apply (walk_self f _ _ NDir). }
  split; [|done]. apply resolve_child; try done. intros t. by rewrite Hd'.
Qed.

Lemma day_directory day :
  node_at f (folder_ s ++ [day]) = Some NDir ->
  directory_iterator f (day_path day) = Some (entries f (folder_ s ++ [day])).
Proof.
  intros Hd. unfold directory_iterator. destruct (day_directory_at day Hd) as [-> ->]. done.
Qed.

Lemma extractStreams_listing a b d day r :
  day_ok day ->
  extractStreams f s (day_path day) a b d r =
    (Ok tt, add_all (omap (listing a b day d) (entries f (folder_ s ++ [day]))) r).
Proof.
  intros [Hd Hix]. unfold extractStreams. rewrite day_directory by done.
  rewrite <- concat_option_list. apply for_each_adds. intros name r' Hn.
  rewrite (extractStream_listing a b d day name r') by auto.
  destruct (listing a b day d name); [done|]. cbn [option_list]. by rewrite add_all_nil.
Qed.

Lemma getStreamsOfDay_listing a b day r :
  (is_Some (wanted a b day) -> day_ok day) ->
  getStreamsOfDay f s a b day r = (Ok tt, add_all (day_listing a b day) r).
Proof.
  intros Hok. unfold getStreamsOfDay, day_listing, wanted in *. fold (day_path day).
  destruct (is_directory f (day_path day)); [|by rewrite add_all_nil].
  unfold catch_all, try_catch. destruct (stoul day) as [d|]; cbn [wp_rest].
  2: { unfold mbind, prog_bind, throw. cbn [cpp_exn]. by rewrite add_all_nil. }
  rewrite (bind_ok _ _ r d r) by done.
  destruct (_ && _); [|by rewrite add_all_nil].
  by rewrite extractStreams_listing by (apply Hok; eauto).
Qed.

(** The root as [getStreams] sees it. *)
Lemma root_directory : directory_iterator f (path_string (folder_ s)) = Some (entries f (folder_ s)).
Proof.
  unfold directory_iterator. rewrite resolve_path_string by (eapply tree_plain_path; eauto).
  rewrite (walk_self f _ _ NDir) by done. by rewrite Hroot.
Qed.

Lemma listing_elem a b day d name x :
  listing a b day d name = Some x ->
  is_index day name = true /\ DataStream.file x = join_slash day name.
Proof.
  unfold listing. destruct (streams day name) as [nm rs]. destruct (is_index day name); [|done].
  cbn [andb]. destruct (negb _ && _); [|done]. by intros [= <-].
Qed.

End Discovery.

(** *** The guarantee at a concrete input

    A folder with one day, which holds an index file and its data file, and a
    symbolic link to a directory. *)
#[local] Existing Instance utc_localtime.

Definition can0_streams (day name : string) : bytes * list record :=
  (String.list_byte_of_string "can0", sample_records).

Lemma new_year_ok : day_ok stream_fs sample_scanner can0_streams "20240101".
Proof.
  split; [vm_compute; reflexivity|].
  assert (E : entries stream_fs (StorageScanner.folder_ sample_scanner ++ ["20240101"%string])
              = ["can0.idx"; "can0.data"]%string) by (vm_compute; reflexivity).
  rewrite E. intros name Hn. rewrite !elem_of_cons, elem_of_nil in Hn.
  destruct Hn as [->|[->|[]]]; intros Hi; [|by vm_compute in Hi].
  split; try (vm_compute; reflexivity).
  - exists 0%nat. vm_compute. reflexivity.
  - exact stream_complete.
  - repeat constructor; discriminate.
Qed.

