(* ===== verification/FolderSpec.v ===== *)
(** * One day of recording

    What a [Folder] does with requests for several channels in any order, on a
    medium that does not fail: every channel gets files of its own, with exactly
    its records in their order, and after [close] a reader finds them complete. *)
From S2P Require Import Prelude DataTypes Format Protos FileSystem FileIO StreamWriter FileNames StreamWriterSpec FileReader StreamReader Recording Folder StorageScanner ScannerSpec Calendar Samples.
Local Open Scope Z_scope.

Section FolderSpec.
Context {L : LocalTime}.
Context (folder : string) (p : path).
Abbreviation writer := (StreamWriter.t StandardFileIO.t) (only parsing).
Implicit Types (sw : writer) (w : world).

(** ** An open stream *)

(** The files of a stream and the records given to it; [st_size] is 0 for
    records of any size. *)
Record stream := mk_stream {
  st_name : string;
  st_index : nat;
  st_data : nat;
  st_size : Z;
  st_header : LogFileHeader.t;
  st_data_header : LogFileHeader.t;
  st_records : list record
}.

Definition is_var (st : stream) : bool := st_size st =? 0.

Definition inodes (st : stream) : list nat :=
  if is_var st then [st_index st; st_data st] else [st_index st].

Definition with_records (rs : list record) (st : stream) : stream :=
  mk_stream (st_name st) (st_index st) (st_data st) (st_size st) (st_header st)
    (st_data_header st) rs.

(** The names lead to the files and the headers are those of the stream. *)
Record named (f : fs) (st : stream) : Prop := {
  nm_slash : no_slash (st_name st) = true;
  nm_dot : no_dot (st_name st) = true;
  nm_index : nodes f !! (p ++ [st_name st +:+ ".idx"]) = Some (NFile (st_index st));
  nm_data : is_var st = true ->
    st_index st <> st_data st /\
    nodes f !! (p ++ [st_name st +:+ ".data"]) = Some (NFile (st_data st)) /\
    header_ok kDataFile 0 (st_data_header st) /\
    LogFileHeader.name_ (st_data_header st) = LogFileHeader.name_ (st_header st) /\
    exists nm, LogFileHeader.c_str (LogFileHeader.name_ (st_header st)) = Ok nm;
  nm_size : 0 <= st_size st;
  nm_header : header_ok kIndexFile (st_size st) (st_header st);
  nm_inodes : forall j, j ∈ inodes st -> (j < next_ino f)%nat
}.

(** The stream carries the name of its channel: in the header, and in the names of
    its files, to which only digits and separators were added. *)
Record labelled (c : string) (st : stream) : Prop := {
  lb_header : LogFileHeader.c_str (LogFileHeader.name_ (st_header st)) = Ok (StreamWriter.name_bytes c);
  lb_nonempty : st_name st <> EmptyString;
  lb_name x : not_added x -> no_char x c = true -> no_char x (st_name st) = true
}.

(** The writer has been given [st_records]. *)
Definition recorder (st : stream) (s : writer * world) : Prop :=
  StreamWriter.fault_injector_ s.1 = None /\
  if is_var st
  then var_good (st_index st) (st_data st) (st_header st) (st_data_header st) (st_records st) s
  else fixed_good (st_index st) (st_header st) (st_records st) s.

(** The records of a stream are of its size and within the 32-bit offsets. *)
Definition fits_stream (size : Z) (rs : list record) : Prop :=
  Forall record_ok rs /\
  (if size =? 0 then end_offset rs + 12 <= UINT32_MAX
   else Forall (fun r => zlen (r_data r) = size) rs /\
        LogFileHeader.size + zlen rs * (8 + size) < 2 ^ 32).

(** A write elsewhere does not change what a writer holds. *)
Lemma recorder_frame st sw w w' :
  (forall j, j ∈ inodes st -> contents (w_fs w') j = contents (w_fs w) j) ->
  recorder st (sw, w) -> recorder st (sw, w').
Proof.
  intros Hf [Hi Hr]. split; [done|]. unfold inodes in Hf. destruct (is_var st).
  - destruct Hr as (hi & hdt & V & B1 & B2 & Ho). exists hi, hdt. split; [|done].
    destruct V as [? ? ? ? ? V6 V7]. split; try done; unfold logical in *; cbn [fst snd] in *;
      rewrite Hf by set_solver; done.
  - destruct Hr as (hi & E1 & E2 & E3 & E4 & E5 & E6). exists hi. split_and!; try done.
    unfold logical in *. cbn [fst snd] in *. by rewrite Hf by set_solver.
Qed.

Lemma named_mono f f' st :
  nodes f ⊆ nodes f' -> (next_ino f <= next_ino f')%nat -> named f st -> named f' st.
Proof.
  intros Hn Hx [N1 N2 N3 N4 N5 N6 N7]. split; try done.
  - by eapply lookup_weaken.
  - intros Hv. destruct (N4 Hv) as (? & ? & ? & ? & ?). split_and!; try done. by eapply lookup_weaken.
  - intros j Hj. specialize (N7 j Hj). lia.
Qed.

(** A record given to the writer of a stream. *)
Definition acknowledgement (size : Z) (r : record) : Z :=
  if size =? 0 then i32 (24 + zlen (r_data r)) else i32 (zlen (r_data r) + 8).

Definition result (st : stream) (r : record) : Z := acknowledgement (st_size st) r.

(** What the format of a stream asks for, wherever its files are. *)
Record shaped (st : stream) : Prop := {
  sh_header : header_ok kIndexFile (st_size st) (st_header st);
  sh_apart : is_var st = true -> st_index st <> st_data st
}.

Lemma named_shaped f st : named f st -> shaped st.
Proof. intros [? ? ? Hd ? ? ?]. split; [done|]. intros Hv. by apply Hd. Qed.

Lemma wp_record_on st sw w r :
  shaped st -> recorder st (sw, w) -> fits_stream (st_size st) (st_records st ++ [r]) ->
  reliable w ->
  wp (StreamWriter.write (r_time r) (r_data r)) (fun o s' =>
    o = Ok (result st r) /\ recorder (with_records (st_records st ++ [r]) st) s' /\
    only_appends (inodes st) w s'.2) (sw, w).
Proof.
  intros Hn [Hinj Hr] [Hok Hw] Hrel. unfold result, acknowledgement, recorder, inodes.
  fold (is_var st).
  fold (is_var st) in Hw.
  change (is_var (with_records _ st)) with (is_var st) in *.
  cbn [with_records st_records st_index st_data st_header st_data_header st_size] in *.
  destruct (is_var st) eqn:Ev.
  - pose proof (sh_apart _ Hn Ev) as Hne.
    rewrite end_offset_snoc in Hw. unfold data_entry_size in Hw.
    eapply wp_mono; [apply (var_write_good _ _ _ _ Hne _ (r_time r) (r_data r) sw w Hr);
                     unfold fits; lia|].
    intros o s' (F & C & Ho). destruct o as [n|e].
    + destruct Ho as [[-> Hg]|(_ & Hx & _)]; [|done]. destruct r. split; [done|]. split.
      * split; [|exact Hg]. destruct C as (_ & _ & _ & _ & ->). exact Hinj.
      * eapply only_appends_weaken; [|exact F]. intros x. rewrite !elem_of_cons. tauto.
    + destruct Ho as ((f & Ef & _) & _). cbn [fst] in Hinj. congruence.
  - destruct Hw as [Hsz _]. apply Forall_app in Hsz as [_ Hsz]. apply Forall_cons in Hsz as [Hsz _].
    eapply wp_mono; [apply (fixed_write_good (st_index st) (st_header st) ltac:(rewrite (ho_record_size _ _ _ (sh_header _ Hn)); unfold is_var in Ev; lia)
                              _ (r_time r) (r_data r) sw w Hr)|].
    all: rewrite ?(ho_record_size _ _ _ (sh_header _ Hn)); try done.
    intros o s' (F & C & n & -> & [[-> Hg]|(_ & Hx & _)]); [|done]. destruct r.
    split; [done|]. split; [|done]. split; [|exact Hg]. destruct C as (_ & _ & _ & _ & ->). exact Hinj.
Qed.

(** ** Opening a stream *)

(** A channel whose name can be the part of a file name and of a header. *)
Record good_channel (c : string) : Prop := {
  gc_slash : no_slash c = true;
  gc_dot : no_dot c = true;
  gc_zero : x00 ∉ StreamWriter.name_bytes c;
  gc_short : (length (StreamWriter.name_bytes c) < LogFileHeader.name_size)%nat
}.

Record request_ok (request : LogRequest.t) : Prop := {
  rq_channel : good_channel (LogRequest.channel request);
  rq_time : 0 <= LogRequest.time_ns request < 2 ^ 64;
  rq_size : 0 <= LogRequest.size request < 2 ^ 32
}.

(** The stream whose files were opened for a request. *)
Definition opened_stream (request : LogRequest.t) (j : nat) (i d : nat) : stream :=
  let sw := StreamWriter.set_request (H := StandardFileIO.t) (LogRequest.channel request) (LogRequest.size request)
              (StreamWriter.create folder) in
  mk_stream (candidate (StreamWriter.fileName sw (LogRequest.time_ns request)) j) i d (LogRequest.size request)
    (StreamWriter.header_of sw (LogRequest.time_ns request) kIndexFile)
    (StreamWriter.header_of sw (LogRequest.time_ns request) kDataFile) [].

Lemma opened_stream_ok request j i d f :
  request_ok request -> let st := opened_stream request j i d in
  no_slash (st_name st) = true -> nodes f !! (p ++ [st_name st +:+ ".idx"]) = Some (NFile i) ->
  (is_var st = true -> i <> d /\ nodes f !! (p ++ [st_name st +:+ ".data"]) = Some (NFile d)) ->
  (forall k, k ∈ inodes st -> (k < next_ino f)%nat) ->
  named f st /\ labelled (LogRequest.channel request) st.
Proof.
  intros [[Hs Hd Hz Hl] Ht Hsz] st Hns Hi Hdata Hino.
  set (sw := StreamWriter.set_request (H := StandardFileIO.t) (LogRequest.channel request) (LogRequest.size request)
               (StreamWriter.create folder)) in *.
  assert (Hnm : forall type, LogFileHeader.c_str (LogFileHeader.name_
    (StreamWriter.header_of sw (LogRequest.time_ns request) type)) =
    Ok (StreamWriter.name_bytes (LogRequest.channel request)))
    by (intros type; by apply LogFileHeader.c_str_pad_name).
  assert (Hh : forall type, 0 <= type < 256 ->
    header_ok type (LogRequest.size request) (StreamWriter.header_of sw (LogRequest.time_ns request) type)).
  { intros type Hty. apply (header_of_ok sw); [done|exact Hsz|done]. }
  split; split; try done.
  - by apply candidate_no_dot, fileName_no_dot.
  - intros Hv. destruct (Hdata Hv) as [Hne Hnd]. split_and!; try done; [|eexists; apply (Hnm kIndexFile)].
    unfold is_var in Hv. apply Z.eqb_eq in Hv. cbn in Hv. rewrite <- Hv. by apply Hh.
  - cbn. lia.
  - by apply Hh.
  - apply (Hnm kIndexFile).
  - apply candidate_nonempty, fileName_nonempty.
  - intros x Hx Hc. by apply candidate_no_char, fileName_no_char.
Qed.

Lemma wp_open_stream request w :
  folder_ready (w_fs w) folder p -> request_ok request -> reliable w ->
  wp (StreamWriter.openFile request) (fun o s' => exists r st, o = Ok r /\ 0 < r /\
    st_records st = [] /\ st_size st = LogRequest.size request /\
    named (w_fs s'.2) st /\ labelled (LogRequest.channel request) st /\
    recorder st s' /\ grows w s'.2 /\
    (next_ino (w_fs s'.2) <= 2 + next_ino (w_fs w))%nat /\
    (forall j, j ∈ inodes st -> (next_ino (w_fs w) <= j)%nat))
    (StreamWriter.create folder, w).
Proof.
  intros Hf Hok Hrel. unfold StreamWriter.openFile. sw_step. sw_step.
  cbn [wp_rest fst snd]. set (sw := StreamWriter.set_request _ _ _).
  eapply wp_mono; [apply (wp_reopenFile _ sw w p); try done; apply Hok|].
  intros o [sw' w'] (r & -> & Hrq & G & [Hr|(_ & Hx & _)]); [|done]. cbn [fst snd] in *.
  assert (Hinj : StreamWriter.fault_injector_ sw' = None) by (by destruct Hrq as (_ & _ & _ & ->)).
  unfold reopened in Hr. change (StreamWriter.record_size_ sw) with (LogRequest.size request) in Hr.
  destruct (LogRequest.size request =? 0) eqn:E0.
  - destruct Hr as [-> (n & i & d & [j ->] & Hns & Hi & Hd' & Hne & Hlt & Hlt' & Ni & Nd & Ci & Cd & Hg)].
    cbn [fst snd] in *. set (st := opened_stream request j i d).
    assert (Hino : forall k, k ∈ inodes st -> k = i \/ k = d).
    { unfold inodes. assert (is_var st = true) as -> by exact E0. intros k.
      rewrite !elem_of_cons, elem_of_nil. cbn. tauto. }
    destruct (opened_stream_ok request j i d (w_fs w') Hok) as [Hnm Hlb]; try done.
    { intros k [->| ->]%Hino; lia. }
    exists (2 * LogFileHeader.size), st. split_and!; try done; [|lia|intros k [->| ->]%Hino; lia].
    split; [done|]. by assert (is_var st = true) as -> by exact E0.
  - destruct Hr as [-> (n & i & [j ->] & Hns & Hi & Hlt & Ni & Ci & Hg)].
    cbn [fst snd] in *. set (st := opened_stream request j i 0).
    assert (Hino : forall k, k ∈ inodes st -> k = i).
    { unfold inodes. assert (is_var st = false) as -> by exact E0. intros k ->%list_elem_of_singleton. done. }
    destruct (opened_stream_ok request j i 0 (w_fs w') Hok) as [Hnm Hlb]; try done.
    { intros Hv. change ((LogRequest.size request =? 0) = true) in Hv. congruence. }
    { intros k ->%Hino; lia. }
    exists LogFileHeader.size, st. split_and!; try done; [|lia|intros k ->%Hino; lia].
    split; [done|]. by assert (is_var st = false) as -> by exact E0.
Qed.

(** ** The folder of a day *)

(** Since world [w0] the folder of day [today] records the streams [S], one per
    channel, in files of their own that did not exist before. *)
Record recording (today : Z) (w0 : world) (S : gmap string stream) (s : Folder.t * world) : Prop := {
  rc_day : Folder.yyyymmdd_ s.1 = today /\ today <> 0;
  rc_folder : Folder.folder_ s.1 = folder;
  rc_dir : directory_at (w_fs s.2) folder p;
  rc_links : forall n t, nodes (w_fs s.2) !! (p ++ [n]) <> Some (NLink t);
  rc_none : forall c, S !! c = None -> Folder.files_ s.1 !! c = None;
  rc_some : forall c st, S !! c = Some st -> named (w_fs s.2) st /\
    exists sw, Folder.files_ s.1 !! c = Some sw /\ recorder st (sw, s.2);
  rc_apart : forall c c' st st' j, S !! c = Some st -> S !! c' = Some st' -> c <> c' ->
    j ∈ inodes st -> j ∉ inodes st';
  rc_reliable : reliable s.2;
  rc_label : forall c st, S !! c = Some st -> labelled c st;
  rc_fresh : forall c st, S !! c = Some st -> Forall (fun j => (next_ino (w_fs w0) <= j)%nat) (inodes st);
  rc_grows : grows w0 s.2
}.

(** A record more for the stream of [c], by a step that only touches its files. *)
Lemma recording_update d T S f w w' c st sw sw' st' :
  recording d T S (f, w) -> S !! c = Some st -> Folder.files_ f !! c = Some sw ->
  only_appends (inodes st) w w' -> recorder st' (sw', w') ->
  inodes st' = inodes st -> named (w_fs w') st' -> labelled c st' ->
  recording d T (<[c := st']> S) (Folder.set_files (<[c := sw']> (Folder.files_ f)) f, w').
Proof.
  intros [R1 R2 R3 R4 R5 R6 R7 R8 R9 R10 R11] HS Hf F Hr Hi Hn Hlb. split; cbn [fst snd] in *; try done.
  - eapply directory_at_mono; [|done]. by rewrite (oa_nodes _ _ _ F).
  - by rewrite (oa_nodes _ _ _ F).
  - intros c' [H1 H2]%lookup_insert_None. cbn. rewrite lookup_insert_ne by done. by apply R5.
  - intros c' st1 [[<- <-]|[Hne H1]]%lookup_insert_Some.
    { split; [done|]. exists sw'. cbn. by rewrite lookup_insert_eq. }
    destruct (R6 _ _ H1) as (Hn1 & sw1 & Hf1 & Hr1). split.
    { apply (named_mono (w_fs w)); [by rewrite (oa_nodes _ _ _ F)|by rewrite (oa_next _ _ _ F)|done]. }
    exists sw1. cbn. rewrite lookup_insert_ne by done. split; [done|].
    eapply recorder_frame; [|exact Hr1]. intros j Hj. apply (oa_frame _ _ _ F).
    by apply (R7 c' c st1 st j).
  - intros c1 c2 st1 st2 j [[<- <-]|[Hne1 H1]]%lookup_insert_Some
      [[<- <-]|[Hne2 H2]]%lookup_insert_Some Hne Hj; try done.
    + rewrite Hi in Hj. by apply (R7 c c2 st st2 j).
    + rewrite Hi. by apply (R7 c1 c st1 st j).
    + by apply (R7 c1 c2 st1 st2 j).
  - by eapply only_appends_reliable.
  - intros c' st1 [[<- <-]|[_ H1]]%lookup_insert_Some; [done|by apply R9].
  - intros c' st1 [[<- <-]|[_ H1]]%lookup_insert_Some; [rewrite Hi|]; by eapply R10.
  - eapply grows_appends; [exact R11|exact F|by eapply R10].
Qed.

(** A new stream in files that did not exist before. *)
Lemma recording_open d T S f w w' c st sw :
  recording d T S (f, w) -> S !! c = None ->
  grows w w' -> recorder st (sw, w') -> named (w_fs w') st -> labelled c st ->
  (forall j, j ∈ inodes st -> (next_ino (w_fs w) <= j)%nat) ->
  recording d T (<[c := st]> S) (Folder.set_files (<[c := sw]> (Folder.files_ f)) f, w').
Proof.
  intros [R1 R2 R3 R4 R5 R6 R7 R8 R9 R10 R11] HS G Hr Hn Hlb Hj. split; cbn [fst snd] in *; try done.
  - eapply directory_at_mono; [apply (gr_nodes _ _ G)|done].
  - intros n t Hl. destruct (gr_files _ _ G _ _ Hl) as [?|(? & ? & ? & _ & _ & ?)]; [|done]. by apply (R4 n t).
  - intros c' [H1 H2]%lookup_insert_None. cbn. rewrite lookup_insert_ne by done. by apply R5.
  - intros c' st1 [[<- <-]|[Hne H1]]%lookup_insert_Some.
    { split; [done|]. exists sw. cbn. by rewrite lookup_insert_eq. }
    destruct (R6 _ _ H1) as (Hn1 & sw1 & Hf1 & Hr1). split.
    { eapply named_mono; [apply (gr_nodes _ _ G)|apply (gr_next _ _ G)|exact Hn1]. }
    exists sw1. cbn. rewrite lookup_insert_ne by done. split; [done|].
    eapply recorder_frame; [|exact Hr1]. intros j Hjin. apply (gr_old _ _ G).
    by apply (nm_inodes _ _ Hn1).
  - intros c1 c2 st1 st2 j [[<- <-]|[Hne1 H1]]%lookup_insert_Some
      [[<- <-]|[Hne2 H2]]%lookup_insert_Some Hne Hj1 Hj2; try done.
    + destruct (R6 _ _ H2) as [Hn2 _]. pose proof (Hj j Hj1). pose proof (nm_inodes _ _ Hn2 j Hj2). lia.
    + destruct (R6 _ _ H1) as [Hn1 _]. pose proof (Hj j Hj2). pose proof (nm_inodes _ _ Hn1 j Hj1). lia.
    + by apply (R7 c1 c2 st1 st2 j).
  - by eapply reliable_env; [apply (gr_env _ _ G)|].
  - intros c' st1 [[<- <-]|[_ H1]]%lookup_insert_Some; [done|by apply R9].
  - intros c' st1 [[<- <-]|[_ H1]]%lookup_insert_Some; [|by eapply R10].
    apply Forall_forall. intros j Hin. pose proof (Hj j Hin). pose proof (gr_next _ _ R11). cbn in *. lia.
  - by eapply grows_trans.
Qed.

Definition record_of (request : LogRequest.t) : record :=
  mk_record (LogRequest.time_ns request) (LogRequest.data request).

(** The call of [write] on the channel's writer. *)
Lemma wp_write_on d T S f w request st :
  recording d T S (f, w) -> S !! LogRequest.channel request = Some st ->
  fits_stream (st_size st) (st_records st ++ [record_of request]) ->
  wp (Folder.on_file (LogRequest.channel request)
        (StreamWriter.write (LogRequest.time_ns request) (LogRequest.data request)))
    (fun o s' => o = Ok (result st (record_of request)) /\
      recording d T (<[LogRequest.channel request :=
                    with_records (st_records st ++ [record_of request]) st]> S) s' /\
      only_appends (inodes st) w s'.2) (f, w).
Proof.
  intros R HS Hfit. destruct (rc_some _ _ _ _ R _ _ HS) as (Hn & sw & Hf & Hr). cbn [fst snd] in *.
  pose proof (wp_record_on st sw w (record_of request) (named_shaped _ _ Hn) Hr Hfit (rc_reliable _ _ _ _ R)) as W.
  unfold wp, Folder.on_file in *. rewrite Hf. cbn [record_of r_time r_data] in W.
  destruct (StreamWriter.write _ _ (sw, w)) as [o [sw' w']]. cbn [fst snd] in *.
  destruct W as (-> & Hr' & F). split; [done|]. split; [|done].
  eapply recording_update; try done.
  1: assert (Hn' : named (w_fs w') st).
  1: { apply (named_mono (w_fs w)); [by rewrite (oa_nodes _ _ _ F)|by rewrite (oa_next _ _ _ F)|done]. }
  - by destruct Hn'.
  - pose proof (rc_label _ _ _ _ R _ _ HS) as Hlb. by destruct Hlb.
Qed.

(** What a new entry of a full tree may be refused for. *)
Definition roomy (w : world) (n : nat) : Prop :=
  Z.of_nat (size (nodes (w_fs w))) + 2 * Z.of_nat n < 2 ^ 32.

Lemma recording_ready d T S s : recording d T S s -> roomy s.2 1 -> folder_ready (w_fs s.2) folder p.
Proof. intros [] Hr. split; [done|done|]. unfold roomy in Hr. lia. Qed.

Lemma wp_folder_write_streams d T S s request n :
  recording d T S s -> request_ok request -> roomy s.2 (1 + n) ->
  (forall st, S !! LogRequest.channel request = Some st ->
     fits_stream (st_size st) (st_records st ++ [record_of request])) ->
  (S !! LogRequest.channel request = None -> fits_stream (LogRequest.size request) [record_of request]) ->
  wp (Folder.write request) (fun o s' => exists st,
    o = Ok (result st (record_of request)) /\
    (S !! LogRequest.channel request = Some st \/
     S !! LogRequest.channel request = None /\ st_records st = [] /\
     st_size st = LogRequest.size request) /\
    recording d T (<[LogRequest.channel request :=
                  with_records (st_records st ++ [record_of request]) st]> S) s' /\
    roomy s'.2 n) s.
Proof.
  intros R Hq Hroom Hold Hnew. destruct s as [f w]. cbn [fst snd] in *. unfold Folder.write.
  unfold Folder.get_f, Folder.modify_f.
  apply wp_bind, wp_gets. cbn [wp_rest fst]. destruct (rc_day _ _ _ _ R) as [Eday Hday]. cbn [fst] in Eday.
  rewrite Eday, (proj2 (Z.eqb_neq _ _)) by done.
  apply wp_bind, wp_ret. cbn [wp_rest negb].
  apply wp_bind, wp_gets. cbn [wp_rest fst]. apply wp_bind.
  destruct (S !! LogRequest.channel request) as [st|] eqn:HS.
  - destruct (rc_some _ _ _ _ R _ _ HS) as (_ & sw & Hf & _). cbn [fst] in Hf. rewrite Hf.
    apply wp_ret. cbn [wp_rest]. change (1 <=? 0) with false. cbv iota.
    eapply wp_mono; [apply (wp_write_on d T S f w request st); auto|].
    intros o s' (-> & R' & F). exists st. split; [done|]. split; [by left|]. split; [done|].
    unfold roomy in *. rewrite (oa_nodes _ _ _ F). lia.
  - pose proof (rc_none _ _ _ _ R _ HS) as Hnone. cbn [fst] in Hnone. rewrite Hnone.
    apply wp_bind, wp_modify. cbn [wp_rest fst snd].
    pose proof (recording_ready _ _ _ _ R ltac:(unfold roomy in *; cbn [snd]; lia)) as Hready.
    pose proof (wp_open_stream request w Hready Hq (rc_reliable _ _ _ _ R)) as W.
    pose proof (rc_folder _ _ _ _ R) as Hfolder. cbn [fst] in Hfolder. rewrite Hfolder.
    unfold Folder.on_file at 1, wp at 1. cbn [fst snd].
    cbn [Folder.set_files Folder.files_]. rewrite lookup_insert_eq.
    unfold wp in W. destruct (StreamWriter.openFile request _) as [o [sw' w']]. cbn [fst snd] in *.
    destruct W as (r & st & -> & Hr0 & Hrs & Hsz & Hn & Hlb & Hr & G & Hnext & Hj). cbn [wp_rest].
    rewrite (proj2 (Z.leb_gt _ _)) by done.
    pose proof (recording_open d T S f w w' (LogRequest.channel request) st sw' R HS G Hr Hn Hlb Hj) as R1.
    change (Folder.set_files _ _) with
      (Folder.set_files (<[LogRequest.channel request := sw']>
         (<[LogRequest.channel request := StreamWriter.create folder]> (Folder.files_ f))) f) at 1.
    rewrite insert_insert_eq.
    eapply wp_mono; [apply (wp_write_on d T (<[LogRequest.channel request := st]> S) _ w' request st)|].
    + done.
    + apply lookup_insert_eq.
    + rewrite Hrs, Hsz. by apply Hnew.
    + intros o s' (-> & R' & F). rewrite insert_insert_eq in R'. exists st. split; [done|].
      split; [by right|]. split; [done|]. unfold roomy in *. rewrite (oa_nodes _ _ _ F).
      pose proof (gr_size _ _ G). lia.
Qed.

(** ** A sequence of requests *)
Fixpoint write_requests (requests : list LogRequest.t) : Folder.M (list Z) :=
  match requests with
  | [] => mret []
  | request :: rest =>
      n ← Folder.write request;
      ns ← write_requests rest;
      mret (n :: ns)
  end.

(** The records of one channel in a sequence of requests. *)
Definition channel_records (c : string) (requests : list LogRequest.t) : list record :=
  record_of <$> filter (fun r => LogRequest.channel r = c) requests.

Lemma channel_records_app c l l' :
  channel_records c (l ++ l') = channel_records c l ++ channel_records c l'.
Proof. unfold channel_records. by rewrite filter_app, fmap_app. Qed.

Lemma channel_records_one c r :
  channel_records c [r] = if decide (LogRequest.channel r = c) then [record_of r] else [].
Proof.
  unfold channel_records. rewrite filter_cons, filter_nil. by destruct (decide _).
Qed.

Lemma fits_stream_prefix size rs ss : fits_stream size (rs ++ ss) -> fits_stream size rs.
Proof.
  intros [[Hr _]%Forall_app Hb]. split; [done|]. destruct (size =? 0).
  - rewrite end_offset_app in Hb. pose proof (zsum_sizes_nonneg ss). lia.
  - destruct Hb as [[Hz Hs]%Forall_app Hb]. split; [done|]. rewrite zlen_app in Hb.
    destruct ss as [|s ss].
    { change (zlen []) with 0 in Hb. by rewrite Z.add_0_r in Hb. }
    apply Forall_cons in Hs as [Hs _]. pose proof (zlen_nonneg (r_data s)).
    unfold zlen in *. nia.
Qed.

Lemma fits_stream_suffix size rs ss : fits_stream size (rs ++ ss) -> fits_stream size ss.
Proof.
  intros [[_ Hs]%Forall_app Hb]. split; [done|]. destruct (size =? 0).
  - unfold end_offset in *. rewrite map_app, zsum_app in Hb. pose proof (zsum_sizes_nonneg rs). lia.
  - destruct Hb as [[Hz Hs']%Forall_app Hb]. split; [done|]. rewrite zlen_app in Hb.
    destruct rs as [|r rs].
    { change (zlen []) with 0 in Hb. done. }
    apply Forall_cons in Hz as [Hz _]. pose proof (zlen_nonneg (r_data r)).
    unfold zlen in *. nia.
Qed.

(** The streams hold the records of the requests so far. *)
Definition holds_requests (sz : string -> Z) (S : gmap string stream) (requests : list LogRequest.t) : Prop :=
  forall c, match S !! c with
            | Some st => st_size st = sz c /\ st_records st = channel_records c requests
            | None => channel_records c requests = []
            end.

(** One request after others. *)
Lemma wp_write_next d T sz before r S s n :
  recording d T S s -> roomy s.2 (1 + n) -> request_ok r ->
  LogRequest.size r = sz (LogRequest.channel r) ->
  fits_stream (sz (LogRequest.channel r)) (channel_records (LogRequest.channel r) (before ++ [r])) ->
  holds_requests sz S before ->
  wp (Folder.write r) (fun o s' => exists S',
    o = Ok (acknowledgement (sz (LogRequest.channel r)) (record_of r)) /\
    recording d T S' s' /\ holds_requests sz S' (before ++ [r]) /\ roomy s'.2 n) s.
Proof.
  intros R Hroom Hr Hrs Hnow Hh.
  rewrite channel_records_app, channel_records_one, decide_True in Hnow by done.
  pose proof (Hh (LogRequest.channel r)) as Hc.
  eapply wp_mono; [apply (wp_folder_write_streams d T S s r n); [done|done|exact Hroom| |]|].
  - intros st E. rewrite E in Hc. by destruct Hc as [-> ->].
  - intros E. rewrite E in Hc. by rewrite Hrs, Hc in *.
  - intros o s1 (st & -> & Hst & R1 & Hroom1).
    assert (Hst' : st_size st = sz (LogRequest.channel r) /\
                   st_records st = channel_records (LogRequest.channel r) before).
    { destruct Hst as [E|(E & -> & ->)]; rewrite E in Hc; [done|by rewrite Hc]. }
    destruct Hst' as [E1 E2]. unfold result. rewrite E1.
    eexists. split; [done|]. split; [exact R1|]. split; [|exact Hroom1].
    intros c. destruct (decide (LogRequest.channel r = c)) as [<-|Hne].
    + rewrite lookup_insert_eq. cbn. rewrite channel_records_app, channel_records_one, decide_True by done.
      by rewrite E2.
    + rewrite lookup_insert_ne by done. specialize (Hh c).
      rewrite channel_records_app, channel_records_one, decide_False, app_nil_r by done. exact Hh.
Qed.

Lemma wp_write_requests d T sz before todo S s :
  recording d T S s -> roomy s.2 (length todo) -> Forall request_ok todo ->
  Forall (fun r => LogRequest.size r = sz (LogRequest.channel r)) todo ->
  (forall c, fits_stream (sz c) (channel_records c (before ++ todo))) ->
  holds_requests sz S before ->
  wp (write_requests todo) (fun o s' => exists S',
    o = Ok (map (fun r => acknowledgement (sz (LogRequest.channel r)) (record_of r)) todo) /\
    recording d T S' s' /\ holds_requests sz S' (before ++ todo)) s.
Proof.
  revert before S s. induction todo as [|r todo IH]; intros before S s R Hroom Hok Hsz Hfit Hh.
  { apply wp_ret. exists S. by rewrite app_nil_r. }
  apply Forall_cons in Hok as [Hr Hok]. apply Forall_cons in Hsz as [Hrs Hsz].
  assert (Hsplit : before ++ r :: todo = (before ++ [r]) ++ todo) by by rewrite <- app_assoc.
  rewrite Hsplit in *. cbn [write_requests]. apply wp_bind.
  eapply wp_mono; [apply (wp_write_next d T sz before r S s (length todo)); try done|].
  { specialize (Hfit (LogRequest.channel r)). rewrite channel_records_app in Hfit.
    by eapply fits_stream_prefix. }
  intros o s1 (S1 & -> & R1 & Hh1 & Hroom1). cbn [wp_rest]. apply wp_bind.
  eapply wp_mono; [apply (IH (before ++ [r]) S1 s1 R1 Hroom1 Hok Hsz Hfit Hh1)|].
  intros o s2 (S' & -> & R2 & Hh2). cbn [wp_rest]. apply wp_ret. by exists S'.
Qed.

(** ** Closing *)

(** The files of a stream hold everything that was written to it. *)
Definition written (st : stream) (f : fs) : Prop :=
  if is_var st
  then contents f (st_index st) = var_index_file (st_header st) (st_records st) /\
       contents f (st_data st) = data_file (st_data_header st) (st_records st)
  else contents f (st_index st) = fixed_index_file (st_header st) (st_records st).

Lemma written_frame st f f' :
  (forall j, j ∈ inodes st -> contents f' j = contents f j) -> written st f -> written st f'.
Proof.
  unfold written, inodes. intros Hf. destruct (is_var st); rewrite !Hf by set_solver; done.
Qed.

Lemma wp_close_writer st sw w :
  named (w_fs w) st -> recorder st (sw, w) -> reliable w ->
  wp StreamWriter.closeFile (fun o s' => o = Ok tt /\ only_appends (inodes st) w s'.2 /\
    written st (w_fs s'.2)) (sw, w).
Proof.
  intros Hn [_ Hr] Hrel. unfold written, inodes. destruct (is_var st) eqn:Ev.
  - destruct (nm_data _ _ Hn Ev) as (Hne & _). destruct Hr as (hi & hdt & V & B1 & B2 & _).
    eapply wp_mono; [by apply (wp_closeFile_var (st_index st) (st_data st) _ _ hi hdt)|].
    intros o s' (-> & F & _ & _ & _ & _ & _ & C1 & C2). split; [done|]. split; [|auto].
    eapply only_appends_weaken; [|exact F]. intros x. rewrite !elem_of_cons. tauto.
  - eapply wp_mono; [apply (wp_closeFile_fixed (st_index st) (st_header st) (st_records st) sw w)|].
    + by apply fixed_good_crash.
    + intros o s' (-> & F & _ & _ & C). auto.
Qed.

Lemma wp_close_streams (S : gmap string stream) l w :
  NoDup l.*1 -> reliable w ->
  (forall c st, S !! c = Some st -> named (w_fs w) st) ->
  (forall c c' st st' j, S !! c = Some st -> S !! c' = Some st' -> c <> c' ->
     j ∈ inodes st -> j ∉ inodes st') ->
  (forall c sw, (c, sw) ∈ l -> exists st, S !! c = Some st /\ recorder st (sw, w)) ->
  wp (Folder.close_files l) (fun o w' => o = Ok tt /\
    only_appends (mjoin ((fun c => from_option inodes [] (S !! c)) <$> l.*1)) w w' /\
    (forall c st, c ∈ l.*1 -> S !! c = Some st -> written st (w_fs w'))) w.
Proof.
  revert w. induction l as [|[c sw] l IH]; intros w Hnd Hrel Hn Hap Hl.
  { apply wp_ret. split_and!; [done|apply only_appends_refl|]. by intros c st Hc%elem_of_nil. }
  cbn [fmap list_fmap fst] in *. apply NoDup_cons in Hnd as [Hc Hnd].
  destruct (Hl c sw ltac:(by left)) as (st & HS & Hr).
  pose proof (wp_close_writer st sw w (Hn _ _ HS) Hr Hrel) as W.
  cbn [Folder.close_files]. apply wp_bind. unfold wp in W |- * at 1.
  destruct (StreamWriter.closeFile (sw, w)) as [o [sw1 w1]]. cbn [fst snd] in *.
  destruct W as (-> & F & Hw). cbn [wp_rest].
  assert (Hfar : forall c' st' j, c' ∈ l.*1 -> S !! c' = Some st' -> j ∈ inodes st' -> j ∉ inodes st).
  { intros c' st' j Hc' HS' Hj. apply (Hap c' c st' st j); [done|done| |done]. by intros ->. }
  eapply wp_mono; [apply (IH w1 Hnd)|].
  - by eapply only_appends_reliable.
  - intros c' st' HS'. apply (named_mono (w_fs w));
      [by rewrite (oa_nodes _ _ _ F)|by rewrite (oa_next _ _ _ F)|by eapply Hn].
  - exact Hap.
  - intros c' sw' Hin. destruct (Hl c' sw' ltac:(by right)) as (st' & HS' & Hr').
    exists st'. split; [done|]. eapply recorder_frame; [|exact Hr'].
    intros j Hj. apply (oa_frame _ _ _ F). eapply Hfar; [|exact HS'|done].
    by apply (list_elem_of_fmap_2 fst) in Hin.
  - intros o w2 (-> & F2 & Hall). split; [done|]. split.
    { cbn [fmap list_fmap mjoin list_join fst]. rewrite HS. by eapply only_appends_trans. }
    intros c' st' [->|Hc']%elem_of_cons HS'; [|by eapply Hall].
    assert (st' = st) as -> by congruence. eapply written_frame; [|exact Hw].
    intros j Hj. apply (oa_frame _ _ _ F2). intros (js & Hjs & (c' & -> & Hc')%list_elem_of_fmap)%list_elem_of_join.
    destruct (S !! c') as [st'|] eqn:HS2; [|by apply not_elem_of_nil in Hjs].
    by eapply (Hfar c' st' j).
Qed.

(** ** Reading the files *)
Lemma written_complete f st :
  directory_at f folder p -> no_dot folder = true -> named f st -> written st f ->
  fits_stream (st_size st) (st_records st) ->
  complete_stream f (stream_path folder (st_name st)) (st_records st).
Proof.
  intros Hdir Hdot Hn Hw [Hok Hfit]. fold (is_var st) in Hfit. unfold written in Hw.
  destruct (is_var st) eqn:Ev.
  - destruct (nm_data _ _ Hn Ev) as (Hne & Nd & Hhd & Enm & nm & Hnm).
    destruct Hw as [C1 C2]. left.
    exists (st_index st), (st_data st), (st_header st), (st_data_header st).
    split; [|done]. pose proof (nm_header _ _ Hn) as Hh.
    unfold is_var in Ev. apply Z.eqb_eq in Ev. rewrite Ev in Hh. unfold UINT32_MAX in Hfit.
    destruct (stream_at_intro f folder p (st_name st) (st_index st) (st_data st)) as [Hi Hd];
      try done; try apply Hn.
    eapply (crash_on_disk f _ _ _ _ _ nm _ []); try done; rewrite ?app_nil_r; try lia.
    + rewrite C1. by apply prefix_app_r.
    + by rewrite C1.
    + rewrite C2. by apply prefix_app_r.
    + by rewrite C2.
  - right. exists (st_index st), (st_header st), (st_size st). split; [|done].
    pose proof (nm_size _ _ Hn). unfold is_var in Ev. apply Z.eqb_neq in Ev.
    destruct Hfit as [Hz Hlen].
    assert (Hp : plain (st_name st +:+ ".idx")) by (apply plain_ext; [apply Hn|done|cbn; lia]).
    split; try done.
    + unfold stream_path. rewrite (status_child f folder p); [by apply Hn|done|done|].
      by rewrite (nm_index _ _ Hn).
    + rewrite stream_path_base. rewrite index_ext; [by eexists|].
      unfold join_slash. rewrite no_dot_app, Hdot. apply Hn.
    + apply Hn.
    + lia.
    + rewrite Forall_forall in *. auto.
    + by rewrite Hw.
    + rewrite Hw, (zlen_fixed_index _ (st_size st)); [|apply Hn|done].
      pose proof (zlen_nonneg (st_records st)). unfold LogFileHeader.size in *. lia.
Qed.

Definition record_day (requests : list LogRequest.t) : Folder.M (list Z) :=
  acks ← write_requests requests;
  Folder.close;;
  mret acks.

(** The files of a folder after it was closed. *)
Definition apart (S : gmap string stream) : Prop :=
  forall c c' st st' j, S !! c = Some st -> S !! c' = Some st' -> c <> c' ->
    j ∈ inodes st -> j ∉ inodes st'.

Definition kept_streams (sz : string -> Z) (requests : list LogRequest.t) (f : fs) : Prop :=
  exists S : gmap string stream, holds_requests sz S requests /\ apart S /\
    forall c st, S !! c = Some st -> named f st /\ labelled c st /\ written st f.

Lemma holds_requests_some sz S requests c :
  holds_requests sz S requests -> c ∈ LogRequest.channel <$> requests -> is_Some (S !! c).
Proof.
  intros Hh (r & -> & Hr)%list_elem_of_fmap. specialize (Hh (LogRequest.channel r)).
  destruct (S !! LogRequest.channel r); [by eexists|]. exfalso.
  apply (not_elem_of_nil (record_of r)). rewrite <- Hh. unfold channel_records.
  apply list_elem_of_fmap_2, list_elem_of_filter. done.
Qed.

(** The stream of one channel. *)
Lemma kept_stream sz requests f c :
  kept_streams sz requests f -> c ∈ LogRequest.channel <$> requests -> exists st,
    named f st /\ labelled c st /\ written st f /\
    st_size st = sz c /\ st_records st = channel_records c requests.
Proof.
  intros (S & Hh & _ & Hall) Hc. destruct (holds_requests_some sz S requests c Hh Hc) as [st HS].
  destruct (Hall c st HS) as (? & ? & ?). exists st. specialize (Hh c). rewrite HS in Hh. tauto.
Qed.

Lemma wp_close_recording d T S sz requests s :
  recording d T S s -> holds_requests sz S requests ->
  wp Folder.close (fun o s' => o = Ok tt /\ s'.1 = Folder.mk 0 folder ∅ /\
    nodes (w_fs s'.2) = nodes (w_fs s.2) /\ grows T s'.2 /\
    kept_streams sz requests (w_fs s'.2)) s.
Proof.
  intros R Hh. destruct s as [f1 w1].
  unfold Folder.close, Folder.get_f, Folder.in_world, Folder.modify_f.
  apply wp_bind, wp_gets. cbn [wp_rest fst]. apply wp_bind, wp_zoom.
  assert (Hfiles : forall c sw, Folder.files_ f1 !! c = Some sw ->
    exists st, S !! c = Some st /\ recorder st (sw, w1)).
  { intros c sw Hc. destruct (S !! c) as [st|] eqn:HS.
    - destruct (rc_some _ _ _ _ R _ _ HS) as (_ & sw' & Hc' & Hr). cbn [fst snd] in *.
      exists st. by simplify_eq.
    - pose proof (rc_none _ _ _ _ R _ HS) as Hc'. cbn [fst] in Hc'. congruence. }
  eapply wp_mono; [apply (wp_close_streams S)|].
  - apply NoDup_fst_map_to_list.
  - apply R.
  - intros c st HS. by destruct (rc_some _ _ _ _ R _ _ HS).
  - apply R.
  - intros c sw Hin%elem_of_map_to_list. by apply Hfiles.
  - cbn [snd]. intros o w2 (-> & F & Hall). cbn [wp_rest]. repeat wp_step. cbn [fst snd].
    pose proof (oa_nodes _ _ _ F) as En. pose proof (oa_next _ _ _ F) as Ex.
    pose proof (rc_folder _ _ _ _ R) as Ef. cbn [fst] in Ef.
    unfold Folder.set_day, Folder.set_files. cbn. rewrite Ef.
    split; [done|]. split; [done|]. split; [done|]. split.
    { eapply grows_appends; [apply (rc_grows _ _ _ _ R)|exact F|].
      apply Forall_forall. intros j (js & Hj & (c & -> & _)%list_elem_of_fmap)%list_elem_of_join.
      destruct (S !! c) as [st|] eqn:HS; [|by apply not_elem_of_nil in Hj].
      pose proof (rc_fresh _ _ _ _ R c st HS) as Hf. rewrite Forall_forall in Hf. by apply Hf. }
    exists S. split; [done|]. split; [exact (rc_apart _ _ _ _ R)|]. intros c st HS.
    destruct (rc_some _ _ _ _ R _ _ HS) as (Hn & sw & Hf & _). cbn [fst snd] in *.
    split; [|split; [apply (rc_label _ _ _ _ R _ _ HS)|]].
    + apply (named_mono (w_fs w1)); [by rewrite En|by rewrite Ex|done].
    + apply (Hall c st); [|done]. apply list_elem_of_fmap. exists (c, sw).
      by rewrite elem_of_map_to_list.
Qed.

(** A folder that has just been created. *)
Lemma recording_start d w :
  d <> 0 -> directory_at (w_fs w) folder p ->
  (forall n t, nodes (w_fs w) !! (p ++ [n]) <> Some (NLink t)) -> reliable w ->
  recording d w ∅ (Folder.mk d folder ∅, w).
Proof.
  intros. split; cbn [fst snd Folder.yyyymmdd_ Folder.folder_ Folder.files_]; try done.
  by apply grows_same.
Qed.

(** What is left of a day of recording. *)
Lemma wp_record_day sz requests day w :
  day <> 0 -> directory_at (w_fs w) folder p -> no_dot folder = true ->
  (forall n t, nodes (w_fs w) !! (p ++ [n]) <> Some (NLink t)) ->
  reliable w -> roomy w (length requests) -> Forall request_ok requests ->
  Forall (fun r => LogRequest.size r = sz (LogRequest.channel r)) requests ->
  (forall c, fits_stream (sz c) (channel_records c requests)) ->
  wp (record_day requests) (fun o s' =>
    o = Ok (map (fun r => acknowledgement (sz (LogRequest.channel r)) (record_of r)) requests) /\
    grows w s'.2 /\ kept_streams sz requests (w_fs s'.2))
    (Folder.mk day folder ∅, w).
Proof.
  intros Hday Hdir Hdot Hlinks Hrel Hroom Hok Hsz Hfit. unfold record_day.
  pose proof (recording_start day w Hday Hdir Hlinks Hrel) as R0.
  apply wp_bind. eapply wp_mono; [apply (wp_write_requests _ _ sz [] requests ∅ _ R0); done|].
  intros o s1 (S & -> & R & Hh). cbn [wp_rest app] in *. apply wp_bind.
  eapply wp_mono; [by eapply wp_close_recording|].
  intros o s2 (-> & _ & _ & G & Hk). cbn [wp_rest]. by apply wp_ret.
Qed.

(** C8. A day of recording. Requests for any channels, of fixed or variable record
    size, reach a folder in any interleaving, on a medium that does not fail. Each
    is acknowledged with the bytes its record takes; after the folder is closed
    there is, for every channel, an index file whose stream is complete and holds
    exactly the records of that channel, in the order of the requests. *)
Theorem channels_kept_apart sz requests day w :
  day <> 0 -> directory_at (w_fs w) folder p -> no_dot folder = true ->
  (forall n t, nodes (w_fs w) !! (p ++ [n]) <> Some (NLink t)) ->
  reliable w -> roomy w (length requests) -> Forall request_ok requests ->
  Forall (fun r => LogRequest.size r = sz (LogRequest.channel r)) requests ->
  (forall c, fits_stream (sz c) (channel_records c requests)) ->
  wp (record_day requests) (fun o s' =>
    o = Ok (map (fun r => acknowledgement (sz (LogRequest.channel r)) (record_of r)) requests) /\
    forall c, c ∈ LogRequest.channel <$> requests ->
      exists n, complete_stream (w_fs s'.2) (stream_path folder n) (channel_records c requests))
    (Folder.mk day folder ∅, w).
Proof.
  intros Hday Hdir Hdot Hlinks Hrel Hroom Hok Hsz Hfit.
  eapply wp_mono; [by apply (wp_record_day sz requests day w)|].
  intros o s' (-> & G & Hall). split; [done|]. intros c Hc.
  destruct (kept_stream _ _ _ c Hall Hc) as (st & Hnm & _ & Hw & Es & Er). exists (st_name st). rewrite <- Er.
  apply written_complete; try done; [|by rewrite Es, Er].
  eapply directory_at_mono; [apply (gr_nodes _ _ G)|done].
Qed.
End FolderSpec.

(** *** The guarantee at a concrete input

    Two channels, one with records of two bytes, in alternation. *)
#[local] Existing Instance utc_localtime.

Definition interleaved : list LogRequest.t :=
  [LogRequest.mk (Some "can0"%string) None (Some [x01; x02; x03]) (Some noon);
   LogRequest.mk (Some "gps"%string) (Some 2) (Some [x0a; x0b]) (Some (noon + 1000));
   LogRequest.mk (Some "can0"%string) None (Some []) (Some (noon + 2000));
   LogRequest.mk (Some "gps"%string) (Some 2) (Some [x0c; x0d]) (Some (noon + 3000))].

Definition sample_size (c : string) : Z := if decide (c = "gps"%string) then 2 else 0.

Lemma interleaved_fits c : fits_stream (sample_size c) (channel_records c interleaved).
Proof.
  destruct (decide (c = "can0"%string)) as [->|H1]; [|destruct (decide (c = "gps"%string)) as [->|H2]].
  - change (sample_size "can0") with 0. change (channel_records "can0" interleaved)
      with [mk_record noon [x01; x02; x03]; mk_record (noon + 2000) []].
    split; [|done]. repeat constructor; vm_compute; congruence.
  - change (sample_size "gps") with 2. change (channel_records "gps" interleaved)
      with [mk_record (noon + 1000) [x0a; x0b]; mk_record (noon + 3000) [x0c; x0d]].
    split; [|split; [|done]]; repeat constructor; vm_compute; congruence.
  - unfold sample_size. rewrite decide_False by done.
    replace (channel_records c interleaved) with (@nil record); [by repeat constructor|].
    unfold channel_records. rewrite list_filter_none; [done|].
    repeat constructor; cbn; congruence.
Qed.

Lemma interleaved_ok : Forall request_ok interleaved.
Proof.
  repeat constructor; try (vm_compute; congruence); cbn;
    rewrite ?elem_of_cons, elem_of_nil; intuition congruence.
Qed.

Lemma channels_kept_apart_witness :
  exists s', record_day interleaved (Folder.mk 20240101 "/log" ∅, sample_world) =
    (Ok [27; 10; 24; 10], s') /\
  exists n, complete_stream (w_fs s'.2) (stream_path "/log" n)
    [mk_record noon [x01; x02; x03]; mk_record (noon + 2000) []].
Proof.
  pose proof (sample_folder_ready sample_fs eq_refl) as Hr.
  pose proof (channels_kept_apart "/log" ["log"%string] sample_size interleaved 20240101 sample_world
    ltac:(done) ltac:(apply Hr) ltac:(reflexivity) ltac:(apply Hr)
    sample_reliable ltac:(vm_compute; reflexivity) interleaved_ok
    ltac:(repeat constructor) interleaved_fits) as W.
  unfold wp in W. destruct (record_day interleaved _) as [o s'] eqn:E. cbn [fst snd] in W.
  destruct W as [-> W]. exists s'. split; [reflexivity|]. apply (W "can0"%string). by left.
Defined.
