(* ===== verification/Recovery.v ===== *)
(** * Recovery of any stream

    [Recording] follows a stream of variable-size records from its opening to a
    reader; here the same is done for records of a fixed size, and the two are put
    together: what is found on disk after a crash at any moment, and after an
    orderly close. *)
From S2P Require Import Prelude DataTypes Calendar Format Protos FileSystem FileIO StreamWriter FileNames StreamWriterSpec Samples FileReader StreamReader Recording Folder FolderSpec.
Local Open Scope Z_scope.

(** ** Writing records of one size *)
Section FixedWrites.
Context {H : Type} {FI : FileIO H} {FV : FileIOView H} {FS : FileIOSpec H} {L : LocalTime}.
Import StreamWriter.
Context (i : nat) (h : LogFileHeader.t).
Context (Hsize : LogFileHeader.record_size_ h <> 0).
#[local] Abbreviation n := (LogFileHeader.record_size_ h).
#[local] Abbreviation sized ts := (Forall (fun r => zlen (r_data r) = n) ts).

(** What the client is told. *)
Definition acknowledgements (size : Z) (rs : list record) : list Z := map (acknowledgement size) rs.

(** After a failure every further write is refused. *)
Lemma fixed_write_all_stuck rs ts sw w :
  fixed_stuck i h rs (sw, w) -> sized ts ->
  wp (write_all ts) (fun o s' => only_appends [i] w s'.2 /\ fixed_crash i h rs s' /\
    o = Ok (replicate (length ts) (- EIO))) (sw, w).
Proof.
  revert sw w. induction ts as [|r ts IH]; intros sw w Hs Hts; cbn [write_all length replicate].
  - wp_step. split; [apply only_appends_refl|]. split; [by apply fixed_stuck_crash|done].
  - apply Forall_cons in Hts as [Hr Hts]. wp_step.
    eapply wp_mono; [by apply (fixed_write_stuck i h Hsize rs)|].
    intros o [sw1 w1] (A1 & _ & -> & Hs1). cbn [wp_rest fst snd] in *. wp_step.
    eapply wp_mono; [by apply IH|]. intros o s2 (A2 & Hc & ->). cbn [wp_rest]. wp_step.
    split; [by eapply only_appends_join|done].
Qed.

(** From a file in good order: the first [k] records are acknowledged, and the file
    is a leading part of the stream of these and at most one more. *)
Lemma fixed_write_all rs ts sw w :
  fixed_good i h rs (sw, w) -> sized ts ->
  wp (write_all ts) (fun o s' => only_appends [i] w s'.2 /\ exists k m,
    (k <= m <= S k)%nat /\ (m <= length ts)%nat /\ fixed_crash i h (rs ++ take m ts) s' /\
    o = Ok (acknowledgements n (take k ts) ++ replicate (length ts - k) (- EIO)) /\
    (reliable w -> k = length ts) /\ (k = length ts -> fixed_good i h (rs ++ ts) s')) (sw, w).
Proof.
  revert rs sw w. induction ts as [|[t d] ts IH]; intros rs sw w Hg Hts; cbn [write_all].
  - wp_step. split; [apply only_appends_refl|]. exists 0%nat, 0%nat. rewrite !app_nil_r.
    split_and!; try done; [lia|by apply fixed_good_crash].
  - apply Forall_cons in Hts as [Hr Hts]. cbn [r_data r_time] in *. wp_step.
    eapply wp_mono; [by apply (fixed_write_good i h Hsize rs t d)|]. cbn zeta.
    intros o [sw1 w1] (A1 & _ & z & -> & Hcase). cbn [wp_rest fst snd] in *. wp_step.
    destruct Hcase as [[-> Hg1]|(-> & Hrel & Hs)].
    + eapply wp_mono; [by apply (IH (rs ++ [mk_record t d]))|].
      intros o s2 (A2 & k & m & Hk & Hm & Hc & -> & Hr2 & Hg2). cbn [wp_rest]. wp_step.
      split; [by eapply only_appends_join|]. exists (S k), (S m). rewrite <- app_assoc in Hc, Hg2.
      cbn [length take app acknowledgements map Nat.sub] in *.
      split_and!; try done; try lia.
      * unfold acknowledgement at 1. by rewrite (proj2 (Z.eqb_neq _ _)).
      * intros Hw. f_equal. apply Hr2. by eapply only_appends_reliable.
      * intros [= E]. by apply Hg2.
    + eapply wp_mono; [by apply (fixed_write_all_stuck (rs ++ [mk_record t d]))|].
      intros o s2 (A2 & Hc & ->). cbn [wp_rest]. wp_step.
      split; [by eapply only_appends_join|]. exists 0%nat, 1%nat. cbn [length take]. rewrite take_0.
      split_and!; try done; lia.
Qed.
End FixedWrites.

(** ** Reading them *)
Section FixedReads.
Context (f : fs) (path : string) (i : nat) (h : LogFileHeader.t) (n : Z) (rs : list record).
Hypothesis on_disk : fixed_on_disk f path i h n rs.
#[local] Abbreviation count := (complete_records (contents f i) (8 + n)).

Lemma count_nonneg : 0 <= count.
Proof. destruct on_disk. unfold complete_records. apply Z.div_pos; lia. Qed.

(** Whatever is left, reading is safe. *)
Lemma fixed_on_disk_faithful ks :
  Forall (fun k => 0 <= k) ks ->
  exists rd xs, StreamReader.construct f path = Ok rd /\ (read_seq f ks rd).1 = Ok xs /\
    Forall2 (faithful rs) ks xs.
Proof.
  intros Hks. rewrite Forall_forall in Hks.
  destruct (fixed_on_disk_reader f path i h n rs on_disk) as (ir & _ & Hr & Ec & Hgood & Hempty).
  pose proof count_nonneg. destruct (decide (IndexFileReader.records_cnt_ ir = 0)) as [E|E].
  - eexists. destruct (unhealthy_faithful f rs ks (StreamReader.mk (Some ir) None kEmpty)) as (xs & ? & ?); [done|].
    exists xs. split; [by apply Hempty|done].
  - destruct (Hgood ltac:(lia)) as [Hc Hv]. eexists.
    destruct (wp_read_seq f (fixed_reader f i h count) (faithful rs) ks _ Hv) as (xs & Hx & HF);
      [|exists xs; by split_and!].
    intros k rd Hk Hrd. specialize (Hks k Hk). destruct (decide (k < count)) as [Hlt|Hge].
    + destruct (fixed_on_disk_read f path i h n rs rd k on_disk Hrd ltac:(lia)) as (r & Er & W).
      eapply wp_mono; [exact W|]. intros o rd2 (V2 & _ & ->). split; [done|]. eexists; split; [done|].
      destruct (r_time r =? 0); [by left|right; eauto].
    + eapply wp_mono; [apply (wp_read_fixed_out f i h count rd k _ Hrd ltac:(lia))|].
      intros o rd2 (V2 & ->). split; [done|]. eexists; split; [done|by left].
Qed.

(** A complete recording is read back record for record. *)
Lemma fixed_on_disk_exactly ks :
  contents f i = fixed_index_file h rs -> rs <> [] ->
  Forall (fun r => r_time r <> 0) rs -> Forall (fun k => 0 <= k < zlen rs) ks ->
  exists rd xs, StreamReader.construct f path = Ok rd /\ (read_seq f ks rd).1 = Ok xs /\
    Forall2 (exactly rs) ks xs.
Proof.
  intros Ci Hne Ht Hks. rewrite Forall_forall in Hks. pose proof on_disk as [_ _ Hh Hn Hrs _ _].
  destruct (fixed_on_disk_reader f path i h n rs on_disk) as (ir & _ & Hr & Ec & Hgood & _).
  assert (Ecnt : count = zlen rs).
  { unfold complete_records. rewrite Ci, (zlen_fixed_index h n);
      [|done|eapply Forall_impl; [exact Hrs|]; by intros ? [??]].
    by rewrite Z.add_simpl_l, Z.mul_comm, Z.div_mul by lia. }
  assert (0 < zlen rs) by (destruct rs; [done|unfold zlen; cbn; lia]).
  destruct (Hgood ltac:(lia)) as [Hc Hv]. eexists.
  destruct (wp_read_seq f (fixed_reader f i h count) (exactly rs) ks _ Hv) as (xs & Hx & HF);
    [|exists xs; by split_and!].
  intros k rd Hk Hrd. specialize (Hks k Hk).
  destruct (fixed_on_disk_read f path i h n rs rd k on_disk Hrd ltac:(lia)) as (r & Er & W).
  eapply wp_mono; [exact W|]. intros o rd2 (V2 & _ & ->). split; [done|].
  eexists; split; [done|]. exists r. split; [done|].
  by rewrite (proj2 (Z.eqb_neq _ 0)) by (apply (Forall_lookup_1 _ _ _ _ Ht Er)).
Qed.
End FixedReads.

(** ** From opening to closing *)
Section FixedRecordings.
Context {H : Type} {FI : FileIO H} {FV : FileIOView H} {FS : FileIOSpec H} {L : LocalTime}.
Import StreamWriter.
Context (folder : string) (p : path) (request : LogRequest.t) (ts : list record) (w : world).
Hypothesis request_good : good_request (w_fs w) folder p request.
Hypothesis request_sized : 0 < LogRequest.size request < 2 ^ 32.
Hypothesis records_fit : fits_stream (LogRequest.size request) ts.
#[local] Abbreviation n := (LogRequest.size request).
#[local] Abbreviation h := (@index_header H folder request).

Lemma fixed_header : header_ok kIndexFile n h /\ LogFileHeader.record_size_ h = n.
Proof.
  split; [|done]. apply (header_of_ok (set_request (LogRequest.channel request) n (create folder)));
    [apply request_good|cbn; lia|done].
Qed.

Lemma fixed_fits :
  Forall (fun r => record_ok r /\ zlen (r_data r) = n) ts /\ LogFileHeader.size + (8 + n) * zlen ts < 2 ^ 32.
Proof.
  destruct records_fit as [H1 H2]. rewrite (proj2 (Z.eqb_neq n 0)) in H2 by lia.
  destruct H2 as [H2 H3]. split; [|lia]. rewrite Forall_forall in *. auto.
Qed.

(** The name leads to the index file. *)
Definition index_at (f : fs) (nm : string) (i : nat) : Prop :=
  status f (stream_path folder nm) = Some (NFile i) /\ is_Some (String.index 0 ".idx" (stream_path folder nm)).

Lemma index_at_intro f nm i :
  directory_at f folder p -> no_slash nm = true -> no_dot nm = true ->
  nodes f !! (p ++ [nm +:+ ".idx"]) = Some (NFile i) -> index_at f nm i.
Proof.
  intros Hd Hn Hdot Hi. split.
  - unfold stream_path. rewrite (status_child f folder p); [done|done| |by rewrite Hi].
    apply plain_ext; [done|done|cbn; lia].
  - rewrite stream_path_base, index_ext; [done|]. unfold join_slash.
    rewrite no_dot_app, (gq_folder_dot _ _ _ _ request_good). exact Hdot.
Qed.

Lemma index_at_nodes f f' nm i : nodes f = nodes f' -> index_at f nm i -> index_at f' nm i.
Proof. intros En [Hs Hx]. split; [|done]. by rewrite <- (status_nodes f). Qed.

Lemma wp_openFile_fixed :
  wp (openFile request) (fun o s => exists r, o = Ok r /\ grows w s.2 /\
    ((r = LogFileHeader.size /\ exists nm i, (next_ino (w_fs w) <= i)%nat /\ index_at (w_fs s.2) nm i /\
        contents (w_fs s.2) i = LogFileHeader.encode h /\ fixed_good i h [] s) \/
     (r < 0 /\ ~ reliable w))) (create folder, w).
Proof.
  destruct request_good as [Hf Hfd Hs Hd _ Ht]. unfold openFile. sw_step. sw_step. cbn [wp_rest fst snd].
  set (sw := set_request _ _ _).
  eapply wp_mono; [apply (wp_reopenFile _ sw w p); done|].
  intros o [sw' w'] (r & -> & _ & G & Hcase). cbn [fst snd] in *. exists r.
  split; [done|]. split; [done|]. destruct Hcase as [Hr|([-> | ->] & Hrel & Ho)]; [left|right; done|right; done].
  unfold reopened in Hr. change (record_size_ sw) with n in Hr. rewrite (proj2 (Z.eqb_neq n 0)) in Hr by lia.
  destruct Hr as [-> (nm & i & [j ->] & Hn & Hi & _ & Hnode & Ci & Hg)].
  split; [done|]. eexists _, i. split; [done|]. split; [|done]. eapply index_at_intro; [|exact Hn| |exact Hnode].
  - eapply directory_at_mono; [apply (gr_nodes _ _ G)|apply Hf].
  - by apply candidate_no_dot, fileName_no_dot.
Qed.

(** What a recording has left behind: a file that holds a leading part of the
    stream of [m] records, of which [k] were acknowledged. *)
Record left_behind (f : fs) (nm : string) (i k m : nat) : Prop := {
  lb_counts : (k <= m <= S k)%nat /\ (m <= length ts)%nat;
  lb_index : index_at f nm i;
  lb_header_there : LogFileHeader.encode h `prefix_of` contents f i;
  lb_contents : contents f i `prefix_of` fixed_index_file h (take m ts)
}.

Lemma left_behind_on_disk f nm i k m :
  left_behind f nm i k m -> fixed_on_disk f (stream_path folder nm) i h n (take m ts).
Proof.
  intros [_ [Hs Hx] Hh Hc]. destruct fixed_header as [Hok _], fixed_fits as [Hts Hlen].
  assert (Hall : Forall (fun r => record_ok r /\ zlen (r_data r) = n) (take m ts)) by by apply Forall_take.
  split; try done; [lia|]. pose proof (prefix_zlen _ _ Hh) as Z1. pose proof (prefix_zlen _ _ Hc) as Z2.
  rewrite (zlen_fixed_index h n) in Z2; [|done|eapply Forall_impl; [exact Hall|]; by intros ? [??]].
  assert (zlen (LogFileHeader.encode h) = LogFileHeader.size) as E.
  { destruct Hok as [Hw _ _ _]. unfold zlen. by rewrite LogFileHeader.length_encode. }
  rewrite E in Z1. split; [done|].
  assert (zlen (take m ts) <= zlen ts) by (unfold zlen; rewrite length_take; lia).
  assert ((8 + n) * zlen (take m ts) <= (8 + n) * zlen ts) by (apply Z.mul_le_mono_nonneg_l; lia). lia.
Qed.

Lemma wp_record_stream_fixed :
  wp (record_stream request ts) (fun o s => exists r ns, o = Ok (r, ns) /\
    ((r = LogFileHeader.size /\ exists nm i k m, left_behind (w_fs s.2) nm i k m /\
        ns = acknowledgements n (take k ts) ++ replicate (length ts - k) (- EIO) /\
        (reliable w -> k = length ts /\ reliable s.2 /\ fixed_good i h ts s) /\ fixed_crash i h (take m ts) s) \/
     (r < 0 /\ ~ reliable w))) (create folder, w).
Proof.
  destruct fixed_header as [_ Hn], fixed_fits as [Hts _]. unfold record_stream. wp_step.
  eapply wp_mono; [apply wp_openFile_fixed|].
  intros o [sw1 w1] (r & -> & G1 & [[-> Hop]|(Hr & Hrel)]); cbn [fst snd wp_rest] in *; cycle 1.
  { rewrite (proj2 (Z.leb_le r 0)) by lia. wp_step. eexists _, _. split; [done|]. by right. }
  change (LogFileHeader.size <=? 0) with false. cbv iota. wp_step.
  destruct Hop as (nm & i & Hi & Hat & Ci & Hg).
  eapply wp_mono; [apply (fixed_write_all i h ltac:(lia) [] ts sw1 w1 Hg)|].
  { eapply Forall_impl; [exact Hts|]. intros r [_ E]. by rewrite Hn. }
  intros o [sw2 w2] (F & k & m & Hk & Hm & Hc & -> & Hrel & Hgood). cbn [wp_rest fst snd app] in *. wp_step.
  eexists _, _. split; [done|]. left. split; [done|]. exists nm, i, k, m. rewrite Hn. split; [|split; [done|split; [|done]]].
  - split; [done| | |].
    + eapply index_at_nodes; [|exact Hat]. symmetry. apply F.
    + rewrite <- Ci. apply F.
    + destruct Hc as (hi & _ & _ & _ & Hl & _). cbn [fst snd] in Hl. etrans; [|exact Hl].
      unfold logical. by apply prefix_app_r.
  - intros Hw. assert (reliable w1) as Hw1 by (eapply reliable_env; [apply G1|done]).
    specialize (Hrel Hw1). split; [done|]. split; [by eapply only_appends_reliable|by apply Hgood].
Qed.

(** Closing keeps it, and completes it on a medium that does not fail. *)
Lemma left_behind_closed s nm i k m :
  left_behind (w_fs s.2) nm i k m -> fixed_crash i h (take m ts) s ->
  (reliable w -> k = length ts /\ reliable s.2 /\ fixed_good i h ts s) ->
  wp closeFile (fun o s' => o = Ok tt /\ left_behind (w_fs s'.2) nm i k m /\
    (reliable w -> contents (w_fs s'.2) i = fixed_index_file h ts)) s.
Proof.
  intros [Hcnt Hat Hh Hc] Hcr Hrel. destruct s as [sw1 w1]. cbn [fst snd] in *.
  eapply wp_mono; [apply (wp_closeFile_fixed i h (take m ts) sw1 w1 Hcr)|].
  intros o s' (-> & F & _ & Hp & Hall). split; [done|]. split.
  - split; [done| | |done].
    + eapply index_at_nodes; [|exact Hat]. symmetry. apply F.
    + etrans; [exact Hh|apply F].
  - intros Hw. destruct (Hrel Hw) as (-> & Hw1 & Hg).
    assert (m = length ts) as -> by lia. rewrite firstn_all in Hall. by apply Hall.
Qed.
End FixedRecordings.

(** ** The guarantees of any recording *)
Section Guarantees.
Context {H : Type} {FI : FileIO H} {FV : FileIOView H} {FS : FileIOSpec H} {L : LocalTime}.
Import StreamWriter.

(** The bytes of the headers. *)
Definition opened_bytes (size : Z) : Z := if size =? 0 then 2 * LogFileHeader.size else LogFileHeader.size.

(** The stream was opened ([r]); the results [ns] acknowledge a leading part of
    [ts]; a reader of the files returns only records of [ts]. *)
Definition recovered (folder : string) (size : Z) (ts : list record) (ks : list Z) (r : Z) (ns : list Z)
    (f : fs) : Prop :=
  r = opened_bytes size /\ exists nm k rd xs,
    (k <= length ts)%nat /\
    ns = acknowledgements size (take k ts) ++ replicate (length ts - k) (- EIO) /\
    StreamReader.construct f (stream_path folder nm) = Ok rd /\
    (read_seq f ks rd).1 = Ok xs /\ Forall2 (faithful ts) ks xs.

Lemma crash_recovery_fixed closing folder p request ts ks w :
  good_request (w_fs w) folder p request -> 0 < LogRequest.size request < 2 ^ 32 ->
  fits_stream (LogRequest.size request) ts -> Forall (fun k => 0 <= k) ks ->
  wp (record_and closing request ts) (fun o s => exists r ns, o = Ok (r, ns) /\
    (recovered folder (LogRequest.size request) ts ks r ns (w_fs s.2) \/ (r < 0 /\ ~ reliable w))) (@create H folder, w).
Proof.
  intros Hq Hn Hts Hks. unfold record_and. wp_step.
  eapply wp_mono; [by apply (wp_record_stream_fixed folder p request ts w)|].
  intros o s (r & ns & -> & Hcase). cbn [wp_rest]. wp_step.
  assert (Hfin : forall f nm i k m, left_behind (H := H) folder request ts f nm i k m -> r = LogFileHeader.size ->
    ns = acknowledgements (LogRequest.size request) (take k ts) ++ replicate (length ts - k) (- EIO) ->
    recovered folder (LogRequest.size request) ts ks r ns f \/ (r < 0 /\ ~ reliable w)).
  { intros f nm i k m Hl -> ->. left. split; [unfold opened_bytes; by rewrite (proj2 (Z.eqb_neq _ 0)) by lia|].
    destruct (fixed_on_disk_faithful _ _ _ _ _ _ (left_behind_on_disk folder p request ts w Hq Hn Hts f nm i k m Hl) ks Hks)
      as (rd & xs & Hc & Hx & HF).
    exists nm, k, rd, xs. pose proof (lb_counts _ _ _ _ _ _ _ _ Hl). split_and!; try done; [lia|].
    eapply Forall2_impl; [exact HF|]. intros z x [->|(rc & Er & ->)]; [by left|right].
    exists rc. split; [|done]. by apply lookup_take_Some in Er as [? _]. }
  destruct Hcase as [[Er (nm & i & k & m & Hl & Hns & Hrel & Hc)]|[Hr Hrel]]; destruct closing.
  - eapply wp_mono; [by apply (left_behind_closed folder request ts w s nm i k m)|].
    intros o s' (-> & Hl' & _). repeat wp_step. eexists _, _. split; [done|]. by eapply Hfin.
  - repeat wp_step. eexists _, _. split; [done|]. by eapply Hfin.
  - destruct s as [sw1 w1]. eapply wp_mono; [apply wp_closeFile|]. intros o s' (-> & _).
    repeat wp_step. eexists _, _. split; [done|]. by right.
  - repeat wp_step. eexists _, _. split; [done|]. by right.
Qed.

Lemma round_trip_fixed folder p request ts ks w :
  good_request (w_fs w) folder p request -> 0 < LogRequest.size request < 2 ^ 32 ->
  fits_stream (LogRequest.size request) ts ->
  ts <> [] -> Forall (fun r => r_time r <> 0) ts -> Forall (fun k => 0 <= k < zlen ts) ks ->
  reliable w ->
  wp (record_and true request ts) (fun o s =>
    o = Ok (LogFileHeader.size, acknowledgements (LogRequest.size request) ts) /\ exists nm rd xs,
      StreamReader.construct (w_fs s.2) (stream_path folder nm) = Ok rd /\
      (read_seq (w_fs s.2) ks rd).1 = Ok xs /\ Forall2 (exactly ts) ks xs) (@create H folder, w).
Proof.
  intros Hq Hn Hts Hne Ht Hks Hr. unfold record_and. wp_step.
  eapply wp_mono; [by apply (wp_record_stream_fixed folder p request ts w)|].
  intros o s (r & ns & -> & [[-> (nm & i & k & m & Hl & -> & Hrel & Hc)]|[_ Hrel]]); [|done].
  cbn [wp_rest]. wp_step. eapply wp_mono; [by apply (left_behind_closed folder request ts w s nm i k m)|].
  intros o s' (-> & Hl' & Hall). specialize (Hall Hr). destruct (Hrel Hr) as (-> & _ & _).
  pose proof (left_behind_on_disk folder p request ts w Hq Hn Hts _ _ _ _ _ Hl') as Hd.
  assert (m = length ts) as -> by (pose proof (lb_counts _ _ _ _ _ _ _ _ Hl'); lia).
  rewrite firstn_all in *. rewrite Nat.sub_diag, app_nil_r. repeat wp_step. split; [done|]. exists nm.
  by apply (fixed_on_disk_exactly _ _ i _ _ ts Hd).
Qed.


(** C7: round trip. Where no operation of the medium fails, opening a stream,
    writing any non-empty sequence of records with non-zero timestamps, of any size
    or of the stream's, and closing it returns the byte counts of all of them, and a
    reader of the files returns, for every index and in any order, exactly the
    record with that index. *)
Theorem recording_round_trip folder p request ts ks w :
  good_request (w_fs w) folder p request -> 0 <= LogRequest.size request < 2 ^ 32 ->
  fits_stream (LogRequest.size request) ts ->
  ts <> [] -> Forall (fun r => r_time r <> 0) ts -> Forall (fun k => 0 <= k < zlen ts) ks ->
  reliable w ->
  wp (record_and true request ts) (fun o s =>
    o = Ok (opened_bytes (LogRequest.size request), acknowledgements (LogRequest.size request) ts) /\ exists nm rd xs,
      StreamReader.construct (w_fs s.2) (stream_path folder nm) = Ok rd /\
      (read_seq (w_fs s.2) ks rd).1 = Ok xs /\ Forall2 (exactly ts) ks xs) (@create H folder, w).
Proof.
  intros Hq Hn Hts Hne Ht Hks Hr. destruct (decide (LogRequest.size request = 0)) as [E|E].
  - rewrite E in *. by apply (round_trip_variable folder p).
  - unfold opened_bytes. rewrite (proj2 (Z.eqb_neq _ 0)) by done.
    apply (round_trip_fixed folder p); [done|lia|done..].
Qed.
End Guarantees.

(** *** The guarantees at concrete inputs *)
#[local] Existing Instance utc_localtime.

(** A stream of records of two bytes, on a medium that fails once. *)
Definition sized_request : LogRequest.t :=
  LogRequest.mk (Some "gps"%string) (Some 2) (Some [x01; x02]) (Some noon).
Definition sized_records : list record :=
  [mk_record noon [x01; x02]; mk_record (noon + 1000) [x03; x04]; mk_record (noon + 2000) [xff; x00]].

Lemma sized_good_request w :
  nodes (w_fs w) = nodes sample_fs -> good_request (w_fs w) "/log" ["log"%string] sized_request.
Proof.
  intros En. split; try done.
  - by apply sample_folder_ready.
  - split; [|vm_compute; lia]. apply (bool_decide_unpack _). vm_compute. exact I.
Qed.

Lemma sized_fit : fits_stream 2 sized_records.
Proof. split; [repeat constructor; vm_compute; congruence|]. split; [repeat constructor|vm_compute; congruence]. Qed.


Lemma recording_round_trip_witness :
  wp (record_and true sample_request sample_records) (fun o s =>
    o = Ok (98, acknowledgements 0 sample_records) /\ exists nm rd xs,
      StreamReader.construct (w_fs s.2) (stream_path "/log" nm) = Ok rd /\
      (read_seq (w_fs s.2) [2; 0; 1] rd).1 = Ok xs /\ Forall2 (exactly sample_records) [2; 0; 1] xs)
    (@StreamWriter.create StandardFileIO.t "/log", sample_world).
Proof.
  apply (recording_round_trip "/log" ["log"%string] sample_request sample_records [2; 0; 1]).
  - apply (sample_good_request sample_world). reflexivity.
  - vm_compute. split; [congruence|reflexivity].
  - exact sample_good_records.
  - discriminate.
  - repeat constructor; discriminate.
  - repeat constructor; vm_compute; congruence.
  - exact sample_reliable.
Defined.
