(* ===== verification/EndToEnd.v ===== *)
(** * From a recorded day to what a client reads

    A day is recorded in its folder under the root of a scanner; the scanner lists
    every channel under its name and reads back its records. *)
From Stdlib Require Import Ascii.
From S2P Require Import Prelude DataTypes Calendar Format Protos FileSystem FileIO StreamWriter FileNames StreamWriterSpec Samples FileReader StreamReader Recording Folder StorageScanner ScannerSpec Discovery FolderSpec.
Local Open Scope Z_scope.

(** ** Names and paths *)

Lemma path_string_snoc p x :
  p <> [] -> path_string (p ++ [x]) = join_slash (path_string p) x.
Proof.
  intros Hp. assert (path_string (p ++ [x]) =
    foldr (fun c s => String slash (c +:+ s)) EmptyString (p ++ [x])) as -> by (by destruct p).
  assert (path_string p = foldr (fun c s => String slash (c +:+ s)) EmptyString p) as ->
    by (by destruct p).
  unfold join_slash. rewrite foldr_app. cbn [foldr]. rewrite append_nil_r.
  clear Hp. induction p as [|a p IH]; [done|]. cbn [foldr]. rewrite IH.
  change (String slash (a +:+ ?u) +:+ ?v) with (String slash ((a +:+ u) +:+ v)).
  by rewrite append_assoc.
Qed.

Lemma from_last_dot_ext base :
  from_last_dot (base +:+ ".idx") = Some ".idx"%string.
Proof.
  induction base as [|c base IH]; [vm_compute; reflexivity|].
  change (from_last_dot (String c base +:+ ".idx")) with
    (match from_last_dot (base +:+ ".idx") with
     | Some e => Some e
     | None => if decide (c = "."%char) then Some (String c base +:+ ".idx") else None
     end). by rewrite IH.
Qed.

Lemma name_extension_ext base :
  base <> EmptyString -> name_extension (base +:+ ".idx") = ".idx"%string.
Proof.
  intros Hb. destruct base as [|c base]; [done|]. unfold name_extension.
  rewrite decide_False.
  - change (String c base +:+ ".idx") with (String c (base +:+ ".idx")). cbn [default].
    by rewrite from_last_dot_ext.
  - intros [E|E]; apply (f_equal String.length) in E; rewrite length_append in E; cbn in E; lia.
Qed.

(** A channel's name has no null character. *)
Lemma name_bytes_no_nul c : x00 ∉ StreamWriter.name_bytes c -> no_char nul c = true.
Proof.
  unfold StreamWriter.name_bytes. induction c as [|a c IH]; [done|].
  change (String.list_byte_of_string (String a c)) with (byte_of_ascii a :: String.list_byte_of_string c).
  cbn [no_char]. rewrite not_elem_of_cons. intros [Ha Hc].
  rewrite IH by done. rewrite andb_true_r. apply negb_true_iff, bool_decide_eq_false.
  intros ->. by apply Ha.
Qed.

(** ** Reading a recorded day *)
Section EndToEnd.
Context {L : LocalTime} (s : StorageScanner.t) (d : Z).
Import StorageScanner.

Definition day : string := to_string d.
Definition day_folder : string := path_string (folder_ s ++ [day]).

Lemma day_no_char x : not_added x -> no_char x day = true.
Proof. apply not_added_number. Qed.

(** What was written for a channel is an index that discovery handles. *)
Lemma written_index_ok f c st :
  fs_tree f -> node_at f (folder_ s) = Some NDir -> node_at f (folder_ s ++ [day]) = Some NDir ->
  no_dot day_folder = true -> good_channel c -> no_char "\" c = true ->
  named (folder_ s ++ [day]) f st -> labelled c st -> written st f ->
  fits_stream (st_size st) (st_records st) ->
  Forall (fun r => r_time r <> 0) (st_records st) ->
  let name := (st_name st +:+ ".idx")%string in
  let streams (_ _ : string) := (StreamWriter.name_bytes c, st_records st) in
  index_ok f s streams day name /\ is_index f s day name = true.
Proof.
  intros Ht Hroot Hday Hdot [_ _ Hz _] Hbs Hn [Lh Ln Lc] Hw Hfit Htm name streams.
  assert (Hd : directory_at f day_folder (folder_ s ++ [day])).
  { split; [|done]. unfold day_folder. rewrite resolve_path_string by (eapply tree_plain_path; eauto).
    by apply (walk_self f _ _ NDir). }
  assert (Hplain : plain name) by (apply plain_ext; [apply Hn|done|cbn; lia]).
  assert (Hp : path_string (folder_ s ++ [day; name]) = stream_path day_folder (st_name st)).
  { change [day; name] with ([day] ++ [name]). rewrite app_assoc, path_string_snoc by (by destruct (folder_ s)).
    done. }
  pose proof (written_complete day_folder (folder_ s ++ [day]) f st Hd Hdot Hn Hw Hfit) as Hc.
  rewrite <- Hp in Hc.
  assert (Hnode : nodes f !! ((folder_ s ++ [day]) ++ [name]) = Some (NFile (st_index st))) by apply Hn.
  assert (Hchar : forall x, not_added x -> no_char x c = true -> no_char x ".idx" = true ->
    no_char x "/" = true -> no_char x (join_slash day name) = true).
  { intros x Hx Hxc Hxe Hxs. unfold join_slash, name. change (String slash ?u) with ("/" +:+ u).
    by rewrite !no_char_app, (day_no_char x), (Lc x), Hxe, Hxs by done. }
  split; [split|].
  - exists (st_index st). change [day; name] with ([day] ++ [name]).
    by rewrite app_assoc, node_at_snoc.
  - apply Hchar; [exact not_added_nul|by apply name_bytes_no_nul|done|done].
  - apply Hchar; [exact not_added_backslash|done|done|done].
  - exact Hc.
  - exact Htm.
  - destruct (complete_header f _ _ Hc) as (i & Hi & Hh & _). cbn zeta in Hh.
    assert (i = st_index st) as ->.
    { pose proof (status_child f day_folder (folder_ s ++ [day]) name Hd Hplain) as Hst.
      rewrite Hnode in Hst. rewrite Hp in Hi. unfold stream_path in Hi. fold name in Hi.
      rewrite Hst in Hi by done. by injection Hi. }
    unfold IndexFileReader.header in Hh. unfold FileReader.name. rewrite Hh.
    unfold streams. cbn [fst]. rewrite <- Lh. do 2 f_equal. unfold written in Hw.
    pose proof (nm_header _ _ _ Hn) as Hho.
    destruct (is_var st); [destruct Hw as [Hw _]|]; rewrite Hw; by eapply header_decode.
  - unfold is_index. apply andb_true_iff. split; [|apply bool_decide_eq_true; by apply name_extension_ext].
    apply negb_true_iff. unfold is_directory.
    by rewrite (status_child f _ _ name (day_directory_at f Ht s Hroot day Hday) Hplain), Hnode
      by (by rewrite Hnode).
Qed.

Lemma channel_records_nonempty c requests :
  c ∈ LogRequest.channel <$> requests -> channel_records c requests <> [].
Proof.
  intros (r & -> & Hr)%list_elem_of_fmap E. apply (not_elem_of_nil (record_of r)). rewrite <- E.
  unfold channel_records. apply list_elem_of_fmap_2, list_elem_of_filter. done.
Qed.

Lemma node_at_weaken f f' q n :
  nodes f ⊆ nodes f' -> node_at f q = Some n -> node_at f' q = Some n.
Proof. intros Hs. unfold node_at. destruct q; [done|]. intros Hq. by eapply lookup_weaken. Qed.

(** What a scanner answers about a day of requests: under some identifier it
    returns exactly the records of a channel that the range, the start index and the
    maximum select, and lists it with its name, count and times. *)
Definition day_readable (requests : list LogRequest.t) (f : fs) : Prop :=
  forall c, c ∈ LogRequest.channel <$> requests ->
    let rs := channel_records c requests in
    exists name,
      (forall a b start max, 0 <= start < 2 ^ 32 -> 0 <= max < 2 ^ 32 ->
        getData f s (join_slash day name) a b start max =
          Ok (DataStreamsResponse.mk []
                (take (Z.to_nat max) (selected a b (drop (Z.to_nat start) rs))) None)) /\
      (forall a b k r, a <= b -> first_time rs <= b -> a <= last_time rs ->
        extractStream f s (day_path s day) a b k name r =
          (Ok tt, DataStreamsResponse.add_stream
             (DataStream.mk (Some c) (Some k) (Some (join_slash day name)) (Some (u32 (zlen rs)))
                (Some kHealthy) (Some (first_time rs)) (Some (last_time rs))) r)).

Lemma kept_readable sz requests f :
  fs_tree f -> node_at f (folder_ s) = Some NDir ->
  node_at f (folder_ s ++ [day]) = Some NDir -> no_dot day_folder = true ->
  Forall request_ok requests ->
  Forall (fun r => no_char "\" (LogRequest.channel r) = true /\ LogRequest.time_ns r <> 0) requests ->
  (forall c, fits_stream (sz c) (channel_records c requests)) ->
  (forall c, StronglySorted by_time (channel_records c requests)) ->
  kept_streams (folder_ s ++ [day]) sz requests f -> day_readable requests f.
Proof.
  intros HT Hr' Hday Hdot Hok Hsafe Hfit Hsort Hall c Hc rs.
  destruct (kept_stream _ _ _ _ c Hall Hc) as (st & Hnm & Hlb & Hw & Es & Er). fold rs in Er.
  pose proof Hc as (rq & Erq & Hrq)%list_elem_of_fmap. rewrite Forall_forall in Hok, Hsafe.
  destruct (Hsafe _ Hrq) as [Hbs _]. pose proof (rq_channel _ (Hok _ Hrq)) as Hgc. rewrite <- Erq in *.
  assert (Htm : Forall (fun r => r_time r <> 0) rs).
  { apply Forall_forall. intros r (rq' & -> & [_ Hq]%list_elem_of_filter)%list_elem_of_fmap.
    by apply (Hsafe rq'). }
  destruct (written_index_ok f c st) as [Hix Hi]; try done; rewrite ?Es, ?Er; try done.
  rewrite Er in Hix. cbn [snd fst] in *. exists (st_name st +:+ ".idx")%string.
  pose proof Hix as [[i Hnode] Hnul Hb2 Hst _ _]. cbn [snd] in Hst.
  split.
  - intros a b start max Hstart Hmax.
    unfold is_index in Hi. apply andb_true_iff in Hi as [_ Hext%bool_decide_eq_true].
    destruct (identifier_resolves f HT s day _ i Hr' Hnode Hnul Hb2 Hext
                (complete_validIndex f _ _ Hst)) as [_ Eid].
    apply (getData_complete f s _ _ rs a b start max Eid Hst Htm (Hsort c) Hstart Hmax).
  - intros a b k r Hab H1 H2.
    rewrite (extractStream_listing f HT s Hr' (fun _ _ => (StreamWriter.name_bytes c, rs))) by done.
    unfold listing. rewrite Hi, bool_decide_eq_false_2 by by apply channel_records_nonempty.
    rewrite !(proj2 (Z.leb_le _ _)) by done. cbn [negb andb].
    unfold StreamWriter.name_bytes. by rewrite String.string_of_list_byte_of_string.
Qed.

(** What is recorded is what is read. A day of requests for any channels, in
    any interleaving and of fixed or variable record size, is written to the day's
    folder below the root of a scanner, on a medium that does not fail. Every
    request is acknowledged; and after the folder is closed the scanner lists, for
    every channel whose records touch the requested range, a healthy stream with
    the channel's name, the number of its records and its first and last time,
    under an identifier for which it returns exactly the records of that channel,
    in their order, that the range, the start index and the maximum select. *)
Lemma recorded_then_read sz requests w :
  fs_tree (w_fs w) -> node_at (w_fs w) (folder_ s) = Some NDir ->
  node_at (w_fs w) (folder_ s ++ [day]) = Some NDir -> no_dot day_folder = true ->
  (forall n t, nodes (w_fs w) !! ((folder_ s ++ [day]) ++ [n]) <> Some (NLink t)) -> d <> 0 ->
  reliable w -> roomy w (length requests) -> Forall request_ok requests ->
  Forall (fun r => no_char "\" (LogRequest.channel r) = true /\ LogRequest.time_ns r <> 0) requests ->
  Forall (fun r => LogRequest.size r = sz (LogRequest.channel r)) requests ->
  (forall c, fits_stream (sz c) (channel_records c requests)) ->
  (forall c, StronglySorted by_time (channel_records c requests)) ->
  wp (record_day requests) (fun o s' =>
    o = Ok (map (fun r => acknowledgement (sz (LogRequest.channel r)) (record_of r)) requests) /\
    day_readable requests (w_fs s'.2))
    (Folder.mk d day_folder ∅, w).
Proof.
  intros Ht Hroot Hday Hdot Hlinks Hd0 Hrel Hroom Hok Hsafe Hsz Hfit Hsort.
  assert (Hd : directory_at (w_fs w) day_folder (folder_ s ++ [day])).
  { split; [|done]. unfold day_folder. rewrite resolve_path_string by (eapply tree_plain_path; eauto).
    by apply (walk_self (w_fs w) _ _ NDir). }
  eapply wp_mono; [by apply (wp_record_day day_folder (folder_ s ++ [day]) sz requests d w)|].
  intros o s' (-> & G & Hall). split; [done|].
  pose proof (gr_nodes _ _ G) as Hn. pose proof (gr_tree _ _ G) as HT.
  apply (kept_readable sz); auto; by eapply node_at_weaken.
Qed.
End EndToEnd.

(** *** The guarantee at a concrete input

    The interleaved requests of two channels, in the folder of their day. *)
#[local] Existing Instance utc_localtime.

Definition day_fs : fs :=
  mk_fs (list_to_map [(["log"], NDir); (["log"; "20240101"], NDir)]%string) ∅ 0.
Definition day_world : world := mk_world day_fs sample_env 0.

Lemma interleaved_sorted c : StronglySorted by_time (channel_records c interleaved).
Proof.
  assert (Hs : StronglySorted by_time (record_of <$> interleaved))
    by (repeat constructor; unfold by_time; cbn; lia).
  unfold channel_records. revert Hs. generalize interleaved as l.
  induction l as [|r l IH]; [by constructor|]. rewrite fmap_cons, filter_cons.
  intros [Hs Hr]%StronglySorted_inv. destruct (decide _); [|by apply IH]. rewrite fmap_cons.
  constructor; [by apply IH|]. rewrite Forall_fmap in *. rewrite Forall_forall in *.
  intros r' [_ Hin]%list_elem_of_filter. by apply Hr.
Qed.

Lemma recorded_then_read_witness :
  exists s' name, record_day interleaved (Folder.mk 20240101 "/log/20240101" ∅, day_world) =
      (Ok [27; 10; 24; 10], s') /\
    StorageScanner.getData (w_fs s'.2) sample_scanner (join_slash "20240101" name) 0 (2 ^ 63) 1 5 =
      Ok (DataStreamsResponse.mk [] [DataPiece.mk (Some (noon + 2000)) (Some []) None] None) /\
    StorageScanner.extractStream (w_fs s'.2) sample_scanner "/log/20240101" 0 (2 ^ 63) 20240101 name
      DataStreamsResponse.empty =
      (Ok tt, DataStreamsResponse.mk
         [DataStream.mk (Some "can0"%string) (Some 20240101) (Some (join_slash "20240101" name))
            (Some 2) (Some kHealthy) (Some noon) (Some (noon + 2000))] [] None).
Proof.
  assert (Hp : StorageScanner.folder_ sample_scanner ++ [day 20240101] = ["log"; "20240101"]%string)
    by (vm_compute; reflexivity).
  pose proof (recorded_then_read sample_scanner 20240101 sample_size interleaved day_world) as W.
  assert (Ef : day_folder sample_scanner 20240101 = "/log/20240101"%string) by (vm_compute; reflexivity).
  rewrite Ef, Hp in W. specialize (W ltac:(apply fs_tree_checked; vm_compute; reflexivity)
    ltac:(vm_compute; reflexivity) ltac:(vm_compute; reflexivity) ltac:(reflexivity)).
  specialize (W ltac:(intros n t; cbn; by rewrite !lookup_insert_ne by done) ltac:(done)
    ltac:(by intros n) ltac:(vm_compute; reflexivity) interleaved_ok
    ltac:(repeat constructor; vm_compute; discriminate)
    ltac:(repeat constructor) interleaved_fits interleaved_sorted).
  unfold wp in W. cbv zeta in W.
  destruct (record_day interleaved _) as [o s'] eqn:E. cbn [fst snd] in W.
  destruct W as [-> W]. destruct (W "can0"%string ltac:(by left)) as (name & Hd & Hl).
  exists s', name. split; [reflexivity|]. split.
  - pose proof (Hd 0 (2 ^ 63) 1 5 ltac:(lia) ltac:(lia)) as H.
    assert (Eday : day 20240101 = "20240101"%string) by (vm_compute; reflexivity).
    rewrite Eday in H. rewrite H. vm_compute. reflexivity.
  - pose proof (Hl 0 (2 ^ 63) 20240101 DataStreamsResponse.empty ltac:(lia)
      ltac:(vm_compute; discriminate) ltac:(vm_compute; discriminate)) as H.
    assert (Eday : day 20240101 = "20240101"%string) by (vm_compute; reflexivity).
    assert (Epath : day_path sample_scanner "20240101" = "/log/20240101"%string) by (vm_compute; reflexivity).
    rewrite Eday, Epath in H. rewrite H. reflexivity.
Defined.
