(* ===== verification/DaysSpec.v ===== *)
(** * Recording over several days

    Requests that reach the file system backend one after the other, over any
    number of days: each change of the day closes the folder of the old day, and
    what was recorded in it stays as it is. Composed with the byte budget of
    [Storage], the queue of [LogWriter] and the scanner, this is the way of a
    record from [add] to a reader. *)
From Stdlib Require Import Ascii.
From S2P Require Import Prelude DataTypes Calendar Format Protos FileSystem FileIO StreamWriter FileNames StreamWriterSpec Samples FileReader StreamReader Recording Folder StorageBackend Storage StorageScanner ScannerSpec BackendSpec LogWriter FolderSpec EndToEnd.
Local Open Scope Z_scope.
Import FilesystemStorageBackend.

Section Days.
Context {L : LocalTime} {LO : LocalTimeOk L}.

(** ** The days of a sequence of requests

    Requests are grouped while the day stays the same; the last group comes
    first. *)
Definition day_of (r : LogRequest.t) : Z := Time2YYYYMMDD (LogRequest.time_ns r).

Definition run : Type := Z * list LogRequest.t.

Definition add_request (runs : list run) (r : LogRequest.t) : list run :=
  match runs with
  | (d, l) :: rest => if d =? day_of r then (d, l ++ [r]) :: rest else (day_of r, [r]) :: runs
  | [] => [(day_of r, [r])]
  end.

Definition day_runs (requests : list LogRequest.t) : list run := foldl add_request [] requests.

Lemma day_runs_snoc l r : day_runs (l ++ [r]) = add_request (day_runs l) r.
Proof. unfold day_runs. by rewrite foldl_app. Qed.

(** The groups are the requests. *)
Lemma day_runs_concat requests : concat (rev (day_runs requests).*2) = requests.
Proof.
  induction requests as [|r l IH] using rev_ind; [done|]. rewrite day_runs_snoc.
  rewrite <- IH at 2. destruct (day_runs l) as [|[d k] rest]; [done|]. cbn [add_request].
  destruct (d =? day_of r); cbn [fmap list_fmap snd rev]; rewrite !concat_app; cbn [concat];
    by rewrite ?concat_app, ?app_nil_r, ?app_assoc.
Qed.

Lemma day_runs_days requests : Forall (fun u : run => u.2 <> [] /\ Forall (fun r => day_of r = u.1) u.2) (day_runs requests).
Proof.
  induction requests as [|r l IH] using rev_ind; [by constructor|]. rewrite day_runs_snoc.
  destruct (day_runs l) as [|[d k] rest]; cbn [add_request].
  - repeat constructor. cbn. congruence.
  - destruct (d =? day_of r) eqn:E.
    + apply Z.eqb_eq in E. apply Forall_cons in IH as [[Hk Hd] Hr]. constructor; [|done]. cbn in *.
      split; [by destruct k|]. apply Forall_app. split; [done|]. by repeat constructor.
    + constructor; [|done]. cbn. split; [done|]. by repeat constructor.
Qed.

(** Every request is in one of the groups, under its day. *)
Lemma day_runs_elem requests u r : u ∈ day_runs requests -> r ∈ u.2 -> r ∈ requests.
Proof.
  intros Hu Hr. rewrite <- (day_runs_concat requests). apply list_elem_of_In, in_concat.
  exists u.2. split; [|by apply list_elem_of_In]. apply in_rev. rewrite rev_involutive.
  apply list_elem_of_In. by apply list_elem_of_fmap_2.
Qed.

(** What holds for the groups so far when it holds for the groups in the end. *)
Definition runs_fit (sz : string -> Z) (runs : list run) : Prop :=
  Forall (fun u : run => forall c, fits_stream (sz c) (channel_records c u.2)) runs.

Lemma runs_fit_add sz runs r : runs_fit sz (add_request runs r) -> runs_fit sz runs.
Proof.
  unfold runs_fit. destruct runs as [|[d l] rest]; cbn [add_request]; [by constructor|].
  destruct (d =? day_of r); [|by intros [_ ?]%Forall_cons].
  intros [Hl Hr]%Forall_cons. constructor; [|done]. intros c. specialize (Hl c). cbn [snd] in *.
  rewrite channel_records_app in Hl. by eapply fits_stream_prefix.
Qed.

Lemma runs_fit_prefix sz before todo : runs_fit sz (day_runs (before ++ todo)) -> runs_fit sz (day_runs before).
Proof.
  induction todo as [|r todo IH] using rev_ind; [by rewrite app_nil_r|].
  rewrite app_assoc, day_runs_snoc. intros Hf%runs_fit_add. auto.
Qed.

(** ** Growth of the storage

    Files and directories may have been created; what existed is as it was. *)
Record extends (w w' : world) : Prop := {
  ex_nodes : nodes (w_fs w) ⊆ nodes (w_fs w');
  ex_next : (next_ino (w_fs w) <= next_ino (w_fs w'))%nat;
  ex_env : w_env w' = w_env w;
  ex_new : forall q n, nodes (w_fs w') !! q = Some n -> nodes (w_fs w) !! q = Some n \/
    n = NDir \/ exists r c j, q = r ++ [c] /\ no_dot c = false /\ n = NFile j;
  ex_old : forall j, (j < next_ino (w_fs w))%nat -> contents (w_fs w') j = contents (w_fs w) j;
  ex_tree : fs_tree (w_fs w) -> fs_tree (w_fs w')
}.

Lemma grows_extends w w' : grows w w' -> extends w w'.
Proof. intros [A B C F S D T]. split; try done. intros q n Hq. destruct (F q n Hq); auto. Qed.

Lemma extends_refl w : extends w w.
Proof. split; auto. Qed.

Lemma extends_trans w1 w2 w3 : extends w1 w2 -> extends w2 w3 -> extends w1 w3.
Proof.
  intros [A1 B1 C1 F1 D1 T1] [A2 B2 C2 F2 D2 T2].
  split; [by etrans|lia|congruence| | |auto].
  - intros q n [Hq|Hq]%F2; [by apply F1|auto].
  - intros j Hj. rewrite D2, D1; [done|lia|lia].
Qed.

Section Root.
Context (root : string) (rp : path) (sz : string -> Z).

Definition day_path (d : Z) : path := rp ++ [to_string d].
Definition day_dir (d : Z) : string := join_slash root (to_string d).

(** A storage directory the backend can record in. *)
Record storage_dir (f : fs) : Prop := {
  sd_at : directory_at f root rp;
  sd_dots : ".."%string ∉ split_slash root;
  sd_tree : fs_tree f;
  sd_links : forall q t, nodes f !! q <> Some (NLink t);
  sd_days : forall d n, nodes f !! day_path d = Some n -> n = NDir
}.

Lemma storage_dir_extends w w' : storage_dir (w_fs w) -> extends w w' -> storage_dir (w_fs w').
Proof.
  intros [S1 S2 S3 S4 S5] [E1 E2 E3 E4 E5 E6]. split; [|done|auto| |].
  - by eapply directory_at_mono.
  - intros q t Hq. destruct (E4 _ _ Hq) as [?|[?|(? & ? & ? & _ & _ & ?)]]; [by eapply S4|done|done].
  - intros d n Hn. destruct (E4 _ _ Hn) as [?|[?|(r & c & j & Hq & Hc & ->)]]; [by eapply S5|done|].
    apply app_inj_tail in Hq as [_ <-]. by rewrite no_dot_pretty_Z in Hc.
Qed.

Lemma storage_dir_plain f : storage_dir f -> BackendSpec.tree_plain f.
Proof.
  intros Hs q n Hn. split; [|intros t ->; by apply (sd_links f Hs q t)].
  apply (FileSystem.tree_plain_path f); [apply Hs|].
  destruct q; [by eexists|by exists n].
Qed.

(** The only directory a write can create. *)
Definition new_dirs (d : Z) (f f' : fs) : Prop :=
  forall q, nodes f' !! q = Some NDir -> nodes f !! q = Some NDir \/ q = day_path d.

Lemma grows_dirs w w' q : grows w w' -> nodes (w_fs w') !! q = Some NDir -> nodes (w_fs w) !! q = Some NDir.
Proof. intros G Hq. by destruct (gr_files _ _ G _ _ Hq) as [?|(? & ? & ? & _ & _ & ?)]. Qed.

(** ** Creating the folder of a day *)
Lemma wp_create_day d t w :
  storage_dir (w_fs w) -> reliable w -> Time2YYYYMMDD t = d -> 0 < d < 2 ^ 31 ->
  wp (Folder.create t) (fun o s' => o = Ok true /\ s'.1 = Folder.mk d (day_dir d) ∅ /\
    extends w s'.2 /\ nodes (w_fs s'.2) !! day_path d = Some NDir /\
    new_dirs d (w_fs w) (w_fs s'.2) /\
    (size (nodes (w_fs s'.2)) <= 1 + size (nodes (w_fs w)))%nat) (Folder.create_object root, w).
Proof.
  intros Hs Hrel Hd Hd0. pose proof (sd_at _ Hs) as Hat.
  pose proof (plain_day d ltac:(lia)) as Hp.
  pose proof (create_directories_entry _ _ _ (to_string d) (storage_dir_plain _ Hs) (sd_dots _ Hs) Hat Hp) as Hc.
  unfold Folder.create, Folder.modify_f, Folder.get_f.
  wp_step. wp_step. cbn [wp_rest]. wp_step. wp_step.
  cbn [wp_rest fst snd Folder.create_object Folder.folder_ Folder.yyyymmdd_ Folder.set_day]. rewrite Hd.
  change (root +:+ "/" +:+ to_string d)%string with (day_dir d).
  wp_step. apply wp_and_also. wp_step. cbn [fst snd Folder.folder_ Folder.set_folder].
  unfold exists_, day_dir. rewrite (status_child _ root rp); [|done|done|intros; apply (sd_links _ Hs)].
  fold (day_dir d) (day_path d). fold (day_path d) in Hc. fold (day_dir d) in Hc.
  destruct (nodes (w_fs w) !! day_path d) as [n|] eqn:E.
  - pose proof (sd_days _ Hs d n E) as ->. rewrite bool_decide_true by by eexists. cbn [negb].
    wp_step. cbn [fst snd]. split_and!; try done; [apply extends_refl|by intros q; left|cbn; lia].
  - rewrite bool_decide_false by by apply is_Some_None. cbn [negb].
    wp_step. wp_step. cbn [wp_rest fst snd Folder.folder_ Folder.set_folder]. wp_step.
    unfold Folder.in_world. apply wp_zoom. unfold make_directories, wp at 1. cbn [fst snd].
    rewrite (Hrel _ : ev_ok (event w) = true), Hc. cbn [fst snd wp_rest]. wp_step. cbn [negb]. repeat wp_step. cbn [fst snd].
    split_and!; try done.
    + split; cbn; try done.
      * by apply insert_subseteq.
      * intros q n [[_ <-]|[_ Hn]]%lookup_insert_Some; auto.
      * intros HT q c n. cbn. intros Hn.
        assert (Hkeep : forall r, node_at (w_fs w) r = Some NDir -> node_at (set_node (day_path d) NDir (w_fs w)) r = Some NDir).
        { intros r Hr. unfold node_at in *. destruct r as [|a r]; [done|]. cbn [set_node nodes].
          destruct (decide (day_path d = a :: r)) as [->|Hne]; [by rewrite lookup_insert_eq|by rewrite lookup_insert_ne]. }
        apply lookup_insert_Some in Hn as [[Eq _]|[_ Hn]].
        -- apply app_inj_tail in Eq as [<- <-]. split; [done|]. apply Hkeep, Hat.
        -- destruct (HT _ _ _ Hn). auto.
    + cbn. by rewrite lookup_insert_eq.
    + intros q Hq. cbn in Hq. apply lookup_insert_Some in Hq as [[<- _]|[_ Hq]]; [by right|by left].
    + cbn. rewrite map_size_insert_None by done. lia.
Qed.

(** ** What is left of the days that are over *)
Definition day_kept (f : fs) (u : run) : Prop :=
  nodes f !! day_path u.1 = Some NDir /\ kept_streams (day_path u.1) sz u.2 f.

Lemma day_kept_extends u w w' : day_kept (w_fs w) u -> extends w w' -> day_kept (w_fs w') u.
Proof.
  intros [Hd Hk] E. split; [eapply lookup_weaken; [exact Hd|apply (ex_nodes _ _ E)]|].
  destruct Hk as (S & Hh & Ha & Hall). exists S. split; [done|]. split; [exact Ha|]. intros c st HS.
  destruct (Hall c st HS) as (Hn & Hl & Hw). split; [|split; [done|]].
  - eapply named_mono; [apply (ex_nodes _ _ E)|apply (ex_next _ _ E)|done].
  - eapply written_frame; [|exact Hw]. intros j Hj. apply (ex_old _ _ E). by eapply nm_inodes.
Qed.

(** The backend after the requests of [runs], the last of which is being recorded. *)
Record recording_days (runs : list run) (st : state) : Prop := {
  ds_root : folder_path_ st.1 = root;
  ds_dir : storage_dir (w_fs st.2);
  ds_reliable : reliable st.2;
  ds_runs : match runs with
    | [] => folder_ st.1 = Folder.create_object root
    | (d, l) :: rest => exists w1 S, storage_dir (w_fs w1) /\
        nodes (w_fs w1) !! day_path d = Some NDir /\
        recording (day_dir d) (day_path d) d w1 S (folder_ st.1, st.2) /\ holds_requests sz S l /\
        Forall (day_kept (w_fs w1)) rest
    end
}.

Lemma recording_days_start w :
  storage_dir (w_fs w) -> reliable w -> recording_days [] (create root, w).
Proof. by split. Qed.

Lemma wp_on_folder {A} (m : Folder.M A) (Q : outcome A -> state -> Prop) b w :
  wp m (fun o s' => Q o (mk (folder_path_ b) s'.1, s'.2)) (folder_ b, w) -> wp (on_folder m) Q (b, w).
Proof. unfold wp, on_folder. destruct (m (folder_ b, w)) as [r [f w']]. done. Qed.

(** Closing the folder leaves every day on disk. *)
Lemma wp_close_days runs st :
  recording_days runs st ->
  wp (on_folder Folder.close) (fun o st' => o = Ok tt /\ folder_path_ st'.1 = root /\
    storage_dir (w_fs st'.2) /\ reliable st'.2 /\
    nodes (w_fs st'.2) = nodes (w_fs st.2) /\ Forall (day_kept (w_fs st'.2)) runs) st.
Proof.
  destruct st as [b w]. intros [Hr Hd0 Hrel Hs]. cbn [fst snd] in *. apply wp_on_folder.
  destruct runs as [|[d l] rest].
  - rewrite Hs. unfold Folder.close, Folder.get_f, Folder.in_world, Folder.modify_f.
    apply wp_bind, wp_gets. cbn [wp_rest fst]. apply wp_bind, wp_zoom.
    change (map_to_list (Folder.files_ (Folder.create_object root))) with (@nil (string * Folder.writer)).
    repeat wp_step. done.
  - destruct Hs as (w1 & S & Hw1 & Hd & R & Hh & Hk).
    eapply wp_mono; [by eapply wp_close_recording|].
    intros o [f' w'] (-> & -> & En & G & Hks). cbn [fst snd] in *. split; [done|]. split; [done|].
    pose proof (gr_env _ _ G) as Ee. pose proof (gr_env _ _ (rc_grows _ _ _ _ _ _ R)) as Ee1. cbn [snd] in Ee1.
    apply grows_extends in G. split; [by eapply storage_dir_extends|].
    split; [eapply reliable_env; [|exact Hrel]; congruence|]. split; [done|].
    constructor; [split; [eapply lookup_weaken; [exact Hd|apply (ex_nodes _ _ G)]|exact Hks]|].
    eapply Forall_impl; [exact Hk|]. intros u Hu. by eapply day_kept_extends.
Qed.

(** ** Writing *)
Lemma wp_write_created r (Q : outcome Z -> Folder.t * world -> Prop) f w :
  Folder.yyyymmdd_ f = 0 ->
  wp (Folder.create (LogRequest.time_ns r)) (fun o s' => o = Ok true /\ Folder.yyyymmdd_ s'.1 <> 0 /\
    wp (Folder.write r) Q s') (f, w) ->
  wp (Folder.write r) Q (f, w).
Proof.
  intros Hf W. unfold Folder.write, Folder.get_f. wp_step. wp_step. cbn [wp_rest fst]. rewrite Hf. cbn [Z.eqb].
  wp_step. eapply wp_mono; [exact W|]. intros o [f1 w1] (-> & Hd & W1). cbn [wp_rest fst] in *.
  apply Z.eqb_neq in Hd. unfold wp, Folder.write, Folder.get_f, gets, mbind, prog_bind in W1 |- *.
  cbn [fst] in W1. by rewrite Hd in W1.
Qed.

(** A request of the day that is being recorded. *)
Lemma wp_write_same runs r n st :
  recording_days runs st -> request_ok r ->
  LogRequest.size r = sz (LogRequest.channel r) -> runs_fit sz (add_request runs r) ->
  roomy st.2 (2 * S n) ->
  (Folder.yyyymmdd_ (folder_ st.1) =? day_of r) = true ->
  wp (on_folder (Folder.write r)) (fun o st' => o = Ok (acknowledgement (sz (LogRequest.channel r)) (record_of r)) /\
    recording_days (add_request runs r) st' /\ roomy st'.2 (2 * n) /\
    new_dirs (day_of r) (w_fs st.2) (w_fs st'.2)) st.
Proof.
  intros Hds Hr Hsz Hfit Hroom Eday. pose proof (day_range _ (rq_time _ Hr)) as Hd0.
  fold (day_of r) in Hd0. destruct st as [b w]. cbn [fst snd] in *. apply Z.eqb_eq in Eday. apply wp_on_folder.
  destruct Hds as [Hroot Hsd Hrel Hs]. cbn [fst snd] in *. destruct runs as [|[d l] rest].
  { rewrite Hs in Eday. cbn in Eday. lia. }
  destruct Hs as (w1 & S & Hw1 & Hdir & R & Hh & Hk).
  destruct (rc_day _ _ _ _ _ _ R) as [Ed _]. cbn [fst] in Ed.
  assert (d = day_of r) as -> by congruence.
  cbn [add_request] in *. rewrite Z.eqb_refl in *. apply Forall_cons in Hfit as [Hfit _].
  eapply wp_mono; [apply (wp_write_next (day_dir (day_of r)) (day_path (day_of r)) (day_of r) w1 sz l r S (folder_ b, w) (2 * n)%nat); try done|].
  { unfold roomy in *. cbn [snd]. lia. }
  intros o [f' w'] (S' & -> & R' & Hh' & Hroom'). cbn [fst snd] in *. split; [done|].
  pose proof (rc_grows _ _ _ _ _ _ R) as G. pose proof (rc_grows _ _ _ _ _ _ R') as G'. cbn [snd] in G, G'.
  split; [|split; [done|]].
  + split; cbn [fst snd]; [done| |apply (rc_reliable _ _ _ _ _ _ R')|by exists w1, S'].
    eapply storage_dir_extends; [exact Hw1|by apply grows_extends].
  + intros q Hq. left. eapply lookup_weaken; [by eapply grows_dirs|apply (gr_nodes _ _ G)].
Qed.

(** A request of another day: the old folder is closed and a new one created. *)
Lemma wp_write_other runs r n st :
  recording_days runs st -> request_ok r ->
  LogRequest.size r = sz (LogRequest.channel r) -> runs_fit sz (add_request runs r) ->
  roomy st.2 (2 * S n) ->
  (Folder.yyyymmdd_ (folder_ st.1) =? day_of r) = false ->
  wp (on_folder Folder.close;;
      modify (fun s => (mk (folder_path_ s.1) (Folder.create_object (folder_path_ s.1)), s.2));;
      on_folder (Folder.write r)) (fun o st' => o = Ok (acknowledgement (sz (LogRequest.channel r)) (record_of r)) /\
    recording_days (add_request runs r) st' /\ roomy st'.2 (2 * n) /\
    new_dirs (day_of r) (w_fs st.2) (w_fs st'.2)) st.
Proof.
  intros Hds Hr Hsz Hfit Hroom Eday. pose proof (day_range _ (rq_time _ Hr)) as Hd.
  fold (day_of r) in Hd. destruct st as [b w]. cbn [fst snd] in *.
  wp_step. eapply wp_mono; [by apply (wp_close_days runs)|].
  intros o [b1 w1] (-> & Hroot & Hw1 & Hrel1 & En & Hk). cbn [wp_rest fst snd] in *. wp_step. wp_step. cbn [wp_rest fst snd].
  apply wp_on_folder. cbn [folder_ folder_path_ fst snd].
  apply wp_write_created; [done|]. rewrite Hroot.
  eapply wp_mono; [by apply (wp_create_day (day_of r))|].
  intros o [f2 w2] (-> & Ef2 & E2 & Hdir & Hnew & Hsize). cbn [fst snd] in *. subst f2.
  split; [done|]. split; [cbn; lia|].
  pose proof (storage_dir_extends _ _ Hw1 E2) as Hw2.
  pose proof (reliable_env _ _ (ex_env _ _ E2) Hrel1) as Hrel2.
  assert (R : recording (day_dir (day_of r)) (day_path (day_of r)) (day_of r) w2 ∅
                (Folder.mk (day_of r) (day_dir (day_of r)) ∅, w2)).
  { apply recording_start; [lia| |intros m t; apply (sd_links _ Hw2)|done].
    split; [|by unfold day_path; rewrite node_at_snoc].
    apply resolve_child; [apply Hw2|apply plain_day; lia|intros t; apply (sd_links _ Hw2)]. }
  assert (add_request runs r = (day_of r, [r]) :: runs) as Eadd.
  { destruct Hds as [_ _ _ Hs]. cbn [fst snd] in Hs. destruct runs as [|[d l] rest]; [done|].
    destruct Hs as (? & ? & _ & _ & R0 & _). destruct (rc_day _ _ _ _ _ _ R0) as [Ed _]. cbn [fst] in Ed.
    cbn [add_request]. by rewrite <- Ed, Eday. }
  rewrite Eadd in *. apply Forall_cons in Hfit as [Hfit _].
  eapply wp_mono; [apply (wp_write_next _ _ _ w2 sz [] r ∅ _ (2 * n)%nat R); try done|].
  { unfold roomy in *. cbn [snd]. rewrite <- En in Hroom. lia. }
  intros o [f' w'] (S' & -> & R' & Hh' & Hroom'). cbn [fst snd app] in *. split; [done|].
  pose proof (rc_grows _ _ _ _ _ _ R') as G. cbn [snd] in G.
  split; [|split; [done|]].
  + split; cbn [fst snd]; [done| |apply (rc_reliable _ _ _ _ _ _ R')|].
    { eapply storage_dir_extends; [exact Hw2|by apply grows_extends]. }
    exists w2, S'. split; [done|]. split; [done|]. split; [done|]. split; [done|].
    eapply Forall_impl; [exact Hk|]. intros u Hu. by eapply day_kept_extends.
  + intros q Hq%(grows_dirs _ _ _ G)%Hnew. by rewrite <- En.
Qed.

Lemma wp_write_days runs r n st :
  recording_days runs st -> request_ok r ->
  LogRequest.size r = sz (LogRequest.channel r) -> runs_fit sz (add_request runs r) ->
  roomy st.2 (2 * S n) ->
  wp (write r) (fun o st' => o = Ok (acknowledgement (sz (LogRequest.channel r)) (record_of r)) /\
    recording_days (add_request runs r) st' /\ roomy st'.2 (2 * n) /\
    new_dirs (day_of r) (w_fs st.2) (w_fs st'.2)) st.
Proof.
  intros Hds Hr Hsz Hfit Hroom. unfold write. wp_step. wp_step. cbn [wp_rest]. unfold Folder.sameDay.
  fold (day_of r). destruct (Folder.yyyymmdd_ (folder_ st.1) =? day_of r) eqn:Eday; cbn [negb].
  - wp_step. wp_step. cbn [wp_rest]. by apply wp_write_same.
  - pose proof (wp_write_other runs r n st Hds Hr Hsz Hfit Hroom Eday) as W.
    unfold wp, mbind, prog_bind in W |- *. by destruct (on_folder Folder.close st) as [[]].
Qed.

(** ** Through the byte budget *)
Lemma acknowledgement_need size r : 0 <= size -> acknowledgement size r <= maxRecordSize (zlen (r_data r)).
Proof.
  intros Hs. unfold acknowledgement. destruct (size =? 0); [|rewrite Z.add_comm]; by apply i32_le_need.
Qed.

Lemma wp_storage_days fuel runs r n st :
  recording_days runs (Storage.backend_ st) -> request_ok r ->
  LogRequest.size r = sz (LogRequest.channel r) -> runs_fit sz (add_request runs r) ->
  roomy (Storage.backend_ st).2 (2 * S n) ->
  need r <= Storage.available_bytes_ st < 2 ^ 64 ->
  wp (Storage.write (S fuel) r) (fun o st' =>
    o = Ok (acknowledgement (sz (LogRequest.channel r)) (record_of r)) /\
    recording_days (add_request runs r) (Storage.backend_ st') /\ roomy (Storage.backend_ st').2 (2 * n) /\
    Storage.available_bytes_ st - need r <= Storage.available_bytes_ st' < 2 ^ 64) st.
Proof.
  intros Hds Hr Hsz Hfit Hroom Hav. unfold Storage.write. wp_step.
  cbn [Storage.make_room]. wp_step. unfold Storage.get_available. wp_step. cbn [wp_rest].
  fold (need r). rewrite (proj2 (Z.ltb_ge _ _)) by lia. wp_step. cbn [wp_rest negb]. wp_step.
  unfold Storage.on_backend. apply wp_zoom.
  eapply wp_mono; [by apply (wp_write_days runs r n)|].
  intros o b' (-> & Hds' & Hroom' & _). cbn [wp_rest]. wp_step.
  pose proof (acknowledgement_need (sz (LogRequest.channel r)) (record_of r)) as Hn.
  rewrite <- Hsz in Hn at 1. specialize (Hn (proj1 (rq_size _ Hr))).
  change (zlen (r_data (record_of r))) with (zlen (LogRequest.data r)) in Hn. fold (need r) in Hn.
  set (k := acknowledgement _ _) in *. clearbody k.
  assert (0 <= need r) by apply maxRecordSize_nonneg.
  destruct (0 <? k) eqn:E.
  - apply Z.ltb_lt in E. unfold Storage.modify_available. wp_step. cbn [wp_rest]. wp_step. cbn.
    rewrite u64_small by lia. split_and!; try done; lia.
  - apply Z.ltb_ge in E. wp_step. cbn [wp_rest]. wp_step. cbn. split_and!; try done; lia.
Qed.

(** The room all requests together ask for. *)
Definition needs (requests : list LogRequest.t) : Z := zsum (map need requests).

Lemma store_days fuel before todo st :
  recording_days (day_runs before) (Storage.backend_ st) ->
  Forall request_ok todo -> Forall (fun r => LogRequest.size r = sz (LogRequest.channel r)) todo ->
  runs_fit sz (day_runs (before ++ todo)) -> roomy (Storage.backend_ st).2 (2 * length todo) ->
  needs todo <= Storage.available_bytes_ st < 2 ^ 64 ->
  exists st', store_all (S fuel) todo st = Some st' /\
    recording_days (day_runs (before ++ todo)) (Storage.backend_ st').
Proof.
  revert before st. induction todo as [|r todo IH]; intros before st Hds Hok Hsz Hfit Hroom Hav.
  { exists st. by rewrite app_nil_r. }
  apply Forall_cons in Hok as [Hr Hok]. apply Forall_cons in Hsz as [Hrs Hsz].
  unfold needs in *. cbn [map] in Hav. rewrite zsum_cons in Hav.
  assert (Hneed : forall l, 0 <= zsum (map need l)).
  { intros l. apply zsum_map_nonneg. intros x. apply maxRecordSize_nonneg. }
  pose proof (Hneed todo) as H0.
  assert (Hsplit : before ++ r :: todo = (before ++ [r]) ++ todo) by by rewrite <- app_assoc.
  rewrite Hsplit in *.
  pose proof (wp_storage_days fuel (day_runs before) r (length todo) st Hds Hr Hrs) as W.
  rewrite <- day_runs_snoc in W.
  specialize (W (runs_fit_prefix _ _ _ Hfit) Hroom ltac:(lia)). unfold wp in W.
  cbn [store_all]. destruct (Storage.write (S fuel) r st) as [o st1]. cbn [fst snd] in W.
  destruct W as (-> & Hds1 & Hroom1 & Hav1). apply IH; try done. lia.
Qed.
End Root.

(** ** From [add] to the reader *)
Lemma no_dot_path_string p : Forall (fun c => no_dot c = true) p -> no_dot (path_string p) = true.
Proof.
  intros Hp. destruct p as [|a p]; [done|].
  change (path_string (a :: p)) with (foldr (fun c s => String slash (c +:+ s)) EmptyString (a :: p)).
  induction Hp as [|c q Hc Hq IH]; [done|]. cbn [foldr].
  change (String slash (c +:+ ?u)) with ("/" +:+ (c +:+ u)). by rewrite !no_dot_app, Hc, IH.
Qed.

(** Records of a channel within one day: in the order of time, and within the
    32-bit offsets of a file. *)
Definition run_ok (sz : string -> Z) (u : run) : Prop :=
  forall c, fits_stream (sz c) (channel_records c u.2) /\ StronglySorted by_time (channel_records c u.2).

(** A request a reader can ask for. *)
Definition request_readable (sz : string -> Z) (r : LogRequest.t) : Prop :=
  request_ok r /\ no_char "\" (LogRequest.channel r) = true /\ LogRequest.time_ns r <> 0 /\
  LogRequest.size r = sz (LogRequest.channel r).

(** A day that is on disk can be read. *)
Lemma kept_day_readable sz root s f u requests :
  storage_dir root (StorageScanner.folder_ s) f -> day_kept (StorageScanner.folder_ s) sz f u ->
  Forall (fun c => no_dot c = true) (StorageScanner.folder_ s) ->
  u ∈ day_runs requests -> Forall (request_readable sz) requests -> run_ok sz u ->
  day_readable s u.1 u.2 f.
Proof.
  intros Hst [Hdir Hks] Hdots Hu Hreq Hrun.
  assert (Hin : forall r, r ∈ u.2 -> request_readable sz r).
  { intros r Hr. rewrite Forall_forall in Hreq. apply Hreq. by eapply day_runs_elem. }
  apply (kept_readable s u.1 sz); try done.
  - apply Hst.
  - apply (sd_at _ _ _ Hst).
  - by rewrite node_at_snoc.
  - apply no_dot_path_string, Forall_app. split; [done|]. constructor; [|done].
    apply no_dot_pretty_Z.
  - apply Forall_forall. intros r Hr. by destruct (Hin r Hr).
  - apply Forall_forall. intros r Hr. by destruct (Hin r Hr) as (_ & ? & ? & _).
  - intros c. by apply Hrun.
  - intros c. by apply Hrun.
Qed.

(** Such requests are all stored, if the storage has the room. *)
Lemma requests_stored sz root s fuel available w requests :
  storage_dir root (StorageScanner.folder_ s) (w_fs w) -> reliable w ->
  Forall (request_readable sz) requests -> Forall (run_ok sz) (day_runs requests) ->
  roomy w (2 * length requests) -> needs requests <= available < 2 ^ 64 ->
  exists st, store_all (S fuel) requests (Storage.mk (B := state) available (create root, w)) = Some st /\
    recording_days root (StorageScanner.folder_ s) sz (day_runs requests) (Storage.backend_ st).
Proof.
  intros Hw Hrel Hreq Hrun Hroom Hav.
  pose proof (recording_days_start root (StorageScanner.folder_ s) sz w Hw Hrel) as H0.
  apply (store_days root _ sz fuel [] requests (Storage.mk available (create root, w)) H0); try done.
  - eapply Forall_impl; [exact Hreq|]. by intros r (? & _).
  - eapply Forall_impl; [exact Hreq|]. by intros r (_ & _ & _ & ?).
  - eapply Forall_impl; [exact Hrun|]. intros u Hu c. apply Hu.
Qed.

(** What a writer that was stopped leaves in its storage. *)
Lemma stopped_readable sz root s fuel available w lw :
  storage_dir root (StorageScanner.folder_ s) (w_fs w) -> reliable w ->
  Forall (fun c => no_dot c = true) (StorageScanner.folder_ s) ->
  LogWriter.reachable (S fuel) (Storage.mk (B := state) available (create root, w)) lw ->
  LogWriter.stopped_ lw = true ->
  let requests := LogWriter.accepted_ lw in
  Forall (request_readable sz) requests -> Forall (run_ok sz) (day_runs requests) ->
  roomy w (2 * length requests) -> needs requests <= available < 2 ^ 64 ->
  wp (on_folder Folder.close) (fun o st => o = Ok tt /\
    Forall (fun u : run => day_readable s u.1 u.2 (w_fs st.2)) (day_runs requests))
    (Storage.backend_ (LogWriter.storage_ lw)).
Proof.
  intros Hw Hrel Hdots Hreach Hstop requests Hreq Hrun Hroom Hav.
  pose proof (reachable_ok _ _ _ Hreach) as Hok. pose proof (wo_stopped _ _ _ Hok Hstop) as He.
  destruct (exited_written _ _ _ Hok He) as [_ Hwr].
  pose proof (wo_storage _ _ _ Hok ltac:(unfold LogWriter.alive; by rewrite He)) as H2. rewrite Hwr in H2.
  destruct (requests_stored sz root s fuel available w requests Hw Hrel Hreq Hrun Hroom Hav) as (st' & Es & Hds).
  pose proof (eq_trans (eq_sym Es) H2) as [= ->].
  eapply wp_mono; [by apply (wp_close_days root (StorageScanner.folder_ s) sz)|].
  intros o st (-> & _ & Hst & _ & _ & Hk). split; [done|].
  rewrite !Forall_forall in *. intros u Hu.
  apply (kept_day_readable sz root s _ _ requests); auto; by apply Forall_forall.
Qed.

(** C4. From a producer to a reader. Producers add records for any channels, over
    any number of days, to the queue of a writer whose storage has the room; the
    threads interleave freely, nothing on the medium fails, and [stop] returns.
    When the storage is closed, every day among the accepted requests can be read
    through a scanner on the same folder: it lists each channel of that day and
    returns exactly the records accepted for it that day, in their order, that the
    range, the start index and the maximum select. Nothing accepted is missing: the
    days put together are the accepted requests. *)
Theorem accepted_then_read sz root s fuel available w lw :
  storage_dir root (StorageScanner.folder_ s) (w_fs w) -> reliable w ->
  Forall (fun c => no_dot c = true) (StorageScanner.folder_ s) ->
  LogWriter.reachable (S fuel) (Storage.mk (B := state) available (create root, w)) lw ->
  LogWriter.stopped_ lw = true ->
  let requests := LogWriter.accepted_ lw in
  Forall (request_readable sz) requests -> Forall (run_ok sz) (day_runs requests) ->
  roomy w (2 * length requests) -> needs requests <= available < 2 ^ 64 ->
  wp (on_folder Folder.close) (fun o st => o = Ok tt /\
    Forall (fun u : run => day_readable s u.1 u.2 (w_fs st.2)) (day_runs requests))
    (Storage.backend_ (LogWriter.storage_ lw)) /\
  concat (rev (day_runs requests).*2) = requests.
Proof.
  intros ????? requests ????. split; [by eapply stopped_readable|apply day_runs_concat].
Qed.
End Days.

(** *** The guarantee at a concrete input

    Three requests of two channels on two days, [stop], and the writing thread until
    it ends. *)
Section Schedule.
Context {B : Type} {SB : StorageBackend B} (fuel : nat) (storage : Storage.t B).
Import LogWriter.

(** What the writing thread does next, when it runs alone. *)
Definition next (s : t B) : t B :=
  match thread_ s with
  | Running => wait s
  | Holding r => write_request fuel r s
  | _ => s
  end.

Lemma drive_reachable n s : reachable fuel storage s -> reachable fuel storage (Nat.iter n next s).
Proof.
  intros Hs. induction n as [|n IH]; [done|]. change (Nat.iter (S n) next s) with (next (Nat.iter n next s)).
  revert IH. generalize (Nat.iter n next s) as s1. intros s1 Hs1. unfold next.
  destruct (thread_ s1) eqn:E; try exact Hs1; (eapply reachable_step; [exact Hs1|apply step_internal]);
    by constructor.
Qed.

(** The call of [stop] returns. *)
Definition joined (s : t B) : t B :=
  mk (queue_ s) (stopping_ s) (storage_ s) (thread_ s) (notifications_ s) true (accepted_ s) (written_ s).
End Schedule.

#[local] Existing Instance utc_localtime.

Definition next_noon : Z := noon + 86400 * 1000000000.
Definition two_days : list LogRequest.t :=
  [LogRequest.mk (Some "can0"%string) None (Some [x01; x02; x03]) (Some noon);
   LogRequest.mk (Some "gps"%string) (Some 2) (Some [x0a; x0b]) (Some (noon + 1000));
   LogRequest.mk (Some "can0"%string) None (Some [x04]) (Some next_noon)].

Definition empty_storage : Storage.t state := Storage.mk 100000 (create "/log", sample_world).

Definition stopping_writer : LogWriter.t state :=
  LogWriter.stop (foldl (fun s r => (LogWriter.add r s).2) (LogWriter.create empty_storage) two_days).

Definition two_day_writer : LogWriter.t state := joined (Nat.iter 7 (next 1) stopping_writer).

Lemma two_day_writer_reachable : LogWriter.reachable 1 empty_storage two_day_writer.
Proof.
  eapply LogWriter.reachable_step; [|apply LogWriter.step_joined; vm_compute; reflexivity].
  apply drive_reachable.
  eapply LogWriter.reachable_step; [|apply LogWriter.step_stop; vm_compute; reflexivity].
  do 3 (eapply LogWriter.reachable_step; [|apply LogWriter.step_add; vm_compute; reflexivity]).
  apply LogWriter.reachable_create.
Qed.

Lemma sample_storage_dir : storage_dir "/log" ["log"%string] sample_fs.
Proof.
  split.
  - apply (sample_folder_ready sample_fs eq_refl).
  - apply (bool_decide_unpack _). vm_compute. exact I.
  - apply fs_tree_checked. vm_compute. reflexivity.
  - intros q t Hq. cbn in Hq. by apply lookup_singleton_Some in Hq as [_ ?].
  - intros d n Hn. cbn in Hn. by apply lookup_singleton_Some in Hn as [? _].
Qed.

Lemma two_days_readable : Forall (request_readable sample_size) two_days.
Proof.
  repeat constructor; try (vm_compute; congruence); cbn;
    rewrite ?elem_of_cons, elem_of_nil; intuition congruence.
Qed.

Lemma channel_records_none c l : c ∉ LogRequest.channel <$> l -> channel_records c l = [].
Proof.
  intros Hc. unfold channel_records. rewrite list_filter_none; [done|].
  apply Forall_forall. intros r Hr <-. by apply Hc, list_elem_of_fmap_2.
Qed.

(** Only the channels that occur matter. *)
Lemma run_ok_channels sz u :
  Forall (fun c => fits_stream (sz c) (channel_records c u.2) /\
                   StronglySorted by_time (channel_records c u.2)) (LogRequest.channel <$> u.2) ->
  (forall c, 0 <= sz c < 2 ^ 31) -> run_ok sz u.
Proof.
  intros Hu Hsz c. destruct (decide (c ∈ LogRequest.channel <$> u.2)) as [Hc|Hc].
  - rewrite Forall_forall in Hu. by apply Hu.
  - rewrite channel_records_none by done. split; [|constructor]. split; [by constructor|].
    destruct (sz c =? 0); [done|]. split; [by constructor|]. done.
Qed.

Lemma accepted_then_read_witness :
  LogWriter.accepted_ two_day_writer = two_days /\
  (day_runs two_days).*1 = [20240102; 20240101] /\
  exists st', on_folder Folder.close (Storage.backend_ (LogWriter.storage_ two_day_writer)) = (Ok tt, st') /\
    day_readable sample_scanner 20240101 (take 2 two_days) (w_fs st'.2) /\
    day_readable sample_scanner 20240102 (drop 2 two_days) (w_fs st'.2).
Proof.
  assert (Hacc : LogWriter.accepted_ two_day_writer = two_days) by (vm_compute; reflexivity).
  assert (Hruns : day_runs two_days = [(20240102, drop 2 two_days); (20240101, take 2 two_days)])
    by (vm_compute; reflexivity).
  split; [exact Hacc|]. split; [by rewrite Hruns|].
  pose proof (accepted_then_read sample_size "/log" sample_scanner 0 100000 sample_world two_day_writer
    sample_storage_dir sample_reliable ltac:(repeat constructor) two_day_writer_reachable
    ltac:(vm_compute; reflexivity)) as W.
  cbv zeta in W. rewrite Hacc, Hruns in W.
  specialize (W two_days_readable). destruct W as [W _]; [|vm_compute; reflexivity|vm_compute; split; [congruence|done]|].
  - repeat (apply Forall_cons; split); [..|by constructor]; (apply run_ok_channels;
      [|intros c; unfold sample_size; case_decide; lia]).
    all: repeat constructor; try (vm_compute; congruence); unfold by_time; cbn; lia.
  - unfold wp in W. destruct (on_folder Folder.close _) as [o st'] eqn:E. cbn [fst snd] in W.
    destruct W as [-> Hall]. exists st'. split; [reflexivity|].
    apply Forall_cons in Hall as [H2 [H1 _]%Forall_cons]. split; [exact H1|exact H2].
Defined.
