(* ===== verification/RetentionSpec.v ===== *)
(** * Retention while recording

    The byte budget of [Storage] over the days the backend records. The bytes the
    counter goes down by are on disk, so removing the days before the last one
    frees them again; the day that is being recorded is removed only when its own
    records do not fit into the budget, and then its records are lost. *)
From Stdlib Require Import Ascii.
From S2P Require Import Prelude DataTypes Calendar Format Protos FileSystem FileIO StreamWriter FileNames StreamWriterSpec Samples FileReader StreamReader Recording Folder StorageBackend Storage StorageScanner ScannerSpec BackendSpec LogWriter FolderSpec EndToEnd DaysSpec.
Local Open Scope Z_scope.
Import FilesystemStorageBackend.

(** ** Sums over parts of a list *)
Lemma zsum_subset {A} (g : A -> Z) (l k : list A) :
  NoDup l -> l ⊆ k -> (forall x, 0 <= g x) -> zsum (map g l) <= zsum (map g k).
Proof.
  intros Hnd Hsub Hg. destruct (submseteq_Permutation l k) as [k' Hk].
  { by apply NoDup_submseteq. }
  rewrite (zsum_Permutation _ _ (Permutation_map g Hk)), map_app, zsum_app.
  pose proof (zsum_map_nonneg g k' Hg). lia.
Qed.

Lemma zsum_map_le {A} (g h : A -> Z) l :
  (forall x, x ∈ l -> g x <= h x) -> zsum (map g l) <= zsum (map h l).
Proof.
  induction l as [|x l IH]; intros Hl; [done|]. cbn [map]. rewrite !zsum_cons.
  pose proof (Hl x ltac:(by left)). specialize (IH ltac:(intros y Hy; apply Hl; by right)). lia.
Qed.

Lemma zsum_map_mjoin {A B} (g : B -> Z) (h : A -> list B) l :
  zsum (map g (mjoin (h <$> l))) = zsum (map (fun x => zsum (map g (h x))) l).
Proof.
  induction l as [|x l IH]; [done|]. cbn [fmap list_fmap mjoin list_join map].
  by rewrite map_app, zsum_app, zsum_cons, <- IH.
Qed.

(** A sum by groups. *)
Lemma zsum_groups {A K} `{EqDecision K} (key : A -> K) (g : A -> Z) (ks : list K) (l : list A) :
  NoDup ks -> (forall x, x ∈ l -> key x ∈ ks) ->
  zsum (map g l) = zsum (map (fun k => zsum (map g (filter (fun x => key x = k) l))) ks).
Proof.
  intros Hnd. induction l as [|x l IH]; intros Hl.
  { symmetry. induction ks as [|k ks IHk]; [done|]. cbn [map]. rewrite zsum_cons.
    apply NoDup_cons in Hnd as [_ Hnd]. rewrite IHk by (try done; by intros ? ?%not_elem_of_nil). done. }
  cbn [map]. rewrite zsum_cons, IH by (intros y Hy; apply Hl; by right).
  pose proof (Hl x ltac:(by left)) as Hx. clear IH Hl. revert Hx. induction Hnd as [|k ks Hk Hnd IHk].
  { by intros ?%not_elem_of_nil. }
  intros Hx. cbn [map]. rewrite !zsum_cons, filter_cons. destruct (decide (key x = k)) as [<-|Hne].
  - cbn [map]. rewrite zsum_cons.
    assert (E : map (fun k => zsum (map g (filter (fun y => key y = k) (x :: l)))) ks =
                map (fun k => zsum (map g (filter (fun y => key y = k) l))) ks).
    { apply map_ext_in. intros k' Hk'%list_elem_of_In. rewrite filter_cons, decide_False; [done|].
      by intros <-. }
    rewrite E. lia.
  - apply elem_of_cons in Hx as [?|Hx]; [done|]. specialize (IHk Hx). lia.
Qed.

(** ** The bytes of a day *)
Section Bytes.
Context {L : LocalTime} (p : path) (sz : string -> Z).

(** What the counter goes down by for a record. *)
Definition paid_for (size : Z) (r : record) : Z := Z.max 0 (acknowledgement size r).
Definition paid (requests : list LogRequest.t) : Z :=
  zsum (map (fun r => paid_for (sz (LogRequest.channel r)) (record_of r)) requests).

Lemma paid_snoc l r : paid (l ++ [r]) = paid l + paid_for (sz (LogRequest.channel r)) (record_of r).
Proof. unfold paid. rewrite map_app, zsum_app. cbn. lia. Qed.

Lemma paid_nonneg l : 0 <= paid l.
Proof. apply zsum_map_nonneg. intros x. unfold paid_for. lia. Qed.

Lemma i32_le x : 0 <= x -> i32 x <= x.
Proof. intros Hx. unfold i32. Z.to_euclidean_division_equations. lia. Qed.

Lemma paid_for_le size r :
  paid_for size r <= (if size =? 0 then 12 + data_entry_size r else 8 + zlen (r_data r)).
Proof.
  unfold paid_for, acknowledgement, data_entry_size. pose proof (zlen_nonneg (r_data r)).
  destruct (size =? 0); apply Z.max_lub; try lia; (etrans; [apply i32_le|]); lia.
Qed.

Definition file_names (st : stream) : list string :=
  if is_var st then [st_name st +:+ ".idx"; st_name st +:+ ".data"]%string
  else [st_name st +:+ ".idx"]%string.

(** The names lead to the files. *)
Lemma file_names_spec f st n :
  named p f st -> n ∈ file_names st -> exists j, j ∈ inodes st /\ nodes f !! (p ++ [n]) = Some (NFile j).
Proof.
  intros Hn. unfold file_names, inodes. destruct (is_var st) eqn:Ev.
  - destruct (nm_data _ _ _ Hn Ev) as (_ & Hd & _).
    intros [->|[->|[]%not_elem_of_nil]%elem_of_cons]%elem_of_cons.
    + exists (st_index st). split; [by left|apply Hn].
    + exists (st_data st). split; [by right; left|done].
  - intros [->|[]%not_elem_of_nil]%elem_of_cons. exists (st_index st). split; [by left|apply Hn].
Qed.

Lemma file_names_nodup st : NoDup (file_names st).
Proof.
  unfold file_names. destruct (is_var st); [|apply NoDup_singleton].
  apply NoDup_cons. split; [|apply NoDup_singleton]. intros E%list_elem_of_singleton.
  apply (f_equal String.length) in E. rewrite !length_append in E. cbn in E. lia.
Qed.

(** The records are in the files. *)
Lemma stream_holds f st :
  named p f st -> written st f -> fits_stream (st_size st) (st_records st) ->
  zsum (map (paid_for (st_size st)) (st_records st)) <= zsum (map (file_len f p) (file_names st)).
Proof.
  intros Hn Hw [_ Hfit]. fold (is_var st) in Hfit. unfold written, file_names in *.
  pose proof (nm_header _ _ _ Hn) as Hh. destruct (is_var st) eqn:Ev.
  - destruct (nm_data _ _ _ Hn Ev) as (_ & Hd & Hhd & _). destruct Hw as [Ci Cd].
    unfold is_var in Ev. apply Z.eqb_eq in Ev. rewrite Ev in *.
    cbn [map]. rewrite !zsum_cons. unfold file_len. rewrite (nm_index _ _ _ Hn), Hd, Ci, Cd.
    rewrite zlen_var_index, zlen_data_file by done. unfold end_offset. change (zsum []) with 0.
    etrans; [apply (zsum_map_le _ (fun r => 12 + data_entry_size r)); intros r _; apply (paid_for_le 0)|].
    assert (E : forall rs, zsum (map (fun r => 12 + data_entry_size r) rs) = 12 * zlen rs + zsum (map data_entry_size rs)).
    { induction rs as [|r rs IH]; [done|]. cbn [map]. rewrite !zsum_cons, IH. unfold zlen. cbn [length]. lia. }
    rewrite E. unfold LogFileHeader.size. lia.
  - unfold is_var in Ev. cbn [map]. rewrite !zsum_cons. unfold file_len. rewrite (nm_index _ _ _ Hn), Hw.
    rewrite (zlen_fixed_index _ (st_size st)) by (try done; apply Hfit). change (zsum []) with 0.
    destruct Hfit as [Hl _]. etrans; [apply (zsum_map_le _ (fun _ => 8 + st_size st))|].
    + intros r Hr. rewrite Forall_forall in Hl. rewrite <- (Hl r Hr) at 2.
      pose proof (paid_for_le (st_size st) r) as Hp. by rewrite Ev in Hp.
    + assert (E : forall rs : list record, zsum (map (fun _ => 8 + st_size st) rs) = (8 + st_size st) * zlen rs).
      { induction rs as [|r rs IH]; [unfold zlen; cbn; lia|]. cbn [map]. rewrite !zsum_cons, IH.
        unfold zlen. cbn [length]. lia. }
      rewrite E. unfold LogFileHeader.size. lia.
Qed.

(** What was paid for a day is in its directory. *)
Lemma kept_bytes f requests :
  kept_streams p sz requests f -> (forall c, fits_stream (sz c) (channel_records c requests)) ->
  paid requests <= dir_size f p.
Proof.
  intros (S & Hh & Ha & Hall) Hfit. unfold paid, dir_size.
  rewrite (zsum_groups LogRequest.channel _ (map_to_list S).*1).
  2: { apply NoDup_fst_map_to_list. }
  2: { intros r Hr. destruct (holds_requests_some sz S requests (LogRequest.channel r) Hh) as [st HS].
       - by apply list_elem_of_fmap_2.
       - apply list_elem_of_fmap. exists (LogRequest.channel r, st). by rewrite elem_of_map_to_list. }
  set (names := mjoin ((fun cs => file_names cs.2) <$> map_to_list S)).
  transitivity (zsum (map (file_len f p) names)).
  - unfold names. rewrite zsum_map_mjoin. change ((map_to_list S).*1) with (map fst (map_to_list S)).
    rewrite map_map. apply zsum_map_le. intros [c st] HS%elem_of_map_to_list. cbn [fst snd].
    destruct (Hall c st HS) as (Hn & _ & Hw). specialize (Hh c). rewrite HS in Hh. destruct Hh as [Es Er].
    etrans; [|apply (stream_holds f st Hn Hw); rewrite Es, Er; apply Hfit].
    rewrite Es, Er. unfold channel_records. change (record_of <$> ?l) with (map record_of l).
    rewrite map_map. apply zsum_map_le. intros r [<- _]%list_elem_of_filter. done.
  - apply zsum_subset; [| |apply file_len_nonneg].
    + unfold names. clear Hh. pose proof (NoDup_fst_map_to_list S) as Hnd.
      assert (Hin : forall c st, (c, st) ∈ map_to_list S -> S !! c = Some st)
        by (intros c st Hc; by apply elem_of_map_to_list).
      revert Hnd Hin. generalize (map_to_list S) as l. induction l as [|[c st] l IH]; intros Hnd Hin.
      { constructor. }
      cbn [fmap list_fmap fst] in Hnd. apply NoDup_cons in Hnd as [Hc Hnd].
      cbn [fmap list_fmap mjoin list_join snd]. apply NoDup_app. split; [apply file_names_nodup|].
      split; [|apply IH; [done|intros c' st' Hc'; apply Hin; by right]].
      intros n Hn (ns & Hns & ([c' st'] & -> & Hc')%list_elem_of_fmap)%list_elem_of_join.
      pose proof (Hin c st ltac:(by left)) as HS. pose proof (Hin c' st' ltac:(by right)) as HS'.
      destruct (file_names_spec f st n) as (j & Hj & Hnode); [by apply (Hall c)|done|].
      destruct (file_names_spec f st' n) as (j' & Hj' & Hnode'); [by apply (Hall c')|done|].
      assert (j' = j) as -> by congruence. apply (Ha c c' st st' j); try done.
      intros <-. by apply (list_elem_of_fmap_2 fst) in Hc'.
    + intros n (ns & Hns & ([c st] & -> & Hc)%list_elem_of_fmap)%list_elem_of_join.
      apply elem_of_map_to_list in Hc. destruct (file_names_spec f st n) as (j & _ & Hnode);
        [by apply (Hall c)|done|]. apply elem_of_entries. by eexists.
Qed.
End Bytes.

(** ** Removing an old day *)
Section Removal.
Context {L : LocalTime} {LO : LocalTimeOk L} (root : string) (rp : path) (sz : string -> Z).

Lemma day_below_max t : 0 <= t < 2 ^ 64 -> Time2YYYYMMDD t < kMaxDay.
Proof.
  intros Ht. unfold Time2YYYYMMDD.
  destruct (localtime_ok (seconds_of_ns t) (seconds_of_ns_range t Ht)) as [_ _ _ H1 H2 H3].
  rewrite u32_small by lia. unfold kMaxDay. lia.
Qed.

Lemma fs_tree_remove f q : fs_tree f -> fs_tree (remove_tree f q).
Proof.
  intros Ht p c n. rewrite lookup_remove_tree. case_decide as Hq; [done|]. intros Hn.
  destruct (Ht _ _ _ Hn) as [Hc Hp]. split; [done|]. unfold node_at in *. destruct p as [|a p]; [done|].
  rewrite lookup_remove_tree, decide_False; [done|]. intros Hpre. apply Hq.
  etrans; [exact Hpre|]. by apply prefix_app_r.
Qed.

Lemma lookup_remove_other f n m q :
  m <> n -> nodes (remove_tree f (rp ++ [n])) !! ((rp ++ [m]) ++ q) = nodes f !! ((rp ++ [m]) ++ q).
Proof.
  intros Hm. rewrite lookup_remove_tree, decide_False; [done|]. rewrite <- app_assoc. by apply not_below.
Qed.

Lemma storage_dir_remove f n :
  storage_dir root rp f -> storage_dir root rp (remove_tree f (rp ++ [n])).
Proof.
  intros Hs. pose proof (storage_dir_plain _ _ _ Hs) as Hp. destruct Hs as [S1 S2 S3 S4 S5].
  split; [|done|by apply fs_tree_remove| |].
  - eapply directory_at_stable; [exact Hp|done|exact S1|]. intros q Hq. apply remove_other.
    intros Hpre. pose proof (prefix_length _ _ Hq). pose proof (prefix_length _ _ Hpre) as Hl.
    rewrite length_app in Hl. cbn in Hl. lia.
  - intros q t. rewrite lookup_remove_tree. case_decide; [done|apply S4].
  - intros d m. rewrite lookup_remove_tree. case_decide; [done|apply S5].
Qed.

Lemma storage_dir_nodes f f' : nodes f' = nodes f -> storage_dir root rp f -> storage_dir root rp f'.
Proof.
  intros E [S1 S2 S3 S4 S5]. split; [|done|by eapply fs_tree_nodes|by rewrite E|by rewrite E].
  eapply directory_at_mono; [|exact S1]. by rewrite E.
Qed.

(** What is known of a file depends only on its folder. *)
Lemma named_keep p f f' st :
  (forall c n, nodes f !! (p ++ [c]) = Some n -> nodes f' !! (p ++ [c]) = Some n) ->
  (next_ino f <= next_ino f')%nat -> named p f st -> named p f' st.
Proof.
  intros Hn Hx [N1 N2 N3 N4 N5 N6 N7]. split; try done.
  - by apply Hn.
  - intros Hv. destruct (N4 Hv) as (? & ? & ? & ? & ?). split_and!; try done. by apply Hn.
  - intros j Hj. specialize (N7 j Hj). lia.
Qed.

(** The days that are left, and the one being recorded, after another was removed. *)
Lemma recording_days_remove d l rest rest' n st st' :
  recording_days root rp sz ((d, l) :: rest) st -> n <> to_string d ->
  (forall u, u ∈ rest' -> u ∈ rest /\ n <> to_string u.1) ->
  st'.1 = st.1 -> w_env st'.2 = w_env st.2 -> w_fs st'.2 = remove_tree (w_fs st.2) (rp ++ [n]) ->
  recording_days root rp sz ((d, l) :: rest') st'.
Proof.
  intros [Hroot Hsd Hrel (w1 & S & Hw1 & Hd & R & Hh & Hk)] Hnd Hrest Eb Ee Ef.
  pose proof (rc_grows _ _ _ _ _ _ R) as G. cbn [snd] in G.
  assert (Hsd' : storage_dir root rp (w_fs st'.2)) by (rewrite Ef; by apply storage_dir_remove).
  assert (Hrel' : reliable st'.2) by by eapply reliable_env.
  set (w1' := mk_world (mk_fs (nodes (w_fs st'.2)) (FileSystem.inodes (w_fs w1)) (next_ino (w_fs w1)))
                (w_env w1) (w_tick w1)).
  assert (Hkeep : forall m q x, m <> n -> nodes (w_fs w1) !! ((rp ++ [m]) ++ q) = Some x ->
                    nodes (w_fs st'.2) !! ((rp ++ [m]) ++ q) = Some x).
  { intros m q x Hm Hx. rewrite Ef, lookup_remove_other by done. eapply lookup_weaken; [exact Hx|apply (gr_nodes _ _ G)]. }
  assert (Hdir : forall m, m <> n -> nodes (w_fs w1) !! (rp ++ [m]) = Some NDir -> nodes (w_fs st'.2) !! (rp ++ [m]) = Some NDir).
  { intros m Hm Hx. specialize (Hkeep m [] NDir Hm). rewrite app_nil_r in Hkeep. by apply Hkeep. }
  split; [by rewrite Eb|done|done|]. exists w1', S.
  split; [by apply (storage_dir_nodes (w_fs st'.2))|]. split; [by apply Hdir|]. split; [|split; [done|]].
  - destruct R as [R1 R2 R3 R4 R5 R6 R7 R8 R9 R10 R11]. cbn [fst snd] in *.
    split; cbn [fst snd]; rewrite ?Eb; try done.
    + split; [|unfold day_path; rewrite node_at_snoc; by apply Hdir].
      apply resolve_child; [apply Hsd'| |intros t; apply (sd_links _ _ _ Hsd')].
      destruct (sd_tree _ _ _ Hw1 _ _ _ Hd). done.
    + intros m t. apply (sd_links _ _ _ Hsd').
    + intros c st0 HS. destruct (R6 c st0 HS) as (Hn & sw & Hf & Hr). split.
      * eapply named_keep; [| |exact Hn]; [|by rewrite Ef].
        intros c' x Hx. rewrite Ef. unfold day_path in *. by rewrite lookup_remove_other.
      * exists sw. split; [done|]. eapply recorder_frame; [|exact Hr]. intros j _. by rewrite Ef.
    + pose proof (gr_env _ _ G) as Ee1. split; cbn [w_fs w1' nodes next_ino w_env]; [done| |congruence|by left| | |].
      * rewrite Ef. apply (gr_next _ _ G).
      * pose proof (gr_next _ _ G). rewrite Ef. cbn. lia.
      * intros j Hj. rewrite Ef. by apply (gr_old _ _ G).
      * by apply fs_tree_nodes.
  - rewrite Forall_forall in *. intros u Hu. destruct (Hrest u Hu) as [Hin Hne].
    destruct (Hk u Hin) as [Hud (S' & Hh' & Ha' & Hall')]. split; [by apply Hdir|].
    exists S'. split; [done|]. split; [exact Ha'|]. intros c st0 HS. destruct (Hall' c st0 HS) as (Hn & Hl & Hw).
    split; [|split; [done|]].
    + apply (named_keep _ (w_fs w1)); [|exact (Nat.le_refl _)|exact Hn]. intros c' x Hx. by apply Hkeep.
    + eapply written_frame; [|exact Hw]. done.
Qed.

(** The days before the last one are on disk. *)
Lemma recording_days_kept d l rest st :
  recording_days root rp sz ((d, l) :: rest) st ->
  nodes (w_fs st.2) !! day_path rp d = Some NDir /\ Forall (day_kept rp sz (w_fs st.2)) rest.
Proof.
  intros [Hroot Hsd Hrel (w1 & S & Hw1 & Hd & R & Hh & Hk)].
  pose proof (grows_extends _ _ (rc_grows _ _ _ _ _ _ R)) as E. cbn [snd] in E.
  split; [eapply lookup_weaken; [exact Hd|apply (ex_nodes _ _ E)]|].
  eapply Forall_impl; [exact Hk|]. intros u Hu. by eapply day_kept_extends.
Qed.
End Removal.

(** ** The days the budget keeps *)
Section Ring.
Context {L : LocalTime} {LO : LocalTimeOk L} (root : string) (rp : path) (sz : string -> Z).

Definition paid_runs (runs : list run) : Z := zsum (map (fun u : run => paid sz u.2) runs).

(** A storage that has recorded [runs], of [budget] bytes at the start: nothing in
    the folder is newer than day [t], the day being recorded if there is one. *)
Record ring (budget t : Z) (runs : list run) (st : Storage.t state) : Prop := {
  rg_days : recording_days root rp sz runs (Storage.backend_ st);
  rg_canonical : canonical_days (w_fs (Storage.backend_ st).2) rp;
  rg_budget : budget <= Storage.available_bytes_ st + paid_runs runs;
  rg_available : 0 <= Storage.available_bytes_ st;
  rg_order : StronglySorted (fun u v : run => v.1 < u.1) runs;
  rg_range : Forall (fun u : run => 0 < u.1 < kMaxDay) runs;
  rg_newest : forall n x, removable (w_fs (Storage.backend_ st).2) rp n = true -> stoi n = Some x -> x <= t;
  rg_head : match runs with u :: _ => u.1 = t | [] => True end;
  rg_fit : runs_fit sz runs
}.

Lemma paid_runs_nonneg runs : 0 <= paid_runs runs.
Proof. apply zsum_map_nonneg. intros u. apply paid_nonneg. Qed.

Lemma paid_runs_app l k : paid_runs (l ++ k) = paid_runs l + paid_runs k.
Proof. unfold paid_runs. by rewrite map_app, zsum_app. Qed.

Lemma paid_runs_cons u l : paid_runs (u :: l) = paid sz u.2 + paid_runs l.
Proof. done. Qed.

Lemma ring_tree budget t runs st :
  ring budget t runs st -> storage_tree (w_fs (Storage.backend_ st).2) root rp.
Proof.
  intros R. pose proof (ds_dir _ _ _ _ _ (rg_days _ _ _ _ R)) as Hs.
  split; [apply Hs|apply Hs|by eapply storage_dir_plain|apply R].
Qed.

Lemma ring_backend_ok budget t runs st :
  ring budget t runs st -> backend_ok (Storage.backend_ st) /\ root_of (Storage.backend_ st) = rp.
Proof.
  intros R. pose proof (ring_tree _ _ _ _ R) as Ht.
  assert (Hr : root_of (Storage.backend_ st) = rp).
  { apply root_of_dir. rewrite (ds_root _ _ _ _ _ (rg_days _ _ _ _ R)). apply Ht. }
  split; [|done]. unfold backend_ok. by rewrite Hr, (ds_root _ _ _ _ _ (rg_days _ _ _ _ R)).
Qed.

Lemma removable_day f d :
  nodes f !! day_path rp d = Some NDir -> 0 < d < kMaxDay -> removable f rp (to_string d) = true.
Proof.
  intros Hd Hr. unfold removable, kMaxDay in *. rewrite bool_decide_true by done.
  rewrite stoi_to_string by lia. apply Z.ltb_lt. lia.
Qed.

(** The days of the runs are day folders. *)
Lemma ring_removable budget t runs st u :
  ring budget t runs st -> u ∈ runs ->
  removable (w_fs (Storage.backend_ st).2) rp (to_string u.1) = true.
Proof.
  intros R Hu. pose proof (rg_range _ _ _ _ R) as Hr. rewrite Forall_forall in Hr.
  apply removable_day; [|by apply Hr]. pose proof (rg_days _ _ _ _ R) as Hd.
  destruct runs as [|[d l] rest]; [by apply not_elem_of_nil in Hu|].
  destruct (recording_days_kept _ _ _ _ _ _ _ Hd) as [Hdir Hk]. rewrite Forall_forall in Hk.
  apply elem_of_cons in Hu as [->|Hu]; [done|]. by apply Hk.
Qed.

Lemma days_in_pos f n : removable f rp n = true -> (0 < days_in f rp)%nat.
Proof.
  intros Hr. unfold days_in. destruct (filter _ _) as [|m l] eqn:E; [|cbn; lia].
  exfalso. apply (not_elem_of_nil n). rewrite <- E. apply list_elem_of_filter. split; [done|].
  apply andb_true_iff in Hr as [Hr%bool_decide_eq_true _]. apply elem_of_entries. eauto.
Qed.

(** The name of a run's day is read as that day. *)
Lemma ring_date budget t runs st v :
  ring budget t runs st -> v ∈ runs -> stoi (to_string v.1) = Some v.1.
Proof.
  intros R Hv. pose proof (rg_range _ _ _ _ R) as Hr. rewrite Forall_forall in Hr. specialize (Hr v Hv).
  unfold kMaxDay in Hr. apply stoi_to_string. lia.
Qed.

Lemma sorted_last {A} (P : A -> A -> Prop) l u v : StronglySorted P (l ++ [u]) -> v ∈ l -> P v u.
Proof. intros (H & _)%StronglySorted_app Hv. apply H; [done|]. by left. Qed.

(** The oldest folder is not the day of a run but, maybe, of the last one. *)
Lemma ring_oldest budget t l u st n v :
  ring budget t (l ++ [u]) st -> removable (w_fs (Storage.backend_ st).2) rp n = true ->
  (forall m d d', removable (w_fs (Storage.backend_ st).2) rp m = true -> stoi m = Some d ->
     stoi n = Some d' -> d' <= d) ->
  v ∈ l -> n <> to_string v.1.
Proof.
  intros R Hn Hmin Hv ->. assert (Hu : u ∈ l ++ [u]) by (apply elem_of_app; right; by left).
  pose proof (sorted_last _ l u v (rg_order _ _ _ _ R) Hv) as Hlt. cbn in Hlt.
  assert (Hv' : v ∈ l ++ [u]) by (apply elem_of_app; by left).
  pose proof (Hmin _ _ _ (ring_removable _ _ _ _ _ R Hu) (ring_date _ _ _ _ _ R Hu)
                (ring_date _ _ _ _ _ R Hv')). lia.
Qed.

(** The storage after a removal that gives back what was paid for the runs that go. *)
Lemma ring_without budget t d l all rest st b' n freed :
  ring budget t ((d, l) :: all) st -> nodes (w_fs (Storage.backend_ st).2) !! (rp ++ [n]) = Some NDir ->
  b'.1 = (Storage.backend_ st).1 -> w_env b'.2 = w_env (Storage.backend_ st).2 ->
  w_fs b'.2 = remove_tree (w_fs (Storage.backend_ st).2) (rp ++ [n]) ->
  rest `prefix_of` all -> (forall v : run, v ∈ (d, l) :: rest -> n <> to_string v.1) ->
  0 <= freed -> paid_runs all <= freed + paid_runs rest ->
  ring budget t ((d, l) :: rest) (Storage.mk (Storage.available_bytes_ st + freed) b').
Proof.
  intros R Hdir Eb Ee Ef Hpre Hne Hfreed Hpaid. pose proof (ring_tree _ _ _ _ R) as Htree.
  destruct st as [av b]. cbn [Storage.backend_ Storage.available_bytes_] in *. destruct Hpre as [k ->].
  change ((d, l) :: rest ++ k) with (((d, l) :: rest) ++ k) in R.
  destruct R as [R1 R2 R3 R4 R5 R6 R7 R8 R9]. cbn [Storage.backend_ Storage.available_bytes_] in *.
  rewrite paid_runs_app in *. rewrite paid_runs_cons in *.
  split; cbn [Storage.backend_ Storage.available_bytes_]; try lia; try done.
  - apply (recording_days_remove root rp sz d l (rest ++ k) rest n b b'); try done.
    + apply (Hne (d, l)). by left.
    + intros v Hv. split; [apply elem_of_app; by left|apply Hne; by right].
  - rewrite Ef. apply (st_days _ _ _ (storage_tree_remove _ _ _ n Htree Hdir)).
  - rewrite paid_runs_cons. lia.
  - by apply StronglySorted_app_1_l in R5.
  - by apply Forall_app in R6 as [? _].
  - intros m y Hm. rewrite Ef in Hm. destruct (decide (m = n)) as [->|Hmn].
    + unfold removable in Hm. apply andb_true_iff in Hm as [Hm%bool_decide_eq_true _].
      by rewrite lookup_remove_tree, decide_True in Hm by done.
    + rewrite (removable_remove _ _ n m Hmn) in Hm. by apply R7.
  - by apply Forall_app in R9 as [? _].
Qed.

(** Removing the day of a run gives back at least what was paid for it. *)
Lemma ring_freed budget t d l all u st :
  ring budget t ((d, l) :: all) st -> u ∈ all ->
  paid sz u.2 <= day_size (w_fs (Storage.backend_ st).2) rp (to_string u.1).
Proof.
  intros R Hu. destruct (recording_days_kept _ _ _ _ _ _ _ (rg_days _ _ _ _ R)) as [_ Hk].
  rewrite Forall_forall in Hk. destruct (Hk u Hu) as [Hud Hus].
  unfold day_size. rewrite decide_True by done.
  apply (kept_bytes (day_path rp u.1) sz _ u.2 Hus).
  pose proof (rg_fit _ _ _ _ R) as Hfit. unfold runs_fit in Hfit. rewrite Forall_forall in Hfit.
  apply Hfit. by right.
Qed.

(** A removal is one of the oldest day, and gives back what was paid for it. *)
Lemma ring_remove budget t u0 rest u st b' n freed :
  ring budget t (u0 :: rest ++ [u]) st ->
  removable (w_fs (Storage.backend_ st).2) rp n = true ->
  (forall m d d', removable (w_fs (Storage.backend_ st).2) rp m = true -> stoi m = Some d ->
     stoi n = Some d' -> d' <= d) ->
  freed = day_size (w_fs (Storage.backend_ st).2) rp n ->
  b'.1 = (Storage.backend_ st).1 -> w_env b'.2 = w_env (Storage.backend_ st).2 ->
  w_fs b'.2 = remove_tree (w_fs (Storage.backend_ st).2) (rp ++ [n]) ->
  exists rest', (rest' = rest \/ rest' = rest ++ [u]) /\
    ring budget t (u0 :: rest') (Storage.mk (Storage.available_bytes_ st + freed) b').
Proof.
  intros R Hn Hmin Efreed Eb Ee Ef. destruct u0 as [d l].
  pose proof Hn as [Hdir%bool_decide_eq_true _]%andb_true_iff.
  assert (Hu : u ∈ rest ++ [u]) by (apply elem_of_app; right; by left).
  assert (Hold : forall v, v ∈ (d, l) :: rest -> n <> to_string v.1).
  { intros v. by apply (ring_oldest budget t ((d, l) :: rest) u st). }
  assert (Hfreed : 0 <= freed) by (subst freed; apply day_size_nonneg).
  destruct (decide (n = to_string u.1)) as [En|En].
  - exists rest. split; [by left|].
    apply (ring_without budget t d l (rest ++ [u]) rest st b' n); try done; [by apply prefix_app_r|].
    pose proof (ring_freed _ _ _ _ _ u _ R Hu). rewrite <- En, <- Efreed in *.
    rewrite paid_runs_app. change (paid_runs [u]) with (paid sz u.2 + 0). lia.
  - exists (rest ++ [u]). split; [by right|].
    apply (ring_without budget t d l (rest ++ [u]) (rest ++ [u]) st b' n); try done; [|lia].
    intros v Hv. change ((d, l) :: rest ++ [u]) with (((d, l) :: rest) ++ [u]) in Hv.
    apply elem_of_app in Hv as [Hv|Hv%list_elem_of_singleton]; [by apply Hold|by subst v].
Qed.

Lemma used_part f n : nodes f !! (rp ++ [n]) = Some NDir -> day_size f rp n <= used_in f rp.
Proof.
  intros Hn. rewrite (used_remove f rp n Hn). pose proof (used_in_nonneg (remove_tree f (rp ++ [n])) rp). lia.
Qed.

Lemma size_remove_tree f q : (size (nodes (remove_tree f q)) <= size (nodes f))%nat.
Proof. apply map_subseteq_size, map_filter_subseteq. Qed.

(** The counter and the bytes in use, which a removal moves from one to the other. *)
Definition held_bytes (st : Storage.t state) : Z :=
  Storage.available_bytes_ st + used_in (w_fs (Storage.backend_ st).2) rp.

(** A list longer than [m]: its first element, its last one, and those between. *)
Lemma split_last (m : nat) (runs : list run) :
  (1 <= m)%nat -> drop m runs <> [] -> exists u0 rest u, runs = u0 :: rest ++ [u] /\
    take m (u0 :: rest ++ [u]) = take m (u0 :: rest).
Proof.
  intros Hm Hd. destruct runs as [|u0 k]; [by rewrite drop_nil in Hd|].
  destruct k as [|u rest _] using rev_ind.
  { destruct m as [|m]; [lia|]. by rewrite drop_ge in Hd by (cbn; lia). }
  exists u0, rest, u. split; [done|]. change (u0 :: rest ++ [u]) with ((u0 :: rest) ++ [u]).
  apply take_app_le. destruct (decide (m <= length (u0 :: rest))%nat); [done|].
  exfalso. apply Hd. apply drop_ge. cbn in *. rewrite length_app. cbn. lia.
Qed.

(** Making room spares the last [m] days when these and the request fit. *)
Lemma wp_ring_room fuel k m budget t runs st :
  ring budget t runs st -> held_bytes st < 2 ^ 64 ->
  (days_in (w_fs (Storage.backend_ st).2) rp < fuel)%nat -> (1 <= m)%nat ->
  paid_runs (take m runs) + k <= budget ->
  wp (Storage.make_room fuel k) (fun o st' => o = Ok true /\ k <= Storage.available_bytes_ st' /\
    held_bytes st' = held_bytes st /\
    (size (nodes (w_fs (Storage.backend_ st').2)) <= size (nodes (w_fs (Storage.backend_ st).2)))%nat /\
    exists runs', runs' `prefix_of` runs /\ take m runs `prefix_of` runs' /\ ring budget t runs' st') st.
Proof.
  revert runs st. induction fuel as [|fuel IH]; intros runs st R Hheld Hdays Hm Hk; [lia|].
  cbn [Storage.make_room]. wp_step. unfold Storage.get_available. wp_step. cbn [wp_rest].
  destruct (Storage.available_bytes_ st <? k) eqn:E.
  2: { apply Z.ltb_ge in E. wp_step. split_and!; try done. exists runs. split; [done|].
       split; [by exists (drop m runs); rewrite take_drop|done]. }
  apply Z.ltb_lt in E. pose proof (rg_budget _ _ _ _ R) as Hb.
  destruct (split_last m runs) as (u0 & rest & u & -> & Htake); [done| |].
  { intros Hdrop. rewrite <- (take_drop m runs), paid_runs_app, Hdrop in Hb.
    change (paid_runs []) with 0 in Hb. lia. }
  destruct (ring_backend_ok _ _ _ _ R) as [Hok Hroot]. unfold held_bytes in *.
  assert (Hu : removable (w_fs (Storage.backend_ st).2) rp (to_string u.1) = true).
  { apply (ring_removable _ _ _ _ _ R). right. apply elem_of_app. right. by left. }
  pose proof (rg_available _ _ _ _ R) as Hav.
  wp_step. unfold Storage.on_backend. apply wp_zoom.
  pose proof (wp_removeOldest (Storage.backend_ st) Hok) as W. rewrite Hroot in W.
  eapply wp_mono; [apply W; lia|]. clear W.
  intros [[[] freed]|e] b'; cbn [wp_rest].
  - intros (n & Hn & Hmin & Hfreed & _ & Eb & Ee & Ef).
    destruct (ring_remove _ _ _ _ _ _ b' n freed R Hn Hmin Hfreed Eb Ee Ef) as (rest' & Hrest & R').
    pose proof Hn as [Hdir%bool_decide_eq_true _]%andb_true_iff.
    pose proof (used_part _ _ Hdir) as Hpart. pose proof (used_remove _ _ _ Hdir) as Hused.
    pose proof (days_remove _ _ _ Hdir Hn) as Hd. rewrite <- Ef in Hused, Hd.
    pose proof (day_size_nonneg (w_fs (Storage.backend_ st).2) rp n).
    cbn [fst negb]. wp_step. unfold Storage.modify_available. wp_step. cbn [wp_rest snd].
    cbn [Storage.backend_ Storage.available_bytes_]. rewrite u64_small by lia.
    assert (Htake' : take m (u0 :: rest') = take m (u0 :: rest ++ [u])).
    { by destruct Hrest as [E1|E1]; subst rest'. }
    eapply wp_mono; [apply (IH (u0 :: rest')); [exact R'| | |done|by rewrite Htake']|].
    + cbn [Storage.backend_ Storage.available_bytes_]. lia.
    + cbn [Storage.backend_]. lia.
    + intros o st' (-> & Hav' & Hheld' & Hsize & runs' & Hpre & Htk & R2). split; [done|]. split; [done|].
      cbn [Storage.backend_ Storage.available_bytes_] in *. split; [lia|]. split.
      { etrans; [exact Hsize|]. rewrite Ef. apply size_remove_tree. }
      exists runs'. split; [|split; [by rewrite <- Htake'|done]]. etrans; [exact Hpre|].
      destruct Hrest as [E1|E1]; subst rest'; [by exists [u]|done].
  - intros (_ & _ & H0). pose proof (days_in_pos _ _ Hu). lia.
  - intros (_ & _ & Hr). destruct Hr. apply (ds_reliable _ _ _ _ _ (rg_days _ _ _ _ R)).
Qed.

(** A write adds at most seven entries to the tree. *)
Lemma wp_write_days_size runs r st :
  recording_days root rp sz runs st -> request_ok r ->
  LogRequest.size r = sz (LogRequest.channel r) -> runs_fit sz (add_request runs r) -> roomy st.2 2 ->
  wp (write r) (fun o st' => o = Ok (acknowledgement (sz (LogRequest.channel r)) (record_of r)) /\
    recording_days root rp sz (add_request runs r) st' /\ new_dirs rp (day_of r) (w_fs st.2) (w_fs st'.2) /\
    (size (nodes (w_fs st'.2)) < size (nodes (w_fs st.2)) + 8)%nat) st.
Proof.
  intros Hds Hr Hsz Hfit Hroom. unfold roomy in Hroom.
  set (n := Z.to_nat ((2 ^ 32 - 1 - Z.of_nat (size (nodes (w_fs st.2)))) / 4 - 1)).
  assert (Hn : Z.of_nat (size (nodes (w_fs st.2))) + 4 * (Z.of_nat n + 1) <= 2 ^ 32 - 1 <
               Z.of_nat (size (nodes (w_fs st.2))) + 4 * (Z.of_nat n + 2)).
  { unfold n. Z.to_euclidean_division_equations. lia. }
  clearbody n. eapply wp_mono; [apply (wp_write_days root rp sz runs r n st); try done|].
  { unfold roomy. lia. }
  intros o st' (-> & Hds' & Hroom' & Hnew). unfold roomy in Hroom'. split_and!; try done. lia.
Qed.

Lemma runs_fit_spare runs runs' r :
  runs' `prefix_of` runs -> (runs <> [] -> runs' <> []) ->
  runs_fit sz (add_request runs r) -> runs_fit sz (add_request runs' r).
Proof.
  unfold runs_fit. intros [k ->] Hne. destruct runs' as [|[d l] rest].
  { destruct k; [done|]. by destruct Hne. }
  cbn [app add_request]. destruct (d =? day_of r).
  - intros [? [? _]%Forall_app]%Forall_cons. by constructor.
  - intros [? [? [? _]%Forall_app]%Forall_cons]%Forall_cons. constructor; [done|]. by constructor.
Qed.

(** What an added request does to the days and their bytes. *)
Lemma paid_runs_add runs r :
  paid_runs (add_request runs r) = paid_runs runs + paid_for (sz (LogRequest.channel r)) (record_of r).
Proof.
  pose proof (paid_snoc sz [] r) as E. change (paid sz []) with 0 in E.
  destruct runs as [|[d l] rest]; cbn [add_request]; [|destruct (d =? day_of r)];
    rewrite ?paid_runs_cons; cbn [snd]; rewrite ?paid_snoc; change (paid_runs []) with 0; cbn [app] in E; lia.
Qed.

Lemma add_request_order t runs r :
  StronglySorted (fun u v : run => v.1 < u.1) runs ->
  match runs with u :: _ => u.1 = t | [] => True end -> t <= day_of r ->
  StronglySorted (fun u v : run => v.1 < u.1) (add_request runs r) /\
  match add_request runs r with u :: _ => u.1 = day_of r | [] => True end.
Proof.
  destruct runs as [|[d l] rest]; cbn [add_request fst].
  { intros _ _ _. split; [by repeat constructor|done]. }
  intros [Hs Hall]%StronglySorted_inv -> Ht. destruct (t =? day_of r) eqn:E.
  - apply Z.eqb_eq in E. split; [by constructor|done].
  - apply Z.eqb_neq in E. split; [|done]. constructor; [by constructor|]. constructor; [cbn; lia|].
    eapply Forall_impl; [exact Hall|]. intros u Hu. cbn in *. lia.
Qed.

(** The storage after a record that was paid for. *)
Lemma ring_added budget t runs r st a b' :
  ring budget t runs st -> t <= day_of r -> 0 <= LogRequest.time_ns r < 2 ^ 64 ->
  recording_days root rp sz (add_request runs r) b' -> canonical_days (w_fs b'.2) rp ->
  runs_fit sz (add_request runs r) ->
  new_dirs rp (day_of r) (w_fs (Storage.backend_ st).2) (w_fs b'.2) ->
  a = Storage.available_bytes_ st - paid_for (sz (LogRequest.channel r)) (record_of r) -> 0 <= a ->
  ring budget (day_of r) (add_request runs r) (Storage.mk a b').
Proof.
  intros [R1 R2 R3 R4 R5 R6 R7 R8 R9] Ht Htime Hds Hcan Hfit Hnew -> Hpos.
  pose proof (day_range _ Htime) as Hd. pose proof (day_below_max _ Htime) as Hd'.
  fold (day_of r) in Hd, Hd'. unfold state in *. destruct (add_request_order t runs r R5 R8 Ht) as [Ho Hh].
  split; cbn [Storage.backend_ Storage.available_bytes_]; try done.
  - rewrite paid_runs_add. lia.
  - destruct runs as [|[d l] rest]; cbn [add_request]; [repeat constructor; cbn; lia|].
    destruct (d =? day_of r); [|constructor; [cbn; lia|done]].
    apply Forall_cons in R6 as [? ?]. by constructor.
  - intros n x Hx Hs. unfold removable in Hx. apply andb_true_iff in Hx as [Hx%bool_decide_eq_true Hmax].
    destruct (Hnew _ Hx) as [Hold|Hday].
    + etrans; [|exact Ht]. apply (R7 n x); [|done]. unfold removable. by rewrite bool_decide_true.
    + apply app_inj_tail in Hday as [_ ->]. rewrite stoi_to_string in Hs by lia. injection Hs as <-. lia.
Qed.

Lemma wp_ring_write fuel m budget t runs r st :
  ring budget t runs st -> held_bytes st < 2 ^ 64 ->
  (days_in (w_fs (Storage.backend_ st).2) rp < fuel)%nat -> (1 <= m)%nat ->
  paid_runs (take m runs) + need r <= budget -> t <= day_of r ->
  request_ok r -> LogRequest.size r = sz (LogRequest.channel r) -> runs_fit sz (add_request runs r) ->
  roomy (Storage.backend_ st).2 2 ->
  wp (Storage.write fuel r) (fun o st' =>
    o = Ok (acknowledgement (sz (LogRequest.channel r)) (record_of r)) /\
    (size (nodes (w_fs (Storage.backend_ st').2)) < size (nodes (w_fs (Storage.backend_ st).2)) + 8)%nat /\
    exists runs', runs' `prefix_of` runs /\ take m runs `prefix_of` runs' /\
      ring budget (day_of r) (add_request runs' r) st') st.
Proof.
  unfold state in *. intros R Hheld Hdays Hm Hk Ht Hr Hsz Hfit Hroom. unfold Storage.write. wp_step.
  eapply wp_mono; [by apply (wp_ring_room fuel _ m budget t runs)|].
  intros o st1 (-> & Hav & Hheld1 & Hsize1 & runs' & Hpre & Htk & R1). cbn [wp_rest negb]. unfold state in *.
  assert (Hne : runs <> [] -> runs' <> []).
  { intros Hne ->. apply prefix_nil_inv in Htk. destruct runs, m; try done; lia. }
  pose proof (runs_fit_spare _ _ _ Hpre Hne Hfit) as Hfit1.
  wp_step. unfold Storage.on_backend. apply wp_zoom.
  pose proof (wp_backend_write root rp r (Storage.backend_ st1).1 (Storage.backend_ st1).2
    (ring_tree _ _ _ _ R1) (ds_root _ _ _ _ _ (rg_days _ _ _ _ R1)) (rq_time _ Hr)) as Wt.
  rewrite <- surjective_pairing in Wt.
  eapply wp_mono; [apply wp_conj; [exact Wt|apply (wp_write_days_size runs' r); try done; [apply R1|]]|].
  { unfold roomy in *. lia. }
  intros o b' [(Htree' & _) (-> & Hds' & Hnew & Hsize')]. cbn [wp_rest]. wp_step. unfold state in *.
  pose proof (acknowledgement_need (sz (LogRequest.channel r)) (record_of r)) as Hn.
  rewrite <- Hsz in Hn at 1. specialize (Hn (proj1 (rq_size _ Hr))).
  change (zlen (r_data (record_of r))) with (zlen (LogRequest.data r)) in Hn. fold (need r) in Hn, Hav.
  assert (0 <= need r) by apply maxRecordSize_nonneg.
  assert (Hring : forall a, a = Storage.available_bytes_ st1 - paid_for (sz (LogRequest.channel r)) (record_of r) ->
            0 <= a -> ring budget (day_of r) (add_request runs' r) (Storage.mk a b')).
  { intros a. apply (ring_added budget t); try done; [apply Hr|apply (st_days _ _ _ Htree')]. }
  unfold paid_for in Hring. set (k := acknowledgement _ _) in *. clearbody k.
  pose proof (rg_available _ _ _ _ R1) as Ha1. unfold held_bytes, state in *.
  pose proof (used_in_nonneg (w_fs (Storage.backend_ st1).2) rp).
  destruct (0 <? k) eqn:E.
  - apply Z.ltb_lt in E. unfold Storage.modify_available. wp_step. cbn [wp_rest]. wp_step. cbn [Storage.backend_].
    rewrite u64_small by (cbn; lia). split; [done|]. split; [lia|]. exists runs'. split_and!; try done.
    apply Hring; cbn; lia.
  - apply Z.ltb_ge in E. wp_step. cbn [wp_rest]. wp_step. cbn [Storage.backend_]. split; [done|].
    split; [lia|]. exists runs'. split_and!; try done. apply Hring; cbn; lia.
Qed.

(** ** A sequence of requests *)

(** Any two days in a row fit into the budget. *)
Fixpoint two_days_fit (budget : Z) (runs : list run) : Prop :=
  match runs with
  | [] => True
  | u :: rest => needs u.2 + match rest with v :: _ => needs v.2 | [] => 0 end <= budget /\
                 two_days_fit budget rest
  end.

Lemma needs_snoc l r : needs (l ++ [r]) = needs l + need r.
Proof. unfold needs. rewrite map_app, zsum_app. cbn. lia. Qed.

Lemma need_nonneg r : 0 <= need r.
Proof. apply maxRecordSize_nonneg. Qed.

Lemma needs_nonneg l : 0 <= needs l.
Proof. apply zsum_map_nonneg, need_nonneg. Qed.

(** The days while the record [r] is added, of which those that must stay fit with it. *)
Definition spared (runs : list run) (r : LogRequest.t) : nat :=
  match runs with (d, _) :: _ => if d =? day_of r then 2 else 1 | [] => 1 end.

Lemma two_days_add budget runs r :
  two_days_fit budget (add_request runs r) ->
  two_days_fit budget runs /\ zsum (map (fun u : run => needs u.2) (take (spared runs r) runs)) + need r <= budget.
Proof.
  pose proof (need_nonneg r) as Hr. pose proof (needs_snoc [] r) as E1. change (needs []) with 0 in E1.
  cbn [app] in E1. destruct runs as [|[d l] rest]; cbn [add_request spared].
  - cbn [two_days_fit snd]. intros [H _]. split; [done|]. cbn. lia.
  - pose proof (needs_nonneg l). destruct (d =? day_of r) eqn:E; cbn [two_days_fit snd].
    + rewrite needs_snoc. intros [H1 H2]. split; [split; [lia|done]|].
      destruct rest as [|v rest]; unfold zsum; cbn [take map foldr snd]; rewrite ?take_0; cbn; lia.
    + intros [H1 H2]. split; [done|].
      unfold zsum. cbn [take map foldr snd]. rewrite ?take_0. cbn. lia.
Qed.

Lemma paid_needs l :
  Forall request_ok l -> Forall (fun r => LogRequest.size r = sz (LogRequest.channel r)) l ->
  paid sz l <= needs l.
Proof.
  intros Hok Hsz. apply zsum_map_le. intros r Hr. rewrite Forall_forall in Hok, Hsz.
  pose proof (acknowledgement_need (sz (LogRequest.channel r)) (record_of r)) as Hn.
  rewrite <- (Hsz r Hr) in Hn at 1. specialize (Hn (proj1 (rq_size _ (Hok r Hr)))).
  change (zlen (r_data (record_of r))) with (zlen (LogRequest.data r)) in Hn. fold (need r) in Hn.
  pose proof (need_nonneg r). unfold paid_for. lia.
Qed.

(** The days that are kept, as days are added. *)
Lemma kept_add days runs runs1 r :
  take 2 days `prefix_of` runs -> runs `prefix_of` days ->
  take (spared days r) runs `prefix_of` runs1 -> runs1 `prefix_of` runs ->
  add_request runs1 r `prefix_of` add_request days r /\
  take 2 (add_request days r) `prefix_of` add_request runs1 r.
Proof.
  intros H2 H1 Hs Hr. destruct days as [|[d l] days].
  - apply prefix_nil_inv in H1 as ->. apply prefix_nil_inv in Hr as ->. done.
  - destruct runs as [|u runs]; [by apply prefix_nil_inv in H2|].
    destruct H1 as [k [= <- ->]]. cbn [spared take] in Hs.
    destruct runs1 as [|u1 runs1]; [by destruct (d =? day_of r); apply prefix_nil_inv in Hs|].
    destruct Hr as [k1 [= <- ->]]. cbn [add_request]. destruct (d =? day_of r).
    + split; [exists (k1 ++ k); cbn; by rewrite <- !app_assoc|].
      apply prefix_cons. apply prefix_cons_inv_2 in Hs, H2. cbn [take] in *.
      destruct runs1 as [|v runs1]; [|cbn; apply prefix_cons, prefix_nil].
      destruct k1 as [|v k1]; [|by apply prefix_nil_inv in Hs].
      exact H2.
    + split; [exists (k1 ++ k); cbn; by rewrite <- !app_assoc|]. cbn [take]. do 2 apply prefix_cons. apply prefix_nil.
Qed.

Lemma two_days_prefix budget before todo :
  two_days_fit budget (day_runs (before ++ todo)) -> two_days_fit budget (day_runs before).
Proof.
  induction todo as [|r todo IH] using rev_ind; [by rewrite app_nil_r|].
  rewrite app_assoc, day_runs_snoc. intros [Hf _]%two_days_add. auto.
Qed.

Lemma take_between {A} (m n : nat) (runs days : list A) :
  runs `prefix_of` days -> take n days `prefix_of` runs -> (m <= n)%nat -> take m runs = take m days.
Proof.
  intros [k ->] [k' Hk] Hm. destruct (decide (m <= length runs)%nat); [by rewrite take_app_le|].
  assert (k = []) as ->; [|by rewrite app_nil_r].
  apply nil_length_inv. apply (f_equal length) in Hk. rewrite length_app, length_take, length_app in Hk. lia.
Qed.

Lemma elem_of_take_sub {A} n (x : A) l : x ∈ take n l -> x ∈ l.
Proof. intros Hx. rewrite <- (take_drop n l). apply elem_of_app. by left. Qed.

Lemma days_in_size f : (days_in f rp <= size (nodes f))%nat.
Proof.
  unfold days_in. etrans; [apply length_filter|]. unfold entries.
  rewrite <- length_map_to_list. generalize (map_to_list (nodes f)) as l.
  induction l as [|x l IH]; [done|]. cbn. destruct (child_name rp x.1); cbn; lia.
Qed.

Lemma ring_store fuel budget before todo runs t st :
  ring budget t runs st -> runs `prefix_of` day_runs before -> take 2 (day_runs before) `prefix_of` runs ->
  (forall k st', (k <= length todo)%nat -> store_all fuel (take k todo) st = Some st' -> held_bytes st' < 2 ^ 64) ->
  (size (nodes (w_fs (Storage.backend_ st).2)) + 8 * length todo < fuel)%nat ->
  Z.of_nat (size (nodes (w_fs (Storage.backend_ st).2))) + 8 * zlen todo < 2 ^ 32 ->
  Forall request_ok (before ++ todo) ->
  Forall (fun r => LogRequest.size r = sz (LogRequest.channel r)) (before ++ todo) ->
  runs_fit sz (day_runs (before ++ todo)) -> two_days_fit budget (day_runs (before ++ todo)) ->
  StronglySorted (fun r r' => day_of r <= day_of r') todo -> Forall (fun r => t <= day_of r) todo ->
  exists st' runs' t', store_all fuel todo st = Some st' /\ ring budget t' runs' st' /\
    runs' `prefix_of` day_runs (before ++ todo) /\ take 2 (day_runs (before ++ todo)) `prefix_of` runs'.
Proof.
  revert before runs t st. induction todo as [|r todo IH];
    intros before runs t st R Hpre Htake Hcap Hfuel Hsize Hok Hsz Hfit Htwo Hsort Ht.
  { exists st, runs, t. by rewrite app_nil_r. }
  assert (Hsplit : before ++ r :: todo = (before ++ [r]) ++ todo) by by rewrite <- app_assoc.
  rewrite Hsplit in *. pose proof (runs_fit_prefix _ _ _ Hfit) as Hfit1.
  pose proof (two_days_prefix _ _ _ Htwo) as Htwo1. rewrite day_runs_snoc in Hfit1, Htwo1.
  destruct (two_days_add _ _ _ Htwo1) as [_ Hneed].
  pose proof Hok as [[Hokb [Hr _]%Forall_cons]%Forall_app _]%Forall_app.
  pose proof Hsz as [[Hszb [Hrs _]%Forall_cons]%Forall_app _]%Forall_app.
  apply StronglySorted_inv in Hsort as [Hsort Hlater]. apply Forall_cons in Ht as [Htr _].
  set (m := spared (day_runs before) r) in *.
  assert (Hm : (1 <= m <= 2)%nat) by (unfold m, spared; repeat case_match; lia).
  assert (Etake : take m runs = take m (day_runs before)).
  { apply (take_between m 2); [done|done|lia]. }
  assert (Hpaid : paid_runs (take m runs) + need r <= budget).
  { rewrite Etake. etrans; [|exact Hneed]. apply Z.add_le_mono_r. apply zsum_map_le.
    intros u Hu%elem_of_take_sub. apply paid_needs; apply Forall_forall; intros x Hx;
      pose proof (day_runs_elem _ _ _ Hu Hx) as Hb; rewrite Forall_forall in *; auto. }
  assert (Hne : runs <> [] -> day_runs before <> []).
  { intros Hn E. rewrite E in Hpre. by apply prefix_nil_inv in Hpre. }
  pose proof (wp_ring_write fuel m budget t runs r st R (Hcap 0%nat st ltac:(lia) eq_refl)) as W.
  assert (Hdays : (days_in (w_fs (Storage.backend_ st).2) rp < fuel)%nat).
  { eapply Nat.le_lt_trans; [apply days_in_size|]. cbn [length] in Hfuel. lia. }
  specialize (W Hdays ltac:(lia) Hpaid Htr Hr Hrs).
  assert (Hfitr : runs_fit sz (add_request runs r)).
  { eapply runs_fit_spare; [exact Hpre| |exact Hfit1]. intros Hn E. rewrite E in Htake.
    apply prefix_nil_inv in Htake. by destruct (day_runs before). }
  specialize (W Hfitr). unfold roomy, zlen in *. cbn [length] in *. specialize (W ltac:(lia)).
  destruct (Storage.write fuel r st) as [o st1] eqn:Ew.
  pose proof (wp_intro _ _ _ _ _ Ew W) as (-> & Hsz1 & runs1 & Hpre1 & Htk1 & R1). clear W.
  cbn [store_all]. rewrite Ew.
  destruct (kept_add (day_runs before) runs runs1 r Htake Hpre Htk1 Hpre1) as [Hp Hk].
  rewrite <- day_runs_snoc in Hp, Hk.
  apply (IH (before ++ [r]) (add_request runs1 r) (day_of r) st1); try done; [|unfold state in *; lia|unfold zlen, state in *; lia].
  intros k st' Hk' Est'. apply (Hcap (S k) st'); [lia|]. cbn [take store_all]. by rewrite Ew.
Qed.
End Ring.

(** ** What retention keeps *)
Section Keeps.
Context {L : LocalTime} {LO : LocalTimeOk L} (sz : string -> Z) (root : string) (s : StorageScanner.t).
Let rp := StorageScanner.folder_ s.

End Keeps.

(** ** What retention can lose *)
Section Loss.
Context {L : LocalTime} {LO : LocalTimeOk L} (root : string) (rp : path) (sz : string -> Z).

(** A record for a channel whose files are open, wherever these are. *)
Lemma wp_write_open f w request st sw :
  Folder.yyyymmdd_ f <> 0 -> Folder.files_ f !! LogRequest.channel request = Some sw ->
  shaped st -> recorder st (sw, w) -> reliable w ->
  fits_stream (st_size st) (st_records st ++ [record_of request]) ->
  wp (Folder.write request) (fun o s' => o = Ok (result st (record_of request)) /\
    nodes (w_fs s'.2) = nodes (w_fs w)) (f, w).
Proof.
  intros Hd Hf Hs Hr Hrel Hfit. unfold Folder.write, Folder.get_f.
  wp_step. wp_step. cbn [wp_rest fst]. rewrite (proj2 (Z.eqb_neq _ _)) by done.
  wp_step. wp_step. cbn [wp_rest negb]. wp_step. wp_step. cbn [wp_rest fst]. wp_step. rewrite Hf.
  wp_step. cbn [wp_rest]. change (1 <=? 0) with false. cbv iota.
  pose proof (wp_record_on st sw w (record_of request) Hs Hr Hfit Hrel) as W.
  unfold wp, Folder.on_file in *. rewrite Hf. cbn [record_of r_time r_data] in W.
  destruct (StreamWriter.write _ _ (sw, w)) as [o [sw' w']]. cbn [fst snd] in *.
  destruct W as (-> & _ & F). split; [done|]. apply (oa_nodes _ _ _ F).
Qed.

(** A request for an open channel after the folder of its day was removed: nothing of
    what is written has a name. *)
Lemma wp_write_removed d l r b n b' :
  recording_days root rp sz [(d, l)] b -> w_env b'.2 = w_env b.2 -> b'.1 = b.1 ->
  w_fs b'.2 = remove_tree (w_fs b.2) (rp ++ [n]) ->
  day_of r = d -> LogRequest.channel r ∈ LogRequest.channel <$> l ->
  fits_stream (sz (LogRequest.channel r)) (channel_records (LogRequest.channel r) (l ++ [r])) ->
  wp (write r) (fun o b2 => o = Ok (acknowledgement (sz (LogRequest.channel r)) (record_of r)) /\
    nodes (w_fs b2.2) = nodes (w_fs b'.2)) b'.
Proof.
  intros [_ _ Hrel (w1 & S & _ & _ & R & Hh & _)] Ee Eb Ef Hday Hch Hfit.
  destruct (rc_day _ _ _ _ _ _ R) as [Ed _]. cbn [fst] in Ed.
  destruct (holds_requests_some sz S l (LogRequest.channel r) Hh Hch) as [stm HS].
  destruct (rc_some _ _ _ _ _ _ R _ _ HS) as (Hnm & sw & Hsw & Hrec). cbn [fst snd] in *.
  pose proof (Hh (LogRequest.channel r)) as Hhc. rewrite HS in Hhc. destruct Hhc as [Es Er].
  rewrite channel_records_app, channel_records_one, decide_True in Hfit by done.
  pose proof (wp_write_open (folder_ b'.1) b'.2 r stm sw) as W. rewrite Eb in W.
  destruct (rc_day _ _ _ _ _ _ R) as [_ Hd0]. cbn [fst] in Hd0.
  specialize (W ltac:(by rewrite Ed) Hsw (named_shaped _ _ _ Hnm)).
  specialize (W ltac:(eapply recorder_frame; [|exact Hrec]; intros j _; by rewrite Ef)).
  specialize (W ltac:(by eapply reliable_env) ltac:(by rewrite Es, Er)).
  destruct b' as [b0 w']. cbn [fst snd] in *. subst b0.
  unfold write. wp_step. wp_step. cbn [wp_rest fst]. unfold Folder.sameDay.
  fold (day_of r). rewrite Ed, Hday, Z.eqb_refl. cbn [negb]. wp_step. wp_step. cbn [wp_rest].
  apply wp_on_folder. eapply wp_mono; [exact W|]. intros o [f' w2] (-> & En). unfold result. by rewrite Es.
Qed.

(** C34. Retention can remove the day that is being recorded. When the day's own
    records are all that can be removed, a request that needs the room deletes the
    folder while its files are open. The request is acknowledged as if its record
    was stored, but nothing of the day, neither the old records nor the new one, is
    left in the tree: the record goes to a file without a name. *)
Theorem active_day_lost fuel d l r (st : Storage.t state) :
  recording_days root rp sz [(d, l)] (Storage.backend_ st) ->
  canonical_days (w_fs (Storage.backend_ st).2) rp -> 0 < d < kMaxDay ->
  (forall n, removable (w_fs (Storage.backend_ st).2) rp n = true -> n = to_string d) ->
  0 <= Storage.available_bytes_ st -> held_bytes rp st < 2 ^ 64 ->
  Storage.available_bytes_ st < need r <=
    Storage.available_bytes_ st + day_size (w_fs (Storage.backend_ st).2) rp (to_string d) ->
  day_of r = d -> LogRequest.channel r ∈ LogRequest.channel <$> l ->
  fits_stream (sz (LogRequest.channel r)) (channel_records (LogRequest.channel r) (l ++ [r])) ->
  wp (Storage.write (S (S fuel)) r) (fun o st' =>
    o = Ok (acknowledgement (sz (LogRequest.channel r)) (record_of r)) /\
    forall q, nodes (w_fs (Storage.backend_ st').2) !! (day_path rp d ++ q) = None) st.
Proof.
  unfold state in *. intros Hds Hcan Hrange Honly Hav Hheld Hneed Hday Hch Hfit.
  pose proof (recording_days_kept _ _ _ _ _ _ _ Hds) as [Hdir _].
  pose proof (removable_day rp _ d Hdir Hrange) as Hrem.
  pose proof (storage_dir_plain _ _ _ (ds_dir _ _ _ _ _ Hds)) as Hplain.
  assert (Hroot : root_of (Storage.backend_ st) = rp).
  { apply root_of_dir. rewrite (ds_root _ _ _ _ _ Hds). apply (ds_dir _ _ _ _ _ Hds). }
  assert (Hok : backend_ok (Storage.backend_ st)).
  { unfold backend_ok. rewrite Hroot, (ds_root _ _ _ _ _ Hds).
    split; [apply (ds_dir _ _ _ _ _ Hds)|apply (ds_dir _ _ _ _ _ Hds)|done|done]. }
  pose proof (used_part rp _ _ Hdir) as Hpart. unfold held_bytes in *.
  pose proof (day_size_nonneg (w_fs (Storage.backend_ st).2) rp (to_string d)).
  unfold Storage.write. wp_step. cbn [Storage.make_room]. wp_step. unfold Storage.get_available. wp_step.
  cbn [wp_rest]. fold (need r). rewrite (proj2 (Z.ltb_lt _ _)) by lia.
  wp_step. unfold Storage.on_backend at 1. apply wp_zoom.
  pose proof (wp_removeOldest (Storage.backend_ st) Hok) as W. rewrite Hroot in W.
  unfold state in *. eapply wp_mono; [apply W; lia|]. clear W. intros [[[] freed]|e] b'; cbn [wp_rest].
  2: { intros (_ & _ & H0). pose proof (days_in_pos _ _ _ Hrem). lia. }
  2: { intros (_ & _ & Hr). destruct Hr. apply (ds_reliable _ _ _ _ _ Hds). }
  intros (n & Hn & _ & -> & _ & Eb & Ee & Ef). rewrite (Honly n Hn) in *. unfold state in *.
  cbn [fst negb]. wp_step. unfold Storage.modify_available at 1. wp_step. cbn [wp_rest snd].
  wp_step. wp_step. cbn [wp_rest Storage.available_bytes_]. rewrite u64_small by lia.
  rewrite (proj2 (Z.ltb_ge _ _)) by lia. wp_step. cbn [wp_rest negb].
  wp_step. unfold Storage.on_backend. apply wp_zoom. cbn [Storage.backend_].
  eapply wp_mono; [by apply (wp_write_removed d l r (Storage.backend_ st) (to_string d))|].
  intros o b2 (-> & En). cbn [wp_rest]. wp_step.
  assert (Hgone : forall q, nodes (w_fs b2.2) !! (day_path rp d ++ q) = None).
  { intros q. rewrite En, Ef, lookup_remove_tree, decide_True; [done|]. by apply prefix_app_r. }
  destruct (0 <? _); [unfold Storage.modify_available|]; repeat (wp_step; cbn [wp_rest]); done.
Qed.
End Loss.

(** *** The guarantee at a concrete input

    Three days of one record each, of which the budget holds two. *)
#[local] Existing Instance utc_localtime.

Definition block : bytes := repeat x01 200.
Definition on_day (k : Z) : LogRequest.t :=
  LogRequest.mk (Some "can0"%string) None (Some block) (Some (noon + k * 86400 * 1000000000)).
Definition three_days : list LogRequest.t := [on_day 0; on_day 1; on_day 2].
Definition small_storage : Storage.t state := Storage.mk 700 (create "/log", sample_world).

Lemma three_days_runs :
  day_runs three_days = [(20240103, [on_day 2]); (20240102, [on_day 1]); (20240101, [on_day 0])].
Proof. vm_compute. reflexivity. Qed.

Lemma sample_canonical : canonical_days (w_fs sample_world) (StorageScanner.folder_ sample_scanner).
Proof. intros n d Hn. cbn in Hn. by apply lookup_singleton_Some in Hn as [? _]. Qed.

(** The counters stay below 2^64 on the way: checked by running the requests. *)
Definition capacity_check (fuel : nat) (rp : path) (requests : list LogRequest.t) (st : Storage.t state) : bool :=
  forallb (fun k => match store_all fuel (take k requests) st with
                    | Some st' => held_bytes rp st' <? 2 ^ 64
                    | None => true
                    end) (seq 0 (S (length requests))).

Lemma capacity_checked fuel rp requests st k st' :
  capacity_check fuel rp requests st = true ->
  (k <= length requests)%nat -> store_all fuel (take k requests) st = Some st' ->
  held_bytes rp st' < 2 ^ 64.
Proof.
  intros H Hk E. unfold capacity_check in H. rewrite forallb_forall in H. specialize (H k).
  rewrite E in H. apply Z.ltb_lt, H, in_seq. lia.
Qed.


(** Two records leave no room for a third of the same day. *)
Definition tight_storage : Storage.t state := Storage.mk 650 (create "/log", sample_world).
Definition same_day : list LogRequest.t := [on_day 0; on_day 0].

Lemma same_day_ring :
  exists st, store_all 30 same_day tight_storage = Some st /\
    ring "/log" ["log"%string] sample_size 650 20240101 [(20240101, same_day)] st.
Proof.
  assert (Hruns : day_runs same_day = [(20240101, same_day)]) by (vm_compute; reflexivity).
  assert (Hok : Forall request_ok same_day).
  { repeat constructor; try (vm_compute; congruence); cbn; rewrite ?elem_of_cons, elem_of_nil; intuition congruence. }
  pose proof (ring_store "/log" ["log"%string] sample_size 30 650 [] same_day [] 20240101 tight_storage) as W.
  cbn [app] in W. rewrite Hruns in W. destruct W as (st & runs & t & Es & R & Hpre & Htk).
  - split; [apply recording_days_start; [apply sample_storage_dir|apply sample_reliable]|apply sample_canonical
      |vm_compute; congruence|cbn; lia|constructor|constructor| |done|constructor].
    intros n x Hn. exfalso. unfold removable in Hn. apply andb_true_iff in Hn as [Hn%bool_decide_eq_true _].
    cbn in Hn. by apply lookup_singleton_Some in Hn as [? _].
  - apply prefix_nil.
  - done.
  - intros k st'. apply capacity_checked. vm_compute. reflexivity.
  - vm_compute. lia.
  - vm_compute. reflexivity.
  - exact Hok.
  - by repeat constructor.
  - constructor; [|constructor]. intros c.
    apply (run_ok_channels sample_size (20240101, same_day)); [|intros c'; unfold sample_size; case_decide; lia].
    repeat constructor; vm_compute; congruence.
  - cbn [two_days_fit snd]. split; [vm_compute; congruence|done].
  - repeat constructor; vm_compute; congruence.
  - repeat constructor; vm_compute; congruence.
  - exists st. split; [exact Es|]. cbn [take] in Htk. destruct Htk as [k ->]. destruct Hpre as [k' Hk].
    destruct k; [|by destruct k']. pose proof (rg_head _ _ _ _ _ _ _ R) as Ht. cbn in Ht. by subst t.
Qed.

Lemma active_day_lost_witness :
  exists st o st', store_all 30 same_day tight_storage = Some st /\
    Storage.write 2 (on_day 0) st = (o, st') /\ o = Ok 224 /\
    nodes (w_fs (Storage.backend_ st').2) !! ["log"; "20240101"]%string = None.
Proof.
  destruct same_day_ring as (st & Es & R).
  assert (Hget : forall A (g : Storage.t state -> A), Some (g st) = (g <$> store_all 30 same_day tight_storage))
    by (intros A g; by rewrite Es).
  assert (Hent : entries (w_fs (Storage.backend_ st).2) ["log"%string] = ["20240101"%string]).
  { apply (inj Some). rewrite (Hget _ (fun st => entries (w_fs (Storage.backend_ st).2) ["log"%string])). vm_compute. reflexivity. }
  assert (Hav : Storage.available_bytes_ st = 202).
  { apply (inj Some). rewrite (Hget _ Storage.available_bytes_). vm_compute. reflexivity. }
  assert (Hsz : day_size (w_fs (Storage.backend_ st).2) ["log"%string] "20240101" = 546).
  { apply (inj Some). rewrite (Hget _ (fun st => day_size (w_fs (Storage.backend_ st).2) ["log"%string] "20240101")). vm_compute. reflexivity. }
  assert (Hheld : held_bytes ["log"%string] st = 748).
  { apply (inj Some). rewrite (Hget _ (held_bytes ["log"%string])). vm_compute. reflexivity. }
  pose proof (active_day_lost "/log" ["log"%string] sample_size 0 20240101 same_day (on_day 0) st
    (rg_days _ _ _ _ _ _ _ R) (rg_canonical _ _ _ _ _ _ _ R)) as W.
  change (to_string 20240101) with "20240101"%string in W. rewrite Hav, Hsz, Hheld in W.
  assert (Hneed : need (on_day 0) = 322) by (vm_compute; reflexivity). rewrite Hneed in W.
  destruct (Storage.write 2 (on_day 0) st) as [o st'] eqn:Ew. exists st, o, st'. split; [exact Es|].
  split; [exact Ew|].
  assert (Honly : forall n, removable (w_fs (Storage.backend_ st).2) ["log"%string] n = true -> n = "20240101"%string).
  { intros n Hn. apply andb_true_iff in Hn as [Hn%bool_decide_eq_true _].
    apply list_elem_of_singleton. rewrite <- Hent. apply elem_of_entries. by eexists. }
  assert (Hfit : fits_stream 0 (channel_records "can0" (same_day ++ [on_day 0]))).
  { split; [repeat constructor; vm_compute; congruence|vm_compute; congruence]. }
  pose proof (wp_intro _ _ _ _ _ Ew (W ltac:(unfold kMaxDay; lia) Honly ltac:(lia) ltac:(lia) ltac:(lia)
    ltac:(vm_compute; reflexivity) ltac:(by left) Hfit)) as [Ho Hgone].
  split; [rewrite Ho; vm_compute; reflexivity|]. apply (Hgone []).
Defined.
