(* ===== verification/Limits.v ===== *)
(** * Limits

    Where the quantities of the code leave the range it is meant for: names of 32
    bytes, timestamps next to a full second, and the bytes that a folder reports. *)
From S2P Require Import Prelude DataTypes Calendar Format Protos FileSystem FileIO StreamWriter FileNames StreamWriterSpec Samples FileReader StreamReader Recording Folder StorageScanner ScannerSpec FolderSpec.
Local Open Scope Z_scope.

(** ** Seconds *)

(** A full second before 2^62 ns is exact as a [double]. *)
Lemma double_of_second k : 0 <= k -> k * 10 ^ 9 < 2 ^ 62 -> double_of_u64 (k * 10 ^ 9) = k * 10 ^ 9.
Proof.
  intros Hk Hl. destruct (Z.lt_ge_cases (k * 10 ^ 9) (2 ^ 53)) as [Hs|Hs].
  { by apply double_of_u64_small. }
  destruct (log2_binade _ Hs) as [Kn Bn]. rewrite (double_of_u64_binade _ _ Kn Bn).
  set (e := Z.log2 (k * 10 ^ 9) - 52).
  assert (He : 0 <= e <= 9).
  { assert (Z.log2 (k * 10 ^ 9) < 62) by (apply Z.log2_lt_pow2; lia). unfold e. lia. }
  assert (E : k * 10 ^ 9 = k * 5 ^ 9 * 2 ^ (9 - e) * 2 ^ e).
  { rewrite <- Z.mul_assoc, <- Z.pow_add_r by lia. replace (9 - e + e) with 9 by lia. lia. }
  rewrite E, round_div_exact by (apply Z.pow_pos_nonneg; lia). done.
Qed.

(** C31. The second of a timestamp before the year 2116. It is the exact one, or,
    for a timestamp in the last 5 microseconds of a second, possibly the next one;
    it is never the one before. *)
Theorem second_of_timestamp n :
  0 <= n < 2 ^ 62 ->
  n / 10 ^ 9 <= seconds_of_ns n <= n / 10 ^ 9 + 1 /\
  (n mod 10 ^ 9 < 10 ^ 9 - 5000 -> seconds_of_ns n = n / 10 ^ 9).
Proof.
  intros Hn. unfold seconds_of_ns. pose proof (double_of_u64_error n ltac:(lia)).
  pose proof (double_of_u64_range n ltac:(lia)) as Hr. pose proof (trunc_div_bounds _ Hr) as Hb.
  pose proof (Z.div_mod n (10 ^ 9) ltac:(lia)). pose proof (Z.mod_pos_bound n (10 ^ 9) ltac:(lia)).
  assert (Hlow : n / 10 ^ 9 <= double_of_u64 n / 10 ^ 9).
  { apply Z.div_le_lower_bound; [lia|]. rewrite Z.mul_comm.
    rewrite <- (double_of_second (n / 10 ^ 9)) by (try apply Z.div_pos; lia).
    apply double_of_u64_mono. split; [|lia]. apply Z.mul_nonneg_nonneg; [apply Z.div_pos|]; lia. }
  assert (Hup : (double_of_u64 n + 3815) / 10 ^ 9 < n / 10 ^ 9 + 2)
    by (apply Z.div_lt_upper_bound; lia).
  split; [lia|]. intros Hm.
  assert ((double_of_u64 n + 3815) / 10 ^ 9 < n / 10 ^ 9 + 1) by (apply Z.div_lt_upper_bound; lia).
  lia.
Qed.

(** ** Names *)

(** The name in the header of a file. A channel name of up to 31 bytes without
    a null is read back; a longer one fills the whole field, without a terminating
    null, and the reader's C string runs past the end of the array. *)
Lemma header_name_limit {H : Type} (sw : StreamWriter.t H) time_ns type :
  let name := StreamWriter.name_bytes (StreamWriter.name_ sw) in
  x00 ∉ name ->
  LogFileHeader.c_str (LogFileHeader.name_ (StreamWriter.header_of sw time_ns type)) =
    if zlen name <? 32 then Ok name else Throw OutOfBounds.
Proof.
  intros name Hz. cbn [StreamWriter.header_of LogFileHeader.name_]. fold name.
  destruct (Z.ltb_spec (zlen name) 32) as [Hl|Hl]; unfold zlen in Hl.
  - apply LogFileHeader.c_str_pad_name; [done|unfold LogFileHeader.name_size; lia].
  - apply LogFileHeader.c_str_pad_name_long; [done|unfold LogFileHeader.name_size; lia].
Qed.

(** ** The bytes of a day *)
Section Headers.
Context {L : LocalTime} (folder : string) (p : path).

(** What the acknowledgements of a channel's requests add up to. *)
Definition acknowledged (size : Z) (rs : list record) : Z :=
  zsum (map (acknowledgement size) rs).

Lemma acknowledged_cons size r rs :
  acknowledged size (r :: rs) = acknowledgement size r + acknowledged size rs.
Proof. done. Qed.

Definition short (r : record) : Prop := zlen (r_data r) < 2 ^ 31 - 24.

Lemma acknowledged_variable rs :
  Forall short rs -> acknowledged 0 rs = 12 * zlen rs + zsum (map data_entry_size rs).
Proof.
  induction 1 as [|r rs Hr Hrs IH]; [done|]. rewrite acknowledged_cons, IH. cbn [map].
  rewrite zsum_cons. unfold acknowledgement, data_entry_size, short in *. cbn [Z.eqb].
  pose proof (zlen_nonneg (r_data r)). rewrite i32_small by lia.
  unfold zlen. cbn [length]. lia.
Qed.

Lemma acknowledged_fixed size rs :
  0 < size < 2 ^ 31 - 24 -> Forall (fun r => zlen (r_data r) = size) rs ->
  acknowledged size rs = (8 + size) * zlen rs.
Proof.
  intros Hs. induction 1 as [|r rs Hr Hrs IH]; [unfold zlen; cbn; lia|]. rewrite acknowledged_cons, IH.
  unfold acknowledgement. rewrite (proj2 (Z.eqb_neq size 0)), Hr, i32_small by lia.
  unfold zlen. cbn [length]. lia.
Qed.

(** The bytes in the files of a stream, with the headers. *)
Lemma stream_bytes f st :
  named p f st -> written st f -> fits_stream (st_size st) (st_records st) ->
  Forall short (st_records st) -> st_size st < 2 ^ 31 - 24 ->
  zsum (map (fun j => zlen (contents f j)) (inodes st)) =
    acknowledged (st_size st) (st_records st) + LogFileHeader.size * zlen (inodes st).
Proof.
  intros Hn Hw [_ Hfit] Hs Hsz. fold (is_var st) in Hfit. unfold written, inodes in *.
  pose proof (nm_header _ _ _ Hn) as Hh. destruct (is_var st) eqn:Ev.
  - destruct (nm_data _ _ _ Hn Ev) as (_ & _ & Hhd & _). destruct Hw as [Ci Cd].
    unfold is_var in Ev. apply Z.eqb_eq in Ev. rewrite Ev in *.
    cbn [map]. rewrite !zsum_cons, Ci, Cd, zlen_var_index, zlen_data_file by done.
    rewrite acknowledged_variable by done. unfold end_offset.
    change (zsum []) with 0. change (zlen [st_index st; st_data st]) with 2. lia.
  - unfold is_var in Ev. apply Z.eqb_neq in Ev. pose proof (nm_size _ _ _ Hn).
    cbn [map]. rewrite !zsum_cons, Hw, (zlen_fixed_index _ (st_size st)) by (try done; apply Hfit).
    rewrite acknowledged_fixed by (try lia; apply Hfit).
    change (zsum []) with 0. change (zlen [st_index st]) with 1. lia.
Qed.

(** C32. Bytes that are not reported. Over a day of recording the files of a
    channel grow by what the requests report, and by a header of 49 bytes in each
    of them - two for records of any size - that no result contains: the byte
    budget of [Storage], which is lowered by the results, misses 98 or 49 bytes for
    every channel and day. *)
Theorem headers_not_counted sz requests day w :
  day <> 0 -> directory_at (w_fs w) folder p -> no_dot folder = true ->
  (forall n t, nodes (w_fs w) !! (p ++ [n]) <> Some (NLink t)) ->
  reliable w -> roomy w (length requests) -> Forall request_ok requests ->
  Forall (fun r => LogRequest.size r = sz (LogRequest.channel r)) requests ->
  (forall c, fits_stream (sz c) (channel_records c requests)) ->
  (forall c, Forall short (channel_records c requests) /\ sz c < 2 ^ 31 - 24) ->
  wp (record_day requests) (fun o s' =>
    let f := w_fs s'.2 in
    o = Ok (map (fun r => acknowledgement (sz (LogRequest.channel r)) (record_of r)) requests) /\
    forall c, c ∈ LogRequest.channel <$> requests -> exists n i,
      nodes f !! (p ++ [n +:+ ".idx"]) = Some (NFile i) /\
      if sz c =? 0 then
        exists d, nodes f !! (p ++ [n +:+ ".data"]) = Some (NFile d) /\
          zlen (contents f i) + zlen (contents f d) =
            acknowledged (sz c) (channel_records c requests) + 98
      else zlen (contents f i) = acknowledged (sz c) (channel_records c requests) + 49)
    (Folder.mk day folder ∅, w).
Proof.
  intros Hday Hdir Hdot Hlinks Hrel Hroom Hok Hsz Hfit Hshort.
  eapply wp_mono; [by apply (wp_record_day folder p sz requests day w)|].
  intros o s' (-> & _ & Hall) f. split; [done|]. intros c Hc.
  destruct (kept_stream _ _ _ _ c Hall Hc) as (st & Hn & _ & Hw & Es & Er). destruct (Hshort c) as [Hs Hz].
  exists (st_name st), (st_index st). split; [apply Hn|].
  pose proof (stream_bytes f st Hn Hw ltac:(by rewrite Es, Er) ltac:(by rewrite Er) ltac:(by rewrite Es)) as Hb.
  rewrite Es, Er in Hb. unfold inodes, is_var in Hb. rewrite Es in Hb.
  destruct (sz c =? 0) eqn:E0.
  - destruct (nm_data _ _ _ Hn) as (_ & Hd & _); [by unfold is_var; rewrite Es|].
    exists (st_data st). split; [exact Hd|]. change (zlen (?x :: ?l)) with (Z.of_nat (length (x :: l))) in Hb.
    cbn [map length] in Hb. rewrite !zsum_cons in Hb. change (zsum []) with 0 in Hb.
    unfold LogFileHeader.size in Hb. lia.
  - change (zlen (?x :: ?l)) with (Z.of_nat (length (x :: l))) in Hb.
    cbn [map length] in Hb. rewrite !zsum_cons in Hb. change (zsum []) with 0 in Hb.
    unfold LogFileHeader.size in Hb. lia.
Qed.
End Headers.

(** *** The limits at concrete inputs *)
Section Witnesses.
#[local] Existing Instance utc_localtime.

(** 100 ns before midnight a record belongs to the next day. *)
Lemma second_of_timestamp_witness :
  seconds_of_ns 1704067199999999900 <= 1704067199 + 1 /\
  Time2YYYYMMDD 1704067199999999900 = 20240101 /\ Time2YYYYMMDD 1704067199999990000 = 20231231.
Proof.
  split; [|split; vm_compute; reflexivity].
  exact (proj2 (proj1 (second_of_timestamp 1704067199999999900 ltac:(lia)))).
Defined.

(** A name of 32 bytes. *)
Definition long_name : string := "engine-control-unit-temperatures".

Example long_name_runs_past :
  LogFileHeader.c_str (LogFileHeader.name_ (StreamWriter.header_of
    (StreamWriter.set_request long_name 0 (StreamWriter.create (H := StandardFileIO.t) "/log")) noon kIndexFile))
  = Throw OutOfBounds.
Proof.
  rewrite (header_name_limit (StreamWriter.set_request long_name 0
    (StreamWriter.create (H := StandardFileIO.t) "/log")) noon kIndexFile).
  - vm_compute. reflexivity.
  - apply (bool_decide_unpack _). vm_compute. exact I.
Defined.

Lemma interleaved_short c :
  Forall short (channel_records c interleaved) /\ sample_size c < 2 ^ 31 - 24.
Proof.
  split; [|unfold sample_size; case_decide; lia].
  apply Forall_forall. intros r (q & -> & [_ Hq]%list_elem_of_filter)%list_elem_of_fmap.
  unfold interleaved in Hq. rewrite !elem_of_cons, elem_of_nil in Hq.
  destruct Hq as [->|[->|[->|[->|[]]]]]; vm_compute; reflexivity.
Qed.

Lemma headers_not_counted_witness :
  exists s' n i d, record_day interleaved (Folder.mk 20240101 "/log" ∅, sample_world) =
      (Ok [27; 10; 24; 10], s') /\
    nodes (w_fs s'.2) !! (["log"; n +:+ ".idx"]%string) = Some (NFile i) /\
    nodes (w_fs s'.2) !! (["log"; n +:+ ".data"]%string) = Some (NFile d) /\
    zlen (contents (w_fs s'.2) i) + zlen (contents (w_fs s'.2) d) = 51 + 98.
Proof.
  pose proof (sample_folder_ready sample_fs eq_refl) as Hr.
  pose proof (headers_not_counted "/log" ["log"%string] sample_size interleaved 20240101 sample_world
    ltac:(done) ltac:(apply Hr) ltac:(reflexivity) ltac:(apply Hr)
    sample_reliable ltac:(vm_compute; reflexivity) interleaved_ok
    ltac:(repeat constructor) interleaved_fits interleaved_short) as W.
  unfold wp in W. destruct (record_day interleaved _) as [o s'] eqn:E. cbn [fst snd] in W.
  destruct W as [-> W]. destruct (W "can0"%string ltac:(by left)) as (n & i & Hi & d & Hd & Hb).
  exists s', n, i, d. split; [reflexivity|]. by split_and!.
Defined.
End Witnesses.
