(* ===== verification/StreamsCombiner.v ===== *)
(** * Combining streams

    [libs/log_client/streams_combiner.h] and [.cpp]: the client-side container
    that merges the records of several streams into one-second chunks. The map
    from seconds to chunks is a [gmap] whose keys are visited in increasing
    order, as [std::map] does; the writer callback is a program on a state of its
    own. The theorems: the chunks of [addRecords] against a filter of the
    input, the numbering of the streams, and what [save] hands to the writer. *)
From S2P Require Import Prelude DataTypes Protos.
Local Open Scope Z_scope.

(** A map's keys in the order [std::map] iterates over them. *)
Definition ordered_keys {A} (m : gmap Z A) : list Z :=
  merge_sort Z.le (elements (dom m)).

Module OneSecondData.
Record t := mk {
  data_ : list DataPiece.t;
  sorted_ : bool
}.

Definition empty : t := mk [] false.

Definition add (data : list DataPiece.t) (s : t) : t :=
  mk (data_ s ++ data) false.

Definition time_le (a b : DataPiece.t) : Prop :=
  DataPiece.time_ns a <= DataPiece.time_ns b.

#[global] Instance time_le_dec a b : Decision (time_le a b).
Proof. unfold time_le. apply _. Defined.

(** [std::sort] promises a sorted permutation; this is one of them. *)
Definition sort (s : t) : t :=
  if sorted_ s then s else mk (merge_sort time_le (data_ s)) true.

Section save.
Context {W : Type} (writer : list DataPiece.t -> prog W unit).
Definition save (s : t) : prog W Z :=
  writer (data_ s);; mret (zlen (data_ s)).
End save.

#[global] Instance time_le_total : Total time_le.
Proof. intros a b. unfold time_le. lia. Qed.

#[global] Instance time_le_trans : Transitive time_le.
Proof. intros a b c. unfold time_le. lia. Qed.
End OneSecondData.

Module StreamsCombiner.
Record t := mk {
  seconds_ : gmap Z OneSecondData.t;
  first_second_ : Z;
  last_second_ : Z;
  indices_ : gmap string Z
}.

Definition construct (start_time end_time : Z) : t :=
  mk ∅ (seconds_of_ns start_time) (seconds_of_ns end_time) ∅.

Definition set_seconds (m : gmap Z OneSecondData.t) (s : t) : t :=
  mk m (first_second_ s) (last_second_ s) (indices_ s).

Definition set_indices (m : gmap string Z) (s : t) : t :=
  mk (seconds_ s) (first_second_ s) (last_second_ s) m.

Definition storeData (second : Z) (data : list DataPiece.t) (s : t) : t :=
  if decide (second = 0 \/ data = []) then s
  else
    let m := match seconds_ s !! second with
             | Some _ => seconds_ s
             | None => <[second := OneSecondData.empty]> (seconds_ s)
             end in
    set_seconds (alter (OneSecondData.add data) second m) s.

(** The record of the output: the time and the data are copied, the stream is
    the position of its name. *)
Definition piece (stream_index : Z) (it : DataPiece.t) : DataPiece.t :=
  DataPiece.mk (Some (DataPiece.time_ns it)) (Some (DataPiece.data it))
    (Some (u32 stream_index)).

(** The loop of [addRecords] with its locals [last] and [tmp]. *)
Fixpoint add_loop (stream_index : Z) (data : list DataPiece.t) (last : Z)
    (tmp : list DataPiece.t) (s : t) : t :=
  match data with
  | [] => storeData last tmp s
  | it :: data' =>
      let second := seconds_of_ns (DataPiece.time_ns it) in
      if second <? first_second_ s then add_loop stream_index data' last tmp s
      else if last_second_ s <? second then storeData last tmp s
      else if negb (second =? last) then
        add_loop stream_index data' second [piece stream_index it] (storeData last tmp s)
      else add_loop stream_index data' last (tmp ++ [piece stream_index it]) s
  end.

Definition find_or_emplace (stream : string) (s : t) : Z * t :=
  match indices_ s !! stream with
  | Some i => (i, s)
  | None =>
      let i := i32 (Z.of_nat (size (indices_ s))) in
      (i, set_indices (<[stream := i]> (indices_ s)) s)
  end.

Definition addRecords (stream : string) (data : list DataPiece.t) (s : t) : t :=
  let '(stream_index, s) := find_or_emplace stream s in
  add_loop stream_index data 0 [] s.

Definition streams (s : t) : gmap string Z := indices_ s.

Section save.
Context {W : Type} (writer : list DataPiece.t -> prog W unit).

Fixpoint save_loop (seconds : list OneSecondData.t) (size : Z) : prog W Z :=
  match seconds with
  | [] => mret size
  | d :: rest => n ← OneSecondData.save writer d; save_loop rest (u64 (size + n))
  end.

Definition save (s : t) : prog W Z :=
  save_loop (omap (fun k => seconds_ s !! k) (ordered_keys (seconds_ s))) 0.
End save.

(** The streams of [get_can]: each is added under its name, in turn. *)
Definition add_streams (streams : list (string * list DataPiece.t)) (s : t) : t :=
  foldl (fun s p => addRecords p.1 p.2 s) s streams.

(** A writer that keeps what it is given. *)
Definition keep (data : list DataPiece.t) : prog (list (list DataPiece.t)) unit :=
  modify (fun out => out ++ [data]).

(** ** The reference definition *)

(** The part of a stream that [addRecords] takes: up to the first record after
    the last second, without those before the first second. *)
Fixpoint window (first last : Z) (data : list DataPiece.t) : list DataPiece.t :=
  match data with
  | [] => []
  | it :: data' =>
      let second := seconds_of_ns (DataPiece.time_ns it) in
      if second <? first then window first last data'
      else if last <? second then []
      else it :: window first last data'
  end.

Definition at_second (k : Z) (data : list DataPiece.t) : list DataPiece.t :=
  filter (fun p => seconds_of_ns (DataPiece.time_ns p) = k) data.

(** What is held for a second. *)
Definition chunk (k : Z) (s : t) : list DataPiece.t :=
  match seconds_ s !! k with Some d => OneSecondData.data_ d | None => [] end.

Lemma window_sorted first last data :
  StronglySorted OneSecondData.time_le data ->
  Forall (fun p => 0 <= DataPiece.time_ns p < 2 ^ 64) data ->
  window first last data =
  filter (fun p => first <= seconds_of_ns (DataPiece.time_ns p) <= last) data.
Proof.
  intros Hs Hts. induction Hs as [|it data Hs IH Hle]; [done|].
  apply Forall_cons in Hts as [Ht Hts].
  cbn [window]. rewrite filter_cons, IH by done.
  destruct (Z.ltb_spec (seconds_of_ns (DataPiece.time_ns it)) first).
  { by rewrite decide_False by lia. }
  destruct (Z.ltb_spec last (seconds_of_ns (DataPiece.time_ns it)));
    [|by rewrite decide_True by lia].
  rewrite decide_False by lia. symmetry. apply list_filter_none.
  rewrite Forall_forall in Hle, Hts. apply Forall_forall. intros p Hp.
  specialize (Hle p Hp). specialize (Hts p Hp). unfold OneSecondData.time_le in Hle.
  pose proof (seconds_of_ns_mono (DataPiece.time_ns it) (DataPiece.time_ns p)). lia.
Qed.

(** ** Storing *)

Lemma storeData_frame second data s :
  first_second_ (storeData second data s) = first_second_ s /\
  last_second_ (storeData second data s) = last_second_ s /\
  indices_ (storeData second data s) = indices_ s.
Proof. unfold storeData. by destruct (decide _). Qed.

Lemma chunk_storeData k second data s :
  k ≠ 0 ->
  chunk k (storeData second data s) =
  if decide (k = second) then chunk k s ++ data else chunk k s.
Proof.
  intros Hk. unfold storeData.
  destruct (decide (second = 0 \/ data = [])) as [[->| ->]|Hn].
  - by rewrite decide_False.
  - destruct (decide _); [by rewrite app_nil_r|done].
  - unfold chunk. cbn [set_seconds seconds_].
    destruct (decide (k = second)) as [->|Hne].
    + rewrite lookup_alter_eq. destruct (seconds_ s !! second) eqn:E.
      * by rewrite E.
      * rewrite lookup_insert_eq. done.
    + rewrite lookup_alter_ne by done.
      destruct (seconds_ s !! second); [done|]. by rewrite lookup_insert_ne.
Qed.

(** No chunk is empty and none is that of second 0. *)
Definition tidy (s : t) : Prop :=
  map_Forall (fun k d => k ≠ 0 /\ OneSecondData.data_ d ≠ []) (seconds_ s).

Lemma tidy_storeData second data s : tidy s -> tidy (storeData second data s).
Proof.
  intros Ht. unfold storeData.
  destruct (decide (second = 0 \/ data = [])) as [|Hn]; [done|].
  intros k d. cbn [set_seconds seconds_]. intros Hl.
  destruct (decide (k = second)) as [->|Hne].
  - rewrite lookup_alter_eq in Hl. apply fmap_Some in Hl as (d0 & _ & ->).
    split; [tauto|]. cbn. intros [_ H]%app_eq_nil. tauto.
  - rewrite lookup_alter_ne in Hl by done. apply Ht.
    destruct (seconds_ s !! second); [done|]. by rewrite lookup_insert_ne in Hl.
Qed.

(** ** addRecords *)

Lemma time_of_piece i p : DataPiece.time_ns (piece i p) = DataPiece.time_ns p.
Proof. done. Qed.

Lemma at_second_piece k i data :
  at_second k (piece i <$> data) = piece i <$> at_second k data.
Proof.
  induction data as [|p data IH]; [done|]. unfold at_second in *.
  rewrite fmap_cons, !filter_cons, time_of_piece, IH.
  by destruct (decide _).
Qed.

Lemma at_second_app k l l' : at_second k (l ++ l') = at_second k l ++ at_second k l'.
Proof. apply filter_app. Qed.

Definition bounds (s : t) : Z * Z := (first_second_ s, last_second_ s).

Lemma add_loop_frame i data last tmp s :
  bounds (add_loop i data last tmp s) = bounds s /\
  indices_ (add_loop i data last tmp s) = indices_ s.
Proof.
  revert last tmp s. induction data as [|it data IH]; intros last tmp s;
    pose proof (storeData_frame last tmp s) as (F1 & F2 & F3); unfold bounds in *;
    cbn [add_loop]; [by rewrite F1, F2|].
  destruct (_ <? _); [done|]. destruct (_ <? _); [by rewrite F1, F2|].
  destruct (negb _); [|done].
  destruct (IH (seconds_of_ns (DataPiece.time_ns it)) [piece i it] (storeData last tmp s))
    as [-> ->]. by rewrite F1, F2.
Qed.

Lemma chunk_add_loop k i data last tmp s :
  k ≠ 0 ->
  chunk k (add_loop i data last tmp s) =
  chunk k s ++ (if decide (k = last) then tmp else []) ++
  at_second k (piece i <$> window (first_second_ s) (last_second_ s) data).
Proof.
  intros Hk. revert last tmp s. induction data as [|it data IH]; intros last tmp s;
    cbn [add_loop window].
  { rewrite chunk_storeData by done. destruct (decide _); by rewrite ?app_nil_r. }
  destruct (_ <? _); [by rewrite IH|]. destruct (_ <? _).
  { rewrite chunk_storeData by done. destruct (decide _); by rewrite ?app_nil_r. }
  rewrite fmap_cons. unfold at_second at 1. rewrite filter_cons, time_of_piece.
  fold (at_second k (piece i <$> window (first_second_ s) (last_second_ s) data)).
  destruct (Z.eqb_spec (seconds_of_ns (DataPiece.time_ns it)) last) as [He|He]; cbn [negb];
    rewrite IH.
  - rewrite He. destruct (decide (last = k)) as [<-|?].
    + rewrite !decide_True by done. by rewrite <- app_assoc.
    + by rewrite !decide_False by congruence.
  - rewrite chunk_storeData by done.
    destruct (storeData_frame last tmp s) as (-> & -> & _).
    destruct (decide (seconds_of_ns (DataPiece.time_ns it) = k)) as [<-|?].
    + rewrite decide_False, decide_True by done. by rewrite (decide_False (P := _ = last)).
    + rewrite (decide_False (P := k = seconds_of_ns _)) by done.
      destruct (decide (k = last)); by rewrite <- ?app_assoc.
Qed.

Lemma tidy_add_loop i data last tmp s : tidy s -> tidy (add_loop i data last tmp s).
Proof.
  revert last tmp s. induction data as [|it data IH]; intros last tmp s Ht; cbn [add_loop];
    repeat case_match; auto using tidy_storeData.
Qed.

Lemma find_or_emplace_spec name s i s' :
  find_or_emplace name s = (i, s') ->
  seconds_ s' = seconds_ s /\ bounds s' = bounds s /\
  indices_ s' !! name = Some i /\ indices_ s ⊆ indices_ s'.
Proof.
  unfold find_or_emplace. destruct (indices_ s !! name) eqn:E; intros [= <- <-]; [done|].
  repeat split; [apply lookup_insert_eq|by apply insert_subseteq].
Qed.

(** The index a stream's records carry in a container. *)
Definition index_of (name : string) (s : t) : Z := default 0 (indices_ s !! name).

Lemma addRecords_frame name data s :
  bounds (addRecords name data s) = bounds s /\
  indices_ s ⊆ indices_ (addRecords name data s) /\
  is_Some (indices_ (addRecords name data s) !! name).
Proof.
  unfold addRecords. destruct (find_or_emplace name s) as [i s'] eqn:E.
  apply find_or_emplace_spec in E as (_ & Hb & Hi & Hs).
  destruct (add_loop_frame i data 0 [] s') as [-> ->]. eauto.
Qed.

Lemma chunk_addRecords k name data s :
  k ≠ 0 ->
  chunk k (addRecords name data s) =
  chunk k s ++ at_second k (piece (index_of name (addRecords name data s)) <$>
    window (first_second_ s) (last_second_ s) data).
Proof.
  intros Hk. unfold addRecords. destruct (find_or_emplace name s) as [i s'] eqn:E.
  apply find_or_emplace_spec in E as (Hs & [= <- <-] & Hi & _).
  rewrite chunk_add_loop by done. unfold index_of.
  destruct (add_loop_frame i data 0 [] s') as [_ ->]. rewrite Hi. cbn [default].
  unfold chunk. rewrite Hs. by destruct (decide _).
Qed.

Lemma tidy_addRecords name data s : tidy s -> tidy (addRecords name data s).
Proof.
  intros Ht. unfold addRecords. destruct (find_or_emplace name s) as [i s'] eqn:E.
  apply find_or_emplace_spec in E as (Hs & _). apply tidy_add_loop.
  unfold tidy. by rewrite Hs.
Qed.

Lemma chunk_zero s : tidy s -> chunk 0 s = [].
Proof.
  intros Ht. unfold chunk. destruct (seconds_ s !! 0) eqn:E; [|done].
  by destruct (Ht _ _ E).
Qed.

(** C23. Adding a stream whose records are ordered by time extends the chunk of
    every second by exactly the stream's records of that second that lie between
    the first and the last second asked for, in the order of the stream, each
    with its time, its data and the stream's index; records of second 0 are
    dropped. The loop with its pending vector computes a filter. *)
Theorem add_records_chunks name data s k :
  tidy s ->
  StronglySorted OneSecondData.time_le data ->
  Forall (fun p => 0 <= DataPiece.time_ns p < 2 ^ 64) data ->
  chunk k (addRecords name data s) =
  chunk k s ++
  (piece (index_of name (addRecords name data s)) <$>
     filter (fun p => seconds_of_ns (DataPiece.time_ns p) = k /\
                      first_second_ s <= k <= last_second_ s /\ k ≠ 0) data).
Proof.
  intros Ht Hs Hr. destruct (decide (k = 0)) as [->|Hk].
  - rewrite !chunk_zero by auto using tidy_addRecords.
    rewrite list_filter_none; [done|]. apply Forall_forall. tauto.
  - rewrite chunk_addRecords, window_sorted, at_second_piece by done.
    do 2 f_equal. unfold at_second. rewrite list_filter_filter.
    apply list_filter_iff. intros p. split; [intros [<- ?]|intros (<- & ? & _)]; auto.
Qed.

(** ** The numbering of the streams *)

(** The names in use have the numbers below their count, each one once. *)
Record numbered (m : gmap string Z) : Prop := {
  numbered_range : forall name i, m !! name = Some i -> 0 <= i < Z.of_nat (size m);
  numbered_inj : forall name name' i, m !! name = Some i -> m !! name' = Some i -> name = name'
}.

Lemma numbered_insert m name :
  numbered m -> m !! name = None -> numbered (<[name := Z.of_nat (size m)]> m).
Proof.
  intros [Hr Hi] Hn. split.
  - intros n i. rewrite map_size_insert_None by done. intros Hl.
    apply lookup_insert_Some in Hl as [[_ <-]|[_ Hl]]; [lia|]. specialize (Hr _ _ Hl). lia.
  - intros n n' i Hl Hl'.
    apply lookup_insert_Some in Hl as [[-> E]|[_ Hl]];
    apply lookup_insert_Some in Hl' as [[-> E']|[_ Hl']]; [done| | |by eapply Hi];
      [specialize (Hr _ _ Hl')|specialize (Hr _ _ Hl)]; lia.
Qed.

Lemma numbered_addRecords name data s :
  Z.of_nat (size (indices_ s)) < 2 ^ 31 ->
  numbered (indices_ s) ->
  numbered (indices_ (addRecords name data s)) /\
  (size (indices_ (addRecords name data s)) <= S (size (indices_ s)))%nat.
Proof.
  intros Hsz Hn. unfold addRecords, find_or_emplace.
  destruct (indices_ s !! name) eqn:E;
    rewrite (proj2 (add_loop_frame _ _ _ _ _)); [auto with lia|].
  cbn [set_indices indices_]. rewrite i32_small by lia.
  rewrite map_size_insert_None by done. auto using numbered_insert.
Qed.

Lemma add_streams_frame l s :
  bounds (add_streams l s) = bounds s /\ indices_ s ⊆ indices_ (add_streams l s).
Proof.
  revert s. induction l as [|[name data] l IH]; intros s; [done|].
  cbn [add_streams foldl fst snd]. destruct (addRecords_frame name data s) as (F1 & F2 & _).
  destruct (IH (addRecords name data s)) as [I1 I2]. unfold add_streams in *.
  rewrite I1. split; [done|]. by etransitivity.
Qed.

Lemma numbered_add_streams l s :
  Z.of_nat (size (indices_ s) + length l) <= 2 ^ 31 ->
  numbered (indices_ s) -> numbered (indices_ (add_streams l s)).
Proof.
  revert s. induction l as [|[name data] l IH]; intros s Hl Hn; [done|].
  cbn [length] in Hl. cbn [add_streams foldl fst snd].
  destruct (numbered_addRecords name data s) as [? ?]; [lia|done|].
  apply IH; [lia|done].
Qed.

Lemma tidy_add_streams l s : tidy s -> tidy (add_streams l s).
Proof.
  revert s. induction l as [|[name data] l IH]; intros s Ht; [done|].
  by apply IH, tidy_addRecords.
Qed.

Lemma index_of_subseteq name s s' :
  is_Some (indices_ s !! name) -> indices_ s ⊆ indices_ s' ->
  index_of name s' = index_of name s.
Proof.
  intros [i Hi] Hs. unfold index_of. by rewrite Hi, (lookup_weaken _ _ _ _ Hi Hs).
Qed.

(** The records taken from the streams of [l], with the indices of [s]. *)
Definition taken (l : list (string * list DataPiece.t)) (s : t) : list DataPiece.t :=
  concat ((fun p => piece (index_of p.1 s) <$>
                    window (first_second_ s) (last_second_ s) p.2) <$> l).

Lemma chunk_add_streams k l s :
  k ≠ 0 -> chunk k (add_streams l s) = chunk k s ++ at_second k (taken l (add_streams l s)).
Proof.
  intros Hk. revert s. induction l as [|[name data] l IH]; intros s.
  { by rewrite app_nil_r. }
  cbn [add_streams foldl fst snd]. fold (add_streams l (addRecords name data s)).
  set (s1 := addRecords name data s). rewrite (IH s1). unfold taken.
  cbn [fmap list_fmap concat fst snd]. rewrite at_second_app, app_assoc. f_equal.
  unfold s1 at 1. rewrite chunk_addRecords by done. do 2 f_equal.
  destruct (addRecords_frame name data s) as (F1 & F2 & F3).
  destruct (add_streams_frame l s1) as [G1 G2].
  rewrite (index_of_subseteq name s1 (add_streams l s1)) by done.
  fold s1 in F1. rewrite <- G1 in F1. injection F1 as -> ->. done.
Qed.

(** C25. However many streams are combined, up to the range of [int], the
    container numbers the names by the positions below their count, each
    number being that of one name, and a name keeps its number when more
    streams are added: the index of a record identifies its stream. *)
Theorem streams_are_numbered (start end_ : Z) (l l' : list (string * list DataPiece.t)) :
  Z.of_nat (length l + length l') <= 2 ^ 31 ->
  let s := add_streams l (construct start end_) in
  numbered (streams s) /\ streams s ⊆ streams (add_streams l' s) /\
  (forall p, p ∈ l -> is_Some (streams s !! p.1)).
Proof.
  intros Hl s. split; [|split].
  - apply numbered_add_streams; [cbn; rewrite map_size_empty; lia|]. split; cbn; by intros ??.
  - apply add_streams_frame.
  - subst s. generalize (construct start end_) as s. clear Hl.
    induction l as [|[name data] l IH]; intros s p Hp; [by apply elem_of_nil in Hp|].
    cbn [add_streams foldl fst snd]. apply elem_of_cons in Hp as [->|Hp]; [|by apply IH].
    destruct (addRecords_frame name data s) as (_ & _ & [i Hi]).
    exists i. eapply lookup_weaken; [exact Hi|]. apply add_streams_frame.
Qed.

(** ** save *)

Lemma ordered_keys_spec {A} (m : gmap Z A) :
  ordered_keys m ≡ₚ elements (dom m) /\ StronglySorted Z.lt (ordered_keys m).
Proof.
  assert (Hp : ordered_keys m ≡ₚ elements (dom m)) by apply merge_sort_Permutation.
  split; [done|].
  assert (Hs : StronglySorted Z.le (ordered_keys m)) by (apply StronglySorted_merge_sort; apply _).
  assert (Hn : NoDup (ordered_keys m)) by (rewrite Hp; apply NoDup_elements).
  revert Hn. generalize dependent (ordered_keys m). intros l _ Hs Hn.
  induction Hs as [|k ks Hs IH Hle]; constructor; apply NoDup_cons in Hn as [Hk Hn]; [by apply IH|].
  apply Forall_forall. intros k' Hk'. rewrite Forall_forall in Hle. specialize (Hle k' Hk').
  assert (k ≠ k') by (by intros ->). lia.
Qed.

(** The chunks in the order of their seconds. *)
Definition chunks (s : t) : list (list DataPiece.t) :=
  (fun k => chunk k s) <$> ordered_keys (seconds_ s).

Lemma save_loop_keep ds size out :
  0 <= size -> size + zlen (concat (OneSecondData.data_ <$> ds)) < 2 ^ 64 ->
  save_loop keep ds size out =
  (Ok (size + zlen (concat (OneSecondData.data_ <$> ds))), out ++ (OneSecondData.data_ <$> ds)).
Proof.
  revert size out. induction ds as [|d ds IH]; intros size out Hs Hl; cbn [fmap list_fmap concat] in *.
  { cbn. by rewrite Z.add_0_r, app_nil_r. }
  rewrite zlen_app in Hl. pose proof (zlen_nonneg (OneSecondData.data_ d)).
  pose proof (zlen_nonneg (concat (OneSecondData.data_ <$> ds))).
  cbn [save_loop]. unfold OneSecondData.save, keep, modify, mbind, prog_bind, mret, prog_ret.
  rewrite u64_small by lia. change (fun s => _) with keep at 1 || idtac.
  fold keep. rewrite IH by lia. rewrite zlen_app, <- app_assoc, Z.add_assoc. done.
Qed.

Lemma held_chunks s :
  OneSecondData.data_ <$> omap (fun k => seconds_ s !! k) (ordered_keys (seconds_ s)) = chunks s.
Proof.
  unfold chunks. destruct (ordered_keys_spec (seconds_ s)) as [Hp _].
  assert (Hd : Forall (fun k => is_Some (seconds_ s !! k)) (ordered_keys (seconds_ s))).
  { apply Forall_forall. intros k. rewrite Hp, elem_of_elements. apply elem_of_dom. }
  clear Hp. induction Hd as [|k ks [d Hk] Hd IH]; [done|].
  cbn [omap list_omap fmap list_fmap]. unfold chunk at 1. rewrite Hk.
  cbn [fmap list_fmap]. by rewrite <- IH.
Qed.

Lemma save_keep s out :
  zlen (concat (chunks s)) < 2 ^ 64 ->
  save keep s out = (Ok (zlen (concat (chunks s))), out ++ chunks s).
Proof.
  intros Hl. unfold save. rewrite save_loop_keep by (rewrite ?held_chunks; lia).
  by rewrite held_chunks.
Qed.

(** A record that is taken is one of its stream, from the seconds asked for. *)
Lemma window_elem first last data p :
  p ∈ window first last data -> p ∈ data /\ first <= seconds_of_ns (DataPiece.time_ns p) <= last.
Proof.
  induction data as [|it data IH]; cbn [window]; [by intros ?%elem_of_nil|].
  destruct (Z.ltb_spec (seconds_of_ns (DataPiece.time_ns it)) first).
  { intros [? ?]%IH. split; [by right|done]. }
  destruct (Z.ltb_spec last (seconds_of_ns (DataPiece.time_ns it))); [by intros ?%elem_of_nil|].
  intros [->|[? ?]%IH]%elem_of_cons; (split; [by constructor|done]).
Qed.

Lemma chunks_elem start end_ l d p :
  let s := add_streams l (construct start end_) in
  d ∈ chunks s -> p ∈ d ->
  seconds_of_ns start <= seconds_of_ns (DataPiece.time_ns p) <= seconds_of_ns end_ /\
  exists name data p', (name, data) ∈ l /\ p' ∈ data /\ DataPiece.time_ns p = DataPiece.time_ns p'.
Proof.
  intros s Hd Hp. apply list_elem_of_fmap in Hd as (k & -> & _).
  assert (Ht : tidy s) by (apply tidy_add_streams; by intros ??).
  destruct (decide (k = 0)) as [->|Hk]; [by rewrite chunk_zero, elem_of_nil in Hp|].
  unfold s in Hp. rewrite chunk_add_streams in Hp by done. cbn in Hp.
  apply list_elem_of_filter in Hp as [_ Hp]. unfold taken in Hp.
  apply list_elem_of_In, in_concat in Hp as (ps & Hps & Hp).
  apply list_elem_of_In, list_elem_of_fmap in Hps as ([name data] & -> & Hl).
  apply list_elem_of_In, list_elem_of_fmap in Hp as (p' & -> & Hp). cbn [fst snd] in Hp.
  apply window_elem in Hp as [Hp Hw]. rewrite time_of_piece.
  destruct (add_streams_frame l (construct start end_)) as [[= E1 E2] _].
  rewrite E1, E2 in Hw. cbn in Hw. split; [done|]. by exists name, data, p'.
Qed.

Lemma chunks_nonempty s : tidy s -> Forall (fun d => d ≠ []) (chunks s).
Proof.
  intros Ht. rewrite <- held_chunks. apply Forall_fmap, Forall_forall.
  intros d (k & _ & Hd)%list_elem_of_omap. by eapply Ht.
Qed.

Definition second_le (a b : DataPiece.t) : Prop :=
  seconds_of_ns (DataPiece.time_ns a) <= seconds_of_ns (DataPiece.time_ns b).

Lemma sorted_by_class (key : DataPiece.t -> Z) (f : Z -> list DataPiece.t) ks :
  StronglySorted Z.lt ks -> (forall k, Forall (fun p => key p = k) (f k)) ->
  StronglySorted (fun a b => key a <= key b) (concat (f <$> ks)).
Proof.
  intros Hs Hf. induction Hs as [|k ks Hs IH Hlt]; [constructor|].
  cbn [fmap list_fmap concat]. specialize (Hf k) as Hk.
  assert (Hrest : Forall (fun p => k < key p) (concat (f <$> ks))).
  { apply Forall_concat, Forall_fmap. eapply Forall_impl; [exact Hlt|].
    intros k' Hk'. cbn. eapply Forall_impl; [apply Hf|]. cbn. lia. }
  induction Hk as [|p l Hp Hl IHl]; [done|]. cbn [app]. constructor; [done|].
  apply Forall_app. split; (eapply Forall_impl; [eassumption|]); cbn; lia.
Qed.

(** C24. Combining the streams of a request and saving hands to the writer
    exactly the records taken from the streams - those of second 0 apart - each
    once and with its stream's index, in non-empty batches of one second each,
    in the order of the seconds, and returns their number. *)
Theorem save_combined (start end_ : Z) (l : list (string * list DataPiece.t)) :
  let s := add_streams l (construct start end_) in
  let records := filter (fun p => seconds_of_ns (DataPiece.time_ns p) ≠ 0) (taken l s) in
  zlen records < 2 ^ 64 ->
  exists out, save keep s [] = (Ok (zlen records), out) /\
    concat out ≡ₚ records /\
    StronglySorted second_le (concat out) /\
    Forall (fun batch => exists k, batch ≠ [] /\ batch = at_second k records) out.
Proof.
  intros s records Hl. exists (chunks s).
  assert (Ht : tidy s) by (apply tidy_add_streams; by intros ??).
  assert (Hkeys : forall k, k ∈ ordered_keys (seconds_ s) <-> is_Some (seconds_ s !! k)).
  { intros k. destruct (ordered_keys_spec (seconds_ s)) as [Hp _]. rewrite Hp.
    by rewrite elem_of_elements, elem_of_dom. }
  assert (Hc : forall k, k ∈ ordered_keys (seconds_ s) -> chunk k s = at_second k records /\ chunk k s ≠ []).
  { intros k [d Hd]%Hkeys. destruct (Ht _ _ Hd) as [Hk Hne].
    split; [|by unfold chunk; rewrite Hd].
    unfold s. rewrite chunk_add_streams by done. fold s. unfold records, at_second.
    rewrite list_filter_filter. change (chunk k (construct start end_)) with (@nil DataPiece.t).
    apply list_filter_iff. intros p. split; [|tauto]. intros <-. done. }
  assert (Hch : chunks s = (fun k => at_second k records) <$> ordered_keys (seconds_ s)).
  { apply list_fmap_ext. intros _ k Hk%list_elem_of_lookup_2. by apply Hc. }
  assert (Hp : concat (chunks s) ≡ₚ records).
  { rewrite Hch. apply concat_classes_Permutation.
    - destruct (ordered_keys_spec (seconds_ s)) as [Hp _]. rewrite Hp. apply NoDup_elements.
    - apply Forall_forall. intros p Hp. apply Hkeys.
      destruct (seconds_ s !! seconds_of_ns (DataPiece.time_ns p)) eqn:E; [done|exfalso].
      apply list_elem_of_filter in Hp as [Hne Hp].
      pose proof (chunk_add_streams _ l (construct start end_) Hne) as Hk. fold s in Hk.
      unfold chunk in Hk at 1. rewrite E in Hk. symmetry in Hk. apply app_eq_nil in Hk as [_ Hk].
      eapply (not_elem_of_nil p). rewrite <- Hk. by apply list_elem_of_filter. }
  assert (Hz : zlen (concat (chunks s)) = zlen records) by (unfold zlen; by rewrite Hp).
  rewrite save_keep by lia. rewrite Hz. split; [done|]. split; [done|]. split.
  - rewrite Hch. apply sorted_by_class; [apply ordered_keys_spec|].
    intros k. apply Forall_forall. by intros p [? _]%list_elem_of_filter.
  - apply Forall_fmap, Forall_forall. intros k [E Hne]%Hc. exists k. by split.
Qed.

(** ** Two streams with interleaved records *)

Definition at_ns (time_ns : Z) : DataPiece.t := DataPiece.mk (Some time_ns) (Some [x41]) None.

Definition engine : list DataPiece.t :=
  [at_ns 999999000; at_ns 1000000100; at_ns 1000000300; at_ns 5000000000].
Definition brakes : list DataPiece.t :=
  [at_ns 1000000200; at_ns 3000000000; at_ns 9000000000].

Definition combined : t :=
  add_streams [("engine"%string, engine); ("brakes"%string, brakes)] (construct 0 6000000000).

Lemma engine_ordered :
  StronglySorted OneSecondData.time_le engine /\
  Forall (fun p => 0 <= DataPiece.time_ns p < 2 ^ 64) engine.
Proof.
  split; repeat constructor; unfold OneSecondData.time_le, DataPiece.time_ns; cbn; lia.
Qed.

Lemma add_records_chunks_witness :
  tidy combined /\
  length (chunk 1 (addRecords "engine" engine combined)) = 5%nat /\
  chunk 1 (addRecords "engine" engine combined) =
  chunk 1 combined ++ [piece 0 (at_ns 1000000100); piece 0 (at_ns 1000000300)].
Proof.
  assert (Ht : tidy combined) by (apply tidy_add_streams; by intros ??).
  split; [done|]. split; [vm_compute; reflexivity|].
  rewrite (add_records_chunks "engine" engine combined 1 Ht (proj1 engine_ordered)
             (proj2 engine_ordered)).
  vm_compute. reflexivity.
Defined.

Lemma streams_are_numbered_witness :
  numbered (streams combined) /\
  index_of "engine" combined = 0 /\ index_of "brakes" combined = 1.
Proof.
  split; [|split; vm_compute; reflexivity].
  destruct (streams_are_numbered 0 6000000000
    [("engine"%string, engine); ("brakes"%string, brakes)] []) as [H _]; [done|exact H].
Defined.

Lemma save_combined_witness :
  exists out, save keep combined [] = (Ok 5, out) /\
    StronglySorted second_le (concat out) /\ length out = 3%nat.
Proof.
  destruct (save_combined 0 6000000000
    [("engine"%string, engine); ("brakes"%string, brakes)]) as (out & Hs & _ & Ho & _).
  { vm_compute. reflexivity. }
  exists out. fold combined in Hs.
  assert (E : (save keep combined []).1 = Ok 5) by (vm_compute; reflexivity).
  assert (L : length (save keep combined []).2 = 3%nat) by (vm_compute; reflexivity).
  rewrite Hs in E, L. cbn [fst snd] in E, L. rewrite Hs, E. auto.
Defined.

(** Nothing sorts the chunks: the records of one second come out stream by
    stream, although both streams are ordered by time. *)
Lemma save_not_time_ordered :
  exists out, save keep combined [] = (Ok 5, out) /\
    ~ StronglySorted OneSecondData.time_le (concat out).
Proof.
  eexists. split; [vm_compute; reflexivity|].
  cbn [concat app]. intros H.
  apply StronglySorted_inv in H as [H _]. apply StronglySorted_inv in H as [_ H].
  apply Forall_cons in H as [H _]. unfold OneSecondData.time_le in H. cbn in H. lia.
Qed.

(** Sorting every chunk before saving would order the output by time. *)
Lemma sorted_chunks_in_order (s : t) :
  map_Forall (fun k d => Forall (fun p => seconds_of_ns (DataPiece.time_ns p) = k /\
    0 <= DataPiece.time_ns p < 2 ^ 64) (OneSecondData.data_ d)) (seconds_ s) ->
  let s' := set_seconds (OneSecondData.sort <$> seconds_ s) s in
  map_Forall (fun _ d => OneSecondData.sorted_ d = false) (seconds_ s) ->
  StronglySorted OneSecondData.time_le (concat (chunks s')).
Proof.
  intros Hk s' Hd. unfold chunks. destruct (ordered_keys_spec (seconds_ s')) as [_ Hs].
  revert Hs. generalize (ordered_keys (seconds_ s')) as ks.
  assert (Hc : forall k, StronglySorted OneSecondData.time_le (chunk k s') /\
    Forall (fun p => seconds_of_ns (DataPiece.time_ns p) = k /\
      0 <= DataPiece.time_ns p < 2 ^ 64) (chunk k s')).
  { intros k. unfold chunk, s'. cbn [set_seconds seconds_]. rewrite lookup_fmap.
    destruct (seconds_ s !! k) as [d|] eqn:E; cbn; [|by split; constructor].
    unfold OneSecondData.sort. rewrite (Hd _ _ E). cbn [OneSecondData.data_].
    split; [apply StronglySorted_merge_sort; apply _|]. rewrite merge_sort_Permutation.
    by apply Hk. }
  intros ks. induction 1 as [|k ks Hs IH Hlt]; [constructor|].
  cbn [fmap list_fmap concat]. destruct (Hc k) as [Hsk Hfk].
  induction Hsk as [|p l Hsl IHl Hpl]; [done|]. cbn [app].
  apply Forall_cons in Hfk as [[Hp Hpr] Hfk]. constructor; [by apply IHl|].
  apply Forall_app. split; [done|]. apply Forall_concat, Forall_fmap, Forall_forall.
  intros k' Hk'. rewrite Forall_forall in Hlt. specialize (Hlt k' Hk').
  eapply Forall_impl; [apply Hc|]. cbn. intros q [Hq Hqr]. unfold OneSecondData.time_le.
  destruct (Z.le_gt_cases (DataPiece.time_ns p) (DataPiece.time_ns q)) as [?|Hgt]; [done|].
  pose proof (seconds_of_ns_mono (DataPiece.time_ns q) (DataPiece.time_ns p)). lia.
Qed.
End StreamsCombiner.
