(* ===== verification/AscWriter.v ===== *)
(** * ASC output

    [apps/asc_writer/asc_writer.{h,cpp}]: the export of CAN records as text. The
    output stream is the text written so far with the two manipulators that stay
    in force, the base of integers and the fill character. [sprintf] writes to a
    buffer of 50 characters; the division of the time by [1E9] is the one of
    doubles, and [%11.6f] rounds its exact value, as the C library does. *)
From S2P Require Import Prelude DataTypes Calendar Protos StreamsCombiner.
From Stdlib Require Import Ascii.
Local Open Scope Z_scope.

(** ** Numbers as text *)

(** The hexadecimal digits of a number below [16^fuel]. *)
Definition hex_digit (upper : bool) (n : Z) : Ascii.ascii :=
  Ascii.ascii_of_nat (Z.to_nat (if n <? 10 then 48 + n else if upper then 55 + n else 87 + n)).

Fixpoint hex_go (upper : bool) (fuel : nat) (n : Z) (acc : string) : string :=
  match fuel with
  | O => acc
  | S fuel' =>
      let acc := String (hex_digit upper (n mod 16)) acc in
      if n <? 16 then acc else hex_go upper fuel' (n / 16) acc
  end.

(** 16 digits are enough for 64 bits. *)
Definition hex (upper : bool) (n : Z) : string := hex_go upper 16 n EmptyString.

Fixpoint repeat_char (c : Ascii.ascii) (n : nat) : string :=
  match n with O => EmptyString | S n' => String c (repeat_char c n') end.

(** Padding on the left to [width] characters. *)
Definition pad (c : Ascii.ascii) (width : nat) (s : string) : string :=
  repeat_char c (width - String.length s) +:+ s.

(** ** The time stamp *)

(** The [double] nearest to [x / 1E9] for a [double] [x] that is a non-negative
    integer below 2^65: [(m, e)] stands for [m / 2^e]. *)
Definition div_1E9 (x : Z) : Z * Z :=
  if x =? 0 then (0, 0)
  else let k := Z.log2 (x * 2 ^ 64 / 10 ^ 9) - 64 in
       (round_div (x * 2 ^ (52 - k)) (10 ^ 9), 52 - k).

(** The millionths of it, rounded. *)
Definition millionths (d : Z * Z) : Z := round_div (fst d * 10 ^ 6) (2 ^ snd d).

(** [%11.6f] of a number of millionths. *)
Definition format_f (m : Z) : string :=
  pad " "%char 11 (pretty (m / 10 ^ 6) +:+ "." +:+ pad "0"%char 6 (pretty (m mod 10 ^ 6))).

Module AscWriter.
Record t := mk {
  out_ : string;          (** the text of [out_] *)
  hex_ : bool;            (** [std::hex] was inserted *)
  fill_ : Ascii.ascii;
  start_time_ns_ : Z
}.

(** A writer on a new stream. *)
Definition create : t := mk EmptyString false " "%char 0.

Definition day : list string := ["Sun"; "Mon"; "Tue"; "Wed"; "Thu"; "Fri"; "Sat"]%string.
Definition month : list string :=
  ["Jan"; "Feb"; "Mar"; "Apr"; "May"; "Jun"; "Jul"; "Aug"; "Sep"; "Oct"; "Nov"; "Dec"]%string.

Definition put (s : string) : prog t unit :=
  modify (fun w => mk (out_ w +:+ s) (hex_ w) (fill_ w) (start_time_ns_ w)).

(** Insertion of an [int] and of a [size_t]. *)
Definition show_int (base16 : bool) (z : Z) : string :=
  if base16 then hex false (u32 z) else pretty z.
Definition show_size (base16 : bool) (z : Z) : string :=
  if base16 then hex false z else pretty z.
Definition put_int (z : Z) : prog t unit := b ← gets hex_; put (show_int b z).
Definition put_size (z : Z) : prog t unit := b ← gets hex_; put (show_size b z).

(** [std::hex << std::setfill('0') << std::setw(2)] and a [char]: the character
    itself, padded. *)
Definition put_char (b : byte) : prog t unit :=
  modify (fun w => mk (out_ w) true "0"%char (start_time_ns_ w));;
  c ← gets fill_;
  put (pad c 2 (String (Ascii.ascii_of_byte b) EmptyString)).

Definition endl : string := String (Ascii.ascii_of_nat 10) EmptyString.
Definition tab : Ascii.ascii := Ascii.ascii_of_nat 9.

(** Reading an array of names. *)
Definition at_index (l : list string) (i : Z) : prog t string :=
  match (if i <? 0 then None else l !! Z.to_nat i) with
  | Some s => mret s
  | None => throw OutOfBounds
  end.

(** The order of the keys of a [std::map] from strings. *)
Definition name_le (a b : string * Z) : Prop := Is_true (String.leb a.1 b.1).
#[global] Instance name_le_dec a b : Decision (name_le a b).
Proof. unfold name_le. apply _. Defined.

Section Ops.
(** [localtime] and the day of the week that is a part of its result. *)
Context {L : LocalTime} (tm_wday : Z -> Z) (streams_ : gmap string Z).

Definition channels : list (string * Z) := merge_sort name_le (map_to_list streams_).

Definition initStream (time_ns : Z) : prog t bool :=
  let sec := seconds_of_ns time_ns in
  modify (fun w => mk (out_ w) (hex_ w) (fill_ w) (sec / 60 * 60));;
  start ← gets start_time_ns_;
  let tm := localtime start in
  d ← at_index day (tm_wday start);
  m ← at_index month (tm_mon tm);
  put ("date " +:+ d +:+ " " +:+ m +:+ " ");; put_int (tm_mday tm);;
  put " ";; put_int (tm_hour tm);; put ":";; put_int (tm_min tm);; put ":";;
  put_int (tm_sec tm);; put " ";;
  put_int (1900 + tm_year tm);; put endl;;
  put ("base hex  timestamps absolute" +:+ endl);;
  put ("no internal events logged" +:+ endl);;
  put ("# Channel  Name" +:+ endl);;
  for_each channels (fun it =>
    put "# ";; put_int it.2;;
    put (repeat_char tab 3 +:+ it.1 +:+ endl));;
  mret true.

(** What [sprintf] writes, without the terminating null. *)
Definition prefix (time_ns start stream_idx can_id : Z) : string :=
  format_f (millionths (div_1E9 (double_of_u64 (u64 (time_ns - start))))) +:+ " " +:+
  pretty (i32 stream_idx) +:+ " " +:+ pad " "%char 8 (hex true can_id).

Definition sprintf (s : string) : prog t string :=
  if Z.of_nat (String.length s) <? 50 then mret s else throw OutOfBounds.

Definition write_piece (it : DataPiece.t) : prog t unit :=
  let data := DataPiece.data it in
  if zlen data <? 4 then mret tt else
  let can_id := le_decode (take 4 data) in
  let dlc := u64 (zlen data - 4) in
  start ← gets start_time_ns_;
  buffer ← sprintf (prefix (DataPiece.time_ns it) start (DataPiece.stream_idx it) can_id);
  put buffer;;
  (if negb (Z.land can_id (2 ^ 31) =? 0) then put "x" else mret tt);;
  put " Rx   d ";; put_size dlc;; put " ";;
  for_each (drop 4 data) put_char;;
  put endl.

Definition write (data : list DataPiece.t) : prog t unit :=
  match data with
  | [] => mret tt
  | first :: _ =>
      start ← gets start_time_ns_;
      (if start =? 0 then initStream (DataPiece.time_ns first);; mret tt else mret tt);;
      for_each data write_piece
  end.
End Ops.
End AscWriter.

(** ** Lengths *)
Lemma length_repeat_char c n : String.length (repeat_char c n) = n.
Proof. induction n as [|n IH]; [done|]. change (S (String.length (repeat_char c n)) = S n). by rewrite IH. Qed.

Lemma length_pad c n s : String.length (pad c n s) = Nat.max n (String.length s).
Proof. unfold pad. rewrite length_append, length_repeat_char. lia. Qed.

Create Rewrite HintDb text.
#[export] Hint Rewrite length_append length_pad length_repeat_char : text.

Lemma length_pretty_N_go k x s :
  (x < 10 ^ N.of_nat k)%N -> (String.length (pretty_N_go x s) <= k + String.length s)%nat.
Proof.
  revert x s. induction k as [|k IH]; intros x s Hx.
  { rewrite N.pow_0_r in Hx. assert (x = 0%N) as -> by lia. by rewrite pretty_N_go_0. }
  destruct (decide (x = 0)%N) as [->|Hn]; [rewrite pretty_N_go_0; lia|].
  rewrite pretty_N_go_step by lia. rewrite Nat2N.inj_succ, N.pow_succ_r' in Hx.
  etransitivity; [apply IH, N.Div0.div_lt_upper_bound; lia|]. cbn [String.length]. lia.
Qed.

(** A number of at most [k] digits. *)
Lemma length_pretty k z :
  (0 < k)%nat -> 0 <= z < 10 ^ Z.of_nat k -> (String.length (pretty z) <= k)%nat.
Proof.
  intros Hk Hz. assert (pretty z = pretty (Z.to_N z)) as -> by (by destruct z; [| |lia]).
  unfold pretty, pretty_N. case_decide; [cbn; lia|].
  etransitivity; [apply (length_pretty_N_go k)|cbn; lia].
  apply N2Z.inj_lt. rewrite N2Z.inj_pow, nat_N_Z, Z2N.id; lia.
Qed.

Lemma length_pretty_i32 z : (String.length (pretty (i32 z)) <= 11)%nat.
Proof.
  assert (Hr : - 2 ^ 31 <= i32 z < 2 ^ 31).
  { unfold i32. pose proof (Z.mod_pos_bound (z + 2 ^ 31) (2 ^ 32)). lia. }
  destruct (Z.lt_ge_cases (i32 z) 0) as [Hn|Hp].
  - destruct (i32 z) as [|p|p] eqn:E; [lia|lia|].
    change (pretty (Z.neg p)) with ("-" +:+ pretty (N.pos p))%string.
    change (pretty (N.pos p)) with (pretty (Z.pos p)). rewrite length_append. cbn [String.length].
    pose proof (length_pretty 10 (Z.pos p) ltac:(lia) ltac:(lia)). lia.
  - pose proof (length_pretty 10 (i32 z) ltac:(lia) ltac:(lia)). lia.
Qed.

Lemma length_hex_go upper fuel k n acc :
  (0 < k)%nat -> n < 16 ^ Z.of_nat k ->
  (String.length (hex_go upper fuel n acc) <= k + String.length acc)%nat.
Proof.
  revert k n acc. induction fuel as [|fuel IH]; intros k n acc Hk Hn; [cbn; lia|].
  cbn [hex_go]. destruct (Z.ltb_spec n 16); [cbn; lia|].
  destruct k as [|k]; [lia|]. rewrite Nat2Z.inj_succ, Z.pow_succ_r in Hn by lia.
  assert (0 < k)%nat by (destruct k; [cbn in Hn; lia|lia]).
  etransitivity; [apply (IH k); [done|apply Z.div_lt_upper_bound; lia]|]. cbn [String.length]. lia.
Qed.

Lemma length_hex upper n : n < 2 ^ 32 -> (String.length (hex upper n) <= 8)%nat.
Proof. intros Hn. pose proof (length_hex_go upper 16 8 n EmptyString ltac:(lia) Hn) as H. cbn in H. exact H. Qed.

(** ** The accuracy of the time stamp *)

Lemma div_1E9_spec x : 0 < x <= 2 ^ 64 ->
  18 <= snd (div_1E9 x) /\
  2 * Z.abs (10 ^ 9 * fst (div_1E9 x) - x * 2 ^ snd (div_1E9 x)) <= 10 ^ 9.
Proof.
  intros Hx. unfold div_1E9. rewrite (proj2 (Z.eqb_neq x 0)) by lia. cbn [fst snd]. split.
  - assert (Z.log2 (x * 2 ^ 64 / 10 ^ 9) < 99); [|lia].
    assert (0 < x * 2 ^ 64 / 10 ^ 9) by (apply Z.div_str_pos; lia).
    apply Z.log2_lt_pow2; [done|]. apply Z.div_lt_upper_bound; lia.
  - apply round_div_error. lia.
Qed.

Lemma div_1E9_nonneg x : 0 <= x <= 2 ^ 64 -> 0 <= fst (div_1E9 x).
Proof.
  intros Hx. destruct (decide (x = 0)) as [->|]; [done|].
  destruct (div_1E9_spec x) as [He Hm]; [lia|].
  assert (0 < 2 ^ snd (div_1E9 x)) by (apply Z.pow_pos_nonneg; lia).
  assert (2 ^ 18 <= 2 ^ snd (div_1E9 x)) by (apply Z.pow_le_mono_r; lia). nia.
Qed.

(** The printed value is within 2408 ns of the quotient's numerator. *)
Lemma millionths_error x : 0 <= x <= 2 ^ 64 ->
  Z.abs (1000 * millionths (div_1E9 x) - x) <= 2408.
Proof.
  intros Hx. destruct (decide (x = 0)) as [->|]; [vm_compute; discriminate|].
  destruct (div_1E9_spec x) as [He Hm]; [lia|]. unfold millionths.
  destruct (div_1E9 x) as [m e]. cbn [fst snd] in *.
  assert (Hp : 2 ^ 18 <= 2 ^ e) by (apply Z.pow_le_mono_r; lia).
  pose proof (round_div_error (m * 10 ^ 6) (2 ^ e) ltac:(lia)) as Hr.
  set (r := round_div _ _) in *. set (p := 2 ^ e) in *. clearbody r p.
  apply Z.abs_le. split; apply (Z.mul_le_mono_pos_l _ _ (2 * p)); lia || nia.
Qed.

Lemma double_of_u64_le n : 0 <= n < 2 ^ 64 -> 0 <= double_of_u64 n <= 2 ^ 64.
Proof.
  intros Hn. split; [apply double_of_u64_nonneg; lia|].
  transitivity (double_of_u64 (2 ^ 64)); [apply double_of_u64_mono; lia|].
  vm_compute. discriminate.
Qed.

(** The millionths printed for a number of nanoseconds. *)
Definition stamp (ns : Z) : Z := millionths (div_1E9 (double_of_u64 ns)).

Lemma stamp_error n : 0 <= n < 2 ^ 64 -> Z.abs (1000 * stamp n - n) <= 3432.
Proof.
  intros Hn. unfold stamp. pose proof (double_of_u64_error n Hn).
  pose proof (millionths_error (double_of_u64 n) (double_of_u64_le n Hn)). lia.
Qed.

Lemma stamp_nonneg n : 0 <= n < 2 ^ 64 -> 0 <= stamp n.
Proof.
  intros Hn. unfold stamp, millionths. pose proof (div_1E9_nonneg _ (double_of_u64_le n Hn)).
  destruct (decide (n = 0)) as [->|]; [vm_compute; discriminate|].
  set (d := div_1E9 _) in *.
  assert (0 <= snd d \/ snd d < 0) as [Hs|Hs] by lia.
  - assert (0 < 2 ^ snd d) by (apply Z.pow_pos_nonneg; lia).
    transitivity (fst d * 10 ^ 6 / 2 ^ snd d); [apply Z.div_pos; lia|apply round_div_bounds; lia].
  - rewrite (Z.pow_neg_r 2 (snd d)) by lia. unfold round_div. rewrite Z.div_0_r, Z.mod_0_r.
    repeat case_match; rewrite ?Z.ltb_lt, ?Z.ltb_ge in *; lia.
Qed.

Lemma stamp_upper n : 0 <= n < 2 ^ 64 -> stamp n < 10 ^ 17.
Proof. intros Hn. pose proof (stamp_error n Hn). lia. Qed.

Lemma length_format_f m :
  0 <= m < 10 ^ 17 -> (11 <= String.length (format_f m) <= 18)%nat.
Proof.
  intros Hm. unfold format_f. autorewrite with text. cbn [String.length].
  pose proof (length_pretty 11 (m / 10 ^ 6) ltac:(lia)) as H1.
  pose proof (length_pretty 6 (m mod 10 ^ 6) ltac:(lia)) as H2.
  assert (0 <= m / 10 ^ 6 < 10 ^ 11)
    by (split; [apply Z.div_pos; lia|apply Z.div_lt_upper_bound; lia]).
  pose proof (Z.mod_pos_bound m (10 ^ 6)). lia.
Qed.

(** ** The text of a record *)
Section Text.
Context {L : LocalTime} (tm_wday : Z -> Z) (streams_ : gmap string Z).
Import AscWriter.

Lemma length_prefix time_ns start stream_idx can_id :
  can_id < 2 ^ 32 ->
  (String.length (prefix time_ns start stream_idx can_id) <= 40)%nat.
Proof.
  intros Hid. pose proof (u64_range (time_ns - start)) as Hr.
  unfold prefix. fold (stamp (u64 (time_ns - start))). autorewrite with text. cbn [String.length].
  pose proof (length_format_f (stamp (u64 (time_ns - start)))
    (conj (stamp_nonneg _ Hr) (stamp_upper _ Hr))).
  pose proof (length_pretty_i32 stream_idx). pose proof (length_hex true can_id Hid). lia.
Qed.

(** C30. The buffer of 50 characters holds what [sprintf] prints for any record
    and any start time, although the difference of the times wraps around in 64
    bits; and the printed time is that difference, in millionths of a second,
    within 3.432 microseconds: half a unit of the sixth digit and the two roundings
    of the double arithmetic. *)
Theorem buffer_fits time_ns start stream_idx can_id :
  can_id < 2 ^ 32 ->
  let m := millionths (div_1E9 (double_of_u64 (u64 (time_ns - start)))) in
  (exists rest, prefix time_ns start stream_idx can_id = format_f m +:+ " " +:+ rest) /\
  Z.abs (1000 * m - u64 (time_ns - start)) <= 3432 /\
  (String.length (prefix time_ns start stream_idx can_id) <= 40)%nat.
Proof.
  intros Hid m. split; [by eexists|]. split; [|by apply length_prefix].
  apply stamp_error, u64_range.
Qed.

(** What [write] appends for one record, when integers are printed in base 16 or
    not; the payload comes out as characters. *)
Fixpoint payload (bs : bytes) : string :=
  match bs with
  | [] => EmptyString
  | b :: bs' => String "0"%char (String (ascii_of_byte b) (payload bs'))
  end.

Definition can_id (it : DataPiece.t) : Z := le_decode (take 4 (DataPiece.data it)).

Definition entry (base16 : bool) (start : Z) (it : DataPiece.t) : string :=
  prefix (DataPiece.time_ns it) start (DataPiece.stream_idx it) (can_id it) +:+
  (if negb (Z.land (can_id it) (2 ^ 31) =? 0) then "x" else EmptyString) +:+
  " Rx   d " +:+ show_size base16 (u64 (zlen (DataPiece.data it) - 4)) +:+ " " +:+
  payload (drop 4 (DataPiece.data it)) +:+ endl.

(** Records without a CAN id are left out; the first payload byte switches to
    base 16. *)
Fixpoint entries (base16 : bool) (start : Z) (data : list DataPiece.t) : string :=
  match data with
  | [] => EmptyString
  | it :: data' =>
      if zlen (DataPiece.data it) <? 4 then entries base16 start data'
      else entry base16 start it +:+
           entries (base16 || negb (bool_decide (drop 4 (DataPiece.data it) = []))) start data'
  end.

Definition header (base16 : bool) (start : Z) : string :=
  let tm := localtime start in
  "date " +:+ default EmptyString (day !! Z.to_nat (tm_wday start)) +:+ " " +:+
  default EmptyString (month !! Z.to_nat (tm_mon tm)) +:+ " " +:+
  show_int base16 (tm_mday tm) +:+ " " +:+ show_int base16 (tm_hour tm) +:+ ":" +:+
  show_int base16 (tm_min tm) +:+ ":" +:+ show_int base16 (tm_sec tm) +:+ " " +:+
  show_int base16 (1900 + tm_year tm) +:+ endl +:+
  "base hex  timestamps absolute" +:+ endl +:+ "no internal events logged" +:+ endl +:+
  "# Channel  Name" +:+ endl +:+
  foldr (fun it s => ("# " +:+ show_int base16 it.2 +:+ repeat_char tab 3 +:+ it.1 +:+ endl) +:+ s)
    EmptyString (channels streams_).

(** The base of integers after these records. *)
Fixpoint base_after (base16 : bool) (data : list DataPiece.t) : bool :=
  match data with
  | [] => base16
  | it :: data' =>
      if zlen (DataPiece.data it) <? 4 then base_after base16 data'
      else base_after (base16 || negb (bool_decide (drop 4 (DataPiece.data it) = []))) data'
  end.

Lemma entries_app base16 start data data' :
  entries base16 start (data ++ data') =
  entries base16 start data +:+ entries (base_after base16 data) start data'.
Proof.
  revert base16. induction data as [|it data IH]; intros base16; [done|].
  cbn [app entries base_after]. destruct (zlen (DataPiece.data it) <? 4); [apply IH|].
  by rewrite IH, append_assoc.
Qed.

(** A state that differs in its text, and in what the manipulators of a payload
    leave. *)
Definition says (w : t) (text : string) (w' : t) : Prop :=
  out_ w' = out_ w +:+ text /\ start_time_ns_ w' = start_time_ns_ w.

Lemma put_chars bs w :
  exists w', for_each bs put_char w = (Ok tt, w') /\ says w (payload bs) w' /\
    hex_ w' = hex_ w || negb (bool_decide (bs = [])).
Proof.
  revert w. induction bs as [|b bs IH]; intros w.
  { exists w. split; [done|]. split; [split; [cbn [payload]; by rewrite append_nil_r|done]|].
    by rewrite orb_false_r. }
  cbn [for_each payload]. unfold mbind, prog_bind, put_char at 1, put, gets, modify at 1.
  unfold mbind, prog_bind, modify. cbn [out_ hex_ fill_ start_time_ns_].
  destruct (IH (mk (out_ w +:+ pad "0"%char 2 (String (ascii_of_byte b) EmptyString)) true "0"%char
                  (start_time_ns_ w))) as (w' & E & [Ho Hs] & Hh).
  exists w'. split; [exact E|]. cbn in Ho, Hs, Hh. split; [split; [|done]|].
  - rewrite Ho, append_assoc. done.
  - rewrite Hh. by rewrite bool_decide_eq_false_2, orb_true_r by done.
Qed.

Lemma sprintf_prefix time_ns start stream_idx id w :
  id < 2 ^ 32 ->
  sprintf (prefix time_ns start stream_idx id) w = (Ok (prefix time_ns start stream_idx id), w).
Proof.
  intros Hid. unfold sprintf. pose proof (length_prefix time_ns start stream_idx id Hid).
  by rewrite (proj2 (Z.ltb_lt _ _)) by lia.
Qed.

Lemma can_id_range it : can_id it < 2 ^ 32.
Proof.
  pose proof (le_decode_range (take 4 (DataPiece.data it))) as H. unfold can_id.
  assert (256 ^ zlen (take 4 (DataPiece.data it)) <= 256 ^ 4); [|lia].
  apply Z.pow_le_mono_r; [lia|]. unfold zlen. rewrite length_take. lia.
Qed.

Lemma write_piece_text it w :
  ~ zlen (DataPiece.data it) < 4 ->
  exists w', write_piece it w = (Ok tt, w') /\ says w (entry (hex_ w) (start_time_ns_ w) it) w' /\
    hex_ w' = hex_ w || negb (bool_decide (drop 4 (DataPiece.data it) = [])).
Proof.
  intros Hl. unfold write_piece. rewrite (proj2 (Z.ltb_ge _ _)) by lia. fold (can_id it).
  unfold mbind, prog_bind, gets. rewrite sprintf_prefix by apply can_id_range.
  unfold put_size, put, mbind, prog_bind, gets, modify, mret, prog_ret. cbn [out_ hex_ fill_ start_time_ns_].
  unfold entry. destruct (negb (Z.land (can_id it) (2 ^ 31) =? 0)); cbn [out_ hex_ fill_ start_time_ns_];
    (match goal with |- context [for_each (drop 4 _) put_char ?w1] =>
       destruct (put_chars (drop 4 (DataPiece.data it)) w1) as (w2 & -> & [Ho Hs] & Hh) end);
    cbn [out_ hex_ fill_ start_time_ns_] in *;
    (eexists; split; [done|]); (split; [split|]); cbn [out_ hex_ start_time_ns_]; try done;
    rewrite Ho, ?append_assoc; done.
Qed.

Lemma write_pieces_text data w :
  exists w', for_each data write_piece w = (Ok tt, w') /\
    says w (entries (hex_ w) (start_time_ns_ w) data) w' /\ hex_ w' = base_after (hex_ w) data.
Proof.
  revert w. induction data as [|it data IH]; intros w.
  { exists w. split; [done|]. split; [|done].
    split; [cbn [entries]; by rewrite append_nil_r|done]. }
  cbn [for_each entries base_after]. unfold mbind, prog_bind.
  destruct (Z.ltb_spec (zlen (DataPiece.data it)) 4) as [Hl|Hl].
  - unfold write_piece at 1. rewrite (proj2 (Z.ltb_lt _ _)) by done. apply IH.
  - destruct (write_piece_text it w) as (w1 & -> & [Ho Hs] & Hh); [lia|].
    destruct (IH w1) as (w2 & -> & [Ho2 Hs2] & Hb). exists w2. split; [done|].
    rewrite Ho, Hh, Hs in Ho2. rewrite Hh in Hb. split; [|done].
    split; [by rewrite Ho2, append_assoc|congruence].
Qed.

Lemma at_index_default l i w :
  0 <= i < zlen l -> at_index l i w = (Ok (default EmptyString (l !! Z.to_nat i)), w).
Proof.
  intros Hi. unfold at_index. rewrite (proj2 (Z.ltb_ge _ _)) by lia. unfold zlen in Hi.
  destruct (lookup_lt_is_Some_2 l (Z.to_nat i)) as [x ->]; [lia|done].
Qed.

(** [m] appends a text that depends on the base of integers only. *)
Definition append (text : string) (w : t) : t :=
  mk (out_ w +:+ text) (hex_ w) (fill_ w) (start_time_ns_ w).

Definition emits (m : prog t unit) (text : bool -> string) : Prop :=
  forall w, m w = (Ok tt, append (text (hex_ w)) w).

Lemma emits_put s : emits (put s) (fun _ => s).
Proof. done. Qed.

Lemma emits_put_int z : emits (put_int z) (fun b => show_int b z).
Proof. done. Qed.

Lemma append_append s1 s2 w : append s2 (append s1 w) = append (s1 +:+ s2) w.
Proof. unfold append. cbn. by rewrite append_assoc. Qed.

Lemma append_nothing w : append EmptyString w = w.
Proof. destruct w. unfold append. cbn. by rewrite append_nil_r. Qed.

Lemma emits_then {A} m text (k : prog t A) s w :
  emits m text -> (m;; k) (append s w) = k (append (s +:+ text (hex_ w)) w).
Proof. intros E. unfold mbind, prog_bind. rewrite E. cbn [append hex_]. by rewrite append_append. Qed.

Lemma emits_seq m n t1 t2 : emits m t1 -> emits n t2 -> emits (m;; n) (fun b => t1 b +:+ t2 b).
Proof.
  intros E1 E2 w. rewrite <- (append_nothing w) at 1. rewrite (emits_then _ t1) by done.
  rewrite E2, append_append. done.
Qed.

Lemma emits_for_each {A} (l : list A) (m : A -> prog t unit) text :
  (forall x, emits (m x) (text x)) ->
  emits (for_each l m) (fun b => foldr (fun x s => text x b +:+ s) EmptyString l).
Proof.
  intros E. induction l as [|x l IH]; intros w; cbn [for_each foldr]; [by rewrite append_nothing|].
  by rewrite (emits_seq _ _ _ _ (E x) IH).
Qed.

(** The minute of a time stamp, in seconds. *)
Definition minute (time_ns : Z) : Z := seconds_of_ns time_ns / 60 * 60.

Lemma initStream_text `{!LocalTimeOk L} time_ns w :
  0 <= time_ns < 2 ^ 64 -> (forall s, 0 <= tm_wday s <= 6) ->
  initStream tm_wday streams_ time_ns w =
  (Ok true, mk (out_ w +:+ header (hex_ w) (minute time_ns)) (hex_ w) (fill_ w) (minute time_ns)).
Proof.
  intros Ht Hd. pose proof (seconds_of_ns_range time_ns Ht) as Hs.
  assert (Hm : 0 <= minute time_ns <= max_seconds).
  { unfold minute. pose proof (Z.div_pos (seconds_of_ns time_ns) 60).
    pose proof (Z.mul_div_le (seconds_of_ns time_ns) 60). lia. }
  pose proof (tm_mon_ok _ (localtime_ok (minute time_ns) Hm)).
  unfold initStream. fold (minute time_ns).
  set (w1 := mk (out_ w) (hex_ w) (fill_ w) (minute time_ns)).
  rewrite (bind_ok _ _ w tt w1) by done. rewrite (bind_ok _ _ w1 (minute time_ns) w1) by done. cbv zeta.
  erewrite bind_ok.
  2: { apply at_index_default. specialize (Hd (minute time_ns)). change (zlen day) with 7. lia. }
  erewrite bind_ok by (apply at_index_default; change (zlen month) with 12; lia).
  rewrite <- (append_nothing w1).
  repeat first [rewrite (emits_then _ _ _ _ _ (emits_put _))
               |rewrite (emits_then _ _ _ _ _ (emits_put_int _))].
  erewrite emits_then.
  2: { apply emits_for_each. intros it. apply emits_seq; [apply emits_put|].
       apply emits_seq; [apply emits_put_int|apply emits_put]. }
  unfold mret, prog_ret, append, w1, header. cbn [out_ hex_ fill_ start_time_ns_].
  do 3 f_equal. rewrite ?append_assoc. reflexivity.
Qed.

(** The text of a call of [write], from the state of the stream and the start
    time before it. *)
Definition text (base16 : bool) (start : Z) (data : list DataPiece.t) : string :=
  match data with
  | [] => EmptyString
  | first :: _ =>
      let start' := if start =? 0 then minute (DataPiece.time_ns first) else start in
      (if start =? 0 then header base16 start' else EmptyString) +:+ entries base16 start' data
  end.

Definition timed (data : list DataPiece.t) : Prop :=
  Forall (fun p => 0 <= DataPiece.time_ns p < 2 ^ 64) data.

Lemma write_text `{!LocalTimeOk L} data w :
  (forall s, 0 <= tm_wday s <= 6) -> timed data ->
  exists w', write tm_wday streams_ data w = (Ok tt, w') /\
    out_ w' = out_ w +:+ text (hex_ w) (start_time_ns_ w) data /\
    start_time_ns_ w' =
      match data with
      | first :: _ => if start_time_ns_ w =? 0 then minute (DataPiece.time_ns first)
                      else start_time_ns_ w
      | [] => start_time_ns_ w
      end /\
    hex_ w' = base_after (hex_ w) data.
Proof.
  intros Hd Ht. destruct data as [|first data].
  { exists w. split; [done|]. cbn [text]. by rewrite append_nil_r. }
  apply Forall_cons in Ht as [Hf Ht]. unfold write, text.
  rewrite (bind_ok _ _ w (start_time_ns_ w) w) by done.
  destruct (start_time_ns_ w =? 0).
  - erewrite bind_ok by (erewrite bind_ok; [done|by apply initStream_text]).
    match goal with |- context [for_each _ _ ?w1] =>
      destruct (write_pieces_text (first :: data) w1) as (w2 & E & [Ho Hs] & Hb) end.
    exists w2. split; [exact E|]. split; [|by split]. rewrite Ho. cbn [out_ hex_ start_time_ns_].
    by rewrite append_assoc.
  - rewrite (bind_ok _ _ w tt w) by done.
    destruct (write_pieces_text (first :: data) w) as (w2 & E & [Ho Hs] & Hb). exists w2. by split_and!.
Qed.

(** ** Pieces of an export *)

(** Records of a further piece continue the text. *)
Lemma save_loop_text `{!LocalTimeOk L} ds size w :
  (forall s, 0 <= tm_wday s <= 6) -> Forall (fun d => timed (OneSecondData.data_ d)) ds ->
  start_time_ns_ w <> 0 -> 0 <= size ->
  size + zlen (concat (OneSecondData.data_ <$> ds)) < 2 ^ 64 ->
  exists w', StreamsCombiner.save_loop (write tm_wday streams_) ds size w =
      (Ok (size + zlen (concat (OneSecondData.data_ <$> ds))), w') /\
    out_ w' = out_ w +:+ entries (hex_ w) (start_time_ns_ w) (concat (OneSecondData.data_ <$> ds)).
Proof.
  intros Hd. revert size w. induction ds as [|d ds IH]; intros size w Ht Hw Hs Hl.
  { exists w. cbn. by rewrite Z.add_0_r, append_nil_r. }
  apply Forall_cons in Ht as [Htd Ht]. cbn [fmap list_fmap concat] in *. rewrite zlen_app in *.
  pose proof (zlen_nonneg (OneSecondData.data_ d)).
  pose proof (zlen_nonneg (concat (OneSecondData.data_ <$> ds))).
  destruct (write_text (OneSecondData.data_ d) w Hd Htd) as (w1 & E & Ho & Hst & Hb).
  cbn [StreamsCombiner.save_loop].
  erewrite bind_ok by (unfold OneSecondData.save; by erewrite bind_ok by exact E).
  rewrite u64_small by lia.
  assert (Hst1 : start_time_ns_ w1 = start_time_ns_ w).
  { rewrite Hst. destruct (OneSecondData.data_ d); [done|]. by rewrite (proj2 (Z.eqb_neq _ _)). }
  destruct (IH (size + zlen (OneSecondData.data_ d)) w1 Ht) as (w2 & E2 & Ho2); [congruence|lia|lia|].
  exists w2. rewrite E2, Z.add_assoc. split; [done|].
  rewrite Ho2, Ho, Hst1, Hb, append_assoc, entries_app. f_equal. f_equal.
  unfold text. destruct (OneSecondData.data_ d); [done|]. by rewrite (proj2 (Z.eqb_neq _ _)).
Qed.

(** Saving in pieces gives the text of one call with all the records. *)
Lemma save_text `{!LocalTimeOk L} s :
  (forall s, 0 <= tm_wday s <= 6) ->
  Forall timed (StreamsCombiner.chunks s) -> Forall (fun d => d <> []) (StreamsCombiner.chunks s) ->
  (forall p, p ∈ concat (StreamsCombiner.chunks s) -> 60 <= seconds_of_ns (DataPiece.time_ns p)) ->
  zlen (concat (StreamsCombiner.chunks s)) < 2 ^ 64 ->
  exists w, StreamsCombiner.save (write tm_wday streams_) s create =
      (Ok (zlen (concat (StreamsCombiner.chunks s))), w) /\
    out_ w = text false 0 (concat (StreamsCombiner.chunks s)).
Proof.
  rewrite <- StreamsCombiner.held_chunks. unfold StreamsCombiner.save.
  generalize (omap (fun k => StreamsCombiner.seconds_ s !! k)
                (ordered_keys (StreamsCombiner.seconds_ s))) as ds.
  intros [|d ds] Hd Ht Hne Hmin Hl; [by exists create|]. rewrite Forall_fmap in Ht.
  apply Forall_cons in Ht as [Htd Ht]. apply Forall_cons in Hne as [Hnd _].
  cbn [fmap list_fmap concat] in *. fold (fmap OneSecondData.data_ ds) in *.
  change (list_fmap _ _ OneSecondData.data_ ds) with (OneSecondData.data_ <$> ds) in *.
  rewrite zlen_app in *.
  pose proof (zlen_nonneg (OneSecondData.data_ d)).
  pose proof (zlen_nonneg (concat (OneSecondData.data_ <$> ds))).
  destruct (write_text (OneSecondData.data_ d) create Hd Htd) as (w1 & E & Ho & Hst & Hb).
  cbn [StreamsCombiner.save_loop].
  erewrite bind_ok by (unfold OneSecondData.save; by erewrite bind_ok by exact E).
  rewrite u64_small by lia.
  destruct (OneSecondData.data_ d) as [|first rest]; [done|].
  assert (Hmn : minute (DataPiece.time_ns first) <> 0).
  { specialize (Hmin first ltac:(by constructor)). unfold minute.
    assert (1 <= seconds_of_ns (DataPiece.time_ns first) / 60) by (apply Z.div_le_lower_bound; lia). lia. }
  cbn in Hst. destruct (save_loop_text ds (0 + zlen (first :: rest)) w1 Hd) as (w2 & E2 & Ho2);
    [exact Ht|congruence|lia|lia|].
  exists w2. rewrite E2. split; [f_equal; f_equal; lia|].
  rewrite Ho2, Ho, Hst, Hb. unfold text. cbn [create hex_ start_time_ns_ out_ app Z.eqb].
  rewrite app_comm_cons, entries_app, !append_assoc. reflexivity.
Qed.

(** A length below ten reads the same in both bases. *)
Lemma show_size_digit base16 z : 0 <= z < 10 -> show_size base16 z = show_size false z.
Proof.
  intros Hz. destruct base16; [|done].
  assert (z = 0 \/ z = 1 \/ z = 2 \/ z = 3 \/ z = 4 \/ z = 5 \/ z = 6 \/ z = 7 \/ z = 8 \/ z = 9)
    as H by lia.
  repeat destruct H as [->|H]; [..|subst z]; vm_compute; reflexivity.
Qed.

Definition classic (it : DataPiece.t) : Prop := zlen (DataPiece.data it) <= 13.

(** The lines of the records that have a CAN id. *)
Definition lines (start : Z) (data : list DataPiece.t) : string :=
  foldr (fun it s => entry false start it +:+ s) EmptyString
    (filter (fun it => 4 <= zlen (DataPiece.data it)) data).

Lemma entries_classic base16 start data :
  Forall classic data -> entries base16 start data = lines start data.
Proof.
  intros Hc. revert base16. induction Hc as [|it data Hit Hc IH]; intros base16; [done|].
  unfold lines in *. cbn [entries]. rewrite filter_cons.
  destruct (Z.ltb_spec (zlen (DataPiece.data it)) 4).
  - rewrite decide_False by lia. apply IH.
  - rewrite decide_True by lia. cbn [foldr]. rewrite IH. f_equal. unfold entry, classic in *.
    rewrite u64_small by lia. by rewrite show_size_digit by lia.
Qed.
End Text.

(** C29. The export of combined streams. [save] with [AscWriter::write] as its
    writer returns, without leaving an array or the buffer, and what is in the file
    is what one call with all the records gives: one header, for the minute of the
    first record and with the combiner's channels, and then the records in the order
    of [save]; for payloads of up to 9 bytes one line for each record that has a CAN
    id, whose text does not depend on the records before it. The records are not
    older than a minute after the epoch, where the header would be repeated. *)
Theorem export_text {L : LocalTime} `{!LocalTimeOk L} (tm_wday : Z -> Z) (start end_ : Z)
    (l : list (string * list DataPiece.t)) :
  (forall s, 0 <= tm_wday s <= 6) -> 60 <= seconds_of_ns start ->
  Forall (fun p => timed p.2) l ->
  let s := StreamsCombiner.add_streams l (StreamsCombiner.construct start end_) in
  let records := concat (StreamsCombiner.chunks s) in
  let write := AscWriter.write tm_wday (StreamsCombiner.streams s) in
  zlen records < 2 ^ 64 ->
  exists w w1, StreamsCombiner.save write s AscWriter.create = (Ok (zlen records), w) /\
    write records AscWriter.create = (Ok tt, w1) /\ AscWriter.out_ w = AscWriter.out_ w1 /\
    forall first rest, records = first :: rest -> Forall classic records ->
      let m := minute (DataPiece.time_ns first) in
      AscWriter.out_ w = header tm_wday (StreamsCombiner.streams s) false m +:+
                         lines m records.
Proof.
  intros Hd Hst Ht s records write Hl.
  assert (Helem : forall d p, d ∈ StreamsCombiner.chunks s -> p ∈ d ->
    60 <= seconds_of_ns (DataPiece.time_ns p) /\ 0 <= DataPiece.time_ns p < 2 ^ 64).
  { intros d p Hdc Hp. destruct (StreamsCombiner.chunks_elem start end_ l d p Hdc Hp)
      as (? & name & data & p' & Hnl & Hp' & Ep). split; [lia|]. rewrite Ep.
    rewrite Forall_forall in Ht. specialize (Ht _ Hnl). cbn in Ht. unfold timed in Ht.
    rewrite Forall_forall in Ht. by apply Ht. }
  assert (Hte : Forall timed (StreamsCombiner.chunks s)).
  { apply Forall_forall. intros d Hdc. apply Forall_forall. intros p Hp. by eapply Helem. }
  destruct (save_text tm_wday (StreamsCombiner.streams s) s Hd Hte) as (w & E & Ho).
  - apply StreamsCombiner.chunks_nonempty, StreamsCombiner.tidy_add_streams. by intros ??.
  - intros p (d & Hdc & Hp)%list_elem_of_In%in_concat.
    apply (Helem d); by apply list_elem_of_In.
  - exact Hl.
  - destruct (write_text tm_wday (StreamsCombiner.streams s) records AscWriter.create Hd)
      as (w1 & E1 & Ho1 & _); [by apply Forall_concat|].
    exists w, w1. split; [exact E|]. split; [exact E1|]. rewrite Ho, Ho1. split; [done|].
    intros first rest Er Hc. cbn zeta. fold records. cbn [AscWriter.create AscWriter.hex_ AscWriter.start_time_ns_].
    unfold text. rewrite Er. cbn [Z.eqb]. rewrite entries_classic by (by rewrite <- Er). done.
Qed.

(** *** The guarantees at concrete inputs *)
Section Witnesses.
#[local] Existing Instance utc_localtime.

(** The first of January 1970 was a Thursday. *)
Definition utc_wday (s : Z) : Z := (s / 86400 + 4) mod 7.

Lemma utc_wday_range s : 0 <= utc_wday s <= 6.
Proof. unfold utc_wday. pose proof (Z.mod_pos_bound (s / 86400 + 4) 7). lia. Qed.

Lemma buffer_fits_witness :
  let p := AscWriter.prefix (2 ^ 64 - 1) 0 (2 ^ 31) (2 ^ 32 - 1) in
  (String.length p <= 40)%nat /\ p = "18446744073.709553 -2147483648 FFFFFFFF"%string.
Proof.
  split; [|vm_compute; reflexivity].
  apply (buffer_fits (2 ^ 64 - 1) 0 (2 ^ 31) (2 ^ 32 - 1)). lia.
Defined.

(** 2024-01-15 10:01:15 UTC, two channels, one of them with a record that has no
    CAN id and one with an extended id. *)
Definition can_piece (time_ns : Z) (data : bytes) : DataPiece.t :=
  DataPiece.mk (Some time_ns) (Some data) None.

Definition can_streams : list (string * list DataPiece.t) :=
  [("powertrain"%string,
    [can_piece 1705312875000000000 [x01; x02; x00; x00; x41; x42];
     can_piece 1705312875500000000 [x01; x02];
     can_piece 1705312876000000000 [x01; x02; x00; x84; x43]]);
   ("body"%string, [can_piece 1705312875250000000 [x7f; x00; x00; x00]])].

Definition newline : string := AscWriter.endl.
Definition tabs : string := repeat_char AscWriter.tab 3.

Definition can_text : string :=
  "date Mon Jan 15 10:1:0 2024" +:+ newline +:+
  "base hex  timestamps absolute" +:+ newline +:+
  "no internal events logged" +:+ newline +:+
  "# Channel  Name" +:+ newline +:+
  "# 1" +:+ tabs +:+ "body" +:+ newline +:+
  "# 0" +:+ tabs +:+ "powertrain" +:+ newline +:+
  "1705312873.294687 0      201 Rx   d 2 0A0B" +:+ newline +:+
  "1705312873.544687 1       7F Rx   d 0 " +:+ newline +:+
  "1705312874.294687 0 84000201x Rx   d 1 0C" +:+ newline.

Definition can_combined : StreamsCombiner.t :=
  StreamsCombiner.add_streams can_streams
    (StreamsCombiner.construct 1705312800000000000 1705312900000000000).

Definition can_records : list DataPiece.t :=
  Eval vm_compute in concat (StreamsCombiner.chunks can_combined).

Lemma can_records_ok :
  concat (StreamsCombiner.chunks can_combined) = can_records /\ Forall classic can_records.
Proof.
  split; [vm_compute; reflexivity|].
  repeat (apply Forall_cons; split; [vm_compute; discriminate|]). by apply Forall_nil.
Qed.

Lemma export_text_witness :
  exists w, StreamsCombiner.save (AscWriter.write utc_wday (StreamsCombiner.streams can_combined))
      can_combined AscWriter.create = (Ok 4, w) /\ AscWriter.out_ w = can_text.
Proof.
  destruct can_records_ok as [Er Hc].
  destruct (export_text utc_wday 1705312800000000000 1705312900000000000 can_streams utc_wday_range)
    as (w & w1 & E & _ & _ & Ho).
  - vm_compute. discriminate.
  - repeat constructor; cbn; lia.
  - vm_compute. reflexivity.
  - fold can_combined in E, Ho. rewrite Er in E, Ho. exists w. split; [exact E|].
    rewrite (Ho _ _ eq_refl Hc). vm_compute. reflexivity.
Defined.
End Witnesses.
