(* ===== verification/TcpClient.v ===== *)
(** * TcpClient

    [libs/log_client/tcp_client.{h,cpp}]: the connection of a client. A descriptor
    under construction belongs to a [ScopedFd], whose destructor runs on every way
    out of [connect]. The theorem: whatever the kernel answers, a client owns one
    descriptor when it is connected and none when it is not. *)
From S2P Require Import Prelude TcpSocket Kernel.
Local Open Scope Z_scope.

(** The part of [sockaddr_in] that is set, the port in network byte order. *)
Record sockaddr := mk_sockaddr { sin_port : Z; sin_addr : Z }.

(** [htons] on a little-endian machine. *)
Definition htons (port : Z) : Z := le_decode (rev (le_encode 2 port)).

(** What a function that takes [s.c_str()] sees. *)
Fixpoint c_string (s : string) : string :=
  match s with
  | EmptyString => EmptyString
  | String c s' => if decide (c = Ascii.zero) then EmptyString else String c (c_string s')
  end.

Module TcpClient.
Record t := mk {
  fd_ : Z;
  kernel_ : kernel;
  dialled_ : list (Z * sockaddr)   (** history: the calls of [::connect] *)
}.

Definition create (k : kernel) : t := mk (-1) k [].

Definition set_fd (n : Z) (s : t) : t := mk n (kernel_ s) (dialled_ s).
Definition set_kernel (k : kernel) (s : t) : t := mk (fd_ s) k (dialled_ s).
Definition on_kernel (f : kernel -> kernel) : prog t unit :=
  modify (fun s => set_kernel (f (kernel_ s)) s).

Definition ask : prog t answer := fun s =>
  (Ok (next_answer (kernel_ s)), set_kernel (called (kernel_ s)) s).

Definition close (fd : Z) : prog t unit := on_kernel (kernel_close fd).

Definition is_connected (s : t) : bool := 0 <=? fd_ s.

Definition disconnect : prog t unit :=
  fd ← gets fd_;
  modify (set_fd (-1));;
  if 0 <=? fd then close fd else mret tt.

Definition socket : prog t Z :=
  a ← ask;
  if a_ok a then
    k ← gets kernel_;
    let n := unused (a_fd a) (open_fds k) in
    on_kernel (kernel_open n);;
    mret n
  else mret (-1).

Definition setsockopt : prog t bool := a ← ask; mret (a_ok a).

Definition setClientTimeouts (fd : Z) : prog t bool :=
  sent ← setsockopt;
  if negb sent then mret false else setsockopt.

(** [do ... while (result < 0 && errno == EINTR)] *)
Fixpoint connect_loop (fuel : nat) (fd : Z) (destination : sockaddr) : prog t bool :=
  match fuel with
  | O => throw OutOfFuel
  | S n =>
      a ← ask;
      modify (fun s => mk (fd_ s) (kernel_ s) (dialled_ s ++ [(fd, destination)]));;
      if a_ok a then on_kernel (kernel_connect fd (a_conn a));; mret true
      else if a_eintr a then connect_loop n fd destination
      else mret false
  end.

(** [~ScopedFd] *)
Definition destroy_ScopedFd (fd : Z) : prog t unit :=
  if 0 <=? fd then close fd else mret tt.

Section Connect.
(** [inet_aton]: the address, or nothing for a string that is none. *)
Context (inet_aton : string -> option Z) (fuel : nat).

(** [connect] from the construction of the [ScopedFd] on: the result and what
    the [ScopedFd] holds at the end of its scope. *)
Definition attempt (fd : Z) (ip_addr : string) (port : Z) : prog t (bool * Z) :=
  if fd <? 0 then mret (false, fd) else
  match inet_aton (c_string ip_addr) with
  | None => mret (false, fd)
  | Some addr =>
      ok ← setClientTimeouts fd;
      if negb ok then mret (false, fd) else
      result ← connect_loop fuel fd (mk_sockaddr (htons (u16 port)) addr);
      if negb result then mret (false, fd) else
      modify (set_fd fd);;
      mret (true, -1)
  end.

Definition connect (ip_addr : string) (port : Z) : prog t bool :=
  disconnect;;
  if (port =? 0) || (65535 <? port) then mret false else
  fd ← socket;
  r ← attempt fd ip_addr port;
  destroy_ScopedFd (snd r);;
  mret (fst r).
End Connect.

Definition setTimeout : prog t unit := _ ← setsockopt; _ ← setsockopt; mret tt.

Definition sendData (data : bytes) : prog t bool :=
  fd ← gets fd_; zoom kernel_ set_kernel (kernel_socket fd (TcpSocket.sendData data)).

Definition readData : prog t bytes :=
  fd ← gets fd_; zoom kernel_ set_kernel (kernel_socket fd TcpSocket.readData).
End TcpClient.

(** ** Descriptors *)
Section Descriptors.
Import TcpClient.
Implicit Types (s : t) (F : gset Z).

Definition own (s : t) : list Z := if 0 <=? fd_ s then [fd_ s] else [].

(** The client holds its descriptor and nothing else of those not in [F]. *)
Definition holds F (s : t) : Prop := held F (own s) (kernel_ s).

Lemma wp_ask (Q : outcome answer -> t -> Prop) s :
  Q (Ok (next_answer (kernel_ s))) (set_kernel (called (kernel_ s)) s) -> wp ask Q s.
Proof. done. Qed.

Lemma held_called F l k : held F l k -> held F l (called k).
Proof. done. Qed.

Lemma wp_disconnect s F :
  holds F s ->
  wp disconnect (fun o s' => o = Ok tt /\ s' = set_fd (-1) (set_kernel (kernel_ s') s) /\
    held F [] (kernel_ s') /\ calls (kernel_ s') = calls (kernel_ s) /\
    answers (kernel_ s') = answers (kernel_ s)) s.
Proof.
  intros H. unfold holds, own in H. unfold disconnect, close, on_kernel. repeat wp_step;
    split_and!; try done. by apply held_close_own.
Qed.

(** Parts of [connect] that only ask the kernel: what they leave unchanged. *)
Definition same_but_asked s s' : Prop :=
  fd_ s' = fd_ s /\ open_fds (kernel_ s') = open_fds (kernel_ s) /\
  bad_close (kernel_ s') = bad_close (kernel_ s) /\
  answers (kernel_ s') = answers (kernel_ s) /\
  (calls (kernel_ s) <= calls (kernel_ s'))%nat.

Lemma held_same F l s s' : same_but_asked s s' -> held F l (kernel_ s) -> held F l (kernel_ s').
Proof. intros (_ & Ho & Hb & _). unfold held. by rewrite Ho, Hb. Qed.

Lemma same_but_asked_trans s1 s2 s3 :
  same_but_asked s1 s2 -> same_but_asked s2 s3 -> same_but_asked s1 s3.
Proof. unfold same_but_asked. intuition (try congruence; lia). Qed.

Lemma wp_setClientTimeouts fd s :
  wp (setClientTimeouts fd) (fun o s' => (exists b, o = Ok b) /\ same_but_asked s s' /\
    (calls (kernel_ s') <= calls (kernel_ s) + 2)%nat) s.
Proof.
  unfold setClientTimeouts, setsockopt, ask, wp, mbind, prog_bind. cbn.
  destruct (negb _); cbn; (split; [eauto|]); split; try lia; unfold same_but_asked; cbn;
    split_and!; try done; lia.
Qed.

(** The loop ends with the first answer that is not an interruption. *)
Definition final (a : answer) : Prop := a_ok a = true \/ a_eintr a = false.

Lemma wp_connect_loop fuel fd dest s n :
  (calls (kernel_ s) <= n)%nat -> (n < calls (kernel_ s) + fuel)%nat ->
  final (answers (kernel_ s) n) ->
  wp (connect_loop fuel fd dest) (fun o s' => exists b, o = Ok b /\ same_but_asked s s' /\
    (b = true -> (exists m, sockets (kernel_ s') !! fd = Some (a_conn (answers (kernel_ s) m))) /\
                 last (dialled_ s') = Some (fd, dest))) s.
Proof.
  revert s. induction fuel as [|fuel IH]; intros s Hn Hf Hfin; [lia|]. cbn [connect_loop].
  apply wp_bind, wp_ask. do 3 wp_step.
  set (s1 := mk _ _ _).
  assert (S1 : same_but_asked s s1) by (unfold same_but_asked; cbn; split_and!; try done; lia).
  change (next_answer (kernel_ s)) with (answers (kernel_ s) (calls (kernel_ s))).
  destruct (a_ok _) eqn:Ek; [|destruct (a_eintr _) eqn:Ee].
  - unfold on_kernel. repeat wp_step. exists true. split; [done|]. split; [done|]. intros _. split; cbn.
    + rewrite lookup_insert_eq. by eexists.
    + by rewrite last_snoc.
  - assert (calls (kernel_ s) <> n).
    { intros <-. destruct Hfin; congruence. }
    eapply wp_mono; [apply IH; cbn; [lia|lia|done]|].
    intros o s2 (b & -> & Hs & Hb). exists b. split; [done|]. split; [|done].
    by eapply same_but_asked_trans.
  - wp_step. exists false. by split_and!.
Qed.

Context (inet_aton : string -> option Z).

(** What is known of the connection of a connected client. *)
Definition reached (ip_addr : string) (port : Z) (s : t) : Prop :=
  0 < port <= 65535 /\ is_Some (sockets (kernel_ s) !! fd_ s) /\
  exists addr, inet_aton (c_string ip_addr) = Some addr /\
    last (dialled_ s) = Some (fd_ s, mk_sockaddr (htons port) addr).

(** The connection is one that the kernel gave. *)
Definition given (s s' : t) : Prop :=
  exists m, sockets (kernel_ s') !! fd_ s' = Some (a_conn (answers (kernel_ s) m)).

(** [attempt] leaves its descriptor with the client or with the [ScopedFd]. *)
Lemma wp_attempt fuel fd ip_addr port s n :
  fd_ s = -1 -> 0 <= fd -> 0 < port <= 65535 ->
  (calls (kernel_ s) + 2 <= n)%nat -> (n < fuel)%nat ->
  final (answers (kernel_ s) n) ->
  wp (attempt inet_aton fuel fd ip_addr port) (fun o s' => exists b rest, o = Ok (b, rest) /\
    open_fds (kernel_ s') = open_fds (kernel_ s) /\ bad_close (kernel_ s') = bad_close (kernel_ s) /\
    (if b : bool then fd_ s' = fd /\ rest = -1 /\ reached ip_addr port s' /\ given s s'
     else fd_ s' = -1 /\ rest = fd)) s.
Proof.
  intros Hs Hfd Hport Hn Hf Hfin. unfold attempt. rewrite (proj2 (Z.ltb_ge _ _)) by lia.
  destruct (inet_aton _) as [addr|] eqn:Ea; [|wp_step; by exists false, fd].
  wp_step. eapply wp_mono; [apply wp_setClientTimeouts|].
  intros o s1 ([ok ->] & (F1 & O1 & B1 & A1 & C1) & C1'). cbn [wp_rest]. destruct ok; cbn [negb].
  2: { wp_step. exists false, fd. split_and!; try done. congruence. }
  wp_step. eapply wp_mono; [apply (wp_connect_loop _ _ _ _ n); [lia|lia|by rewrite A1]|].
  intros o s2 (b & -> & (F2 & O2 & B2 & _ & _) & Hb). cbn [wp_rest]. destruct b; cbn [negb].
  - repeat wp_step. destruct (Hb eq_refl) as [Hb1 Hb2]. rewrite u16_small in Hb2 by lia.
    destruct Hb1 as [m Hb1]. rewrite A1 in Hb1.
    exists true, (-1). unfold reached, given. cbn. split_and!; try done; try congruence; try lia; eauto.
  - wp_step. exists false, fd. split_and!; try done; congruence.
Qed.

Lemma wp_connect F s ip_addr port :
  holds F s -> 0 <= port < 2 ^ 32 ->
  (forall m, exists n, (m <= n)%nat /\ final (answers (kernel_ s) n)) ->
  exists fuel0, forall fuel, (fuel0 <= fuel)%nat ->
  wp (connect inet_aton fuel ip_addr port) (fun o s' => exists b, o = Ok b /\
    holds F s' /\ is_connected s' = b /\ (b = true -> reached ip_addr port s' /\ given s s')) s.
Proof.
  intros Hs Hport Hfin. destruct (Hfin (calls (kernel_ s) + 3)%nat) as (n & Hn & Hfn).
  exists (S n). intros fuel Hfuel. unfold connect.
  wp_step. eapply wp_mono; [by apply wp_disconnect|].
  intros o s1 (-> & E1 & H1 & C1 & A1). cbn [wp_rest].
  assert (Hf1 : fd_ s1 = -1) by by rewrite E1.
  assert (Hno : forall s', fd_ s' = -1 -> held F [] (kernel_ s') ->
    exists b, (@Ok bool false) = Ok b /\ holds F s' /\ is_connected s' = b /\ (b = true -> reached ip_addr port s' /\ given s s')).
  { intros s' Hf' H'. exists false. unfold holds, own, is_connected. rewrite Hf'. by split_and!. }
  destruct ((port =? 0) || (65535 <? port)) eqn:Ep; [wp_step; by apply Hno|].
  apply orb_false_iff in Ep as [Ep1%Z.eqb_neq Ep2%Z.ltb_ge].
  unfold socket. do 2 apply wp_bind. apply wp_ask. cbn [wp_rest].
  change (next_answer (kernel_ s1)) with (answers (kernel_ s1) (calls (kernel_ s1))).
  destruct (a_ok _) eqn:Eok.
  - unfold on_kernel. repeat wp_step. set (fd := unused _ _). set (s2 := set_kernel (kernel_open _ _) _).
    destruct (unused_fresh (a_fd (answers (kernel_ s1) (calls (kernel_ s1)))) (open_fds (kernel_ s1)))
      as [Hfresh Hpos]. change (unused _ _) with fd in Hfresh, Hpos.
    destruct (held_open F [] (called (kernel_ s1)) fd Hfresh Hpos (held_called _ _ _ H1)) as (Hf & Hl & H2).
    eapply wp_mono; [apply (wp_attempt fuel fd ip_addr port s2 n); cbn; try done; try lia;
                     rewrite A1; done|].
    intros o s3 (b & rest & -> & O3 & B3 & Hb). cbn [wp_rest snd fst].
    assert (H3 : held ({[ fd ]} ∪ F) [] (kernel_ s3)) by (unfold held; rewrite O3, B3; exact H2).
    destruct b.
    + destruct Hb as (Hfd & -> & Hr & m & Hg). wp_step. change (destroy_ScopedFd (-1)) with (mret tt : prog t unit).
      repeat wp_step. exists true.
      unfold holds, own, is_connected. rewrite Hfd, (proj2 (Z.leb_le _ _)) by done.
      split_and!; [done|by apply held_adopt|done|]. intros _. split; [done|]. exists m.
      rewrite Hg. cbn. by rewrite A1.
    + destruct Hb as (Hfd & ->). wp_step. unfold destroy_ScopedFd. rewrite (proj2 (Z.leb_le _ _)) by done.
      unfold close, on_kernel. repeat wp_step. apply Hno; [done|]. by apply held_close_foreign.
  - repeat wp_step. unfold attempt. cbn [Z.ltb Z.compare]. repeat wp_step. cbn. repeat wp_step.
    by apply Hno.
Qed.

(** C20. Whatever the kernel answers - as long as it does not interrupt every
    call from some point on - [connect] returns; the client then owns exactly
    one descriptor if the result is true and none otherwise, every other
    descriptor it opened or had is closed once, and a true result means that the
    last connection attempt was to the given address and port and was accepted. *)
Theorem connect_descriptors F s ip_addr port :
  holds F s -> 0 <= port < 2 ^ 32 ->
  (forall m, exists n, (m <= n)%nat /\ final (answers (kernel_ s) n)) ->
  exists fuel0, forall fuel, (fuel0 <= fuel)%nat ->
  wp (connect inet_aton fuel ip_addr port) (fun o s' => exists b, o = Ok b /\
    holds F s' /\ is_connected s' = b /\ (b = true -> reached ip_addr port s')) s.
Proof.
  intros Hs Hport Hfin. destruct (wp_connect F s ip_addr port Hs Hport Hfin) as [fuel0 W].
  exists fuel0. intros fuel Hfuel. eapply wp_mono; [by apply W|].
  intros o s' (b & -> & H1 & H2 & H3). exists b. split_and!; try done. intros Hb. by apply H3.
Qed.

(** Disconnecting closes the descriptor and nothing else. *)
Lemma disconnect_descriptors F s :
  holds F s -> wp disconnect (fun o s' => o = Ok tt /\ holds F s' /\ fd_ s' = -1 /\
    forall x, x ∈ open_fds (kernel_ s') <-> x ∈ F) s.
Proof.
  intros H. eapply wp_mono; [by apply wp_disconnect|].
  intros o s' (-> & E & H' & _). assert (fd_ s' = -1) as Hf by by rewrite E.
  unfold holds, own. rewrite Hf. split_and!; try done.
  intros x. destruct H' as (_ & H' & _). rewrite H'. split; [by intros [?|?%elem_of_nil]|by left].
Qed.
End Descriptors.

(** *** The guarantee at a concrete input

    A client that is connected already connects again; the first attempt is
    interrupted. *)
Definition loopback (s : string) : option Z :=
  if decide (s = "127.0.0.1"%string) then Some 16777343 else None.

Definition busy_kernel : kernel :=
  mk_kernel {[ 0; 1; 2; 7 ]} ∅ false ∅
    (fun n => mk_answer (negb (bool_decide (n = 3%nat))) 5 0 false
                (mk_conn [Transfer 100] [] [] []) true) 0.

Definition connected_client : TcpClient.t := TcpClient.mk 7 busy_kernel [].

Lemma connected_client_holds : holds {[ 0; 1; 2 ]} connected_client.
Proof.
  unfold holds, own, held. cbn. split_and!; try done.
  - apply NoDup_singleton.
  - intros x. rewrite !elem_of_union, !elem_of_singleton, list_elem_of_singleton. tauto.
  - intros x ->%list_elem_of_singleton. split; [|lia].
    rewrite !elem_of_union, !elem_of_singleton. lia.
Qed.

Lemma connect_descriptors_witness :
  holds {[ 0; 1; 2 ]} connected_client /\
  exists fuel0, forall fuel, (fuel0 <= fuel)%nat ->
  wp (TcpClient.connect loopback fuel "127.0.0.1" 49999) (fun o s' => exists b, o = Ok b /\
    holds {[ 0; 1; 2 ]} s' /\ TcpClient.is_connected s' = b /\
    (b = true -> reached loopback "127.0.0.1" 49999 s')) connected_client.
Proof.
  split; [exact connected_client_holds|].
  apply (connect_descriptors loopback {[ 0; 1; 2 ]} connected_client "127.0.0.1" 49999).
  - exact connected_client_holds.
  - lia.
  - intros m. exists (m + 4)%nat. split; [lia|]. left. cbn. by rewrite bool_decide_eq_false_2 by lia.
Defined.

(** Both attempts were to port 49999 at the loopback address. *)
Example second_attempt_connects :
  let r := TcpClient.connect loopback 10 "127.0.0.1" 49999 connected_client in
  r.1 = Ok true /\ TcpClient.fd_ r.2 = 5 /\
  TcpClient.dialled_ r.2 = [(5, mk_sockaddr 20419 16777343); (5, mk_sockaddr 20419 16777343)].
Proof. vm_compute. auto. Qed.
