(* ===== verification/Codec.v ===== *)
(** * Serialisation

    [SerializePartialToString] and [ParseFromArray] are generated code: a
    component that exchanges messages takes a [Codec] for their type. Its laws are
    the documented behaviour of the generated code: what was serialised is parsed
    back, and the empty input is the message without fields. The round trip is
    promised for [encodable] messages only: the [string] fields of a message hold
    UTF-8 text and it is smaller than 2 GiB. At the end, one codec that meets the
    laws, for the examples. *)
From S2P Require Import Prelude Protos.
Local Open Scope Z_scope.

(** A message without fields. *)
Class Cleared (A : Type) := cleared : A.
#[export] Instance cleared_LogRequest : Cleared LogRequest.t := LogRequest.mk None None None None.
#[export] Instance cleared_DataStreamsRequest : Cleared DataStreamsRequest.t :=
  DataStreamsRequest.mk None None None None None.
#[export] Instance cleared_DataStreamsResponse : Cleared DataStreamsResponse.t :=
  DataStreamsResponse.empty.

Class Codec (A : Type) := {
  serialize : A -> bytes;
  parse : bytes -> option A;
  encodable : A -> Prop
}.

Class CodecLaws (A : Type) `{Cleared A, Codec A} := {
  parse_serialize (m : A) : encodable m -> parse (serialize m) = Some m;
  parse_nothing : parse (A := A) [] = Some cleared;
  serialize_size (m : A) : encodable m -> zlen (serialize m) < 2 ^ 31
}.

Section Laws.
Context {A : Type} `{Cleared A, Codec A, !CodecLaws A}.

(** A message with a field has a representation with a byte. *)
Lemma serialize_nonempty (m : A) : encodable m -> m <> cleared -> serialize m <> [].
Proof.
  intros Hm Hc E. pose proof (parse_serialize m Hm) as Hp.
  rewrite E, parse_nothing in Hp. congruence.
Qed.

(** Different messages have different representations. *)
Lemma serialize_inj (m m' : A) :
  encodable m -> encodable m' -> serialize m = serialize m' -> m = m'.
Proof.
  intros Hm Hm' E. apply (f_equal parse) in E. rewrite !parse_serialize in E by done. congruence.
Qed.
End Laws.

(** ** A codec

    A message is a number, in as few bytes as possible. *)
Section CountableCodec.
Context {A : Type} `{Countable A} `{Cleared A}.

Definition position_bytes (p : positive) : bytes :=
  le_encode (Z.to_nat (Z.log2 (Zpos p) / 8 + 1)) (Zpos p).

Lemma position_bytes_decode p : le_decode (position_bytes p) = Zpos p.
Proof.
  unfold position_bytes. apply le_decode_encode_small.
  pose proof (Z.log2_nonneg (Zpos p)) as Hlog. rewrite Z2Nat.id by (pose proof (Z.div_pos (Z.log2 (Zpos p)) 8 ltac:(lia) ltac:(lia)); lia).
  split; [lia|]. pose proof (Z.log2_spec (Zpos p) ltac:(lia)) as [_ Hs].
  eapply Z.lt_le_trans; [exact Hs|].
  change 256 with (2 ^ 8). rewrite <- Z.pow_mul_r by (pose proof (Z.div_pos (Z.log2 (Zpos p)) 8 ltac:(lia) ltac:(lia)); lia).
  apply Z.pow_le_mono_r; [lia|].
  pose proof (Z.mul_succ_div_gt (Z.log2 (Zpos p)) 8 ltac:(lia)). lia.
Qed.

Definition countable_codec : Codec A := {|
  serialize m := if decide (m = cleared) then [] else position_bytes (encode m);
  parse bs := match bs with
              | [] => Some cleared
              | _ => decode (Z.to_pos (le_decode bs))
              end;
  encodable m := zlen (position_bytes (encode m)) < 2 ^ 31
|}.

Lemma countable_codec_laws : @CodecLaws A _ countable_codec.
Proof.
  split.
  - intros m _. cbn. destruct (decide (m = cleared)) as [->|]; [done|].
    destruct (position_bytes (encode m)) as [|b bs] eqn:E.
    { apply (f_equal length) in E. unfold position_bytes in E. rewrite length_le_encode in E.
      pose proof (Z.log2_nonneg (Zpos (encode m))) as Hlog.
      pose proof (Z.div_pos _ 8 Hlog eq_refl). cbn [length] in E. lia. }
    rewrite <- E, position_bytes_decode. cbn. apply decode_encode.
  - done.
  - intros m Hm. cbn in *. by destruct (decide _).
Qed.
End CountableCodec.

#[export] Instance byte_countable : Countable Byte.byte.
Proof.
  apply (inj_countable Byte.to_N Byte.of_N). apply Byte.of_to_N.
Defined.

(** The messages as tuples of their fields. *)
#[export] Instance LogRequest_eq_dec : EqDecision LogRequest.t.
Proof. solve_decision. Defined.
#[export] Instance DataStream_eq_dec : EqDecision DataStream.t.
Proof. solve_decision. Defined.
#[export] Instance DataPiece_eq_dec : EqDecision DataPiece.t.
Proof. solve_decision. Defined.
#[export] Instance DataStreamsRequest_eq_dec : EqDecision DataStreamsRequest.t.
Proof. solve_decision. Defined.
#[export] Instance DataStreamsResponse_eq_dec : EqDecision DataStreamsResponse.t.
Proof. solve_decision. Defined.

#[export] Instance StreamStatus_countable : Countable StreamStatus.
Proof.
  apply (inj_countable StreamStatus_number
    (fun n => match n with
              | 0 => Some kUnknown | 1 => Some kHealthy | 2 => Some kEmpty
              | 3 => Some kHeaderMismatch | 4 => Some kHeadersDifferent | 5 => Some kIndexMissing
              | _ => None
              end)).
  by intros [].
Defined.

#[export] Instance LogRequest_countable : Countable LogRequest.t.
Proof.
  apply (inj_countable'
    (fun r => (LogRequest.channel_ r, LogRequest.size_ r, LogRequest.data_ r, LogRequest.time_ns_ r))
    (fun t => match t with (a, b, c, d) => LogRequest.mk a b c d end)).
  by intros [].
Defined.

#[export] Instance DataStreamsRequest_countable : Countable DataStreamsRequest.t.
Proof.
  apply (inj_countable'
    (fun r => (DataStreamsRequest.start_ns_ r, DataStreamsRequest.end_ns_ r, DataStreamsRequest.file_ r,
               DataStreamsRequest.start_idx_ r, DataStreamsRequest.max_count_ r))
    (fun t => match t with (a, b, c, d, e) => DataStreamsRequest.mk a b c d e end)).
  by intros [].
Defined.

#[export] Instance DataPiece_countable : Countable DataPiece.t.
Proof.
  apply (inj_countable'
    (fun r => (DataPiece.time_ns_ r, DataPiece.data_ r, DataPiece.stream_idx_ r))
    (fun t => match t with (a, b, c) => DataPiece.mk a b c end)).
  by intros [].
Defined.

#[export] Instance DataStream_countable : Countable DataStream.t.
Proof.
  apply (inj_countable'
    (fun r => (DataStream.name_ r, DataStream.day_ r, DataStream.file_ r, DataStream.records_cnt_ r,
               DataStream.status_ r, DataStream.start_time_ns_ r, DataStream.end_time_ns_ r))
    (fun t => match t with (a, b, c, d, e, f, g) => DataStream.mk a b c d e f g end)).
  by intros [].
Defined.

#[export] Instance DataStreamsResponse_countable : Countable DataStreamsResponse.t.
Proof.
  apply (inj_countable'
    (fun r => (DataStreamsResponse.stream r, DataStreamsResponse.data r, DataStreamsResponse.errors_ r))
    (fun t => match t with (a, b, c) => DataStreamsResponse.mk a b c end)).
  by intros [].
Defined.
