(* ===== verification/Clients.v ===== *)
(** * Clients

    [libs/log_client/log_client.{h,cpp}] and [reader_client.{h,cpp}]: the requests
    the two clients send. The serialisation is a [Codec]; what a failed parse
    leaves in the response object is a parameter. *)
From S2P Require Import Prelude Protos TcpSocket Kernel TcpClient Codec.
Local Open Scope Z_scope.

Module LogClient.
Section Ops.
Context `{Codec LogRequest.t}.

Record t := mk {
  base : TcpClient.t;
  stream_name_ : string;
  record_size_ : Z       (* uint32_t, 0 for records of any size *)
}.

Definition construct (stream_name : string) (record_size : Z) (k : kernel) : t :=
  mk (TcpClient.create k) stream_name record_size.

Definition set_base (b : TcpClient.t) (s : t) : t := mk b (stream_name_ s) (record_size_ s).

(** The request of [logData] for a record. *)
Definition request (data : bytes) (time_ns : Z) (s : t) : LogRequest.t :=
  LogRequest.mk (Some (stream_name_ s))
    (if record_size_ s =? 0 then None else Some (record_size_ s))
    (Some data) (Some time_ns).

Definition logData (data : bytes) (time_ns : Z) : prog t bool :=
  record_size ← gets record_size_;
  if negb (record_size =? 0) && negb (zlen data =? record_size) then mret false else
  request ← gets (request data time_ns);
  zoom base set_base (TcpClient.sendData (serialize request)).

(** An application that records until a record is refused or not sent; the
    number of records that [logData] took. *)
Fixpoint log_all (records : list (bytes * Z)) : prog t nat :=
  match records with
  | [] => mret 0%nat
  | (data, time_ns) :: rest =>
      ok ← logData data time_ns;
      if (ok : bool) then n ← log_all rest; mret (S n) else mret 0%nat
  end.
End Ops.
End LogClient.

Module LogReadClient.
Section Ops.
Context `{Codec DataStreamsRequest.t, Codec DataStreamsResponse.t}.
(** What [ParseFromArray] leaves in the response when it fails. *)
Context (leftover : bytes -> DataStreamsResponse.t).

Definition getResponse (request : DataStreamsRequest.t) : prog TcpClient.t DataStreamsResponse.t :=
  sent ← TcpClient.sendData (serialize request);
  if negb sent then mret cleared else
  response ← TcpClient.readData;
  if bool_decide (response = []) then mret cleared else
  match parse response with
  | Some result => mret result
  | None => mret (leftover response)
  end.

(** The arguments [start_idx] and [max_size] default to 0 and [UINT32_MAX]. *)
Definition streams_request (start end_ start_idx max_size : Z) : DataStreamsRequest.t :=
  DataStreamsRequest.mk (Some start) (Some end_) None (Some start_idx) (Some max_size).

Definition data_request (file : string) (start end_ start_idx max_size : Z) : DataStreamsRequest.t :=
  DataStreamsRequest.mk (Some start) (Some end_) (Some file) (Some start_idx) (Some max_size).

Definition getStreams (start end_ start_idx max_size : Z) : prog TcpClient.t DataStreamsResponse.t :=
  getResponse (streams_request start end_ start_idx max_size).

Definition getData (file : string) (start end_ start_idx max_size : Z) :
    prog TcpClient.t DataStreamsResponse.t :=
  getResponse (data_request file start end_ start_idx max_size).
End Ops.
End LogReadClient.

(** ** A connected client *)

(** The client's descriptor is the connection [c]. *)
Definition connected_to (c : conn) (s : TcpClient.t) : Prop :=
  sockets (TcpClient.kernel_ s) !! TcpClient.fd_ s = Some c.

Definition with_conn (c : conn) (s : TcpClient.t) : TcpClient.t :=
  TcpClient.set_kernel (kernel_connect (TcpClient.fd_ s) c (TcpClient.kernel_ s)) s.

Lemma connected_with_conn c s : connected_to c (with_conn c s).
Proof. unfold connected_to. cbn. apply lookup_insert_eq. Qed.

Lemma with_conn_twice c c' s : with_conn c' (with_conn c s) = with_conn c' s.
Proof.
  unfold with_conn, TcpClient.set_kernel, kernel_connect. cbn. by rewrite insert_insert_eq.
Qed.

Lemma with_conn_same c s : connected_to c s -> with_conn c s = s.
Proof.
  intros Hc. unfold with_conn, TcpClient.set_kernel, kernel_connect.
  rewrite insert_id by done. by destruct s as [? [] ?].
Qed.

(** A socket operation of a connected client is that of its connection. *)
Lemma client_sendData data c s :
  connected_to c s ->
  TcpClient.sendData data s =
  ((TcpSocket.sendData data c).1, with_conn (TcpSocket.sendData data c).2 s).
Proof.
  intros Hc. unfold TcpClient.sendData, mbind, prog_bind, gets, zoom, kernel_socket.
  unfold connected_to in Hc. rewrite Hc. by destruct (TcpSocket.sendData data c).
Qed.

Lemma client_readData c s :
  connected_to c s ->
  TcpClient.readData s = ((TcpSocket.readData c).1, with_conn (TcpSocket.readData c).2 s).
Proof.
  intros Hc. unfold TcpClient.readData, mbind, prog_bind, gets, zoom, kernel_socket.
  unfold connected_to in Hc. rewrite Hc. by destruct (TcpSocket.readData c).
Qed.

(** Without a connection nothing is sent and the answer is empty. *)
Lemma unconnected_getResponse `{Codec DataStreamsRequest.t, Codec DataStreamsResponse.t}
    leftover request s :
  sockets (TcpClient.kernel_ s) !! TcpClient.fd_ s = None ->
  (LogReadClient.getResponse leftover request s).1 = Ok cleared.
Proof.
  intros Hs. unfold LogReadClient.getResponse, TcpClient.sendData, mbind, prog_bind, gets, zoom,
    kernel_socket. rewrite Hs.
  pose proof (wp_sendDataWith (serialize request) (mk_conn [] [] [] [])) as (b & part & E & Ew & Hp & Hb & _).
  change TcpSocket.sendData with TcpSocket.sendDataWith. rewrite E.
  assert (b = false) as ->; [|done].
  destruct b; [|done]. exfalso.
  unfold TcpSocket.sendDataWith in E. destruct (_ <? _); done.
Qed.

(** ** Logging over a connection *)
Section Logging.
Context `{Codec LogRequest.t}.
Import LogClient.

(** The record is of the size that was declared. *)
Definition size_ok (s : t) (r : bytes * Z) : Prop :=
  record_size_ s = 0 \/ zlen r.1 = record_size_ s.

Definition requests (s : t) (records : list (bytes * Z)) : list LogRequest.t :=
  map (fun r => request r.1 r.2 s) records.

Lemma logData_sent data time_ns c s :
  connected_to c (base s) -> size_ok s (data, time_ns) ->
  logData data time_ns s =
  ((TcpSocket.sendData (serialize (request data time_ns s)) c).1,
   set_base (with_conn (TcpSocket.sendData (serialize (request data time_ns s)) c).2 (base s)) s).
Proof.
  intros Hc Hs. unfold logData, mbind, prog_bind, gets.
  assert (negb (record_size_ s =? 0) && negb (zlen data =? record_size_ s) = false) as ->.
  { destruct Hs as [->|Hs]; [done|]. cbn in Hs. rewrite Hs, Z.eqb_refl, andb_false_r. done. }
  unfold zoom. rewrite (client_sendData _ c) by done. done.
Qed.

(** A record of another size than the declared one is refused and nothing is sent. *)
Lemma logData_refused data time_ns s :
  ~ size_ok s (data, time_ns) -> logData data time_ns s = (Ok false, s).
Proof.
  intros Hs. unfold size_ok in Hs. cbn in Hs. unfold logData, mbind, prog_bind, gets.
  assert (negb (record_size_ s =? 0) && negb (zlen data =? record_size_ s) = true) as ->; [|done].
  apply andb_true_iff. rewrite !negb_true_iff, !Z.eqb_neq. tauto.
Qed.

Lemma set_base_twice b b' s : set_base b' (set_base b s) = set_base b' s.
Proof. done. Qed.

Lemma log_all_sent records c s :
  connected_to c (base s) -> Forall (size_ok s) records ->
  log_all records s =
  ((send_messages (map serialize (requests s records)) c).1,
   set_base (with_conn (send_messages (map serialize (requests s records)) c).2 (base s)) s).
Proof.
  revert c s. induction records as [|[data time_ns] records IH]; intros c s Hc Hs.
  { cbn. rewrite with_conn_same by done. by destruct s. }
  apply Forall_cons in Hs as [Hs1 Hs].
  pose proof (logData_sent data time_ns c s Hc Hs1) as E1.
  cbn [log_all requests map send_messages fst snd]. fold (requests s records).
  unfold mbind, prog_bind. rewrite E1.
  destruct (TcpSocket.sendData _ c) as [[[]|e] c1]; cbn [fst snd]; [|done|done].
  set (s1 := set_base (with_conn c1 (base s)) s).
  pose proof (IH c1 s1 (connected_with_conn _ _) Hs) as E2.
  change (requests s1 records) with (requests s records) in E2. rewrite E2.
  destruct (send_messages _ c1) as [[n|e] c2]; cbn [fst snd]; unfold s1;
    cbn [base set_base]; by rewrite with_conn_twice.
Qed.
End Logging.
