(* ===== verification/Services.v ===== *)
(** * The two services

    [libs/log_writer/writer/tracebox_logger.h] and [libs/log_reader/log_reader.h]:
    the callbacks that connect a [Server] to the queue of a [LogWriter] and to a
    [StorageScanner]. The theorems follow a record from [LogClient::logData] to the
    queue of the writer and a query of [LogReadClient] to the scanner and back, over connections that may transfer any amounts and fail at any time. *)
From S2P Require Import Prelude DataTypes Calendar Protos FileSystem FileIO StreamWriter TcpSocket Kernel TcpServer TcpServerSpec Storage StorageBackend LogWriter FileReader StreamReader StorageScanner TcpClient Codec Clients Samples BackendSpec ScannerSpec.
Local Open Scope Z_scope.

Module TraceboxLogger.
Section Ops.
Context `{Codec LogRequest.t} {B : Type}.

(** The server's target is the writer. *)
Definition t : Type := Server.t (LogWriter.t B).

Definition handleLogRequest (data : bytes) : prog (LogWriter.t B) bytes :=
  match parse data with
  | Some request => modify (fun writer => (LogWriter.add request writer).2);; mret []
  | None => mret []
  end.

(** The result of [start] is not looked at. *)
Definition construct (port : Z) (storage : Storage.t B) (k : kernel) : t :=
  (Server.start (Server.create port k (LogWriter.create storage))).2.
End Ops.
Arguments t B : clear implicits.
End TraceboxLogger.

Module LogReader.
Section Ops.
Context `{Codec DataStreamsRequest.t, Codec DataStreamsResponse.t}.
Context (f : fs) {L : LocalTime}.

Definition t : Type := Server.t StorageScanner.t.

(** The answer to a request: the records of a file or the streams. *)
Definition respond (request : DataStreamsRequest.t) (scanner : StorageScanner.t) :
    outcome DataStreamsResponse.t :=
  if DataStreamsRequest.has_file request then
    let start := if DataStreamsRequest.has_start_idx request
                 then DataStreamsRequest.start_idx request else 0 in
    let max := if DataStreamsRequest.has_max_count request
               then DataStreamsRequest.max_count request else 0 in
    StorageScanner.getData f scanner (DataStreamsRequest.file request)
      (DataStreamsRequest.start_ns request) (DataStreamsRequest.end_ns request) start max
  else
    StorageScanner.getStreams f scanner (DataStreamsRequest.start_ns request)
      (DataStreamsRequest.end_ns request).

Definition handleReadingRequest (data : bytes) : prog StorageScanner.t bytes :=
  match parse data with
  | Some request =>
      scanner ← gets (fun s => s);
      response ← lift_outcome (respond request scanner);
      mret (serialize response)
  | None => mret []
  end.

Definition construct (port : Z) (storage : string) (k : kernel) : outcome t :=
  match StorageScanner.construct f storage with
  | Ok scanner => Ok (Server.start (Server.create port k scanner)).2
  | Throw e => Throw e
  end.
End Ops.
End LogReader.

(** ** Both services of a process

    What the daemon and its demo do once the arguments are read: the storage, the
    service that writes to it and the one that reads from its folder. *)
Module Daemon.
Section Ops.
Context `{Codec LogRequest.t} {L : LocalTime} (fuel : nat).

Definition t : Type := TraceboxLogger.t FilesystemStorageBackend.state * LogReader.t.

Definition start (folder : string) (max_size logger_port reader_port : Z) (k : kernel) : prog world t := fun w =>
  match Storage.construct fuel (i32 max_size) (Storage.mk 0 (FilesystemStorageBackend.create folder, w)) with
  | (Throw e, s) => (Throw e, snd (Storage.backend_ s))
  | (Ok _, storage) =>
      let w := snd (Storage.backend_ storage) in
      let logger := TraceboxLogger.construct logger_port storage k in
      match LogReader.construct (w_fs w) reader_port folder (Server.kernel_ logger) with
      | Throw e => (Throw e, w)
      | Ok reader => (Ok (logger, reader), w)
      end
  end.
End Ops.
End Daemon.

(** ** One connection of a running server *)
Section Serving.
Context {C : Type} (callback : bytes -> prog C bytes).
Import Server.

(** The loop of the server as one connection sees it: up to [n] messages. *)
Fixpoint serve (n : nat) (fd : Z) : prog (t C) unit :=
  match n with
  | O => mret tt
  | S n' =>
      ok ← handleLogRequest callback fd;
      if (ok : bool) then serve n' fd else mret tt
  end.

(** Nobody calls [stop]. *)
Definition undisturbed (s : t C) : Prop :=
  state_ s = kRunning /\ forall n, a_stop (answers (kernel_ s) n) = false.

Lemma load_state_undisturbed s :
  undisturbed s -> load_state s = (Ok kRunning, set_kernel (called (kernel_ s)) s).
Proof.
  intros [Hr Hs]. unfold load_state, ask, mbind, prog_bind, next_answer. rewrite Hs.
  unfold mret, prog_ret, gets. cbn. by rewrite Hr.
Qed.

Lemma undisturbed_called s : undisturbed s -> undisturbed (set_kernel (called (kernel_ s)) s).
Proof. done. Qed.

(** What a server's connection looks like from outside. *)
Definition socket_is (fd : Z) (c : conn) (s : t C) : Prop := sockets (kernel_ s) !! fd = Some c.

Lemma handle_empty fd d d' s :
  socket_is fd d s -> TcpSocket.readData d = (Ok [], d') ->
  exists s', handleLogRequest callback fd s = (Ok false, s') /\ target_ s' = target_ s /\
    socket_is fd d' s'.
Proof.
  intros Hs Er. unfold handleLogRequest, mbind, prog_bind, on_socket. unfold socket_is in Hs.
  rewrite Hs, Er. rewrite bool_decide_eq_true_2 by done. eexists. split; [done|]. split; [done|].
  unfold socket_is. cbn. by rewrite lookup_insert_eq.
Qed.

(** The loop and the descriptors it knows are as they were. *)
Definition same_loop (s s' : t C) : Prop :=
  thread_ s' = thread_ s /\ wakeup_fd_ s' = wakeup_fd_ s /\ listening_fd_ s' = listening_fd_ s.

(** A message that was read is passed to the callback, and what the callback
    returns is sent. *)
Lemma handle_message fd d d' data answer s tgt :
  undisturbed s -> socket_is fd d s ->
  TcpSocket.readData d = (Ok data, d') -> data <> [] ->
  callback data (target_ s) = (Ok answer, tgt) ->
  exists s', handleLogRequest callback fd s = (Ok true, s') /\ undisturbed s' /\ target_ s' = tgt /\
    socket_is fd (if bool_decide (answer = []) then d' else (TcpSocket.sendData answer d').2) s' /\
    same_loop s s'.
Proof.
  intros Hu Hs Er Hne Ec. unfold handleLogRequest, mbind, prog_bind at 1, on_socket at 1.
  unfold socket_is in Hs. rewrite Hs, Er. rewrite bool_decide_eq_false_2 by done.
  set (s1 := set_kernel (kernel_connect fd d' (kernel_ s)) s).
  assert (H1 : undisturbed s1) by done. unfold prog_bind at 1.
  rewrite (load_state_undisturbed s1) by done. rewrite bool_decide_eq_true_2 by done. cbn [negb].
  set (s2 := set_kernel (called (kernel_ s1)) s1). assert (H2 : undisturbed s2) by done.
  unfold catch_all, try_catch, prog_bind at 1. rewrite (load_state_undisturbed s2) by done.
  rewrite bool_decide_eq_true_2 by done. cbn [negb].
  set (s3 := set_kernel (called (kernel_ s2)) s2). assert (H3 : undisturbed s3) by done.
  unfold prog_bind at 1, zoom. change (target_ s3) with (target_ s). rewrite Ec.
  set (s4 := set_target tgt s3). assert (H4 : undisturbed s4) by done.
  assert (Hd : sockets (kernel_ s4) !! fd = Some d') by (cbn; apply lookup_insert_eq).
  unfold prog_bind at 1. destruct (bool_decide (answer = [])).
  - eexists. split; [done|]. by split_and!.
  - unfold prog_bind at 1. rewrite (load_state_undisturbed s4) by done.
    rewrite bool_decide_eq_true_2 by done. unfold prog_bind at 1, on_socket at 1.
    cbn [set_kernel kernel_ called sockets]. rewrite Hd.
    destruct (TcpSocket.sendData answer d') as [o d2] eqn:Es.
    assert (exists b, o = Ok b) as [b ->].
    { pose proof (wp_sendDataWith answer d') as W. unfold wp in W.
      change TcpSocket.sendData with TcpSocket.sendDataWith in Es. rewrite Es in W.
      destruct W as (b & _ & W & _). by exists b. }
    eexists. split; [done|]. split; [done|]. split; [done|]. split; [|done].
    unfold socket_is. cbn. by rewrite lookup_insert_eq.
Qed.

(** A callback without answers sees the messages that [receive_messages] gives. *)
Lemma serve_receives n fd d s got d' tgt :
  undisturbed s -> socket_is fd d s ->
  receive_messages n d = (Ok got, d') ->
  (forall data c, (callback data c).1 = Ok []) ->
  for_each got (fun data => callback data;; mret tt) (target_ s) = (Ok tt, tgt) ->
  exists s', serve n fd s = (Ok tt, s') /\ target_ s' = tgt.
Proof.
  intros Hu Hs Er Hc. revert d s got Hu Hs Er.
  induction n as [|n IH]; intros d s got Hu Hs Er Ef; cbn [serve receive_messages] in *.
  { injection Er as <- <-. injection Ef as <-. by exists s. }
  unfold mbind, prog_bind in Er. destruct (TcpSocket.readData d) as [[data|e] d1] eqn:Ed; [|done].
  destruct (bool_decide (data = [])) eqn:Eb.
  - apply bool_decide_eq_true in Eb as ->. injection Er as <- <-. injection Ef as <-.
    destruct (handle_empty fd d d1 s Hs Ed) as (s' & Eh & Ht & _).
    exists s'. unfold mbind, prog_bind. by rewrite Eh.
  - apply bool_decide_eq_false in Eb.
    destruct (receive_messages n d1) as [[rest|e] d2] eqn:En; [|done]. injection Er as <- <-.
    pose proof (Hc data (target_ s)) as Hcd.
    cbn [for_each] in Ef. unfold mbind, prog_bind in Ef.
    destruct (callback data (target_ s)) as [o tgt1] eqn:Ec. cbn [fst] in Hcd. subst o.
    destruct (handle_message fd d d1 data [] s tgt1 Hu Hs Ed Eb Ec) as (s1 & Eh & Hu1 & Ht1 & Hs1 & _).
    rewrite bool_decide_eq_true_2 in Hs1 by done. unfold mbind, prog_bind. rewrite Eh.
    apply (IH d1 s1 rest); [done|done|exact En|by rewrite Ht1].
Qed.
End Serving.

(** ** From [logData] to the queue *)
Section Pipeline.
Context `{Codec LogRequest.t, !CodecLaws LogRequest.t} {B : Type}.
Import LogClient LogWriter.

Lemma logger_silent data (w : LogWriter.t B) : (TraceboxLogger.handleLogRequest data w).1 = Ok [].
Proof. unfold TraceboxLogger.handleLogRequest. by destruct (parse data). Qed.

(** Requests that arrive in their serialised form are queued. *)
Lemma handle_serialized (rs : list LogRequest.t) (w : LogWriter.t B) :
  Forall encodable rs -> stopping_ w = false ->
  exists w', for_each (map serialize rs)
    (fun data => TraceboxLogger.handleLogRequest data;; mret tt) w = (Ok tt, w') /\
    queue_ w' = queue_ w ++ rs /\ accepted_ w' = accepted_ w ++ rs /\ storage_ w' = storage_ w.
Proof.
  revert w. induction rs as [|r rs IH]; intros w He Hw.
  { exists w. rewrite !app_nil_r. done. }
  apply Forall_cons in He as [Hr He]. cbn [map for_each]. unfold mbind, prog_bind.
  unfold TraceboxLogger.handleLogRequest at 1. rewrite parse_serialize by done.
  unfold mbind, prog_bind, modify. cbn. unfold add at 1. rewrite Hw. cbn [snd].
  destruct (IH (mk (queue_ w ++ [r]) (stopping_ w) (storage_ w) (thread_ w) (S (notifications_ w))
                   (stopped_ w) (accepted_ w ++ [r]) (written_ w))) as (w' & E & Hq & Ha & Hst);
    [done|done|].
  exists w'. rewrite Hq, Ha. rewrite Hw in E. cbn [queue_ accepted_]. rewrite <- !app_assoc. by split_and!.
Qed.

Lemma requests_messages (s : LogClient.t) records :
  Forall encodable (requests s records) ->
  Forall message_ok (map serialize (requests s records)).
Proof.
  intros He. apply Forall_map. rewrite Forall_forall in *. intros r Hr. split.
  - apply serialize_nonempty; [auto|]. apply list_elem_of_fmap in Hr as (? & -> & _). intros E. by apply (f_equal LogRequest.data_) in E.
  - pose proof (serialize_size r (He r Hr)). lia.
Qed.

(** What recording over any connection leaves on the wire: the frames of the
    records that were taken, and at most a part of one more. *)
Lemma log_all_wire (s : LogClient.t) records c :
  connected_to c (base s) -> out_wire c = [] ->
  Forall (size_ok s) records -> Forall encodable (requests s records) ->
  exists k part c', log_all records s = (Ok k, set_base (with_conn c' (base s)) s) /\
    (k <= length records)%nat /\ incomplete part /\ (k = length records -> part = []) /\
    out_wire c' = frames (map serialize (take k (requests s records))) ++ part.
Proof.
  intros Hc Hw Hsz He.
  pose proof (wp_send_messages (map serialize (requests s records)) c (requests_messages s records He)) as W.
  unfold wp in W. rewrite length_map in W. rewrite (log_all_sent records c) by done.
  destruct (send_messages _ c) as [o c']. cbn [fst snd] in *.
  destruct W as (k & part & -> & Hk & Ew & Hi & Hall). rewrite Hw, firstn_map in Ew.
  unfold requests in Hk, Hall. rewrite length_map in Hk, Hall. by exists k, part, c'.
Qed.

(** What a server that reads such a wire has queued. *)
Lemma serve_wire (rs : list LogRequest.t) part (server : TraceboxLogger.t B) n fd d :
  Forall encodable rs -> Forall message_ok (map serialize rs) -> incomplete part ->
  undisturbed server -> socket_is fd d server -> stopping_ (Server.target_ server) = false ->
  in_wire d = frames (map serialize rs) ++ part ->
  exists m server', serve TraceboxLogger.handleLogRequest n fd server = (Ok tt, server') /\
    (m <= length rs)%nat /\
    queue_ (Server.target_ server') = queue_ (Server.target_ server) ++ take m rs /\
    accepted_ (Server.target_ server') = accepted_ (Server.target_ server) ++ take m rs /\
    ((length rs <= n)%nat -> healthy (in_script d) ->
     zlen (in_wire d) <= Z.of_nat (transfers (in_script d)) -> m = length rs).
Proof.
  intros He Hms Hi Hu Hs Hrun Hd.
  pose proof (wp_receive_messages n _ part d Hms Hi Hd) as R. unfold wp in R.
  destruct (receive_messages n d) as [o d'] eqn:Er. cbn [fst] in R.
  destruct R as (got & -> & Hpre & Hgot). rewrite <- (firstn_all rs) in Hpre.
  apply prefix_map in Hpre as (m & Hm & ->).
  destruct (handle_serialized (take m rs) (Server.target_ server)) as
    (w' & Ef & Hq & Ha & _); [by apply Forall_take|done|].
  destruct (serve_receives TraceboxLogger.handleLogRequest n fd d server _ d' w' Hu Hs Er
              logger_silent Ef) as (server' & Es & Ht).
  exists m, server'. rewrite Ht, Hq, Ha. split_and!; try done.
  intros Hn Hh Htr. rewrite Hd, zlen_app in Htr. pose proof (zlen_nonneg part).
  assert (E : map serialize (take m rs) = map serialize rs).
  { apply Hgot; [done|lia|by rewrite length_map]. }
  apply (f_equal length) in E. rewrite !length_map, length_take in E. lia.
Qed.

(** C9. A client records over any connection, which may transfer any amounts, be
    interrupted and fail, and stops when [logData] returns false; a running server
    with a writer reads from the other end. What the server has queued is a leading
    part of the records that [logData] acknowledged, with the client's stream name,
    their sizes, data and times, in order; and all of them where nothing failed. *)
Theorem records_reach_the_queue (s : LogClient.t) records c :
  connected_to c (base s) -> out_wire c = [] ->
  Forall (size_ok s) records -> Forall encodable (requests s records) ->
  exists k s' c', log_all records s = (Ok k, s') /\ connected_to c' (base s') /\
  forall (server : TraceboxLogger.t B) n fd d,
    undisturbed server -> socket_is fd d server ->
    stopping_ (Server.target_ server) = false -> in_wire d = out_wire c' ->
    exists m server', serve TraceboxLogger.handleLogRequest n fd server = (Ok tt, server') /\
      (m <= k)%nat /\
      queue_ (Server.target_ server') =
        queue_ (Server.target_ server) ++ take m (requests s records) /\
      accepted_ (Server.target_ server') =
        accepted_ (Server.target_ server) ++ take m (requests s records) /\
      (k = length records -> (k <= n)%nat -> healthy (in_script d) ->
       zlen (out_wire c') <= Z.of_nat (transfers (in_script d)) -> m = k).
Proof.
  intros Hc Hw Hsz He.
  destruct (log_all_wire s records c Hc Hw Hsz He) as (k & part & c' & E & Hk & Hi & _ & Ew).
  exists k, (set_base (with_conn c' (base s)) s), c'. split; [done|]. split; [apply connected_with_conn|].
  intros server n fd d Hu Hs Hrun Hd. rewrite <- Hd in *.
  assert (El : length (requests s records) = length records) by apply length_map.
  destruct (serve_wire (take k (requests s records)) part server n fd d) as
    (m & server' & Es & Hm & Hq & Ha & Hall); try done.
  { by apply Forall_take. }
  { rewrite <- firstn_map. by apply Forall_take, requests_messages. }
  rewrite length_take, El, Nat.min_l in Hm, Hall by done. rewrite take_take, Nat.min_l in Hq, Ha by done.
  exists m, server'. split_and!; try done.
Qed.
End Pipeline.

(** ** From [getData] to the scanner and back *)
Section Query.
Context `{Codec DataStreamsRequest.t, !CodecLaws DataStreamsRequest.t}.
Context `{Codec DataStreamsResponse.t, !CodecLaws DataStreamsResponse.t}.
Context (leftover : bytes -> DataStreamsResponse.t) (f : fs) {L : LocalTime}.
Import LogReadClient.

(** The handler answers a serialised request with the serialised response. *)
Lemma handle_request request scanner response :
  encodable request -> LogReader.respond f request scanner = Ok response ->
  LogReader.handleReadingRequest f (serialize request) scanner = (Ok (serialize response), scanner).
Proof.
  intros He Hr. unfold LogReader.handleReadingRequest. rewrite parse_serialize by done.
  unfold mbind, prog_bind, gets, lift_outcome. by rewrite Hr.
Qed.

Lemma respond_data file start end_ start_idx max_size scanner :
  LogReader.respond f (data_request file start end_ start_idx max_size) scanner =
  StorageScanner.getData f scanner file start end_ start_idx max_size.
Proof. done. Qed.

Lemma respond_streams start end_ start_idx max_size scanner :
  LogReader.respond f (streams_request start end_ start_idx max_size) scanner =
  StorageScanner.getStreams f scanner start end_.
Proof. done. Qed.

(** What the bytes on the wire of an answer are: the frame, when there is
    something to send, cut off if a transfer failed. *)
Definition answer_wire (response : DataStreamsResponse.t) (wire : bytes) : Prop :=
  if bool_decide (serialize response = []) then wire = []
  else wire `prefix_of` TcpSocket.frame (serialize response).

(** The client's side: whatever it reads of such an answer is the answer. *)
Lemma client_reads request response c cl :
  connected_to c cl -> encodable response -> answer_wire response (in_wire c) ->
  (TcpSocket.sendData (serialize request) c).1 = Ok true ->
  exists r cl', getResponse leftover request cl = (Ok r, cl') /\ (r = response \/ r = cleared) /\
    (in_wire c = TcpSocket.frame (serialize response) -> healthy (in_script c) ->
     zlen (in_wire c) <= Z.of_nat (transfers (in_script c)) -> r = response).
Proof.
  intros Hc He Hw Hs. unfold getResponse, mbind, prog_bind.
  rewrite (client_sendData _ c) by done. rewrite Hs. cbn [negb].
  pose proof (wp_sendDataWith (serialize request) c) as W. unfold wp in W.
  change TcpSocket.sendData with TcpSocket.sendDataWith.
  destruct (TcpSocket.sendDataWith (serialize request) c) as [o c1]. cbn [fst snd] in *.
  destruct W as (_ & _ & _ & _ & _ & _ & _ & Hscript & Hwire).
  rewrite (client_readData c1) by apply connected_with_conn.
  pose proof (wp_readDataWith c1) as R. unfold wp in R.
  change TcpSocket.readData with TcpSocket.readDataWith.
  destruct (TcpSocket.readDataWith c1) as [o2 c2]. cbn [fst snd] in *.
  destruct R as (bs & taken & -> & Htk & _ & _ & Hbs & Hlive).
  rewrite Hscript, Hwire in Hlive. rewrite Hwire in Htk.
  pose proof (serialize_size response He) as Hsz.
  assert (Hgot : bs <> [] -> bs = serialize response).
  { intros Hne. destruct (Hbs Hne) as [-> Hlb]. unfold answer_wire in Hw.
    destruct (bool_decide _) eqn:Eb.
    - rewrite Hw in Htk. by destruct (TcpSocket.frame bs) eqn:Ef.
    - destruct Hw as [rest Hw]. rewrite Htk, <- app_assoc in Hw.
      rewrite <- (app_nil_r (TcpSocket.frame (serialize response))) in Hw.
      apply frame_inj in Hw as [Hw _]; [done|lia|done]. }
  destruct (decide (bs = [])) as [->|Hne].
  - rewrite bool_decide_eq_true_2 by done. eexists cleared, _. split; [done|]. split; [by right|].
    intros Hf Hh Ht. rewrite Hf in Ht.
    destruct (Hlive (serialize response) [] ltac:(by rewrite app_nil_r) ltac:(lia) Hh Ht) as [E _].
    pose proof (parse_serialize response He) as Hp. rewrite <- E, parse_nothing in Hp. congruence.
  - rewrite bool_decide_eq_false_2 by done. rewrite (Hgot Hne), parse_serialize by done.
    eexists response, _. split; [done|]. split; [by left|done].
Qed.

(** A request and its answer, over the two ends of a connection. *)
Lemma remote_exchange (server : LogReader.t) fd d scanner request local :
  LogReader.respond f request scanner = Ok local ->
  encodable request -> request <> cleared -> encodable local ->
  undisturbed server -> Server.target_ server = scanner -> socket_is fd d server ->
  in_wire d = TcpSocket.frame (serialize request) ->
  out_wire d = [] -> healthy (in_script d) -> zlen (in_wire d) <= Z.of_nat (transfers (in_script d)) ->
  exists server' d',
    Server.handleLogRequest (LogReader.handleReadingRequest f) fd server = (Ok true, server') /\
    undisturbed server' /\ Server.target_ server' = scanner /\ socket_is fd d' server' /\
    forall c client, connected_to c client -> in_wire c = out_wire d' ->
      (TcpSocket.sendData (serialize request) c).1 = Ok true ->
      exists r client', getResponse leftover request client = (Ok r, client') /\ (r = local \/ r = cleared) /\
        (in_wire c = TcpSocket.frame (serialize local) -> healthy (in_script c) ->
         zlen (in_wire c) <= Z.of_nat (transfers (in_script c)) -> r = local).
Proof.
  intros Hl Hq Hc Hr Hu Ht Hs Hin Hout Hh Htr.
  pose proof (handle_request request scanner local Hq Hl) as Ehandle.
  pose proof (serialize_size request Hq) as Hqs.
  assert (Hne : serialize request <> []) by (by apply serialize_nonempty).
  pose proof (wp_readDataWith d) as R. unfold wp in R.
  destruct (TcpSocket.readDataWith d) as [o d1] eqn:Ed. cbn [fst snd] in R.
  destruct R as (bs & taken & -> & _ & _ & Ho1 & _ & Hlive).
  rewrite Hin in Htr.
  destruct (Hlive (serialize request) [] ltac:(by rewrite app_nil_r) ltac:(lia) Hh Htr) as (-> & _).
  rewrite <- Ht in Ehandle.
  destruct (handle_message (LogReader.handleReadingRequest f) fd d d1 _ _ server _
              Hu Hs Ed Hne Ehandle) as (server' & Eh & Hu' & Ht' & Hs' & _).
  eexists server', _. split; [exact Eh|]. split; [done|]. split; [by rewrite Ht', Ht|].
  split; [exact Hs'|]. intros c client Hcc Hwire Hsent.
  apply client_reads; [done|done| |done]. rewrite Hwire. unfold answer_wire.
  destruct (bool_decide (serialize local = [])); [by rewrite Ho1|].
  pose proof (wp_sendDataWith (serialize local) d1) as W. unfold wp in W.
  destruct W as (b & part & _ & Ew & Hp & _). change TcpSocket.sendData with TcpSocket.sendDataWith.
  by rewrite Ew, Ho1, Hout.
Qed.

(** What a reader can ask: the client's call, its request, and the scanner's answer. *)
Inductive query :=
| Extraction (file : string) (start end_ start_idx max_size : Z)
| Listing (start end_ start_idx max_size : Z).

Definition ask_remote (q : query) : prog TcpClient.t DataStreamsResponse.t :=
  match q with
  | Extraction file start end_ start_idx max_size => getData leftover file start end_ start_idx max_size
  | Listing start end_ start_idx max_size => getStreams leftover start end_ start_idx max_size
  end.

Definition query_request (q : query) : DataStreamsRequest.t :=
  match q with
  | Extraction file start end_ start_idx max_size => data_request file start end_ start_idx max_size
  | Listing start end_ start_idx max_size => streams_request start end_ start_idx max_size
  end.

Definition ask_local (q : query) (scanner : StorageScanner.t) : outcome DataStreamsResponse.t :=
  match q with
  | Extraction file start end_ start_idx max_size =>
      StorageScanner.getData f scanner file start end_ start_idx max_size
  | Listing start end_ _ _ => StorageScanner.getStreams f scanner start end_
  end.

(** The reader's end of a connection on which a query has arrived. *)
Record asked (q : query) (server : LogReader.t) (fd : Z) (d : conn) (scanner : StorageScanner.t) : Prop := {
  as_undisturbed : undisturbed server;
  as_scanner : Server.target_ server = scanner;
  as_socket : socket_is fd d server;
  as_wire : in_wire d = TcpSocket.frame (serialize (query_request q)) /\ out_wire d = [];
  as_healthy : healthy (in_script d) /\ zlen (in_wire d) <= Z.of_nat (transfers (in_script d))
}.

(** The client's end: its request can be sent and the answer is what the server sent. *)
Record asking (q : query) (client : TcpClient.t) (c : conn) (wire : bytes) : Prop := {
  ak_conn : connected_to c client;
  ak_wire : in_wire c = wire;
  ak_sent : (TcpSocket.sendData (serialize (query_request q)) c).1 = Ok true
}.

(** The answer arrives: it was sent whole and the client's reads do not fail. *)
Definition arrives (local : DataStreamsResponse.t) (c : conn) : Prop :=
  in_wire c = TcpSocket.frame (serialize local) /\ healthy (in_script c) /\
  zlen (in_wire c) <= Z.of_nat (transfers (in_script c)).

(** What a remote call gives, where a local one gives [local]. *)
Definition remotely (q : query) (scanner : StorageScanner.t) (local : DataStreamsResponse.t) : Prop :=
  encodable (query_request q) -> encodable local ->
  forall server fd d, asked q server fd d scanner ->
  exists server' d',
    Server.handleLogRequest (LogReader.handleReadingRequest f) fd server = (Ok true, server') /\
    undisturbed server' /\ Server.target_ server' = scanner /\ socket_is fd d' server' /\
    forall client c, asking q client c (out_wire d') ->
      exists r client', ask_remote q client = (Ok r, client') /\
        (r = local \/ r = cleared) /\ (arrives local c -> r = local).

Lemma remote_answer q scanner local : ask_local q scanner = Ok local -> remotely q scanner local.
Proof.
  intros Hl Hq Hr server fd d [Hu Ht Hs [Hin Hout] [Hh Htr]].
  assert (Hne : query_request q <> cleared) by by destruct q.
  assert (Hl' : LogReader.respond f (query_request q) scanner = Ok local) by by destruct q.
  destruct (remote_exchange server fd d scanner _ local Hl' Hq Hne Hr Hu Ht Hs Hin Hout Hh Htr)
    as (server' & d' & Eh & Hu' & Ht' & Hs' & Hc).
  exists server', d'. split; [done|]. split; [done|]. split; [done|]. split; [done|].
  intros client c [Hconn Hw Hsent]. destruct (Hc c client Hconn Hw Hsent) as (r & client' & E & Hcase & Harr).
  exists r, client'. split; [by destruct q|]. split; [done|]. intros (? & ? & ?). by apply Harr.
Qed.

(** C11. Remote reading. A running log reader gets the request of [getData] or
    [getStreams] over one end of a connection. Whatever the transfers are, it keeps
    the connection, and a client that reads the answer from the other end gets
    exactly what the scanner returns for the same arguments, or, if something was
    cut off, the empty response; and it gets the scanner's result when the answer
    was sent whole and its own reads do not fail. *)
Theorem remote_read (server : LogReader.t) fd d scanner q local :
  ask_local q scanner = Ok local -> encodable (query_request q) -> encodable local ->
  asked q server fd d scanner ->
  exists server' d',
    Server.handleLogRequest (LogReader.handleReadingRequest f) fd server = (Ok true, server') /\
    undisturbed server' /\ Server.target_ server' = scanner /\ socket_is fd d' server' /\
    forall client c, asking q client c (out_wire d') ->
      exists r client', ask_remote q client = (Ok r, client') /\
        (r = local \/ r = cleared) /\ (arrives local c -> r = local).
Proof. intros Hl Hq Hr Ha. by apply (remote_answer q scanner local Hl Hq Hr server fd d). Qed.

(** A request for the records of a file that carries no maximum is answered
    with no record at all, whatever the file holds. *)
Lemma no_maximum_no_records request scanner response :
  DataStreamsRequest.has_file request = true -> DataStreamsRequest.has_max_count request = false ->
  LogReader.respond f request scanner = Ok response ->
  DataStreamsResponse.data response = [].
Proof.
  intros Hf Hm. unfold LogReader.respond. rewrite Hf, Hm. unfold StorageScanner.getData.
  destruct (StorageScanner.resolveIndexPath _ _ _) as [p|]; [|by intros [= <-]].
  destruct (StreamReader.construct _ _) as [rd|]; [|done].
  destruct (negb _); [by intros [= <-]|].
  destruct (StreamReader.records_cnt rd) as [cnt|]; [|done].
  destruct (cnt <=? _); [by intros [= <-]|].
  destruct (Z.to_nat _); cbn; by intros [= <-].
Qed.

(** The paging of a request for streams is not looked at. *)
Lemma discovery_ignores_paging start end_ i max i' max' scanner :
  LogReader.respond f (streams_request start end_ i max) scanner =
  LogReader.respond f (streams_request start end_ i' max') scanner.
Proof. done. Qed.
End Query.

(** *** The guarantees at concrete inputs *)
Section Witnesses.
#[local] Existing Instance utc_localtime.
#[local] Instance log_codec : Codec LogRequest.t := countable_codec.
#[local] Instance log_laws : CodecLaws LogRequest.t := countable_codec_laws.
#[local] Instance query_codec : Codec DataStreamsRequest.t := countable_codec.
#[local] Instance query_laws : CodecLaws DataStreamsRequest.t := countable_codec_laws.
#[local] Instance answer_codec : Codec DataStreamsResponse.t := countable_codec.
#[local] Instance answer_laws : CodecLaws DataStreamsResponse.t := countable_codec_laws.

(** A kernel with one connection, which grants every call. *)
Definition kernel_with (fd : Z) (c : conn) : kernel :=
  mk_kernel {[ 0; 1; 2; 3; 4; 5; fd ]} {[ 4; 5; fd ]} false {[ fd := c ]}
    (fun _ => mk_answer true 9 8080 false (mk_conn [] [] [] []) false) 0.

Definition running_server {C} (target : C) (d : conn) : Server.t C :=
  Server.mk 3 4 5 8080 8080 [6] Server.kRunning Server.Looping (kernel_with 6 d) target 0 0.

(** A client of records of two bytes; its sends are short or interrupted. *)
Definition sample_client : LogClient.t :=
  LogClient.mk (TcpClient.mk 6 (kernel_with 6
      (mk_conn (Transfer 3 :: Interrupted :: replicate 10 (Transfer 40)) [] [] [])) [])
    "can0" 2.

Definition sample_log : list (bytes * Z) := [([x41; x42], 1000); ([x43; x44], 2000)].

Lemma records_reach_the_queue_witness :
  exists s' c', LogClient.log_all sample_log sample_client = (Ok 2%nat, s') /\
    connected_to c' (LogClient.base s') /\
    forall d, in_wire d = out_wire c' -> in_script d = replicate 200 (Transfer 3) ->
    exists server',
      serve TraceboxLogger.handleLogRequest 5 6
        (running_server (LogWriter.create full_storage) d) = (Ok tt, server') /\
      LogWriter.queue_ (Server.target_ server') = requests sample_client sample_log.
Proof.
  destruct (records_reach_the_queue (B := FilesystemStorageBackend.state) sample_client sample_log
    (mk_conn (Transfer 3 :: Interrupted :: replicate 10 (Transfer 40)) [] [] []))
    as (k & s' & c' & E & Hc & W); try reflexivity.
  - repeat constructor; by right.
  - repeat constructor; vm_compute; reflexivity.
  - assert (E1 : (LogClient.log_all sample_log sample_client).1 = Ok 2%nat) by (vm_compute; reflexivity).
    assert (E2 : match sockets (TcpClient.kernel_ (LogClient.base (LogClient.log_all sample_log sample_client).2)) !! 6 with
                 | Some c => zlen (out_wire c) <=? 200 | None => false end = true) by (vm_compute; reflexivity).
    assert (E3 : TcpClient.fd_ (LogClient.base (LogClient.log_all sample_log sample_client).2) = 6)
      by (vm_compute; reflexivity).
    rewrite E in E1, E2, E3. cbn [fst snd] in E1, E2, E3. injection E1 as ->.
    unfold connected_to in Hc. rewrite E3 in Hc. rewrite Hc in E2. apply Z.leb_le in E2.
    exists s', c'. split; [exact E|]. split; [unfold connected_to; by rewrite E3|].
    intros d Hd Hs.
    destruct (W (running_server (LogWriter.create full_storage) d) 5%nat 6 d) as
      (m & server' & Es & _ & Hq & _ & Hm); try done.
    exists server'. split; [exact Es|]. rewrite Hq, Hm; [reflexivity|done|lia| |].
    + rewrite Hs. unfold healthy. intros Hin%elem_of_replicate. by destruct Hin.
    + rewrite Hs. unfold transfers.
      replace (length _) with 200%nat by (vm_compute; reflexivity). lia.
Defined.

Definition sample_query : DataStreamsRequest.t :=
  LogReadClient.data_request "20240101/can0.idx" (noon + 500) (noon + 5000) 0 1.

Definition sample_answer : DataStreamsResponse.t :=
  DataStreamsResponse.mk [] [DataPiece.mk (Some (noon + 1000)) (Some []) None] None.

Definition reader_conn : conn :=
  mk_conn (replicate 300 (Transfer 7)) [] (replicate 300 (Transfer 7))
    (TcpSocket.frame (serialize sample_query)).

Lemma remote_read_witness :
  exists server' d',
    Server.handleLogRequest (LogReader.handleReadingRequest stream_fs) 6
      (running_server sample_scanner reader_conn) = (Ok true, server') /\
    socket_is 6 d' server' /\
    forall c client, connected_to c client -> in_wire c = out_wire d' ->
      out_script c = replicate 300 (Transfer 7) -> in_script c = replicate 300 (Transfer 7) ->
      exists client',
        LogReadClient.getData (fun _ => cleared) "20240101/can0.idx" (noon + 500) (noon + 5000) 0 1 client
        = (Ok sample_answer, client').
Proof.
  assert (Hl : StorageScanner.getData stream_fs sample_scanner "20240101/can0.idx"
                 (noon + 500) (noon + 5000) 0 1 = Ok sample_answer) by (vm_compute; reflexivity).
  destruct (remote_read (fun _ => cleared) stream_fs (running_server sample_scanner reader_conn) 6
    reader_conn sample_scanner (Extraction "20240101/can0.idx" (noon + 500) (noon + 5000) 0 1) sample_answer Hl)
    as (server' & d' & Eh & _ & _ & Hs' & W).
  - vm_compute. reflexivity.
  - vm_compute. reflexivity.
  - split; [by split|reflexivity|reflexivity|by split|]. split.
    + intros Hin%elem_of_replicate. by destruct Hin.
    + unfold reader_conn, transfers. cbn [in_script].
      replace (length (List.filter is_transfer (replicate 300 (Transfer 7)))) with 300%nat
        by (vm_compute; reflexivity).
      vm_compute. discriminate.
  - exists server', d'. split; [exact Eh|]. split; [exact Hs'|].
    intros c client Hc Hwire Hout Hin.
    assert (Ed : out_wire d' = TcpSocket.frame (serialize sample_answer)).
    { assert (E1 : match sockets (Server.kernel_ (Server.handleLogRequest
          (LogReader.handleReadingRequest stream_fs) 6 (running_server sample_scanner reader_conn)).2) !! 6 with
          | Some c => bool_decide (out_wire c = TcpSocket.frame (serialize sample_answer))
          | None => false end = true) by (vm_compute; reflexivity).
      rewrite Eh in E1. cbn [snd] in E1. unfold socket_is in Hs'. rewrite Hs' in E1.
      by apply bool_decide_eq_true in E1. }
    destruct (W client c) as (r & client' & Eg & _ & Hr).
    + split; [exact Hc|exact Hwire|].
      destruct c as [outs outw ins inw]. cbn in Hout. subst outs. vm_compute. reflexivity.
    + exists client'. cbn [ask_remote] in Eg. rewrite Eg, Hr; [done|]. split; [by rewrite Hwire|]. split.
      * rewrite Hin. intros Hx%elem_of_replicate. by destruct Hx.
      * rewrite Hin, Hwire, Ed. vm_compute. discriminate.
Defined.

Lemma no_maximum_no_records_witness :
  exists response,
    LogReader.respond stream_fs
      (DataStreamsRequest.mk (Some 0) (Some (2 ^ 63)) (Some "20240101/can0.idx"%string) None None)
      sample_scanner = Ok response /\ DataStreamsResponse.data response = [].
Proof.
  destruct (LogReader.respond stream_fs
      (DataStreamsRequest.mk (Some 0) (Some (2 ^ 63)) (Some "20240101/can0.idx"%string) None None)
      sample_scanner) as [response|e] eqn:E.
  - exists response. split; [done|].
    by eapply (no_maximum_no_records stream_fs); [| |exact E].
  - vm_compute in E. discriminate.
Defined.
End Witnesses.
