(* ===== verification/Fleet.v ===== *)
(** * Many clients and one logger

    [libs/log_writer/writer/tracebox_logger.h] as it runs: the loop of its server,
    the writing thread of its queue and calls of [stop] interleave, while clients
    connect, send records and disappear at any time. Composed with the clients in
    front of it and with the storage and the scanner behind it, this is the way of a
    record from [LogClient::logData] in one process to a reader in another. *)
From Stdlib Require Import Ascii.
From S2P Require Import Prelude DataTypes Calendar Format Protos FileSystem FileIO StreamWriter TcpSocket Kernel TcpServer TcpServerSpec Storage StorageBackend LogWriter StreamReader Recording Folder StorageScanner ScannerSpec BackendSpec FolderSpec EndToEnd DaysSpec TcpClient Codec Clients Samples Services.
Local Open Scope Z_scope.

(** ** What the server's housekeeping leaves alone *)
Section Housekeeping.
Context {C : Type} {keep : bool}.
Import Server.
Implicit Types s : t C.

(** Connections may be closed; the target is not touched. With [keep], no loop is
    started. *)
Definition rest s s' : Prop :=
  target_ s' = target_ s /\ answers (kernel_ s') = answers (kernel_ s) /\
  (calls (kernel_ s) <= calls (kernel_ s'))%nat /\
  sockets (kernel_ s') ⊆ sockets (kernel_ s) /\
  (keep = true -> thread_ s' = Looping -> thread_ s = Looping).

#[global] Instance rest_preorder : PreOrder rest.
Proof.
  split; [by intros s|]. intros s1 s2 s3 (A1 & A2 & A3 & A4 & A5) (B1 & B2 & B3 & B4 & B5).
  split_and!; [congruence|congruence|lia|by etrans|auto].
Qed.

Definition restful {A} (m : prog (t C) A) : Prop := forall s, rest s (m s).2.

Lemma restful_ret {A} (a : A) : restful (mret a).
Proof. by intros s. Qed.

Lemma restful_gets {A} (f : t C -> A) : restful (gets f).
Proof. by intros s. Qed.

Lemma restful_modify (f : t C -> t C) : (forall s, rest s (f s)) -> restful (modify f).
Proof. done. Qed.

Lemma restful_bind {A B} (m : prog (t C) A) (f : A -> prog (t C) B) :
  restful m -> (forall a, restful (f a)) -> restful (m ≫= f).
Proof.
  intros Hm Hf s. specialize (Hm s). unfold mbind, prog_bind. destruct (m s) as [[a|e] s1]; [|done].
  etrans; [exact Hm|apply Hf].
Qed.

Lemma restful_and_also (m n : prog (t C) bool) : restful m -> restful n -> restful (and_also m n).
Proof. intros Hm Hn. apply restful_bind; [done|]. intros [|]; [done|apply restful_ret]. Qed.

Lemma restful_throw {A} e : restful (throw e : prog (t C) A).
Proof. by intros s. Qed.

Lemma restful_ask : restful ask.
Proof. intros s. unfold rest, ask. cbn. split_and!; (done || lia). Qed.

Lemma restful_kernel f :
  (forall k, answers (f k) = answers k /\ calls (f k) = calls k /\ sockets (f k) ⊆ sockets k) ->
  restful (on_kernel f).
Proof.
  intros Hf s. destruct (Hf (kernel_ s)) as (H1 & H2 & H3). unfold rest, on_kernel. cbn.
  split_and!; (done || lia).
Qed.

Lemma restful_open n : restful (on_kernel (kernel_open n)).
Proof. by apply restful_kernel. Qed.

Lemma restful_close fd : restful (close fd).
Proof. apply restful_kernel. intros k. split_and!; try done. apply delete_subseteq. Qed.

Lemma restful_unwatch fd : restful (on_kernel (kernel_unwatch fd)).
Proof. by apply restful_kernel. Qed.

Lemma restful_watch fd : restful (on_kernel (kernel_watch fd)).
Proof. by apply restful_kernel. Qed.
End Housekeeping.
Arguments rest {C} keep s s'.
Arguments restful {C} keep {A} m.

Create HintDb restful.
#[export] Hint Resolve restful_ret restful_throw restful_gets restful_ask restful_open restful_close restful_unwatch restful_watch : restful.

(** Programs made of such steps. *)
Ltac restful :=
  repeat first
    [ solve [eauto with restful]
    | apply restful_and_also
    | apply restful_bind; [|intros ?]
    | apply restful_modify; intros ?; unfold rest; cbn; split_and!; solve [done | lia | auto | by intros]
    | progress cbn zeta
    | match goal with |- restful _ (if ?b then _ else _) => destruct b end
    | match goal with |- restful _ (match ?x with _ => _ end) => destruct x end ].

Section Server.
Context {C : Type} {keep : bool}.
Import Server.

Lemma restful_call : restful keep (call : prog (t C) bool).
Proof. unfold call. restful. Qed.

Lemma restful_load_state : restful keep (load_state : prog (t C) State).
Proof.
  unfold load_state. restful. apply restful_modify. intros s. case_decide; [|done].
  unfold request_stop. by destruct (state_ s).
Qed.
#[local] Hint Resolve restful_call restful_load_state : restful.

Lemma restful_registerFd fd client : restful keep (registerFd fd client : prog (t C) bool).
Proof. unfold registerFd, setNonBlocking, setSocketTimeouts. restful. Qed.

Lemma restful_unregisterFd fd : restful keep (unregisterFd fd : prog (t C) unit).
Proof. unfold unregisterFd. restful. Qed.
#[local] Hint Resolve restful_registerFd restful_unregisterFd : restful.

Lemma restful_close_clients n : restful keep (close_clients n : prog (t C) unit).
Proof.
  induction n as [|n IH]; cbn [close_clients]; restful.
Qed.
#[local] Hint Resolve restful_close_clients : restful.

Lemma restful_run_end : restful keep (run_end : prog (t C) unit).
Proof. unfold run_end, closeClientFds, close_listening. restful. Qed.

Lemma restful_stop_finish : restful keep (stop_finish : prog (t C) unit).
Proof.
  unfold stop_finish, closeStartupDescriptors, closeClientFds, close_listening, close_wakeup. restful.
Qed.

(** After [unregisterFd] the connection is gone. *)
Lemma unregisterFd_gone fd (s : t C) : sockets (kernel_ (unregisterFd fd s).2) !! fd = None.
Proof.
  unfold unregisterFd, close, on_kernel, mbind, prog_bind, gets, modify.
  destruct (0 <=? epoll_fd_ s); cbn; apply lookup_delete_eq.
Qed.
End Server.
#[export] Hint Resolve restful_call restful_load_state restful_registerFd restful_unregisterFd restful_close_clients restful_run_end restful_stop_finish : restful.

(** Starting a server: only here a loop begins. *)
Lemma calm_start {C} (s : Server.t C) : rest false s (Server.start s).2.
Proof.
  assert (Hm : restful false (Server.start : prog (Server.t C) bool)); [|apply Hm].
  unfold Server.start, Server.fail_start, Server.open_descriptor, Server.setNonBlocking, Server.setSocketTimeouts, Server.closeStartupDescriptors,
    Server.closeClientFds, Server.close_listening, Server.close_wakeup.
  restful.
Qed.

(** ** The running logger *)
Section Logger.
Context `{Codec LogRequest.t, !CodecLaws LogRequest.t} {B : Type} {SB : StorageBackend B} (fuel : nat).
Import Server.
#[local] Abbreviation server := (TraceboxLogger.t B).
#[local] Abbreviation callback := TraceboxLogger.handleLogRequest.

(** What can happen next in the process of the logger: a round of the server's
    loop, the parts of [Server::stop], or a step of the writing thread and its
    wake-ups. The queue is stopped after the server, as in [~TraceboxLogger]. *)
Inductive live_step : server -> server -> Prop :=
| live_round s w : thread_ s = Looping -> LogWriter.alive (target_ s) = true ->
    live_step s (run_round callback w s).2
| live_request_stop s : live_step s (request_stop s)
| live_join s : (0 < joining_ s)%nat -> thread_ s <> Looping -> live_step s (join s)
| live_finish s : (0 < finishing_ s)%nat -> live_step s (stop_finish s).2
| live_writer s w : LogWriter.internal fuel (target_ s) w -> live_step s (set_target w s)
| live_spurious s : LogWriter.thread_ (target_ s) = LogWriter.Waiting ->
    live_step s (set_target (LogWriter.set_thread LogWriter.Running (target_ s)) s)
| live_stop s : thread_ s <> Looping -> LogWriter.alive (target_ s) = true ->
    live_step s (set_target (LogWriter.stop (target_ s)) s)
| live_joined s w : LogWriter.stopping_ (target_ s) = true -> LogWriter.thread_ (target_ s) = LogWriter.Exited ->
    w = LogWriter.mk (LogWriter.queue_ (target_ s)) true (LogWriter.storage_ (target_ s)) LogWriter.Exited
          (LogWriter.notifications_ (target_ s)) true (LogWriter.accepted_ (target_ s))
          (LogWriter.written_ (target_ s)) ->
    live_step s (set_target w s).

(** Whoever is accepted with the [n]-th answer of the kernel has sent the requests
    [sent n], all of one channel, and at most a part of one more. *)
Context (storage : Storage.t B) (script : nat -> answer).
Context (sent : nat -> list LogRequest.t) (cut : nat -> bytes) (ch : nat -> string).
Hypothesis sent_encodable : forall n, Forall encodable (sent n).
Hypothesis sent_messages : forall n, Forall message_ok (map serialize (sent n)).
Hypothesis cut_incomplete : forall n, incomplete (cut n).
Hypothesis sent_wire : forall n, in_wire (a_conn (script n)) = frames (map serialize (sent n)) ++ cut n.
Hypothesis sent_channel : forall n r, r ∈ sent n -> LogRequest.channel r = ch n.
Hypothesis channels_differ : forall n m, sent n <> [] -> sent m <> [] -> ch n = ch m -> n = m.

(** The requests of a channel. *)
Definition of_channel (c : string) (rs : list LogRequest.t) : list LogRequest.t :=
  filter (fun r => LogRequest.channel r = c) rs.

Lemma of_channel_snoc c rs r :
  of_channel c (rs ++ [r]) = of_channel c rs ++ (if decide (LogRequest.channel r = c) then [r] else []).
Proof. unfold of_channel. rewrite filter_app, filter_cons, filter_nil. by destruct (decide _). Qed.

(** Which connection is whose, and how many requests were taken from it; [hole] is a
    connection that is about to be closed. *)
Record conns_ok (owner : gmap Z nat) (taken : nat -> nat) (hole : option Z) (s : server) : Prop := {
  co_calls : forall fd n, owner !! fd = Some n -> (n < calls (kernel_ s))%nat;
  co_inj : forall fd fd' n, owner !! fd = Some n -> owner !! fd' = Some n -> fd = fd';
  co_wire : forall fd d, sockets (kernel_ s) !! fd = Some d -> hole <> Some fd ->
    exists n, owner !! fd = Some n /\
      in_wire d = frames (map serialize (drop (taken n) (sent n))) ++ cut n;
  co_later : forall n, (calls (kernel_ s) <= n)%nat -> taken n = 0%nat;
  co_taken : forall n, sent n <> [] ->
    of_channel (ch n) (LogWriter.accepted_ (target_ s)) = take (taken n) (sent n);
  co_from : forall r, r ∈ LogWriter.accepted_ (target_ s) -> exists n, r ∈ sent n
}.

Record fleet_ok (hole : option Z) (s : server) : Prop := {
  fo_target : LogWriter.reachable fuel storage (target_ s);
  fo_answers : answers (kernel_ s) = script;
  fo_conns : exists owner taken, conns_ok owner taken hole s
}.

(** The queue takes requests. *)
Definition open_queue (s : server) : Prop :=
  LogWriter.alive (target_ s) = true /\ LogWriter.stopping_ (target_ s) = false.

Lemma fleet_rest {keep} hole s s' : fleet_ok hole s -> rest keep s s' -> fleet_ok hole s'.
Proof.
  intros [Ht Ha (owner & taken & [H1 H2 H3 H4 H5 H6])] (E1 & E2 & E3 & E4 & _).
  split; [by rewrite E1|congruence|]. exists owner, taken. split; try done; rewrite ?E1; try done.
  - intros fd n Hn. specialize (H1 _ _ Hn). lia.
  - intros fd d Hd. apply H3. by eapply lookup_weaken.
  - intros n Hn. apply H4. lia.
Qed.

Lemma open_rest {keep} s s' : open_queue s -> rest keep s s' -> open_queue s'.
Proof. intros Ho (E & _). unfold open_queue. by rewrite E. Qed.

(** A connection that is gone is no hole. *)
Lemma fleet_closed fd s : fleet_ok (Some fd) s -> sockets (kernel_ s) !! fd = None -> fleet_ok None s.
Proof.
  intros [Ht Ha (owner & taken & [H1 H2 H3 H4 H5 H6])] Hfd. split; [done|done|].
  exists owner, taken. split; try done. intros x d Hd _. apply H3; [done|]. congruence.
Qed.

(** What a message on a connection is. *)
Lemma fleet_read fd d data d' s :
  fleet_ok None s -> sockets (kernel_ s) !! fd = Some d -> TcpSocket.readData d = (Ok data, d') ->
  let s1 := set_kernel (kernel_connect fd d' (kernel_ s)) s in
  fleet_ok (Some fd) s1 /\
  (data <> [] -> exists r, data = serialize r /\ encodable r /\
     forall s2 w, rest true s1 s2 -> LogWriter.reachable fuel storage w ->
       LogWriter.accepted_ w = LogWriter.accepted_ (target_ s) ++ [r] -> fleet_ok None (set_target w s2)).
Proof.
  intros [Ht Ha (owner & taken & [H1 H2 H3 H4 H5 H6])] Hd Er s1. split.
  { split; [done|done|]. exists owner, taken. split; try done. intros x dx Hx Hne.
    cbn in Hx. rewrite lookup_insert_ne in Hx by congruence. by apply H3. }
  intros Hne. destruct (H3 fd d Hd ltac:(done)) as (n & Hn & Hw).
  pose proof (wp_readDataWith d) as R. unfold wp in R.
  change TcpSocket.readDataWith with TcpSocket.readData in R. rewrite Er in R. cbn [fst snd] in R.
  destruct R as (bs & got & [= <-] & Hin & _ & _ & Hgot & _). destruct (Hgot Hne) as [-> Hlen].
  rewrite Hw in Hin. pose proof (sent_messages n) as Hms.
  destruct (drop (taken n) (sent n)) as [|r rest'] eqn:Edrop.
  { exfalso. by apply (incomplete_no_frame (cut n) data (in_wire d') (cut_incomplete n) Hlen). }
  assert (Hsent : sent n = take (taken n) (sent n) ++ r :: rest') by by rewrite <- Edrop, take_drop.
  assert (Hr : r ∈ sent n) by (rewrite Hsent; apply elem_of_app; right; left).
  rewrite Forall_forall in Hms. pose proof (Hms (serialize r)) as [_ Hsz]; [by apply list_elem_of_fmap_2|].
  unfold frames in Hin. cbn [map concat] in Hin. rewrite <- app_assoc in Hin.
  apply frame_inj in Hin as [Hser Hin]; [|done|done]. exists r. split; [done|].
  split; [by apply (proj1 (Forall_forall _ _) (sent_encodable n))|].
  assert (Hlt : (taken n < length (sent n))%nat).
  { apply (f_equal length) in Edrop. rewrite length_drop in Edrop. cbn in Edrop. lia. }
  assert (Etake : take (S (taken n)) (sent n) = take (taken n) (sent n) ++ [r]).
  { apply take_S_r. rewrite Hsent at 1. rewrite lookup_app_r by (rewrite length_take; lia).
    by rewrite length_take, Nat.min_l, Nat.sub_diag by lia. }
  intros s2 w (E1 & E2 & E3 & E4 & _) Hreach Hacc. cbn [kernel_ s1 set_kernel] in E2, E3, E4.
  split; [done|cbn in E2 |- *; congruence|].
  exists owner, (fun m => if decide (m = n) then S (taken n) else taken m).
  split; cbn [kernel_ set_target target_]; rewrite ?Hacc.
  - intros x m Hm. specialize (H1 _ _ Hm). cbn in E3. lia.
  - done.
  - intros x dx Hx _. pose proof (lookup_weaken _ _ _ _ Hx E4) as Hx1. cbn in Hx1.
    destruct (decide (x = fd)) as [->|Hxf].
    + rewrite lookup_insert_eq in Hx1. injection Hx1 as <-. exists n. split; [done|].
      rewrite decide_True by done. rewrite <- Hin. unfold frames.
      assert (drop (S (taken n)) (sent n) = rest') as ->; [|done].
      rewrite <- (Nat.add_1_r (taken n)), <- drop_drop, Edrop. done.
    + rewrite lookup_insert_ne in Hx1 by congruence. destruct (H3 x dx Hx1 ltac:(done)) as (m & Hm & Hwm).
      exists m. split; [done|]. rewrite decide_False; [done|]. intros ->. by apply Hxf, (H2 _ _ n).
  - intros m Hm. rewrite decide_False; [apply H4; cbn in E3; lia|].
    intros ->. specialize (H1 _ _ Hn). cbn in E3. lia.
  - intros m Hm. rewrite of_channel_snoc, (H5 m Hm), (sent_channel n r Hr).
    destruct (decide (m = n)) as [->|Hmn].
    + by rewrite decide_True, Etake.
    + rewrite decide_False, app_nil_r; [done|]. intros E. apply Hmn. symmetry.
      apply channels_differ; [|done|done]. intros E0. rewrite E0 in Hr. by apply elem_of_nil in Hr.
  - intros q [Hq|Hq]%elem_of_app; [by apply H6|]. apply list_elem_of_singleton in Hq as ->. by exists n.
Qed.
(** *** The events of the loop *)
Lemma wp_rest_of {A} (m : prog server A) s (Q : outcome A -> server -> Prop) :
  restful true m -> (forall o s', rest true s s' -> Q o s' ) -> wp m Q s.
Proof. intros Hm HQ. unfold wp. apply HQ, Hm. Qed.

Lemma load_state_returns (s : server) : exists st, (load_state s).1 = Ok st.
Proof. unfold load_state, ask, mbind, prog_bind. cbn. destruct (a_stop _); cbn; eauto. Qed.

Lemma wp_load (Q : outcome State -> server -> Prop) s :
  (forall st s', rest true s s' -> Q (Ok st) s') -> wp load_state Q s.
Proof.
  intros HQ. unfold wp. destruct (load_state_returns s) as [st ->]. apply HQ, restful_load_state.
Qed.

Lemma callback_queues r (w : LogWriter.t B) :
  encodable r -> callback (serialize r) w = (Ok [], (LogWriter.add r w).2).
Proof. intros Hr. unfold TraceboxLogger.handleLogRequest. by rewrite parse_serialize. Qed.

(** A message is queued, or the connection is about to be closed. *)
Lemma fleet_handle fd s :
  fleet_ok None s -> open_queue s ->
  wp (handleLogRequest callback fd) (fun o s' => exists b, o = Ok b /\ open_queue s' /\
    fleet_ok (if b then None else Some fd) s') s.
Proof.
  intros Hf Ho. unfold handleLogRequest. wp_step. unfold wp, on_socket.
  destruct (sockets (kernel_ s) !! fd) as [d|] eqn:Ed.
  2:{ pose proof (wp_readDataWith (mk_conn [] [] [] [])) as R. unfold wp in R.
      change TcpSocket.readDataWith with TcpSocket.readData in R. cbn [fst snd].
      assert ((TcpSocket.readData (mk_conn [] [] [] [])).1 = Ok []) as -> by done. cbn.
      exists false. split; [done|]. split; [done|]. destruct Hf as [Ht Ha (owner & taken & [])].
      split; [done|done|]. exists owner, taken. split; try done. intros x dx Hx _. by apply co_wire0. }
  destruct (TcpSocket.readData d) as [o d'] eqn:Er.
  destruct (readData_ok d) as [data E]. rewrite Er in E. cbn in E. subst o. cbn [fst snd wp_rest].
  destruct (fleet_read fd d data d' s Hf Ed Er) as [Hhole Hmsg].
  set (s1 := set_kernel (kernel_connect fd d' (kernel_ s)) s) in *.
  assert (Ho1 : open_queue s1) by done.
  wp_step; [wp_step; by exists false|]. apply bool_decide_eq_false in Heqb.
  destruct (Hmsg Heqb) as (r & -> & Henc & Hnext).
  assert (Hdrop : forall s2, rest true s1 s2 -> exists b, Ok false = Ok b /\ open_queue s2 /\
            fleet_ok (if b then None else Some fd) s2).
  { intros s2 Hr. exists false. split; [done|]. split; [by eapply open_rest|by eapply fleet_rest]. }
  wp_step. apply wp_load. intros st s2 Hr2. cbn [wp_rest]. wp_step; [wp_step; by apply Hdrop|].
  unfold catch_all. apply wp_try_catch. wp_step. apply wp_load. intros st' s3 Hr3. cbn [wp_rest].
  assert (Hr13 : rest true s1 s3) by by etrans.
  wp_step; [wp_step; by apply Hdrop|]. wp_step. wp_step.
  unfold wp at 1. rewrite callback_queues by done. cbn [fst snd wp_rest].
  rewrite bool_decide_eq_true_2 by done. wp_step. wp_step. cbn [wp_rest]. wp_step.
  pose proof (open_rest _ _ Ho1 Hr13) as [Hal Hst]. exists true. split; [done|].
  assert (Hadd : (LogWriter.add r (target_ s3)).2 =
    LogWriter.mk (LogWriter.queue_ (target_ s3) ++ [r]) false (LogWriter.storage_ (target_ s3))
      (LogWriter.thread_ (target_ s3)) (S (LogWriter.notifications_ (target_ s3)))
      (LogWriter.stopped_ (target_ s3)) (LogWriter.accepted_ (target_ s3) ++ [r]) (LogWriter.written_ (target_ s3))).
  { unfold LogWriter.add. by rewrite Hst. }
  destruct (fleet_rest _ _ _ Hhole Hr13) as [Hreach3 _ _]. split.
  - unfold open_queue. cbn [target_ set_target]. rewrite Hadd. by split.
  - apply Hnext; [done| |].
    + eapply LogWriter.reachable_step; [exact Hreach3|]. by apply LogWriter.step_add.
    + rewrite Hadd. cbn [LogWriter.accepted_]. destruct Hr13 as (-> & _). done.
Qed.

(** A client is accepted. *)
Lemma fleet_accept s :
  fleet_ok None s -> open_queue s ->
  wp accept_client (fun o s' => fleet_ok None s' /\ open_queue s') s.
Proof.
  intros Hf Ho. unfold accept_client. wp_step. unfold wp at 1, ask. cbn [fst snd wp_rest].
  set (a := next_answer (kernel_ s)). set (s1 := set_kernel (called (kernel_ s)) s).
  assert (Hr1 : rest true s s1) by apply restful_ask.
  wp_step; [wp_step; split; [by eapply fleet_rest|by eapply open_rest]|].
  wp_step. wp_step. cbn [wp_rest]. generalize (unused (a_fd a) (open_fds (kernel_ s1))) as fd. intros fd.
  unfold on_kernel. wp_step. wp_step. cbn [wp_rest]. wp_step. wp_step. cbn [wp_rest].
  match goal with |- wp _ _ ?x => set (s2 := x) end.
  assert (H2 : fleet_ok None s2).
  { destruct Hf as [Ht Ha (owner & taken & [H1 H2 H3 H4 H5 H6])]. split; [done|done|].
    exists (<[fd := calls (kernel_ s)]> owner), taken. split; try done; cbn.
    - intros x n. destruct (decide (x = fd)) as [->|Hx].
      + rewrite lookup_insert_eq. intros [= <-]. lia.
      + rewrite lookup_insert_ne by done. intros Hn. specialize (H1 _ _ Hn). lia.
    - intros x y n. destruct (decide (x = fd)) as [->|Hx], (decide (y = fd)) as [->|Hy];
        rewrite ?lookup_insert_eq, ?lookup_insert_ne by done; try done.
      + intros [= <-] Hn. specialize (H1 _ _ Hn). lia.
      + intros Hn [= <-]. specialize (H1 _ _ Hn). lia.
      + apply H2.
    - intros x d. destruct (decide (x = fd)) as [->|Hx].
      + rewrite lookup_insert_eq. intros [= <-] _. exists (calls (kernel_ s)).
        rewrite lookup_insert_eq. split; [done|]. rewrite H4 by lia. rewrite drop_0, <- sent_wire.
        unfold a, next_answer. by rewrite Ha.
      + rewrite !lookup_insert_ne by done. apply H3.
    - intros n Hn. apply H4. lia. }
  assert (Ho2 : open_queue s2) by done.
  match goal with |- wp ?m _ _ => assert (Hm : restful true m) end.
  { restful. }
  apply wp_rest_of; [exact Hm|]. intros o s' Hr. split; [by eapply fleet_rest|by eapply open_rest].
Qed.

Definition serving_on (s : server) : Prop := fleet_ok None s /\ open_queue s.

Lemma serving_rest s s' : serving_on s -> rest true s s' -> serving_on s'.
Proof. intros [Hf Ho] Hr. split; [by eapply fleet_rest|by eapply open_rest]. Qed.

Lemma fleet_event e s :
  serving_on s -> wp (handle_event callback e) (fun _ s' => serving_on s') s.
Proof.
  intros Hs. unfold handle_event. wp_step. wp_step. cbn [wp_rest]. wp_step; [by wp_step|].
  wp_step. apply wp_load. intros st s1 Hr1. cbn [wp_rest]. pose proof (serving_rest _ _ Hs Hr1) as Hs1.
  wp_step; [by wp_step|]. wp_step. wp_step. cbn [wp_rest].
  assert (Hun : forall s2, open_queue s2 -> fleet_ok (Some e.1) s2 \/ fleet_ok None s2 ->
    wp (unregisterFd e.1;; mret false) (fun _ s' => serving_on s') s2).
  { intros s2 Ho2 H2. pose proof (restful_unregisterFd (keep := true) e.1 s2) as Hr.
    pose proof (unregisterFd_gone e.1 s2) as Hg. wp_step. unfold wp.
    assert (serving_on (unregisterFd e.1 s2).2).
    { split; [|by eapply open_rest]. destruct H2 as [H2|H2]; [|by eapply fleet_rest].
      eapply fleet_closed; [by eapply fleet_rest|exact Hg]. }
    by destruct (unregisterFd e.1 s2).1. }
  destruct Hs1 as [Hf1 Ho1]. wp_step.
  - wp_step. eapply wp_mono; [by apply fleet_accept|]. intros [[]|x] s2 Hs2; by cbn [wp_rest].
  - wp_step; [|apply Hun; [done|by right]].
    wp_step. eapply wp_mono; [by apply fleet_handle|]. intros o s2 (b & -> & Ho2 & Hf2). cbn [wp_rest].
    destruct b; cbn [negb].
    + wp_step. wp_step. cbn [wp_rest]. by wp_step.
    + apply Hun; [done|by left].
Qed.

Lemma fleet_events events s :
  serving_on s -> wp (handle_events callback events) (fun _ s' => serving_on s') s.
Proof.
  revert s. induction events as [|e events IH]; intros s Hs; cbn [handle_events]; [by wp_step|].
  wp_step. eapply wp_mono; [by apply fleet_event|]. intros [[]|x] s1 Hs1; cbn [wp_rest]; [by wp_step| |done].
  by apply IH.
Qed.

Lemma fleet_round w s : serving_on s -> serving_on (run_round callback w s).2.
Proof.
  intros Hs. change (wp (run_round callback w) (fun _ s' => serving_on s') s).
  unfold run_round. wp_step.
  assert (Hend : forall (b : bool) s1, serving_on s1 ->
    wp (if b then run_end else mret tt) (fun _ s' => serving_on s') s1).
  { intros b s1 H1. destruct b; [|by wp_step].
    apply wp_rest_of; [apply restful_run_end|]. intros o s2 Hr. by eapply serving_rest. }
  unfold round. destruct w as [| |events];
    [wp_step; cbn [wp_rest]; by apply (Hend false)|wp_step; cbn [wp_rest]; by apply (Hend true)|].
  unfold catch_all. apply wp_try_catch. eapply wp_mono; [by apply fleet_events|].
  intros [b|x] s1 H1; cbn [wp_rest]; [by apply Hend|].
  destruct (cpp_exn x); wp_step; cbn [wp_rest]; [by apply (Hend true)|done].
Qed.

(** *** The invariant of the process *)
Definition fleet_inv (s : server) : Prop :=
  fleet_ok None s /\ (LogWriter.stopping_ (target_ s) = true -> thread_ s <> Looping).

Lemma fleet_inv_rest s s' : fleet_inv s -> rest true s s' -> fleet_inv s'.
Proof.
  intros [Hf Hl] Hr. split; [by eapply fleet_rest|]. destruct Hr as (-> & _ & _ & _ & Ht).
  intros Hst Hx. by apply Hl, Ht.
Qed.

(** A step of the queue that accepts nothing. *)
Lemma fleet_queue_step s w :
  fleet_ok None s -> LogWriter.step fuel (target_ s) w ->
  LogWriter.accepted_ w = LogWriter.accepted_ (target_ s) -> fleet_ok None (set_target w s).
Proof.
  intros [Ht Ha (owner & taken & [H1 H2 H3 H4 H5 H6])] Hst Hacc. split; cbn; [|done|].
  - by eapply LogWriter.reachable_step.
  - exists owner, taken. split; try done; cbn; rewrite Hacc; done.
Qed.

Lemma live_step_inv s s' : fleet_inv s -> live_step s s' -> fleet_inv s'.
Proof.
  intros [Hf Hl] Hstep. destruct Hstep as [s w Ht Ha|s|s _ _|s _|s w Hw|s Hw|s Ht Ha|s w Hs Hw ->].
  - assert (Ho : open_queue s).
    { split; [done|]. destruct (LogWriter.stopping_ (target_ s)); [|done]. by destruct (Hl eq_refl). }
    destruct (fleet_round w s (conj Hf Ho)) as [Hf' [_ Hst]]. split; [done|]. congruence.
  - eapply fleet_inv_rest; [by split|]. unfold request_stop. by destruct (state_ s).
  - eapply fleet_inv_rest; [by split|]. by split_and!.
  - eapply fleet_inv_rest; [by split|]. apply restful_stop_finish.
  - destruct (internal_stopping fuel _ _ Hw) as [E1 E2]. split; [|cbn; by rewrite E1].
    apply fleet_queue_step; [done|by apply LogWriter.step_internal|done].
  - split; [|done]. apply fleet_queue_step; [done|by apply LogWriter.step_spurious|done].
  - split; [|done]. apply fleet_queue_step; [done|by apply LogWriter.step_stop|done].
  - split; [|cbn; intros _; by apply Hl].
    pose proof (LogWriter.step_joined fuel (target_ s) Hs Hw) as Hj. rewrite Hs, Hw in Hj.
    by apply fleet_queue_step.
Qed.

(** The process as it is constructed, before anyone has connected. *)
Lemma construct_inv port k :
  sockets k = ∅ -> answers k = script -> fleet_inv (TraceboxLogger.construct port storage k).
Proof.
  intros Hs Ha. unfold TraceboxLogger.construct.
  pose proof (calm_start (create port k (LogWriter.create storage))) as Hr. split.
  - eapply fleet_rest; [|exact Hr]. split; [apply LogWriter.reachable_create|done|].
    exists ∅, (fun _ => 0%nat). split; cbn; try done.
    + intros fd d. by rewrite Hs.
    + intros r Hr'. by apply elem_of_nil in Hr'.
  - destruct Hr as (-> & _). done.
Qed.

Lemma live_inv port k s :
  sockets k = ∅ -> answers k = script ->
  rtc live_step (TraceboxLogger.construct port storage k) s -> fleet_inv s.
Proof.
  intros Hs Ha Hr. pose proof (construct_inv port k Hs Ha) as Hinv. revert Hinv.
  induction Hr as [s|s1 s2 s3 H12 _ IH]; [done|]. intros H1. apply IH. by eapply live_step_inv.
Qed.
End Logger.

(** ** From the clients to a reader *)
Section Fleet.
Context {L : LocalTime} {LO : LocalTimeOk L} `{Codec LogRequest.t, !CodecLaws LogRequest.t}.
Import FilesystemStorageBackend.

(** What a client was given to record: the arguments of its calls of [logData]. *)
Definition sender : Type := LogClient.t * list (bytes * Z).
Definition stream_of (x : sender) : string := LogClient.stream_name_ x.1.
Definition recorded (x : sender) : list record := (fun r => mk_record r.2 r.1) <$> x.2.

(** The records for which [logData] returned true before the first failure. *)
Definition acknowledged_by (x : sender) : nat :=
  match (LogClient.log_all x.2 x.1).1 with Ok k => k | Throw _ => 0 end.

(** The requests of these records, and what is on the wire after their frames. *)
Definition taken_from (x : sender) : list LogRequest.t := take (acknowledged_by x) (requests x.1 x.2).
Definition beyond (x : sender) (wire : bytes) : bytes :=
  drop (length (frames (map serialize (taken_from x)))) wire.

(** A client that calls [logData] for its records over a connection whose other end
    is [d]: the records are of the declared size and can be serialised, stored
    and read. *)
Record sends (sz : string -> Z) (x : sender) (d : conn) : Prop := {
  se_wire : exists c c', connected_to c (LogClient.base x.1) /\ out_wire c = [] /\
    connected_to c' (LogClient.base (LogClient.log_all x.2 x.1).2) /\ in_wire d = out_wire c';
  se_sizes : Forall (size_ok x.1) x.2;
  se_encodable : Forall encodable (requests x.1 x.2);
  se_stream : good_channel (stream_of x) /\ no_char "\" (stream_of x) = true;
  se_size : LogClient.record_size_ x.1 = sz (stream_of x);
  se_times : Forall (fun r => 0 < r.2 < 2 ^ 64) x.2;
  se_order : StronglySorted by_time (recorded x);
  se_fits : fits_stream (sz (stream_of x)) (recorded x)
}.

Lemma sends_wire sz x d :
  sends sz x d ->
  in_wire d = frames (map serialize (taken_from x)) ++ beyond x (in_wire d) /\
  incomplete (beyond x (in_wire d)) /\ (acknowledged_by x <= length x.2)%nat.
Proof.
  intros [(c & c' & Hc & Hw & Hc' & Hd) Hs He _ _ _ _ _].
  destruct (log_all_wire x.1 x.2 c Hc Hw Hs He) as (k & part & c1 & E & Hk & Hi & _ & Ew).
  rewrite E in Hc'. cbn [snd] in Hc'.
  assert (c' = c1) as ->.
  { pose proof (connected_with_conn c1 (LogClient.base x.1)) as H1. unfold connected_to in *. cbn in *. congruence. }
  assert (Ek : acknowledged_by x = k) by (unfold acknowledged_by; by rewrite E).
  unfold beyond, taken_from. rewrite Ek, Hd, Ew, drop_app_length. done.
Qed.

(** The records of the requests that were taken. *)
Lemma taken_records x n :
  record_of <$> take n (taken_from x) = take (n `min` acknowledged_by x) (recorded x).
Proof.
  unfold taken_from, requests, recorded. rewrite take_take.
  change (map (fun r => LogClient.request r.1 r.2 x.1) x.2)
    with ((fun r => LogClient.request r.1 r.2 x.1) <$> x.2).
  by rewrite !fmap_take, <- list_fmap_compose.
Qed.

Lemma taken_from_elem x r :
  r ∈ taken_from x -> exists data time_ns, (data, time_ns) ∈ x.2 /\ r = LogClient.request data time_ns x.1.
Proof.
  intros Hr. unfold taken_from in Hr. apply subseteq_take in Hr.
  apply list_elem_of_fmap in Hr as ([data time_ns] & -> & Hr). by exists data, time_ns.
Qed.

Lemma taken_readable sz x d :
  sends sz x d -> (forall c, 0 <= sz c < 2 ^ 31) ->
  Forall (fun r => request_readable sz r /\ LogRequest.channel r = stream_of x) (taken_from x).
Proof.
  intros Hs Hsz. apply Forall_forall. intros r (data & time_ns & Hr & ->)%taken_from_elem.
  destruct Hs as [_ _ _ [Hg Hb] Hz Ht _ _].
  rewrite Forall_forall in Ht. specialize (Ht _ Hr). cbn in Ht. specialize (Hsz (stream_of x)).
  assert (Esz : LogRequest.size (LogClient.request data time_ns x.1) = sz (stream_of x)).
  { unfold LogRequest.size, LogClient.request. cbn [LogRequest.size_].
    destruct (Z.eqb_spec (LogClient.record_size_ x.1) 0) as [E|_]; cbn; congruence. }
  split; [|done]. split_and!; try done.
  - split; [done|cbn; lia|rewrite Esz; lia].
  - cbn. lia.
Qed.

(** The runs in the order in which they were recorded. *)
Definition days_in_order (requests : list LogRequest.t) : list run := rev (day_runs requests).

Lemma concat_channel c (us : list run) :
  concat (map (fun u : run => channel_records c u.2) us) = channel_records c (concat (map snd us)).
Proof.
  induction us as [|u us IH]; [done|]. cbn [map concat]. by rewrite channel_records_app, IH.
Qed.

Lemma days_concat c requests :
  concat (map (fun u : run => channel_records c u.2) (days_in_order requests)) = channel_records c requests.
Proof.
  rewrite concat_channel. unfold days_in_order. rewrite map_rev. f_equal. apply day_runs_concat.
Qed.

(** The records of a channel in one run are a segment of all of them. *)
Lemma run_segment c requests u :
  u ∈ day_runs requests ->
  exists before after, channel_records c requests = before ++ channel_records c u.2 ++ after.
Proof.
  intros Hu%list_elem_of_In%in_rev%in_split. destruct Hu as (l1 & l2 & E).
  rewrite <- days_concat. assert (days_in_order requests = l1 ++ u :: l2) as -> by exact E.
  rewrite map_app, concat_app. cbn [map concat]. eauto.
Qed.

(** The files of a channel in the runs of the days, and what the scanner reads from
    them. *)
Definition reads_back (s : StorageScanner.t) (f : fs) (file : string * list record) : Prop :=
  forall a b start max, 0 <= start < 2 ^ 32 -> 0 <= max < 2 ^ 32 ->
    StorageScanner.getData f s file.1 a b start max =
      Ok (DataStreamsResponse.mk []
            (take (Z.to_nat max) (selected a b (drop (Z.to_nat start) file.2))) None).

Lemma days_read_back s f us c :
  Forall (fun u : run => day_readable s u.1 u.2 f) us ->
  exists files, concat files.*2 = concat (map (fun u : run => channel_records c u.2) us) /\
    Forall (reads_back s f) files.
Proof.
  induction 1 as [|u us Hu _ (files & Ef & Hf)]; [by exists []|]. cbn [map concat]. rewrite <- Ef.
  destruct (decide (c ∈ LogRequest.channel <$> u.2)) as [Hc|Hc].
  - destruct (Hu c Hc) as (name & Hread & _).
    exists ((join_slash (to_string u.1) name, channel_records c u.2) :: files). split; [done|].
    by constructor.
  - exists files. by rewrite channel_records_none.
Qed.

(** The clients: who is accepted with the [n]-th answer of the kernel, if anyone. *)
Section Clients.
Context (fleet : nat -> option sender) (script : nat -> answer).
Definition sent_by (n : nat) : list LogRequest.t := from_option taken_from [] (fleet n).
Definition cut_by (n : nat) : bytes :=
  from_option (fun x => beyond x (in_wire (a_conn (script n)))) [] (fleet n).
Definition stream_by (n : nat) : string := from_option stream_of EmptyString (fleet n).
End Clients.

Definition fleet_sends sz (fleet : nat -> option sender) (script : nat -> answer) : Prop :=
  (forall n, match fleet n with
             | Some x => sends sz x (a_conn (script n))
             | None => in_wire (a_conn (script n)) = []
             end) /\
  (forall n m x y, fleet n = Some x -> fleet m = Some y -> stream_of x = stream_of y -> n = m).

Lemma fleet_readable_by sz fleet script :
  fleet_sends sz fleet script -> (forall c, 0 <= sz c < 2 ^ 31) ->
  forall n, Forall (fun r => request_readable sz r /\ LogRequest.channel r = stream_by fleet n) (sent_by fleet n).
Proof.
  intros [Hf _] Hsz n. specialize (Hf n). unfold sent_by, stream_by. destruct (fleet n) as [x|]; [|constructor].
  by eapply taken_readable.
Qed.

Lemma fleet_messages sz fleet script :
  fleet_sends sz fleet script ->
  (forall n, Forall encodable (sent_by fleet n)) /\ (forall n, Forall message_ok (map serialize (sent_by fleet n))).
Proof.
  intros [Hf _]. split; intros n; specialize (Hf n); unfold sent_by; destruct (fleet n) as [x|]; try constructor.
  - apply Forall_take, Hf.
  - unfold from_option, taken_from. rewrite <- firstn_map. apply Forall_take, requests_messages, Hf.
Qed.

(** The invariant of the process holds of the clients of the fleet. *)
Lemma fleet_live sz fleet fuel storage port k (s : TraceboxLogger.t state) :
  fleet_sends sz fleet (answers k) -> (forall c, 0 <= sz c < 2 ^ 31) -> sockets k = ∅ ->
  rtc (live_step fuel) (TraceboxLogger.construct port storage k) s ->
  fleet_inv fuel storage (answers k) (sent_by fleet) (cut_by fleet (answers k)) (stream_by fleet) s.
Proof.
  intros Hfd Hsz Hk Hr. pose proof (fleet_readable_by sz fleet _ Hfd Hsz) as Hread.
  destruct (fleet_messages sz fleet _ Hfd) as [Henc Hmsg]. destruct Hfd as [Hf Hd].
  apply (live_inv fuel storage (answers k)) with (port := port) (k := k); try done.
  - intros n. specialize (Hf n). unfold cut_by. destruct (fleet n) as [x|]; [|by left].
    by eapply sends_wire.
  - intros n. specialize (Hf n). unfold sent_by, cut_by. destruct (fleet n) as [x|]; [|done].
    by eapply sends_wire.
  - intros n r Hn. specialize (Hread n). rewrite Forall_forall in Hread. by apply Hread.
  - intros n m. unfold sent_by, stream_by. destruct (fleet n) as [x|] eqn:En; [|done].
    destruct (fleet m) as [y|] eqn:Em; [|done]. intros _ _ E. by eapply Hd.
Qed.

Lemma fleet_process sz fleet fuel storage port k (s : TraceboxLogger.t state) :
  fleet_sends sz fleet (answers k) -> (forall c, 0 <= sz c < 2 ^ 31) -> sockets k = ∅ ->
  rtc (live_step fuel) (TraceboxLogger.construct port storage k) s ->
  let accepted := LogWriter.accepted_ (Server.target_ s) in
  LogWriter.reachable fuel storage (Server.target_ s) /\
  (forall r, r ∈ accepted -> request_readable sz r /\ exists n x, fleet n = Some x /\ stream_of x = LogRequest.channel r) /\
  (forall n x, fleet n = Some x -> exists m, (m <= acknowledged_by x)%nat /\
     channel_records (stream_of x) accepted = take m (recorded x)).
Proof.
  intros Hfd Hsz Hk Hr accepted. pose proof (fleet_readable_by sz fleet _ Hfd Hsz) as Hread.
  destruct (fleet_live sz fleet fuel storage port k s Hfd Hsz Hk Hr)
    as [[Hreach _ (owner & taken & [_ _ _ _ Htaken Hfrom])] _].
  destruct Hfd as [Hf Hd]. split; [done|]. split.
  - intros r Hr'. destruct (Hfrom r Hr') as [n Hn]. pose proof (Hread n) as Hrn. rewrite Forall_forall in Hrn.
    destruct (Hrn r Hn) as [H1 H2]. split; [done|]. exists n.
    unfold sent_by, stream_by in *. destruct (fleet n) as [x|]; [by exists x|]. by apply elem_of_nil in Hn.
  - intros n x Hx.
    assert (Et : sent_by fleet n = taken_from x) by (unfold sent_by; by rewrite Hx).
    assert (Ec : stream_by fleet n = stream_of x) by (unfold stream_by; by rewrite Hx).
    destruct (decide (sent_by fleet n = [])) as [E|E].
    + exists 0%nat. split; [lia|]. apply channel_records_none.
      intros (r & Ech & Hr')%list_elem_of_fmap. destruct (Hfrom r Hr') as [m Hm].
      pose proof (Hread m) as Hrm. rewrite Forall_forall in Hrm. destruct (Hrm r Hm) as [_ Hc].
      unfold sent_by, stream_by in *. destruct (fleet m) as [y|] eqn:Ey; [|by apply elem_of_nil in Hm].
      cbn in Hc. assert (m = n) as -> by (eapply Hd; [done|done|]; congruence).
      rewrite Ey in E. cbn in E, Hm. rewrite E in Hm. by apply elem_of_nil in Hm.
    + exists (taken n `min` acknowledged_by x)%nat. split; [lia|].
      unfold channel_records. specialize (Htaken n E). rewrite Ec in Htaken. unfold of_channel in Htaken.
      fold accepted in Htaken. rewrite Htaken, Et. apply taken_records.
Qed.

Lemma fleet_runs_ok sz fleet fuel storage port k (s : TraceboxLogger.t state) :
  fleet_sends sz fleet (answers k) -> (forall c, 0 <= sz c < 2 ^ 31) -> sockets k = ∅ ->
  rtc (live_step fuel) (TraceboxLogger.construct port storage k) s ->
  Forall (run_ok sz) (day_runs (LogWriter.accepted_ (Server.target_ s))).
Proof.
  intros Hf Hsz Hk Hr. destruct (fleet_process sz fleet fuel storage port k s Hf Hsz Hk Hr) as (_ & Hfrom & Hch).
  apply Forall_forall. intros u Hu. apply run_ok_channels; [|done]. apply Forall_forall.
  intros c (r & -> & Hr')%list_elem_of_fmap. pose proof (day_runs_elem _ _ _ Hu Hr') as Hin.
  destruct (Hfrom r Hin) as (_ & n & x & Hx & <-). destruct (Hch n x Hx) as (m & _ & Em).
  destruct (run_segment (stream_of x) _ u Hu) as (before & after & Eseg). rewrite Em in Eseg.
  pose proof (proj1 Hf n) as Hs. rewrite Hx in Hs. destruct Hs as [_ _ _ _ _ _ Hsort Hfits].
  assert (Hsplit : recorded x = before ++ channel_records (stream_of x) u.2 ++ after ++ drop m (recorded x)).
  { rewrite <- (take_drop m (recorded x)) at 1. by rewrite Eseg, <- !app_assoc. }
  rewrite Hsplit in Hsort, Hfits. split.
  - eapply fits_stream_prefix. by eapply fits_stream_suffix.
  - apply StronglySorted_app in Hsort as (_ & _ & Hsort). by apply StronglySorted_app in Hsort as (_ & Hsort & _).
Qed.

Lemma fleet_readable sz fleet fuel storage port k (s : TraceboxLogger.t state) :
  fleet_sends sz fleet (answers k) -> (forall c, 0 <= sz c < 2 ^ 31) -> sockets k = ∅ ->
  rtc (live_step fuel) (TraceboxLogger.construct port storage k) s ->
  Forall (request_readable sz) (LogWriter.accepted_ (Server.target_ s)).
Proof.
  intros Hf Hsz Hk Hr. destruct (fleet_process sz fleet fuel storage port k s Hf Hsz Hk Hr) as (_ & Hfrom & _).
  apply Forall_forall. intros r Hin. by apply Hfrom.
Qed.

(** From the clients to the disk: when the logger was stopped and the storage is
    closed, the stream of each client is on disk in files which, in order, hold the
    records of it that the queue accepted, and a scanner on the folder returns from
    each file exactly the records that a request selects. *)
Lemma fleet_recorded sz root sc fuel available w port k fleet (s : TraceboxLogger.t state) :
  storage_dir root (StorageScanner.folder_ sc) (w_fs w) -> reliable w ->
  Forall (fun c => no_dot c = true) (StorageScanner.folder_ sc) ->
  fleet_sends sz fleet (answers k) -> (forall c, 0 <= sz c < 2 ^ 31) -> sockets k = ∅ ->
  rtc (live_step (S fuel))
    (TraceboxLogger.construct port (Storage.mk (B := state) available (create root, w)) k) s ->
  LogWriter.stopped_ (Server.target_ s) = true ->
  let accepted := LogWriter.accepted_ (Server.target_ s) in
  roomy w (2 * length accepted) -> needs accepted <= available < 2 ^ 64 ->
  exists st, on_folder Folder.close (Storage.backend_ (LogWriter.storage_ (Server.target_ s))) = (Ok tt, st) /\
  forall n x, fleet n = Some x -> exists files,
    let m := length (of_channel (stream_of x) accepted) in
    (m <= acknowledged_by x)%nat /\ concat files.*2 = take m (recorded x) /\
    Forall (reads_back sc (w_fs st.2)) files.
Proof.
  intros Hdir Hrel Hdots Hf Hsz Hk Hr Hstop accepted Hroom Hav.
  destruct (fleet_process sz fleet (S fuel) _ port k s Hf Hsz Hk Hr) as (Hreach & Hfrom & Hch).
  pose proof (fleet_runs_ok sz fleet (S fuel) _ port k s Hf Hsz Hk Hr) as Hruns.
  fold accepted in Hfrom, Hch, Hruns.
  pose proof (fleet_readable sz fleet (S fuel) _ port k s Hf Hsz Hk Hr) as Hreq. fold accepted in Hreq.
  pose proof (stopped_readable sz root sc fuel available w _ Hdir Hrel Hdots Hreach Hstop Hreq Hruns Hroom Hav) as W.
  unfold wp in W. destruct (on_folder Folder.close _) as [o st]. cbn [fst snd] in W. destruct W as [-> Hall].
  exists st. split; [done|]. intros n x Hx.
  assert (Hall' : Forall (fun u : run => day_readable sc u.1 u.2 (w_fs st.2)) (days_in_order accepted))
    by (by apply Forall_rev).
  destruct (days_read_back sc _ _ (stream_of x) Hall') as (files & Ef & Hfiles). rewrite days_concat in Ef.
  destruct (Hch n x Hx) as (m & Hm & Em). exists files. cbv zeta.
  assert (El : length (of_channel (stream_of x) accepted) = (m `min` length (recorded x))%nat).
  { rewrite <- length_take, <- Em. unfold channel_records, of_channel. by rewrite length_fmap. }
  rewrite El. split; [lia|]. split; [|done]. rewrite Ef, Em.
  destruct (decide (m <= length (recorded x))%nat); [by rewrite Nat.min_l|].
  by rewrite Nat.min_r, !take_ge by lia.
Qed.
End Fleet.

(** *** The guarantee at a concrete input

    Two clients connect, send and are served while the writing thread runs; then the
    logger is stopped. *)
Section Schedule.
Context `{Codec LogRequest.t} {B : Type} {SB : StorageBackend B} (fuel : nat).

#[local] Existing Instance Server.thread_eq_dec.

Inductive action :=
| Round (w : Server.wait_result)
| RequestStop
| Join
| Finish
| Write           (** the writing thread *)
| StopQueue
| Joined.

(** The process after an action, if the action is possible. *)
Definition act (s : TraceboxLogger.t B) (a : action) : option (TraceboxLogger.t B) :=
  let q := Server.target_ s in
  let looping := bool_decide (Server.thread_ s = Server.Looping) in
  match a with
  | Round w => if looping && LogWriter.alive q
               then Some (Server.run_round TraceboxLogger.handleLogRequest w s).2 else None
  | RequestStop => Some (Server.request_stop s)
  | Join => if (0 <? Server.joining_ s)%nat && negb looping then Some (Server.join s) else None
  | Finish => if (0 <? Server.finishing_ s)%nat then Some (Server.stop_finish s).2 else None
  | Write => match LogWriter.thread_ q with
             | LogWriter.Running => Some (Server.set_target (LogWriter.wait q) s)
             | LogWriter.Holding r => Some (Server.set_target (LogWriter.write_request fuel r q) s)
             | _ => None
             end
  | StopQueue => if negb looping && LogWriter.alive q
                 then Some (Server.set_target (LogWriter.stop q) s) else None
  | Joined => match LogWriter.thread_ q, LogWriter.stopping_ q with
              | LogWriter.Exited, true =>
                  Some (Server.set_target (LogWriter.mk (LogWriter.queue_ q) true (LogWriter.storage_ q) LogWriter.Exited
                          (LogWriter.notifications_ q) true (LogWriter.accepted_ q) (LogWriter.written_ q)) s)
              | _, _ => None
              end
  end.

Fixpoint play (l : list action) (s : TraceboxLogger.t B) : option (TraceboxLogger.t B) :=
  match l with
  | [] => Some s
  | a :: l' => match act s a with Some s' => play l' s' | None => None end
  end.

Lemma act_step s a s' : act s a = Some s' -> live_step fuel s s'.
Proof.
  unfold act. destruct a; cbv zeta.
  - destruct (bool_decide _) eqn:E; [|done]. destruct (LogWriter.alive _) eqn:Ea; [|done]. intros [= <-].
    apply bool_decide_eq_true in E. by apply live_round.
  - intros [= <-]. apply live_request_stop.
  - destruct (Nat.ltb_spec 0 (Server.joining_ s)); [|done]. destruct (bool_decide _) eqn:E; [done|]. intros [= <-].
    apply bool_decide_eq_false in E. by apply live_join.
  - destruct (Nat.ltb_spec 0 (Server.finishing_ s)); [|done]. intros [= <-]. by apply live_finish.
  - destruct (LogWriter.thread_ _) eqn:E; try done; intros [= <-]; apply live_writer; by constructor.
  - destruct (bool_decide _) eqn:E; [done|]. destruct (LogWriter.alive _) eqn:Ea; [|done]. intros [= <-].
    apply bool_decide_eq_false in E. by apply live_stop.
  - destruct (LogWriter.thread_ _) eqn:E; try done. destruct (LogWriter.stopping_ _) eqn:Es; [|done].
    intros [= <-]. by apply live_joined.
Qed.

Lemma play_live l s s' : play l s = Some s' -> rtc (live_step fuel) s s'.
Proof.
  revert s. induction l as [|a l IH]; intros s; cbn; [intros [= <-]; reflexivity|].
  destruct (act s a) as [s1|] eqn:E; [|done]. intros Hp. eapply rtc_l; [by eapply act_step|by apply IH].
Qed.

(** A schedule all of whose actions are possible. *)
Lemma play_reaches l s :
  match play l s with Some _ => true | None => false end = true ->
  rtc (live_step fuel) s (default s (play l s)).
Proof. destruct (play l s) as [s'|] eqn:E; [|done]. intros _. by apply (play_live l). Qed.
End Schedule.

Section Witness.
#[local] Existing Instance utc_localtime.
#[local] Instance log_codec : Codec LogRequest.t := countable_codec.
#[local] Instance log_laws : CodecLaws LogRequest.t := countable_codec_laws.

(** Two clients with connections of their own. *)
Definition line_to (n : nat) : conn := mk_conn (Interrupted :: replicate 20 (Transfer n)) [] [] [].
Definition can_sender : sender :=
  (LogClient.mk (TcpClient.mk 6 (kernel_with 6 (line_to 30)) []) "can0" 0,
   [([x01; x02; x03], noon); ([x04], next_noon)]).
Definition gps_sender : sender :=
  (LogClient.mk (TcpClient.mk 6 (kernel_with 6 (line_to 50)) []) "gps" 2, [([x0a; x0b], noon + 1000)]).

(** The server's end of a client's connection. *)
Definition other_end (x : sender) : conn :=
  match sockets (TcpClient.kernel_ (LogClient.base (LogClient.log_all x.2 x.1).2)) !! 6 with
  | Some c => mk_conn [] [] (replicate 80 (Transfer 7)) (out_wire c)
  | None => mk_conn [] [] [] []
  end.

Definition two_clients (n : nat) : option sender :=
  if decide (n = 21%nat) then Some can_sender else if decide (n = 29%nat) then Some gps_sender else None.

Definition crowd : kernel :=
  mk_kernel {[ 0; 1; 2 ]} ∅ false ∅
    (fun n => mk_answer true (Z.of_nat n + 10) 49999 false
                (from_option other_end (mk_conn [] [] [] []) (two_clients n)) false) 0.

Definition new_logger : TraceboxLogger.t FilesystemStorageBackend.state := TraceboxLogger.construct 49999 empty_storage crowd.

(** Both connect, the messages arrive while the thread writes, then everything is
    stopped. *)
Definition schedule : list action :=
  [Round (Server.Events [(14, true)]); Round (Server.Events [(14, true)]);
   Round (Server.Events [(31, true)]); Write; Round (Server.Events [(39, true); (31, true)]); Write; Write; Write;
   RequestStop; Round (Server.Events [(11, true)]); Join; Finish; StopQueue; Write; Write; Write; Joined].

Definition stopped_logger : TraceboxLogger.t FilesystemStorageBackend.state :=
  default new_logger (play 1 schedule new_logger).

Lemma sender_wire x n :
  connected_to (line_to n) (LogClient.base x.1) ->
  TcpClient.fd_ (LogClient.base (LogClient.log_all x.2 x.1).2) = 6 ->
  is_Some (sockets (TcpClient.kernel_ (LogClient.base (LogClient.log_all x.2 x.1).2)) !! 6) ->
  exists c c', connected_to c (LogClient.base x.1) /\ out_wire c = [] /\
    connected_to c' (LogClient.base (LogClient.log_all x.2 x.1).2) /\ in_wire (other_end x) = out_wire c'.
Proof.
  intros Hc Hfd [c' Hc']. exists (line_to n), c'. split; [done|]. split; [done|].
  unfold connected_to, other_end. by rewrite Hfd, Hc'.
Qed.

Lemma short_channel c :
  no_slash c = true -> no_dot c = true -> bool_decide (x00 ∉ StreamWriter.name_bytes c) = true ->
  (length (StreamWriter.name_bytes c) <? LogFileHeader.name_size)%nat = true -> good_channel c.
Proof. intros H1 H2 H3%bool_decide_eq_true H4%Nat.ltb_lt. by split. Qed.

Lemma can_sends : sends sample_size can_sender (other_end can_sender).
Proof.
  split.
  - apply (sender_wire _ 30); [reflexivity|vm_compute; reflexivity|apply (bool_decide_unpack _); vm_compute; exact I].
  - repeat constructor; by left.
  - repeat constructor; vm_compute; reflexivity.
  - split; [by apply short_channel|reflexivity].
  - reflexivity.
  - repeat constructor; vm_compute; done.
  - repeat constructor; vm_compute; congruence.
  - split; [repeat constructor; vm_compute; congruence|done].
Qed.

Lemma gps_sends : sends sample_size gps_sender (other_end gps_sender).
Proof.
  split.
  - apply (sender_wire _ 50); [reflexivity|vm_compute; reflexivity|apply (bool_decide_unpack _); vm_compute; exact I].
  - repeat constructor; by right.
  - repeat constructor; vm_compute; reflexivity.
  - split; [by apply short_channel|reflexivity].
  - reflexivity.
  - repeat constructor; vm_compute; done.
  - repeat constructor; vm_compute; congruence.
  - split; [repeat constructor; vm_compute; congruence|]. split; [repeat constructor; vm_compute; congruence|done].
Qed.

Lemma two_clients_send : fleet_sends sample_size two_clients (answers crowd).
Proof.
  split.
  - intros n. cbn [answers crowd a_conn]. unfold two_clients.
    destruct (decide (n = 21%nat)); [exact can_sends|]. destruct (decide (n = 29%nat)); [exact gps_sends|done].
  - intros n m x y. unfold two_clients. intros Hn Hm.
    repeat case_decide; try done; injection Hn as <-; injection Hm as <-; try congruence; vm_compute; congruence.
Qed.

Lemma stopped_logger_live : rtc (live_step 1) new_logger stopped_logger.
Proof. apply play_reaches. vm_compute. reflexivity. Qed.
End Witness.
