(* ===== verification/FleetStops.v ===== *)
(** * The logger keeps up and can be stopped

    [Fleet] says what is on disk after the logger was stopped. Here it is shown that
    this point is reached, and with everything that was acknowledged: as long as the
    loop of the server runs it takes what the clients have sent; from every state of
    the process there is a way to stop it; and once its queue was stopped the writing
    thread needs nobody's help to write what was accepted and to end. *)
From S2P Require Import Prelude DataTypes Calendar Format Protos FileSystem FileIO TcpSocket Kernel TcpServer TcpServerSpec Storage StorageBackend LogWriter StorageScanner ScannerSpec FolderSpec DaysSpec TcpClient Codec Clients Samples Services Fleet.
Local Open Scope Z_scope.

(** ** The loop of the server ends *)
Section Loop.
Context {C : Type} (callback : bytes -> prog C bytes).
Import Server.
Implicit Types s : t C.

Lemma unregisterFd_returns fd s :
  exists s', unregisterFd fd s = (Ok tt, s') /\ client_fd_ s' = erase fd (client_fd_ s).
Proof.
  unfold unregisterFd, close, on_kernel, mbind, prog_bind, gets, modify.
  destruct (0 <=? epoll_fd_ s); cbn; eauto.
Qed.

Lemma close_clients_returns n s :
  (length (client_fd_ s) <= n)%nat -> exists s', close_clients n s = (Ok tt, s').
Proof.
  revert s. induction n as [|n IH]; intros s Hn; cbn [close_clients]; unfold mbind, prog_bind at 1, gets.
  - destruct (client_fd_ s); [|cbn in Hn; lia]. cbn. by eexists.
  - destruct (last (client_fd_ s)) as [fd|] eqn:El; [|by eexists].
    destruct (unregisterFd_returns fd s) as (s1 & E1 & Ec). unfold prog_bind. rewrite E1. apply IH.
    apply last_Some_elem_of, erase_perm, Permutation_length in El. rewrite Ec. cbn in El. lia.
Qed.

(** The wake-up ends the loop, whatever else has happened. *)
Lemma wakeup_ends s :
  thread_ (run_round callback (Events [(wakeup_fd_ s, true)]) s).2 = Finished.
Proof.
  unfold run_round, round, catch_all, try_catch, handle_events, handle_event, mbind, prog_bind, gets, mret, prog_ret.
  cbn [fst]. rewrite Z.eqb_refl. unfold run_end, closeClientFds, mbind, prog_bind, gets.
  destruct (close_clients_returns (length (client_fd_ s)) s) as [s1 ->]; [done|].
  unfold close_listening, close, on_kernel, mbind, prog_bind, gets, modify.
  destruct (0 <=? listening_fd_ s1); done.
Qed.
End Loop.

(** ** The process ends *)
Section Ends.
Context `{Codec LogRequest.t} {B : Type} {SB : StorageBackend B} (fuel : nat).
Import Server.
#[local] Abbreviation server := (TraceboxLogger.t B).

(** The writing thread on its own. *)
Lemma live_internal (s : server) q :
  rtc (LogWriter.internal fuel) (target_ s) q -> rtc (live_step fuel) s (set_target q s).
Proof.
  intros Hq. remember (target_ s) as q0 eqn:E. revert s E.
  induction Hq as [q|q1 q2 q3 H12 _ IH]; intros s ->.
  - by destruct s.
  - eapply rtc_l; [by apply live_writer|]. by apply (IH (set_target q2 s)).
Qed.

(** The loop is left, and nothing is added to the queue. *)
Lemma live_leave (s : server) :
  LogWriter.alive (target_ s) = true ->
  exists s', rtc (live_step fuel) s s' /\ target_ s' = target_ s /\ thread_ s' <> Looping.
Proof.
  intros Ha. destruct (decide (thread_ s = Looping)) as [Ht|Ht]; [|by exists s].
  set (s' := (run_round TraceboxLogger.handleLogRequest (Events [(wakeup_fd_ s, true)]) s).2).
  exists s'. split; [by apply rtc_once, live_round|]. split; [|subst s'; by rewrite wakeup_ends].
  subst s'. unfold run_round, round, catch_all, try_catch, handle_events, handle_event, mbind, prog_bind, gets, mret, prog_ret.
  cbn [fst]. rewrite Z.eqb_refl. apply (restful_run_end (keep := true)).
Qed.

(** From any state to the end of the queue. *)
Lemma live_stops storage (s : server) :
  LogWriter.reachable fuel storage (target_ s) ->
  is_Some (store_all fuel (LogWriter.accepted_ (target_ s)) storage) ->
  exists s', rtc (live_step fuel) s s' /\ LogWriter.stopped_ (target_ s') = true /\
    LogWriter.accepted_ (target_ s') = LogWriter.accepted_ (target_ s).
Proof.
  intros Hr Hok. pose proof (reachable_alive fuel storage _ Hr Hok) as Ha.
  destruct (live_leave s Ha) as (s1 & H1 & Et & Hl). rewrite <- Et in *.
  set (s2 := set_target (LogWriter.stop (target_ s1)) s1).
  assert (H12 : live_step fuel s1 s2) by by apply live_stop.
  destruct (drains fuel storage (target_ s2)) as (q & Hq & He); [|done|done|].
  { eapply LogWriter.reachable_step; [exact Hr|by apply LogWriter.step_stop]. }
  destruct (internal_run fuel storage _ _ Hq) as (Hrq & Est & Eacc).
  { eapply LogWriter.reachable_step; [exact Hr|by apply LogWriter.step_stop]. }
  eexists. split; [|split].
  - etrans; [exact H1|]. eapply rtc_l; [exact H12|]. eapply rtc_r; [by apply live_internal|].
    by eapply live_joined.
  - done.
  - exact Eacc.
Qed.
End Ends.

(** ** The loop keeps up *)
Section CatchUp.
Context `{Codec LogRequest.t, !CodecLaws LogRequest.t} {B : Type} {SB : StorageBackend B}.
Import Server.
#[local] Abbreviation server := (TraceboxLogger.t B).
#[local] Abbreviation callback := TraceboxLogger.handleLogRequest.

(** The loop runs, nobody stops it, and the queue takes requests. *)
Record keen (fd : Z) (d : conn) (s : server) : Prop := {
  ke_loop : thread_ s = Looping;
  ke_undisturbed : undisturbed s;
  ke_open : open_queue s;
  ke_socket : socket_is fd d s;
  ke_client : fd <> wakeup_fd_ s /\ fd <> listening_fd_ s
}.

(** A round that finds connection [fd] readable. *)
Definition serve_round (fd : Z) (s : server) : server := (run_round callback (Events [(fd, true)]) s).2.

Lemma serve_round_request fd d d' r s :
  keen fd d s -> TcpSocket.readData d = (Ok (serialize r), d') -> encodable r -> serialize r <> [] ->
  keen fd d' (serve_round fd s) /\ target_ (serve_round fd s) = (LogWriter.add r (target_ s)).2.
Proof.
  intros [Ht Hu Ho Hs [Hw Hl]] Er He Hne. unfold serve_round.
  pose proof (load_state_undisturbed s Hu) as El. set (s1 := set_kernel (called (kernel_ s)) s) in *.
  assert (H1 : undisturbed s1) by done.
  destruct (handle_message callback fd d d' (serialize r) [] s1 (LogWriter.add r (target_ s)).2 H1 Hs Er Hne)
    as (s2 & Eh & Hu2 & Ht2 & Hs2 & Hsame).
  { unfold callback. rewrite parse_serialize by done. done. }
  assert (E : run_round callback (Events [(fd, true)]) s = (Ok tt, s2)).
  { unfold run_round, round, catch_all, try_catch, handle_events, handle_event. unfold mbind, prog_bind, gets.
    cbn [fst snd]. rewrite (proj2 (Z.eqb_neq _ _)), El, bool_decide_eq_true_2 by done. cbn.
    rewrite (proj2 (Z.eqb_neq _ _)) by done. cbn. by rewrite Eh. }
  rewrite E. cbn [snd]. split; [|done]. destruct Hsame as (E1 & E2 & E3).
  split; [by rewrite E1|done| |done|by rewrite E2, E3].
  unfold open_queue. rewrite Ht2. destruct Ho as [Ha Hst]. unfold LogWriter.add. rewrite Hst. by split.
Qed.

Lemma live_serve_round fuel fd d s : keen fd d s -> live_step fuel s (serve_round fd s).
Proof. intros [Ht _ [Ha _] _ _]. by apply live_round. Qed.

(** As many rounds as there are requests on the wire. *)
Lemma serve_rounds fuel fd (rs : list LogRequest.t) part d s :
  keen fd d s -> Forall encodable rs -> Forall message_ok (map serialize rs) ->
  in_wire d = frames (map serialize rs) ++ part -> healthy (in_script d) ->
  zlen (frames (map serialize rs)) <= Z.of_nat (transfers (in_script d)) ->
  let s' := Nat.iter (length rs) (serve_round fd) s in
  rtc (live_step fuel) s s' /\ thread_ s' = Looping /\
  LogWriter.accepted_ (target_ s') = LogWriter.accepted_ (target_ s) ++ rs.
Proof.
  intros Hk He Hms Hw Hh Htr. cbn zeta. revert d s Hk Hw Hh Htr.
  induction rs as [|r rs IH]; intros d s Hk Hw Hh Htr; cbn [length].
  { split; [done|]. split; [apply Hk|]. by rewrite app_nil_r. }
  apply Forall_cons in He as [Her He]. cbn [map] in *. apply Forall_cons in Hms as [[Hne Hsz] Hms].
  unfold frames in Hw, Htr. cbn [map concat] in Hw, Htr. fold (frames (map serialize rs)) in Hw, Htr.
  rewrite <- app_assoc in Hw. rewrite zlen_app in Htr. pose proof (zlen_nonneg (frames (map serialize rs))).
  pose proof (wp_readDataWith d) as R. unfold wp in R.
  change TcpSocket.readDataWith with TcpSocket.readData in R.
  destruct (TcpSocket.readData d) as [o d'] eqn:Er. cbn [fst snd] in R.
  destruct R as (bs & taken & -> & Hd' & _ & _ & _ & Hlive).
  destruct (Hlive _ _ Hw Hsz Hh ltac:(lia)) as (-> & -> & Hh' & Htr').
  rewrite Hw in Hd'. apply app_inv_head in Hd'.
  destruct (serve_round_request fd d d' r s Hk Er Her Hne) as [Hk1 Ht1].
  rewrite Nat.iter_succ_r.
  destruct (IH He Hms d' (serve_round fd s) Hk1 (eq_sym Hd') Hh' ltac:(unfold zlen in *; lia)) as (H1 & H2 & H3).
  split; [eapply rtc_l; [by eapply live_serve_round|done]|]. split; [done|].
  rewrite H3, Ht1. destruct (ke_open _ _ _ Hk) as [_ Hst]. unfold LogWriter.add. rewrite Hst. cbn.
  by rewrite <- app_assoc.
Qed.
End CatchUp.

(** ** The recorder can be stopped *)
Section Fleet.
Context {L : LocalTime} {LO : LocalTimeOk L} `{Codec LogRequest.t, !CodecLaws LogRequest.t}.
Import FilesystemStorageBackend.

(** C3. The recorder comes to an end. Clients record as in [fleet_recorded], and the
    storage has the room for what was accepted so far. Then the writing thread is
    alive, and in whatever state the process is, it can be brought to the point where
    the logger was stopped without accepting anything more. And once the queue was
    stopped nothing else is needed: every run of the writing thread ends, and where
    it ends the thread is gone and everything that was accepted has been written. *)
Theorem fleet_stops sz root sc fuel available w port k fleet (s : TraceboxLogger.t state) :
  storage_dir root (StorageScanner.folder_ sc) (w_fs w) -> reliable w ->
  fleet_sends sz fleet (answers k) -> (forall c, 0 <= sz c < 2 ^ 31) -> sockets k = ∅ ->
  rtc (live_step (S fuel))
    (TraceboxLogger.construct port (Storage.mk (B := state) available (create root, w)) k) s ->
  let q := Server.target_ s in let accepted := LogWriter.accepted_ q in
  roomy w (2 * length accepted) -> needs accepted <= available < 2 ^ 64 ->
  LogWriter.alive q = true /\
  (exists s', rtc (live_step (S fuel)) s s' /\ LogWriter.stopped_ (Server.target_ s') = true /\
     LogWriter.accepted_ (Server.target_ s') = accepted) /\
  (LogWriter.stopping_ q = true ->
   sn (LogWriter.internal (S fuel)) q /\
   forall q', rtc (LogWriter.internal (S fuel)) q q' -> (forall q2, ~ LogWriter.internal (S fuel) q' q2) ->
     rtc (live_step (S fuel)) s (Server.set_target q' s) /\
     LogWriter.thread_ q' = LogWriter.Exited /\ LogWriter.written_ q' = accepted).
Proof.
  intros Hdir Hrel Hf Hsz Hk Hr q accepted Hroom Hav.
  pose proof (fleet_readable sz fleet (S fuel) _ port k s Hf Hsz Hk Hr) as Hreq.
  pose proof (fleet_runs_ok sz fleet (S fuel) _ port k s Hf Hsz Hk Hr) as Hruns.
  destruct (fleet_process sz fleet (S fuel) _ port k s Hf Hsz Hk Hr) as (Hreach & _).
  fold q accepted in Hreq, Hruns, Hreach.
  destruct (requests_stored sz root sc fuel available w accepted Hdir Hrel Hreq Hruns Hroom Hav) as (st & Est & _).
  split; [by eapply reachable_alive|]. split; [by eapply live_stops|].
  intros Hst. split; [apply internal_sn|]. intros q' Hq' Hmax. split; [by apply live_internal|].
  destruct (internal_run _ _ _ _ Hq' Hreach) as (Hreach' & _ & Eacc).
  destruct (stopped_run_end _ _ _ _ Hreach Hst Hq' Hmax) as (He & _ & Hw); [|done].
  eapply reachable_alive; [exact Hreach'|]. by rewrite Eacc.
Qed.

(** What was accepted of a client and what is on its connection are together what it
    has acknowledged. *)
Lemma taken_and_rest sz fleet fuel storage port k (s : TraceboxLogger.t state) owner taken n x :
  fleet_sends sz fleet (answers k) -> (forall c, 0 <= sz c < 2 ^ 31) -> sockets k = ∅ ->
  rtc (live_step fuel) (TraceboxLogger.construct port storage k) s ->
  conns_ok (sent_by fleet) (cut_by fleet (answers k)) (stream_by fleet) owner taken None s -> fleet n = Some x ->
  channel_records (stream_of x) (LogWriter.accepted_ (Server.target_ s)) ++
    channel_records (stream_of x) (drop (taken n) (sent_by fleet n)) = take (acknowledged_by x) (recorded x).
Proof.
  intros Hfd Hsz Hk Hr Hok Hx.
  pose proof (fleet_process sz fleet fuel storage port k s Hfd Hsz Hk Hr) as (_ & _ & Hch).
  assert (Es : sent_by fleet n = taken_from x) by (unfold sent_by; by rewrite Hx).
  assert (El : (length (taken_from x) <= acknowledged_by x)%nat) by (unfold taken_from; rewrite length_take; lia).
  assert (Etake : record_of <$> taken_from x = take (acknowledged_by x) (recorded x)).
  { rewrite <- (take_ge (taken_from x) (acknowledged_by x)), taken_records by done. by rewrite Nat.min_id. }
  destruct (decide (sent_by fleet n = [])) as [E0|E0].
  - rewrite E0, drop_nil. change (channel_records (stream_of x) []) with (@nil record). rewrite app_nil_r.
    destruct (Hch n x Hx) as (m & Hm & ->). rewrite <- (Nat.min_l m (acknowledged_by x)), <- take_take by done.
    rewrite <- Etake, <- Es, E0. apply take_nil.
  - pose proof (co_taken _ _ _ _ _ _ _ Hok n E0) as Ht. unfold stream_by in Ht. rewrite Hx in Ht. cbn in Ht.
    unfold channel_records at 1. unfold of_channel in Ht. rewrite Ht. unfold channel_records.
    rewrite list_filter_all.
    + rewrite <- fmap_app. by rewrite take_drop, Es.
    + pose proof (fleet_readable_by sz fleet _ Hfd Hsz n) as Hread. apply Forall_drop.
      eapply Forall_impl; [exact Hread|]. intros r [_ ->]. unfold stream_by. by rewrite Hx.
Qed.

(** C2. What was acknowledged arrives. The recorder runs, and a connection of a client
    has bytes that were not read yet and that can be read without a failure. As long
    as nobody stops the server, finitely many rounds that find this connection
    readable - no more than the client has acknowledged records - take everything:
    then all records for which the client's [logData] has returned true are accepted,
    in order, and the loop goes on. *)
Theorem fleet_catches_up sz fleet fuel storage port k (s : TraceboxLogger.t state) fd d :
  fleet_sends sz fleet (answers k) -> (forall c, 0 <= sz c < 2 ^ 31) -> sockets k = ∅ ->
  rtc (live_step fuel) (TraceboxLogger.construct port storage k) s ->
  keen fd d s -> in_wire d <> [] ->
  healthy (in_script d) -> zlen (in_wire d) <= Z.of_nat (transfers (in_script d)) ->
  exists n x rounds, fleet n = Some x /\ in_wire d `suffix_of` in_wire (a_conn (answers k n)) /\
    (rounds <= acknowledged_by x)%nat /\
    let s' := Nat.iter rounds (serve_round fd) s in
    rtc (live_step fuel) s s' /\ Server.thread_ s' = Server.Looping /\
    channel_records (stream_of x) (LogWriter.accepted_ (Server.target_ s')) = take (acknowledged_by x) (recorded x).
Proof.
  intros Hfd Hsz Hk Hr Hkeen Hne Hh Htr.
  destruct (fleet_live sz fleet fuel storage port k s Hfd Hsz Hk Hr) as [[_ _ (owner & taken & Hok)] _].
  destruct (co_wire _ _ _ _ _ _ _ Hok fd d (ke_socket _ _ _ Hkeen) ltac:(done)) as (n & _ & Hw).
  destruct (fleet_messages sz fleet _ Hfd) as [Henc Hmsg]. specialize (Henc n). specialize (Hmsg n).
  destruct (fleet n) as [x|] eqn:Hx.
  2:{ unfold sent_by, cut_by in Hw. rewrite Hx in Hw. cbn in Hw. by rewrite drop_nil in Hw. }
  assert (Es : sent_by fleet n = taken_from x) by (unfold sent_by; by rewrite Hx).
  set (rs := drop (taken n) (sent_by fleet n)) in *. exists n, x, (length rs). split; [done|].
  assert (El : (length (taken_from x) <= acknowledged_by x)%nat) by (unfold taken_from; rewrite length_take; lia).
  split; [|split; [unfold rs; rewrite Es, length_drop; lia|]].
  { exists (frames (map serialize (take (taken n) (sent_by fleet n)))). rewrite Hw, app_assoc.
    unfold frames. rewrite <- concat_app, <- !map_app. unfold rs. rewrite take_drop.
    pose proof (proj1 Hfd n) as Hs. rewrite Hx in Hs. destruct (sends_wire sz x _ Hs) as [E _].
    rewrite E, Es. unfold cut_by. by rewrite Hx. }
  destruct (serve_rounds fuel fd rs (cut_by fleet (answers k) n) d s Hkeen) as (H1 & H2 & H3); try done.
  { by apply Forall_drop. }
  { unfold rs. rewrite <- skipn_map. by apply Forall_drop. }
  { rewrite Hw, zlen_app in Htr. pose proof (zlen_nonneg (cut_by fleet (answers k) n)). lia. }
  cbn zeta in *. split; [done|]. split; [done|]. rewrite H3, channel_records_app.
  exact (taken_and_rest sz fleet fuel storage port k s owner taken n x Hfd Hsz Hk Hr Hok Hx).
Qed.
End Fleet.

(** *** The guarantee at a concrete input

    The messages of two clients have arrived and none is written when the server
    stops and the queue is closed. *)
Section Witness.
#[local] Existing Instances utc_localtime log_codec log_laws.

Definition early_stop : list action :=
  [Round (Server.Events [(14, true)]); Round (Server.Events [(14, true)]);
   Round (Server.Events [(31, true)]); Round (Server.Events [(39, true); (31, true)]);
   RequestStop; Round (Server.Events [(11, true)]); Join; Finish; StopQueue].

Definition halted_logger : TraceboxLogger.t FilesystemStorageBackend.state :=
  default new_logger (play 1 early_stop new_logger).

Lemma halted_logger_live : rtc (live_step 1) new_logger halted_logger.
Proof. apply play_reaches. vm_compute. reflexivity. Qed.

Lemma fleet_stops_witness :
  length (LogWriter.accepted_ (Server.target_ halted_logger)) = 3%nat /\
  LogWriter.written_ (Server.target_ halted_logger) = [] /\
  (exists s', rtc (live_step 1) halted_logger s' /\ LogWriter.stopped_ (Server.target_ s') = true /\
     length (LogWriter.accepted_ (Server.target_ s')) = 3%nat) /\
  sn (LogWriter.internal 1) (Server.target_ halted_logger).
Proof.
  assert (Hl : length (LogWriter.accepted_ (Server.target_ halted_logger)) = 3%nat) by (vm_compute; reflexivity).
  split; [exact Hl|]. split; [vm_compute; reflexivity|].
  destruct (fleet_stops sample_size "/log" sample_scanner 0 100000 sample_world 49999 crowd two_clients halted_logger)
    as (_ & (s' & H1 & H2 & H3) & Hst).
  - exact sample_storage_dir.
  - exact sample_reliable.
  - exact two_clients_send.
  - intros c. unfold sample_size. case_decide; lia.
  - reflexivity.
  - exact halted_logger_live.
  - vm_compute. reflexivity.
  - vm_compute. split; [congruence|reflexivity].
  - cbv zeta in H3. split.
    + exists s'. split; [exact H1|]. split; [exact H2|]. rewrite H3. exact Hl.
    + apply Hst. vm_compute. reflexivity.
Defined.

(** Both clients are connected, and nothing was read. *)
Definition connected_logger : TraceboxLogger.t FilesystemStorageBackend.state :=
  default new_logger (play 1 (take 2 early_stop) new_logger).

Definition waiting_conn : conn :=
  default (mk_conn [] [] [] []) (sockets (Server.kernel_ connected_logger) !! 31).

Lemma connected_logger_live : rtc (live_step 1) new_logger connected_logger.
Proof. apply play_reaches. vm_compute. reflexivity. Qed.

Lemma connected_logger_keen : keen 31 waiting_conn connected_logger.
Proof.
  split; [vm_compute; reflexivity| |split; vm_compute; reflexivity| |split; vm_compute; congruence].
  - split; [vm_compute; reflexivity|]. intros n. vm_compute. reflexivity.
  - unfold socket_is, waiting_conn. destruct (sockets (Server.kernel_ connected_logger) !! 31) as [c|] eqn:E; [done|].
    exfalso. apply (f_equal (fun o => match o with Some _ => true | None => false end)) in E.
    vm_compute in E. discriminate.
Qed.

Lemma fleet_catches_up_witness :
  LogWriter.accepted_ (Server.target_ connected_logger) = [] /\
  exists n x rounds, two_clients n = Some x /\
    channel_records (stream_of x)
      (LogWriter.accepted_ (Server.target_ (Nat.iter rounds (serve_round 31) connected_logger))) =
    take (acknowledged_by x) (recorded x).
Proof.
  split; [vm_compute; reflexivity|].
  destruct (fleet_catches_up sample_size two_clients 1 empty_storage 49999 crowd connected_logger 31 waiting_conn)
    as (n & x & rounds & Hx & _ & _ & _ & _ & Hall).
  - exact two_clients_send.
  - intros c. unfold sample_size. case_decide; lia.
  - reflexivity.
  - exact connected_logger_live.
  - exact connected_logger_keen.
  - intros E. apply (f_equal length) in E. vm_compute in E. discriminate.
  - assert (Hs : in_script waiting_conn = replicate 80 (Transfer 7)) by (vm_compute; reflexivity).
    rewrite Hs. intros Hx%elem_of_replicate. by destruct Hx.
  - vm_compute. congruence.
  - exists n, x, rounds. split; [exact Hx|exact Hall].
Defined.
End Witness.
