(* ===== verification/GetCan.v ===== *)
(** * get_can

    [apps/get_can.cpp]: the program that exports the CAN records of a time range.
    [sscanf] is modelled for its one format; [mktime] depends on the time zone and
    is a parameter, as are what the conversion of a [double] out of the range of
    [uint64_t] gives and whether the output file can be opened. The theorems: the
    time the program computes for a day, and that it never exports anything from a
    server that answers as [LogReader] does. *)
From S2P Require Import Prelude DataTypes Calendar Protos FileSystem FileIO StreamWriter TcpSocket Kernel TcpServer Storage StorageBackend FileReader StreamReader StorageScanner StreamsCombiner TcpClient Codec Clients Samples ScannerSpec Services AscWriter.
From Stdlib Require Import Ascii.
Local Open Scope Z_scope.

(** ** Times *)

(** [%d] with a width: the sign counts. *)
Definition scan_digits (width : nat) (s : string) : option (Z * string) :=
  match width, s with
  | S w, String c s' =>
      match digit c with
      | None => None
      | Some d =>
          match w, s' with
          | S _, String c' s'' =>
              match digit c' with
              | Some d' => Some (10 * d + d', s'')
              | None => Some (d, s')
              end
          | _, _ => Some (d, s')
          end
      end
  | _, _ => None
  end.

(** [%2d] *)
Definition scan_2d (s : string) : option (Z * string) :=
  match skip_space s with
  | String "-" s' => '(d, r) ← scan_digits 1 s'; Some (- d, r)
  | String "+" s' => scan_digits 1 s'
  | s' => scan_digits 2 s'
  end.

Definition scan_colon (s : string) : option string :=
  match s with String ":" s' => Some s' | _ => None end.

(** [sscanf(s, "%2d:%2d:%2d", ...)]: what was not scanned stays. *)
Definition scan_time (s : string) (t : tm) : tm :=
  let hour h := mk_tm (tm_sec t) (tm_min t) h (tm_mday t) (tm_mon t) (tm_year t) in
  let minute h m := mk_tm (tm_sec t) m h (tm_mday t) (tm_mon t) (tm_year t) in
  let second h m x := mk_tm x m h (tm_mday t) (tm_mon t) (tm_year t) in
  match scan_2d s with
  | None => t
  | Some (h, s) =>
      match s ← scan_colon s; scan_2d s with
      | None => hour h
      | Some (m, s) =>
          match s ← scan_colon s; scan_2d s with
          | None => minute h m
          | Some (x, _) => second h m x
          end
      end
  end.

(** The fields that [timeNs] fills in; [int] division truncates. *)
Definition time_fields (day : Z) (time : string) : tm :=
  scan_time (c_string time)
    (mk_tm 0 0 0 (day - Z.quot day 100 * 100) (Z.quot day 100 - Z.quot day 10000 * 10000)
       (Z.quot day 10000 - 1900)).

Record flags := mk_flags {
  FLAGS_addr : string;
  FLAGS_port : Z;
  FLAGS_day : Z;
  FLAGS_start : string;
  FLAGS_end : string;
  FLAGS_out : string
}.

(** The client and the output file once it is open. *)
Record state := mk_state { client_ : TcpClient.t; file_ : option string }.

Section Ops.
Context `{Codec DataStreamsRequest.t, Codec DataStreamsResponse.t}.
Context {L : LocalTime} (tm_wday : Z -> Z) (mktime : tm -> Z) (out_of_range : Z -> Z).
Context (inet_aton : string -> option Z) (fuel : nat) (leftover : bytes -> DataStreamsResponse.t).
Context (can_open : string -> bool).

Definition timeNs (day : Z) (time : string) : Z := u64 (mktime (time_fields day time)).

(** [uint64_t x = t * 1E9] *)
Definition times_1E9 (t : Z) : Z :=
  let d := double_of_u64 (double_of_u64 t * 10 ^ 9) in
  if d <? 2 ^ 64 then d else out_of_range d.

Definition on_client {A} (m : prog TcpClient.t A) : prog state A :=
  zoom client_ (fun c s => mk_state c (file_ s)) m.

(** The records of the streams of a list, each under its stream's name. *)
Fixpoint combine (streams : list DataStream.t) (combiner : StreamsCombiner.t) :
    prog state StreamsCombiner.t :=
  match streams with
  | [] => mret combiner
  | it :: rest =>
      data ← on_client (LogReadClient.getData leftover (DataStream.file it) 0 (2 ^ 64 - 1) 0 UINT32_MAX);
      combine rest (StreamsCombiner.addRecords (DataStream.name it)
                      (DataStreamsResponse.data data) combiner)
  end.

(** The writer writes to the file. *)
Definition export (combiner : StreamsCombiner.t) : prog state Z := fun s =>
  match StreamsCombiner.save (AscWriter.write tm_wday (StreamsCombiner.streams combiner))
          combiner AscWriter.create with
  | (r, w) => (r, mk_state (client_ s) (Some (AscWriter.out_ w)))
  end.

(** The exit code. [getStreams] never returns a null pointer (exit code 4). *)
Definition main (F : flags) : prog state Z :=
  if bool_decide (FLAGS_addr F = EmptyString) || (FLAGS_day F =? 0) ||
     bool_decide (FLAGS_start F = EmptyString) || bool_decide (FLAGS_end F = EmptyString) ||
     bool_decide (FLAGS_out F = EmptyString) then mret 1 else
  connected ← on_client (TcpClient.connect inet_aton fuel (FLAGS_addr F) (u32 (FLAGS_port F)));
  if negb connected then mret 2 else
  let start_ns := times_1E9 (timeNs (FLAGS_day F) (FLAGS_start F)) in
  let end_ns := times_1E9 (timeNs (FLAGS_day F) (FLAGS_end F)) in
  if negb (can_open (FLAGS_out F)) then mret 3 else
  modify (fun s => mk_state (client_ s) (Some EmptyString));;
  list ← on_client (LogReadClient.getStreams leftover start_ns end_ns 0 UINT32_MAX);
  if Z.of_nat (length (DataStreamsResponse.data list)) =? 0 then mret 5 else
  combiner ← combine (DataStreamsResponse.stream list) (StreamsCombiner.construct start_ns end_ns);
  _ ← export combiner;
  mret 0.
End Ops.

(** ** The time of a day *)

(** Two digits are scanned back, whatever follows. *)
Lemma two_digits n : 0 <= n < 100 ->
  forall rest, scan_2d (pad "0" 2 (pretty n) +:+ rest) = Some (n, rest) /\
    c_string (pad "0" 2 (pretty n) +:+ rest) = pad "0" 2 (pretty n) +:+ c_string rest.
Proof.
  intros Hn.
  assert (H : Forall (fun k => forall rest,
      scan_2d (pad "0" 2 (pretty k) +:+ rest) = Some (k, rest) /\
      c_string (pad "0" 2 (pretty k) +:+ rest) = pad "0" 2 (pretty k) +:+ c_string rest) (seqZ 0 100)).
  { change (seqZ 0 100) with (Z.of_nat <$> seq 0 100).
    repeat (apply Forall_cons; split; [intros ?; split; vm_compute; reflexivity|]).
    by apply Forall_nil. }
  rewrite Forall_forall in H. apply H, elem_of_seqZ. lia.
Qed.

(** [HH:MM:SS] *)
Definition clock (h m s : Z) : string :=
  pad "0" 2 (pretty h) +:+ ":" +:+ pad "0" 2 (pretty m) +:+ ":" +:+ pad "0" 2 (pretty s).

Lemma c_string_clock h m s :
  0 <= h < 100 -> 0 <= m < 100 -> 0 <= s < 100 -> c_string (clock h m s) = clock h m s.
Proof.
  intros Hh Hm Hs. unfold clock. rewrite (proj2 (two_digits h Hh _)).
  change (c_string (":" +:+ ?x)) with (":" +:+ c_string x). rewrite (proj2 (two_digits m Hm _)).
  change (c_string (":" +:+ ?x)) with (":" +:+ c_string x).
  rewrite <- (append_nil_r (pad "0" 2 (pretty s))), (proj2 (two_digits s Hs _)). done.
Qed.

Lemma scan_clock h m s t :
  0 <= h < 100 -> 0 <= m < 100 -> 0 <= s < 100 ->
  scan_time (clock h m s) t = mk_tm s m h (tm_mday t) (tm_mon t) (tm_year t).
Proof.
  intros Hh Hm Hs. pose proof (proj1 (two_digits s Hs EmptyString)) as E.
  rewrite append_nil_r in E. unfold scan_time, clock. rewrite (proj1 (two_digits h Hh _)).
  change (scan_colon (":" +:+ ?x)) with (Some x). cbn [mbind option_bind].
  rewrite (proj1 (two_digits m Hm _)).
  change (scan_colon (":" +:+ ?x)) with (Some x). cbn [mbind option_bind].
  by rewrite E.
Qed.

(** The fields that are handed to [mktime] for a day in the format YYYYMMDD and
    a time in the format HH:MM:SS are the seconds, minutes, hours, day and year, but
    for the month: it is off by 9900 times the year, and never the month of the
    calendar for a day after the year 0. *)
Lemma fields_of_time y mo d h m s :
  0 <= y -> 0 <= mo < 100 -> 0 <= d < 100 -> 0 <= h < 100 -> 0 <= m < 100 -> 0 <= s < 100 ->
  let t := time_fields (y * 10000 + mo * 100 + d) (clock h m s) in
  t = mk_tm s m h d (mo - 9900 * y) (y - 1900) /\ (0 < y -> tm_mon t <> mo - 1).
Proof.
  intros Hy Hmo Hd Hh Hm Hs t.
  assert (E : t = mk_tm s m h d (mo - 9900 * y) (y - 1900)).
  { unfold t, time_fields. rewrite c_string_clock, scan_clock by done. cbn [tm_mday tm_mon tm_year].
    rewrite !Z.quot_div_nonneg by lia.
    assert ((y * 10000 + mo * 100 + d) / 100 = y * 100 + mo) as ->
      by (symmetry; apply (Z.div_unique _ _ _ d); lia).
    assert ((y * 10000 + mo * 100 + d) / 10000 = y) as ->
      by (symmetry; apply (Z.div_unique _ _ _ (mo * 100 + d)); lia).
    f_equal; lia. }
  split; [exact E|]. rewrite E. cbn. lia.
Qed.

(** ** The answer to the request for streams *)

Section Answer.
Context (f : fs) {L : LocalTime}.
Import StorageScanner.

Definition without_data (r : DataStreamsResponse.t) : Prop := DataStreamsResponse.data r = [].

Lemma extractStream_no_data s dir start end_ day name r :
  without_data r ->
  wp (extractStream f s dir start end_ day name) (fun _ r' => without_data r') r.
Proof.
  intros Hr. unfold extractStream. wp_step; [|done]. wp_step. unfold lift_outcome at 1, wp at 1.
  cbn [fst snd]. destruct (streamIdentifier _ _ _) as [identifier|e]; cbn [wp_rest]; [|done].
  wp_step; [|done]. wp_step. unfold lift_outcome at 1, wp at 1. cbn [fst snd].
  destruct (StreamReader.construct _ _) as [reader|e]; cbn [wp_rest]; [|done].
  wp_step; [|done]. wp_step. unfold lift_outcome at 1, wp at 1. cbn [fst snd].
  destruct (describe _ _ _) as [stream|e]; cbn [wp_rest]; [|done]. wp_step. done.
Qed.

Lemma getStreams_no_data s start end_ r :
  getStreams f s start end_ = Ok r -> without_data r.
Proof.
  unfold getStreams. destruct (directory_iterator _ _) as [names|]; [|done].
  assert (W : wp (for_each names (getStreamsOfDay f s start end_))
                (fun _ r' => without_data r') DataStreamsResponse.empty).
  { apply wp_for_each_inv; [|done]. intros name r' Hr'. unfold getStreamsOfDay.
    wp_step; [|done]. unfold catch_all. apply wp_try_catch.
    eapply (wp_mono _ (fun _ s' => without_data s')).
    - wp_step. destruct (stoul name); wp_step; [|done]. wp_step. wp_step; [|done].
      unfold extractStreams. destruct (directory_iterator _ _); [|done].
      apply wp_for_each_inv; [|done]. intros ? ? ?. by apply extractStream_no_data.
    - intros [[]|e] s' Hs'; [done|]. by destruct (cpp_exn e). }
  unfold wp in W. destruct (for_each _ _ _) as [[[]|e] r']; [|done]. by intros [= <-].
Qed.
End Answer.

Section Never.
Context `{Codec DataStreamsRequest.t, !CodecLaws DataStreamsRequest.t}.
Context `{Codec DataStreamsResponse.t, !CodecLaws DataStreamsResponse.t}.
Context {L : LocalTime} (tm_wday : Z -> Z) (mktime : tm -> Z) (out_of_range : Z -> Z).
Context (inet_aton : string -> option Z) (leftover : bytes -> DataStreamsResponse.t).
Context (can_open : string -> bool).

(** What is on the wire of a connection is the answer of a log reader, over some
    directory, to the request for streams, whole or cut off. *)
Definition reader_answers (start end_ : Z) (c : conn) : Prop :=
  exists f scanner response,
    LogReader.respond f (LogReadClient.streams_request start end_ 0 UINT32_MAX) scanner = Ok response /\
    encodable response /\ answer_wire response (in_wire c).

Lemma getStreams_answer start end_ c cl :
  connected_to c cl -> reader_answers start end_ c ->
  exists r cl', LogReadClient.getStreams leftover start end_ 0 UINT32_MAX cl = (Ok r, cl') /\
    DataStreamsResponse.data r = [].
Proof.
  intros Hc (f & scanner & response & Hr & He & Hw).
  set (request := LogReadClient.streams_request start end_ 0 UINT32_MAX).
  pose proof (wp_sendDataWith (serialize request) c) as W. unfold wp in W.
  destruct W as (b & _ & W & _). change TcpSocket.sendDataWith with TcpSocket.sendData in W.
  destruct b.
  - destruct (client_reads leftover request response c cl Hc He Hw W) as (r & cl' & E & Hor & _).
    exists r, cl'. split; [exact E|]. destruct Hor as [->| ->]; [|done].
    by apply getStreams_no_data in Hr.
  - exists cleared, (with_conn (TcpSocket.sendData (serialize request) c).2 cl). split; [|done].
    unfold LogReadClient.getStreams, LogReadClient.getResponse. fold request.
    erewrite bind_ok; [|rewrite (client_sendData _ c) by done; by rewrite W]. done.
Qed.

End Never.

(** *** The guarantees at concrete inputs *)
Section Witnesses.
#[local] Existing Instance utc_localtime.
#[local] Instance query_codec : Codec DataStreamsRequest.t := countable_codec.
#[local] Instance query_laws : CodecLaws DataStreamsRequest.t := countable_codec_laws.

Lemma fields_of_time_witness :
  time_fields 20240115 "10:01:15" = mk_tm 15 1 10 15 (-20037599) 124.
Proof.
  exact (proj1 (fields_of_time 2024 1 15 10 1 15 ltac:(lia) ltac:(lia) ltac:(lia) ltac:(lia)
    ltac:(lia) ltac:(lia))).
Defined.

(** A time zone for one day, 2024-01-01, and a kernel whose connections lead to a
    reader of a directory with records at noon. *)
Definition new_year (t : tm) : Z := 1704067200 + tm_hour t * 3600 + tm_min t * 60 + tm_sec t.

Definition noon_flags : flags := mk_flags "127.0.0.1" 49998 20240101 "11:59:00" "12:01:00" "can.asc".

Definition noon_answer : DataStreamsResponse.t :=
  match StorageScanner.getStreams stream_fs sample_scanner (noon - 60 * 10 ^ 9) (noon + 60 * 10 ^ 9) with
  | Ok r => r
  | Throw _ => DataStreamsResponse.empty
  end.

(** A codec for this one answer. *)
#[local] Instance answer_codec : Codec DataStreamsResponse.t := {|
  serialize _ := [x01];
  parse bs := if decide (bs = []) then Some cleared else Some noon_answer;
  encodable r := r = noon_answer
|}.

#[local] Instance answer_laws : CodecLaws DataStreamsResponse.t.
Proof. split; [by intros m ->|done|done]. Qed.

Definition noon_state : state :=
  mk_state (TcpClient.create (mk_kernel {[ 0; 1; 2 ]} ∅ false ∅
    (fun _ => mk_answer true 5 0 false
       (mk_conn (replicate 300 (Transfer 7)) [] (replicate 300 (Transfer 7))
          (TcpSocket.frame (serialize noon_answer))) false) 0)) None.

Lemma noon_state_answers n :
  reader_answers (noon - 60 * 10 ^ 9) (noon + 60 * 10 ^ 9)
    (a_conn (answers (TcpClient.kernel_ (client_ noon_state)) n)).
Proof.
  exists stream_fs, sample_scanner, noon_answer. split; [vm_compute; reflexivity|].
  split; [done|]. unfold answer_wire.
  rewrite bool_decide_eq_false_2 by (vm_compute; discriminate). done.
Qed.


(** The reader has a stream for the minute, the answer arrives and the exit code
    is 5. *)
Example noon_is_not_exported :
  (main (fun _ => 1) new_year (fun d => d) loopback 10 (fun _ => cleared) (fun _ => true)
     noon_flags noon_state).1 = Ok 5.
Proof. vm_compute. reflexivity. Qed.
End Witnesses.
