(* ===== verification/Demos.v ===== *)
(** * The demo programs

    [apps/client_demo.cpp], [apps/reader_demo.cpp] and [apps/logger_demo.cpp]:
    programs around the clients and the services that take lines from the standard
    input or wait for ever. A loop without an exit is given by its rounds: what the
    program has done after any number of them. Each call of [system_clock::now]
    takes the next reading of a clock. The theorems: what becomes of the lines that
    are typed, and what the programs do when the input has ended. *)
From S2P Require Import Prelude DataTypes Calendar Protos FileSystem FileIO StreamWriter TcpSocket Kernel TcpServer Storage StorageBackend LogWriter StorageScanner TcpClient Codec Clients Samples Services.
Local Open Scope Z_scope.

(** [std::getline] into an empty string: empty at the end of the input. *)
Definition next_line {A} (lines : list (list A)) : list A := default [] (head lines).

(** ** client_demo *)
Module ClientDemo.
Section Ops.
Context `{Codec LogRequest.t} (inet_aton : string -> option Z) (fuel : nat).
(** The readings of the clock, in nanoseconds since the epoch. *)
Context (clock : nat -> Z).

Record t := mk {
  client : LogClient.t;
  record_size : Z;            (* size_t *)
  input : list bytes;         (** the lines of the standard input that were not read *)
  ticks : nat
}.

(** [main] up to its loop: the exit code, or the state the loop starts from. *)
Definition start (argv : list string) (lines : list bytes) (k : kernel) : outcome (Z + t) :=
  match argv with
  | [_; name] => Ok (inr (mk (LogClient.construct name 0 k) 0 lines 0))
  | [_; name; size] =>
      match stoul size with
      | Some record_size => Ok (inr (mk (LogClient.construct name (u32 record_size) k) record_size lines 0))
      | None => Throw ParseError
      end
  | _ => Ok (inl 1)
  end.

Definition set_client (c : LogClient.t) (s : t) : t := mk c (record_size s) (input s) (ticks s).
Definition on_client {A} (m : prog LogClient.t A) : prog t A := zoom client set_client m.
Definition on_base {A} (m : prog TcpClient.t A) : prog LogClient.t A :=
  zoom LogClient.base LogClient.set_base m.

Definition getline : prog t bytes := fun s =>
  (Ok (next_line (input s)), mk (client s) (record_size s) (tail (input s)) (ticks s)).

Definition now : prog t Z := fun s =>
  (Ok (clock (ticks s)), mk (client s) (record_size s) (input s) (S (ticks s))).

Definition is_connected (c : LogClient.t) : bool := TcpClient.is_connected (LogClient.base c).

(** [while (!client.connect(...)) sleep(1)] *)
Fixpoint reconnect (n : nat) : prog LogClient.t unit :=
  match n with
  | O => throw OutOfFuel
  | S n' =>
      ok ← on_base (TcpClient.connect inet_aton fuel "127.0.0.1" 49999);
      if (ok : bool) then mret tt else reconnect n'
  end.

Definition ensure_connected : prog LogClient.t unit :=
  connected ← gets is_connected;
  if (connected : bool) then mret tt else reconnect fuel.

(** [record.resize(record_size, ' ')] *)
Definition resize (size : Z) (record : bytes) : bytes :=
  take (Z.to_nat size) record ++ replicate (Z.to_nat size - length record) x20.

Definition round : prog t unit :=
  record ← getline;
  if bool_decide (record = []) then mret tt else
  on_client ensure_connected;;
  size ← gets record_size;
  let record := if size =? 0 then record else resize size record in
  time ← now;
  ok ← on_client (LogClient.logData record (u64 time));
  if (ok : bool) then mret tt else on_client (on_base TcpClient.disconnect).

(** The loop: the state after [n] rounds. *)
Fixpoint rounds (n : nat) : prog t unit :=
  match n with
  | O => mret tt
  | S n' => round;; rounds n'
  end.
End Ops.
End ClientDemo.

(** ** reader_demo *)
Module ReaderDemo.
Section Ops.
Context `{Codec DataStreamsRequest.t, Codec DataStreamsResponse.t}.
Context (inet_aton : string -> option Z) (fuel : nat) (leftover : bytes -> DataStreamsResponse.t).

Record t := mk {
  client : TcpClient.t;
  input : list string;
  printed : list DataStreamsResponse.t   (** the responses whose text was printed *)
}.

Definition create (lines : list string) (k : kernel) : t := mk (TcpClient.create k) lines [].

Definition on_client {A} (m : prog TcpClient.t A) : prog t A :=
  zoom client (fun c s => mk c (input s) (printed s)) m.

Definition getline : prog t string := fun s =>
  (Ok (default EmptyString (head (input s))), mk (client s) (tail (input s)) (printed s)).

Definition print (r : DataStreamsResponse.t) : prog t unit :=
  modify (fun s => mk (client s) (input s) (printed s ++ [r])).

Fixpoint connect (n : nat) : prog t unit :=
  match n with
  | O => throw OutOfFuel
  | S n' =>
      ok ← on_client (TcpClient.connect inet_aton fuel "127.0.0.1" 49998);
      if (ok : bool) then mret tt else connect n'
  end.

(** [find(pattern) != npos] *)
Definition matches (pattern : string) (s : DataStream.t) : bool :=
  bool_decide (is_Some (String.index 0 pattern (DataStream.file s))).

(** The loop over the streams of the list. *)
Fixpoint choose (pattern filename : string) (streams : list DataStream.t) : string :=
  match streams with
  | [] => filename
  | s :: rest => choose pattern (if matches pattern s then DataStream.file s else filename) rest
  end.

Definition round (streams : list DataStream.t) : prog t unit :=
  pattern ← getline;
  let filename := choose pattern EmptyString streams in
  if bool_decide (filename = EmptyString) then mret tt else
  data ← on_client (LogReadClient.getData leftover filename 0 (2 ^ 64 - 1) 0 UINT32_MAX);
  print data.

Fixpoint rounds (n : nat) (streams : list DataStream.t) : prog t unit :=
  match n with
  | O => mret tt
  | S n' => round streams;; rounds n' streams
  end.

(** [main] with [n] rounds of its loop: the exit code, if it was not entered. *)
Definition main (n : nat) : prog t (option Z) :=
  connect fuel;;
  list ← on_client (LogReadClient.getStreams leftover 0 (2 ^ 64 - 1) 0 UINT32_MAX);
  print list;;
  if Z.of_nat (length (DataStreamsResponse.stream list)) <=? 0 then mret (Some 0) else
  rounds n (DataStreamsResponse.stream list);;
  mret None.
End Ops.
End ReaderDemo.

(** ** logger_demo *)
Module LoggerDemo.
Section Ops.
Context `{Codec LogRequest.t} {L : LocalTime} (fuel : nat).

(** [main] up to the endless sleep: the exit code, or the two services. *)
Definition main (argv : list string) (k : kernel) : prog world (Z + Daemon.t) :=
  match argv with
  | [_; folder; size] =>
      match stoul size with
      | None => throw ParseError
      | Some max_size =>
          services ← Daemon.start fuel folder max_size 49999 49998 k;
          mret (inr services)
      end
  | _ => mret (inl 1)
  end.
End Ops.
End LoggerDemo.

(** ** What becomes of the typed lines *)
Section Lines.
Context `{Codec LogRequest.t, !CodecLaws LogRequest.t} (inet_aton : string -> option Z) (fuel : nat).
Context (clock : nat -> Z).
Import ClientDemo.
Implicit Types (s : t) (lines : list bytes).
#[local] Abbreviation round := (round inet_aton fuel clock).
#[local] Abbreviation rounds := (rounds inet_aton fuel clock).
#[local] Abbreviation ensure_connected := (ensure_connected inet_aton fuel).

Definition padded (size : Z) (line : bytes) : bytes := if size =? 0 then line else resize size line.

(** The records made of lines: an empty line makes none. *)
Fixpoint records_of (size : Z) (n : nat) lines : list (bytes * Z) :=
  match lines with
  | [] => []
  | [] :: rest => records_of size n rest
  | line :: rest => (padded size line, u64 (clock n)) :: records_of size (S n) rest
  end.

(** The records the demo is going to make. *)
Definition typed s : list (bytes * Z) := records_of (record_size s) (ticks s) (input s).

Lemma length_resize size line : 0 <= size -> zlen (resize size line) = size.
Proof. intros Hs. unfold resize, zlen. rewrite length_app, length_take, length_replicate. lia. Qed.

(** The client was constructed with the size of the program. *)
Definition sizes_agree s : Prop :=
  0 <= record_size s < 2 ^ 32 /\ LogClient.record_size_ (client s) = record_size s.

Lemma start_sizes argv lines k s :
  start argv lines k = Ok (inr s) -> record_size s < 2 ^ 32 -> sizes_agree s /\ input s = lines.
Proof.
  destruct argv as [|a [|name [|size [|? ?]]]]; try discriminate; cbn.
  - by intros [= <-] _.
  - destruct (stoul size) as [x|] eqn:E; [|done]. intros [= <-] Hx. cbn in *.
    assert (0 <= x).
    { unfold stoul in E. destruct (parse_number size) as [[neg m]|]; [|done].
      destruct (m <? 2 ^ 64); [|done]. injection E as <-. apply u64_range. }
    split; [|done]. split; [cbn; lia|]. cbn. apply u32_small. lia.
Qed.

Lemma typed_sizes s : sizes_agree s -> Forall (size_ok (client s)) (typed s).
Proof.
  intros [Hs Hc]. unfold typed. generalize (ticks s). induction (input s) as [|[|b line] lines IH];
    intros n; cbn [records_of]; [constructor|apply IH|].
  constructor; [|apply IH]. unfold size_ok. rewrite Hc. cbn [fst]. unfold padded.
  destruct (Z.eqb_spec (record_size s) 0) as [->|]; [by left|right]. apply length_resize. lia.
Qed.

(** A round at the end of the input and one with an empty line. *)
Lemma round_end s : input s = [] -> round s = (Ok tt, s).
Proof. destruct s as [c z i n]. cbn. by intros ->. Qed.

Lemma rounds_end n s : input s = [] -> rounds n s = (Ok tt, s).
Proof.
  intros Hi. induction n as [|n IH]; cbn [ClientDemo.rounds]; [done|].
  by rewrite (bind_ok _ _ s tt s) by by apply round_end.
Qed.

Definition set_input lines s : t := mk (client s) (record_size s) lines (ticks s).

Lemma round_empty s lines : input s = [] :: lines -> round s = (Ok tt, set_input lines s).
Proof. destruct s as [c z i n]. cbn. by intros ->. Qed.

Definition disconnected (cl : LogClient.t) : LogClient.t := (on_base TcpClient.disconnect cl).2.

Lemma disconnect_returns cl : on_base TcpClient.disconnect cl = (Ok tt, disconnected cl).
Proof.
  unfold disconnected, on_base, zoom, TcpClient.disconnect, mbind, prog_bind, gets, modify.
  cbn. by destruct (0 <=? _).
Qed.

(** A round with a line. *)
Lemma round_line s line lines cl ok cl' :
  input s = line :: lines -> line <> [] ->
  ensure_connected (client s) = (Ok tt, cl) ->
  LogClient.logData (padded (record_size s) line) (u64 (clock (ticks s))) cl = (Ok ok, cl') ->
  round s = (Ok tt, mk (if ok then cl' else disconnected cl') (record_size s) lines (S (ticks s))).
Proof.
  destruct s as [c z i n]. cbn [input client record_size ticks]. intros -> Hl He El.
  unfold ClientDemo.round, getline, mbind, prog_bind at 1. unfold next_line. cbn [head tail default from_option input].
  unfold id. rewrite bool_decide_eq_false_2 by done. unfold prog_bind at 1, on_client at 1, zoom. cbn [client].
  rewrite He. unfold padded in El. unfold prog_bind at 1, gets. unfold prog_bind at 1, now.
  cbn [set_client client record_size input ticks]. unfold prog_bind at 1, on_client at 1, zoom. cbn [client].
  rewrite El. destruct ok; [done|]. unfold on_client, zoom. cbn [client set_client].
  by rewrite disconnect_returns.
Qed.

Lemma disconnected_closed cl : is_connected (disconnected cl) = false.
Proof.
  unfold is_connected, disconnected, on_base, zoom, TcpClient.disconnect, mbind, prog_bind, gets, modify.
  cbn. by destruct (0 <=? _).
Qed.

(** [logData] stays on the connection. *)
Lemma logData_connected data time_ns cl :
  is_connected (LogClient.logData data time_ns cl).2 = is_connected cl.
Proof.
  unfold is_connected, TcpClient.is_connected, LogClient.logData, mbind, prog_bind, gets, zoom.
  destruct (_ && _); [done|]. unfold TcpClient.sendData, mbind, prog_bind, gets, zoom, kernel_socket.
  cbn. destruct (sockets _ !! _) as [c|]; [|done]. by destruct (TcpSocket.sendData _ c).
Qed.

Lemma connected_stays cl : is_connected cl = true -> ensure_connected cl = (Ok tt, cl).
Proof. intros Hc. unfold ClientDemo.ensure_connected, mbind, prog_bind, gets. by rewrite Hc. Qed.

(** Connecting changes nothing but the connection. *)
Lemma ensure_base cl : exists b, (ensure_connected cl).2 = LogClient.set_base b cl.
Proof.
  unfold ClientDemo.ensure_connected, mbind, prog_bind, gets.
  destruct (is_connected cl); [exists (LogClient.base cl); by destruct cl|].
  generalize fuel at 2. intros n. revert cl. induction n as [|n IH]; intros cl; cbn [reconnect].
  - exists (LogClient.base cl). by destruct cl.
  - unfold mbind, prog_bind, on_base, zoom. destruct (TcpClient.connect _ _ _ _ _) as [[[]|e] b].
    + by exists b.
    + destruct (IH (LogClient.set_base b cl)) as [b' E]. exists b'. by rewrite E.
    + by exists b.
Qed.

(** Where the client stands when [k] of the records were taken one after another. *)
Definition left_with s (k : nat) (cl' : LogClient.t) : LogClient.t :=
  if decide (typed s = []) then client s
  else if decide (k = length (typed s)) then cl' else disconnected cl'.

(** The rounds of the demo are the calls of [log_all]: on the first failure the
    connection is closed and the record is not tried again. *)
Lemma rounds_log_all s cl k cl' :
  ensure_connected (client s) = (Ok tt, cl) -> is_connected cl = true ->
  LogClient.log_all (typed s) cl = (Ok k, cl') ->
  exists n s', rounds n s = (Ok tt, s') /\ (n <= length (input s))%nat /\
    typed s' = drop (S k) (typed s) /\ client s' = left_with s k cl' /\
    (k = length (typed s) -> input s' = []).
Proof.
  intros He Hc. destruct s as [c z lines i]. unfold typed, left_with. cbn [client record_size input ticks typed] in *.
  unfold typed. cbn [client record_size input ticks].
  revert c i cl k He Hc. induction lines as [|[|b line] lines IH]; intros c i cl k He Hc El.
  - exists 0%nat, (mk c z [] i). injection El as <- <-. by rewrite decide_True.
  - destruct (IH c i cl k He Hc El) as (n & s' & Er & Hn & H1). exists (S n), s'.
    split; [|split; [cbn; lia|exact H1]]. cbn [ClientDemo.rounds].
    by rewrite (bind_ok _ _ _ tt (mk c z lines i)) by done.
  - cbn [records_of LogClient.log_all] in El |- *.
    unfold mbind, prog_bind in El. pose proof (logData_connected (padded z (b :: line)) (u64 (clock i)) cl) as Hk.
    destruct (LogClient.logData _ _ cl) as [[ok|e] cl1] eqn:E1; [|done]. cbn [snd] in Hk.
    assert (Er1 : round (mk c z ((b :: line) :: lines) i) =
              (Ok tt, mk (if ok then cl1 else disconnected cl1) z lines (S i))).
    { by eapply round_line. }
    rewrite decide_False by done. destruct ok.
    + destruct (LogClient.log_all (records_of z (S i) lines) cl1) as [[k1|e] cl2] eqn:E2; [|done].
      injection El as <- <-. rewrite Hc in Hk.
      destruct (IH cl1 (S i) cl1 k1 (connected_stays _ Hk) Hk E2) as (n & s' & Er & Hn & H1 & H2 & H3).
      exists (S n), s'. split; [cbn [ClientDemo.rounds]; by rewrite (bind_ok _ _ _ _ _ Er1)|].
      split; [cbn; lia|]. split; [done|]. split; [|intros [= Hlen]; by apply H3].
      rewrite H2. cbn [length]. destruct (decide (records_of z (S i) lines = [])) as [E0|].
      * rewrite E0 in E2 |- *. cbn in E2. injection E2 as <- <-. by rewrite decide_True.
      * destruct (decide (k1 = _)) as [->|]; [by rewrite decide_True|by rewrite decide_False by lia].
    + injection El as <- <-. exists 1%nat, (mk (disconnected cl1) z lines (S i)).
      split; [cbn [ClientDemo.rounds]; by rewrite (bind_ok _ _ _ _ _ Er1)|].
      split; [cbn; lia|]. split; [done|]. by rewrite decide_False.
Qed.
Lemma rounds_app n m s s' : rounds n s = (Ok tt, s') -> rounds (n + m) s = rounds m s'.
Proof.
  revert s. induction n as [|n IH]; intros s; cbn [ClientDemo.rounds Nat.add]; [by intros [= <-]|].
  unfold mbind, prog_bind. destruct (round s) as [[[]|e] s1]; [apply IH|done].
Qed.

(** C35. From the keyboard to the queue. The demo is started with a stream and a
    record size, and gets a connection that may transfer any amounts, be interrupted
    and fail. Each line that is not empty becomes one record, padded or cut to the
    record size and with the time of the clock. What the server has queued is a
    leading part of the records the connection took, in order, and all of them where
    nothing failed. The first record that is not sent ends the connection and is
    lost: the demo goes on with the line after it. When every line was sent, the
    demo does not end: at the end of the input it goes round for ever and changes
    nothing. *)
Theorem typed_lines_reach_the_queue {B} argv lines k0 s cl c :
  start argv lines k0 = Ok (inr s) -> record_size s < 2 ^ 32 ->
  ensure_connected (client s) = (Ok tt, cl) -> is_connected cl = true ->
  connected_to c (LogClient.base cl) -> out_wire c = [] ->
  typed s <> [] -> Forall encodable (requests cl (typed s)) ->
  exists k cl' c' n s', LogClient.log_all (typed s) cl = (Ok k, cl') /\
    connected_to c' (LogClient.base cl') /\ rounds n s = (Ok tt, s') /\ (n <= length lines)%nat /\
    typed s' = drop (S k) (typed s) /\
    (k = length (typed s) -> client s' = cl' /\ forall m, rounds (n + m) s = (Ok tt, s')) /\
    (k <> length (typed s) -> is_connected (client s') = false) /\
    forall (server : TraceboxLogger.t B) m fd d,
      undisturbed server -> socket_is fd d server ->
      LogWriter.stopping_ (Server.target_ server) = false -> in_wire d = out_wire c' ->
      exists j server', serve TraceboxLogger.handleLogRequest m fd server = (Ok tt, server') /\
        (j <= k)%nat /\
        LogWriter.queue_ (Server.target_ server') =
          LogWriter.queue_ (Server.target_ server) ++ take j (requests cl (typed s)) /\
        (k = length (typed s) -> (k <= m)%nat -> healthy (in_script d) ->
         zlen (in_wire d) <= Z.of_nat (transfers (in_script d)) -> j = k).
Proof.
  intros Hst Hsz He Hcn Hc Hw Hne Henc.
  destruct (start_sizes argv lines k0 s Hst Hsz) as [Hag Hin].
  destruct (ensure_base (client s)) as [bs Ebs]. rewrite He in Ebs. cbn [snd] in Ebs.
  assert (Hsz' : Forall (size_ok cl) (typed s)) by (rewrite Ebs; exact (typed_sizes s Hag)).
  destruct (log_all_wire cl (typed s) c Hc Hw Hsz' Henc) as (k & part & c' & E & Hk & Hi & _ & Ew).
  destruct (rounds_log_all s cl k _ He Hcn E) as (n & s' & Er & Hn & Ht & Hcl & Hend).
  unfold left_with in Hcl. rewrite decide_False in Hcl by done. rewrite Hin in Hn.
  exists k, (LogClient.set_base (with_conn c' (LogClient.base cl)) cl), c', n, s'. split; [exact E|]. split; [apply connected_with_conn|].
  split; [done|]. split; [done|]. split; [done|]. split_and!.
  - intros Hkl. rewrite decide_True in Hcl by done. split; [done|].
    intros m. rewrite (rounds_app n m s s' Er). by apply rounds_end, Hend.
  - intros Hkl. rewrite decide_False in Hcl by done. rewrite Hcl. apply disconnected_closed.
  - intros server m fd d Hu Hs Hrun Hd. rewrite Ew in Hd.
    assert (El : length (requests cl (typed s)) = length (typed s)) by apply length_map.
    destruct (serve_wire (take k (requests cl (typed s))) part server m fd d) as
      (j & server' & Es & Hj & Hq & _ & Hall); try done.
    { by apply Forall_take. }
    { rewrite <- firstn_map. by apply Forall_take, requests_messages. }
    rewrite length_take, El, Nat.min_l in Hj, Hall by done. rewrite take_take, Nat.min_l in Hq by done.
    exists j, server'. by split_and!.
Qed.
End Lines.

(** ** What the reader demo asks for *)
Section Questions.
Context `{Codec DataStreamsRequest.t, Codec DataStreamsResponse.t} (leftover : bytes -> DataStreamsResponse.t).
Import ReaderDemo.
Implicit Types (s : t) (streams : list DataStream.t).

(** The file that is asked for is the last one with the pattern in its name. *)
Lemma choose_last pattern filename streams :
  choose pattern filename streams =
  default filename (last (DataStream.file <$> filter (fun x => matches pattern x = true) streams)).
Proof.
  revert filename. induction streams as [|s streams IH]; intros filename; [done|].
  cbn [choose]. rewrite IH, filter_cons. destruct (decide (matches pattern s = true)) as [E|E].
  - rewrite E, fmap_cons, last_cons. by destruct (last _).
  - by destruct (matches pattern s).
Qed.

Lemma matches_nothing x : matches EmptyString x = true.
Proof. unfold matches. by destruct (DataStream.file x). Qed.

(** The last stream of the list with the pattern in its file's name. *)
Definition named pattern streams : option string :=
  last (DataStream.file <$> filter (fun x => matches pattern x = true) streams).

(** The request made for a line: none where the name is empty. *)
Definition question streams pattern : option DataStreamsRequest.t :=
  file ← named pattern streams;
  if decide (file = EmptyString) then None
  else Some (LogReadClient.data_request file 0 (2 ^ 64 - 1) 0 UINT32_MAX).

Definition asked streams (patterns : list string) : list DataStreamsRequest.t :=
  omap (question streams) patterns.

Lemma round_question streams s :
  round leftover streams s =
  match question streams (default EmptyString (head (input s))) with
  | None => (Ok tt, (getline s).2)
  | Some q =>
      (data ← on_client (LogReadClient.getResponse leftover q); print data) (getline s).2
  end.
Proof.
  unfold round, mbind, prog_bind at 1, getline. cbn [snd]. rewrite choose_last. unfold question, named.
  destruct (last _) as [file|]; cbn; [|done].
  destruct (decide (file = EmptyString)) as [->|Hf]; [done|]. by rewrite bool_decide_eq_false_2.
Qed.

(** A question puts its frame, or a part of it, on the wire. *)
Lemma getResponse_sends q c (cl : TcpClient.t) :
  connected_to c cl ->
  exists r c' part, LogReadClient.getResponse leftover q cl = (Ok r, with_conn c' cl) /\
    out_wire c' = out_wire c ++ part /\ part `prefix_of` TcpSocket.frame (serialize q) /\
    (part = TcpSocket.frame (serialize q) \/ r = cleared).
Proof.
  intros Hc. unfold LogReadClient.getResponse, mbind, prog_bind. rewrite (client_sendData _ c) by done.
  pose proof (wp_sendDataWith (serialize q) c) as W. unfold wp in W.
  change TcpSocket.sendDataWith with TcpSocket.sendData in W.
  destruct (TcpSocket.sendData (serialize q) c) as [o c1]. cbn [fst snd] in *.
  destruct W as (b & part & -> & Ew & Hp & Hb & _).
  destruct b; cbn [negb]; [|exists cleared, c1, part; split_and!; try done; by right].
  rewrite (client_readData c1) by apply connected_with_conn.
  pose proof (wp_readDataWith c1) as R. unfold wp in R.
  change TcpSocket.readDataWith with TcpSocket.readData in R.
  destruct (TcpSocket.readData c1) as [o c2]. cbn [fst snd] in *.
  destruct R as (bs & taken & -> & _ & _ & Ew2 & _). rewrite with_conn_twice.
  destruct (bool_decide (bs = [])); [|destruct (parse bs)]; (eexists _, c2, part; split; [done|]);
    (split; [congruence|]); (split; [done|left; by apply Hb]).
Qed.

(** What a question put on the wire and the answer it got: its frame, or a leading
    part of it and the empty answer. *)
Definition exchange (e : bytes * DataStreamsResponse.t) (q : DataStreamsRequest.t) : Prop :=
  e.1 `prefix_of` TcpSocket.frame (serialize q) /\
  (e.1 = TcpSocket.frame (serialize q) \/ e.2 = cleared).

(** The lines of [n] rounds. *)
Fixpoint reads (n : nat) (lines : list string) : list string :=
  match n with
  | O => []
  | S n' => default EmptyString (head lines) :: reads n' (tail lines)
  end.

Lemma reads_past_end lines m : reads (length lines + m) lines = lines ++ replicate m EmptyString.
Proof.
  induction lines as [|l lines IH]; cbn; [|by rewrite IH]. induction m as [|m IH]; cbn; [done|by rewrite IH].
Qed.

Lemma rounds_ask n streams s c :
  connected_to c (client s) ->
  exists s' c' es, rounds leftover n streams s = (Ok tt, s') /\ connected_to c' (client s') /\
    Forall2 exchange es (asked streams (reads n (input s))) /\
    out_wire c' = out_wire c ++ concat es.*1 /\ printed s' = printed s ++ es.*2.
Proof.
  revert s c. induction n as [|n IH]; intros s c Hc; cbn [rounds reads].
  { exists s, c, []. cbn. rewrite !app_nil_r. split_and!; try done. }
  unfold asked. cbn [omap list_omap]. fold (asked streams (reads n (tail (input s)))).
  unfold mbind, prog_bind at 1. rewrite round_question.
  destruct (question streams _) as [q|].
  - destruct (getResponse_sends q c (client s) Hc) as (r & c1 & part & Er & Ew & Hp).
    unfold mbind, prog_bind at 1, on_client, zoom. cbn [getline snd client].
    rewrite Er. unfold print, modify. cbn [client input printed].
    destruct (IH (mk (with_conn c1 (client s)) (tail (input s)) (printed s ++ [r])) c1) as
      (s' & c' & es & E & Hc' & Hf & Ew' & Hl); [apply connected_with_conn|].
    exists s', c', ((part, r) :: es). rewrite Ew', Ew, Hl. cbn. rewrite <- !app_assoc.
    split_and!; try done. by constructor.
  - destruct (IH (getline s).2 c Hc) as (s' & c' & es & E & Hc' & H1). by exists s', c', es.
Qed.

(** What is asked at the end of the input: the last stream of the list. *)
Definition last_file streams : string := default EmptyString (DataStream.file <$> last streams).

Lemma question_empty streams :
  question streams EmptyString =
  if decide (last_file streams = EmptyString) then None
  else Some (LogReadClient.data_request (last_file streams) 0 (2 ^ 64 - 1) 0 UINT32_MAX).
Proof.
  unfold question, named, last_file.
  assert (filter (fun x => matches EmptyString x = true) streams = streams) as ->.
  { induction streams as [|x streams IH]; [done|]. by rewrite filter_cons_True, IH by apply matches_nothing. }
  rewrite fmap_last. by destruct (last streams).
Qed.

Lemma asked_app streams ps ps' : asked streams (ps ++ ps') = asked streams ps ++ asked streams ps'.
Proof. apply omap_app. Qed.

Lemma asked_at_end streams m :
  asked streams (replicate m EmptyString) =
  if decide (last_file streams = EmptyString) then []
  else replicate m (LogReadClient.data_request (last_file streams) 0 (2 ^ 64 - 1) 0 UINT32_MAX).
Proof.
  unfold asked. induction m as [|m IH]; [by destruct (decide _)|]. cbn. rewrite question_empty.
  destruct (decide _); cbn; by rewrite IH.
Qed.

(** The reader demo with a connection and a list of streams. For each line it
    asks once for all records of the last stream whose file name contains the line,
    and for nothing where there is none; on the wire is each question in order,
    complete, or cut off where a send failed, and the answer to each is printed, the
    empty one if it was cut off. The end of the input is not noticed: from then on
    every round reads an empty line, which every name contains, and the demo asks
    for the last stream of the list again, for ever. *)
Lemma reader_demo_asks streams s c m :
  connected_to c (client s) ->
  exists s' c' es, rounds leftover (length (input s) + m) streams s = (Ok tt, s') /\
    connected_to c' (client s') /\
    Forall2 exchange es
      (asked streams (input s) ++
       (if decide (last_file streams = EmptyString) then []
        else replicate m (LogReadClient.data_request (last_file streams) 0 (2 ^ 64 - 1) 0 UINT32_MAX))) /\
    out_wire c' = out_wire c ++ concat es.*1 /\ printed s' = printed s ++ es.*2.
Proof.
  intros Hc.
  destruct (rounds_ask (length (input s) + m) streams s c Hc) as (s' & c' & es & E & Hc' & Hf & H1).
  exists s', c', es. rewrite reads_past_end, asked_app, asked_at_end in Hf. exact (conj E (conj Hc' (conj Hf H1))).
Qed.
End Questions.

(** *** The guarantees at concrete inputs *)
Section Witnesses.
#[local] Existing Instance utc_localtime.
#[local] Instance log_codec : Codec LogRequest.t := countable_codec.
#[local] Instance log_laws : CodecLaws LogRequest.t := countable_codec_laws.
#[local] Instance query_codec : Codec DataStreamsRequest.t := countable_codec.
#[local] Instance answer_codec : Codec DataStreamsResponse.t := countable_codec.

(** A kernel that grants every call; its connections are slow. *)
Definition slow_conn : conn := mk_conn (Interrupted :: replicate 20 (Transfer 10)) [] [] [].
Definition demo_kernel : kernel :=
  mk_kernel {[ 0; 1; 2 ]} ∅ false ∅ (fun _ => mk_answer true 5 0 false slow_conn false) 0.

(** Two lines with an empty one between them, for records of two bytes. *)
Definition demo_lines : list bytes := [[x61]; []; [x62; x63; x64]].
Definition demo_start : ClientDemo.t :=
  ClientDemo.mk (LogClient.construct "can0" 2 demo_kernel) 2 demo_lines 0.
Definition demo_clock (n : nat) : Z := noon + Z.of_nat n * 1000.

Lemma typed_lines_reach_the_queue_witness :
  typed demo_clock demo_start = [([x61; x20], noon); ([x62; x63], noon + 1000)] /\
  exists n s', ClientDemo.rounds loopback 2 demo_clock n demo_start = (Ok tt, s') /\
    forall m, ClientDemo.rounds loopback 2 demo_clock (n + m) demo_start = (Ok tt, s').
Proof.
  split; [vm_compute; reflexivity|].
  pose proof (typed_lines_reach_the_queue (B := FilesystemStorageBackend.state) loopback 2 demo_clock
    ["client_demo"; "can0"; "2"]%string demo_lines demo_kernel demo_start
    (ClientDemo.ensure_connected loopback 2 (ClientDemo.client demo_start)).2 slow_conn
    ltac:(vm_compute; reflexivity) ltac:(vm_compute; reflexivity) ltac:(vm_compute; reflexivity)
    ltac:(vm_compute; reflexivity) ltac:(vm_compute; reflexivity) ltac:(vm_compute; reflexivity)
    ltac:(vm_compute; discriminate) ltac:(repeat constructor; vm_compute; reflexivity)) as W.
  destruct W as (k & cl' & c' & n & s' & E & _ & Er & _ & _ & Hend & _).
  exists n, s'. split; [exact Er|]. apply Hend.
  assert (Ek : (LogClient.log_all (typed demo_clock demo_start)
                  (ClientDemo.ensure_connected loopback 2 (ClientDemo.client demo_start)).2).1 = Ok 2%nat)
    by (vm_compute; reflexivity).
  rewrite E in Ek. injection Ek as ->. vm_compute. reflexivity.
Defined.

(** Two streams; one line that names the first of them. *)
Definition demo_streams : list DataStream.t :=
  map (fun file => DataStream.mk (Some "can0"%string) (Some 20240101) (Some file) (Some 3) (Some kHealthy)
                     (Some noon) (Some noon)) ["20240101/can0.idx"; "20240101/can1.idx"]%string.
Definition demo_reader : ReaderDemo.t :=
  ReaderDemo.mk (TcpClient.mk 6 (kernel_with 6 slow_conn) []) ["can0"%string] [].

Lemma reader_demo_asks_witness :
  let ask file := LogReadClient.data_request file 0 (2 ^ 64 - 1) 0 UINT32_MAX in
  exists s' c' es, ReaderDemo.rounds (fun _ => cleared) 3 demo_streams demo_reader = (Ok tt, s') /\
    connected_to c' (ReaderDemo.client s') /\
    Forall2 exchange es [ask "20240101/can0.idx"; ask "20240101/can1.idx"; ask "20240101/can1.idx"]%string.
Proof.
  intros ask.
  destruct (reader_demo_asks (fun _ => cleared) demo_streams demo_reader slow_conn 2) as
    (s' & c' & es & E & Hc & Hf & _); [vm_compute; reflexivity|].
  exists s', c', es. split; [exact E|]. split; [exact Hc|].
  assert (Ea : asked demo_streams (ReaderDemo.input demo_reader) = [ask "20240101/can0.idx"%string])
    by (vm_compute; reflexivity).
  rewrite Ea in Hf. exact Hf.
Defined.

(** A wrong number of arguments, and a size that is no number. *)
Example demo_arguments :
  ClientDemo.start ["client_demo"%string] [] demo_kernel = Ok (inl 1) /\
  ClientDemo.start ["client_demo"; "can0"; "big"]%string [] demo_kernel = Throw ParseError /\
  (LoggerDemo.main 3 ["logger_demo"; "/log"]%string demo_kernel days_world).1 = Ok (inl 1).
Proof. vm_compute. auto. Qed.
End Witnesses.
