(* ===== verification/Api.v ===== *)
(** * The public API

    [src/tracebox_api.cpp] with [include/tracebox/*.h] and the start of the daemon,
    [apps/logger.cpp]: thin classes around the clients, the storage and the writer.
    What they add is the translation between the public types and the messages, and
    the conversion of the size of a storage, which the theorem follows. *)
From S2P Require Import Prelude DataTypes Calendar Protos FileSystem FileIO StreamWriter TcpSocket Kernel TcpServer StorageBackend Storage BackendSpec LogWriter StorageScanner TcpClient Codec Clients Services Samples.
Local Open Scope Z_scope.

Section Day.
Context {L : LocalTime}.
Definition day (timestamp : Z) : Z := Time2YYYYMMDD timestamp.
End Day.

(** ** The public types *)
Module Sample.
Record t := mk { time_ns : Z; data : bytes; stream_index : Z }.
End Sample.

Module Status.
Inductive t := Unknown | Healthy | Empty | HeaderMismatch | HeadersDifferent | IndexMissing.

Definition number (s : t) : Z :=
  match s with
  | Unknown => 0 | Healthy => 1 | Empty => 2 | HeaderMismatch => 3 | HeadersDifferent => 4 | IndexMissing => 5
  end.

(** [static_cast]: the enumerator with the number of the message's field. *)
Definition cast (s : StreamStatus) : t :=
  let n := StreamStatus_number s in
  default Unknown (find (fun x => number x =? n)
                     [Unknown; Healthy; Empty; HeaderMismatch; HeadersDifferent; IndexMissing]).
End Status.

Module Stream.
Record t := mk {
  name : string;
  day : Z;
  file : string;
  records_count : Z;
  status : Status.t;
  start_time_ns : Z;
  end_time_ns : Z
}.
End Stream.

Module ReadResult.
Record t := mk { records : list Sample.t; error : string }.
End ReadResult.

Module ApiRecord.
Record t := mk { channel : string; record_size : Z; data : bytes; timestamp : Z }.
End ApiRecord.

(** ** Clients *)
Module Recorder.
Section Ops.
Context `{Codec LogRequest.t} (inet_aton : string -> option Z) (fuel : nat).

Definition construct (stream_name : string) (record_size : Z) (k : kernel) : LogClient.t :=
  LogClient.construct stream_name record_size k.

Definition on_client {A} (m : prog TcpClient.t A) : prog LogClient.t A :=
  zoom LogClient.base LogClient.set_base m.

Definition connect (address : string) (port : Z) : prog LogClient.t bool :=
  on_client (TcpClient.connect inet_aton fuel address port).
Definition connected (s : LogClient.t) : bool := TcpClient.is_connected (LogClient.base s).
Definition disconnect : prog LogClient.t unit := on_client TcpClient.disconnect.
Definition record (data : bytes) (timestamp : Z) : prog LogClient.t bool :=
  LogClient.logData data timestamp.
End Ops.
End Recorder.

Module Reader.
Section Ops.
Context `{Codec DataStreamsRequest.t, Codec DataStreamsResponse.t}.
Context (inet_aton : string -> option Z) (fuel : nat) (leftover : bytes -> DataStreamsResponse.t).

Definition connect (address : string) (port : Z) : prog TcpClient.t bool :=
  TcpClient.connect inet_aton fuel address port.
Definition connected (s : TcpClient.t) : bool := TcpClient.is_connected s.
Definition disconnect : prog TcpClient.t unit := TcpClient.disconnect.

Definition to_stream (source : DataStream.t) : Stream.t :=
  Stream.mk (DataStream.name source) (DataStream.day source) (DataStream.file source)
    (DataStream.records_cnt source) (Status.cast (DataStream.status source))
    (DataStream.start_time_ns source) (DataStream.end_time_ns source).

Definition to_sample (source : DataPiece.t) : Sample.t :=
  Sample.mk (DataPiece.time_ns source) (DataPiece.data source) (DataPiece.stream_idx source).

Definition streams (start end_ start_index max_count : Z) : prog TcpClient.t (list Stream.t) :=
  response ← LogReadClient.getStreams leftover start end_ start_index max_count;
  mret (map to_stream (DataStreamsResponse.stream response)).

Definition read (file : string) (start end_ start_index max_count : Z) :
    prog TcpClient.t ReadResult.t :=
  response ← LogReadClient.getData leftover file start end_ start_index max_count;
  mret (ReadResult.mk (map to_sample (DataStreamsResponse.data response))
          (DataStreamsResponse.errors response)).
End Ops.
End Reader.

(** ** Storage and writer *)

(** The request made of a record; the size is always published. *)
Definition to_request (record : ApiRecord.t) : LogRequest.t :=
  LogRequest.mk (Some (ApiRecord.channel record)) (Some (ApiRecord.record_size record))
    (Some (ApiRecord.data record)) (Some (ApiRecord.timestamp record)).

Module ApiStorage.
Section Ops.
Context {B : Type} {SB : StorageBackend B} (fuel : nat).

(** The size is cast to [int] and passed on as one. *)
Definition construct (max_size_bytes : Z) : prog (Storage.t B) unit :=
  Storage.construct fuel (i32 max_size_bytes).

Definition write (record : ApiRecord.t) : prog (Storage.t B) Z :=
  Storage.write fuel (to_request record).
End Ops.
End ApiStorage.

Module Writer.
Section Ops.
Context {B : Type}.
Definition construct (storage : Storage.t B) : LogWriter.t B := LogWriter.create storage.

(** What [LogWriter::add] returns is not passed on. *)
Definition add (record : ApiRecord.t) (s : LogWriter.t B) : LogWriter.t B :=
  (LogWriter.add (to_request record) s).2.
End Ops.
End Writer.

(** [main] of the daemon from the parsed flags up to its endless sleep: the exit
    code, or the two services. The size is given in MiB; the argument of the
    constructor of the storage is narrowed to [int]. *)
Module Logger.
Record flags := mk_flags {
  FLAGS_folder : string;
  FLAGS_max_size : Z;       (* int32 *)
  FLAGS_logger_port : Z;
  FLAGS_reader_port : Z
}.

(** The defaults of the flags. *)
Definition default_flags : flags := mk_flags EmptyString (-1) 49999 49998.

Section Ops.
Context `{Codec LogRequest.t} {L : LocalTime} (fuel : nat).

Definition main (F : flags) (k : kernel) : prog world (Z + Daemon.t) :=
  if bool_decide (FLAGS_folder F = EmptyString) || (FLAGS_max_size F <? 0) then mret (inl 1) else
  found ← gets (fun w => is_directory (w_fs w) (FLAGS_folder F));
  if negb found then mret (inl 2) else
  services ← Daemon.start fuel (FLAGS_folder F) (FLAGS_max_size F * 1024 * 1024)
               (u32 (FLAGS_logger_port F)) (u32 (FLAGS_reader_port F)) k;
  mret (inr services).
End Ops.
End Logger.

(** The cast keeps the number, and the name that goes with it. *)
Lemma cast_number s : Status.number (Status.cast s) = StreamStatus_number s.
Proof. by destruct s. Qed.

(** ** The size of a storage *)
Section Budget.
Context {B : Type} {SB : StorageBackend B} {BV : BackendView B} {BS : BackendSpec B}.
Import Storage.

Lemma i32_idem z : i32 (i32 z) = i32 z.
Proof.
  apply i32_small. unfold i32. pose proof (Z.mod_pos_bound (z + 2 ^ 31) (2 ^ 32)). lia.
Qed.

Lemma i32_negative z : 2 ^ 31 <= z < 2 ^ 32 -> i32 z = z - 2 ^ 32.
Proof.
  intros Hz. unfold i32. rewrite <- (Z.mod_unique (z + 2 ^ 31) (2 ^ 32) 1 (z - 2 ^ 31)); lia.
Qed.

Lemma i32_multiple z : z mod 2 ^ 32 = 0 -> i32 z = 0.
Proof.
  intros Hz. unfold i32. rewrite Z.add_mod, Hz by lia. done.
Qed.

(** A storage is constructed with what is left of the size. *)
Lemma wp_construct_i32 fuel size a b :
  bv_ok b -> bv_used b < 2 ^ 63 -> (bv_days b < fuel)%nat ->
  0 <= i32 size -> bv_pinned b <= i32 size ->
  wp (construct fuel (i32 size)) (fun r s' =>
    match r with
    | Ok _ => bv_ok (backend_ s') /\ 0 <= available_bytes_ s' /\
              available_bytes_ s' + bv_used (backend_ s') = i32 size
    | Throw e => cpp_exn e = true
    end) (mk a b).
Proof.
  intros Hb Hu Hd Hs Hp. pose proof (bs_pinned b Hb).
  assert (Hlt : i32 size < 2 ^ 31).
  { unfold i32. pose proof (Z.mod_pos_bound (size + 2 ^ 31) (2 ^ 32)). lia. }
  unfold construct, modify_available. do 3 wp_step. cbn [backend_ available_bytes_].
  rewrite i32_idem, u64_small by lia. wp_step. unfold on_backend. apply wp_zoom.
  eapply wp_mono; [apply bs_usedBytes; [done|cbn; lia]|]. intros r b' (-> & ->). cbn [wp_rest].
  wp_step. eapply wp_mono; [apply (wp_trim fuel (bv_used b) (i32 size)); cbn;
    [split; [done|cbn; lia]|done|done|lia]|].
  intros [[]|e] s'; cbn [wp_rest]; [|done]. intros (Hs' & Hle & Hsum). wp_step.
  pose proof (storage_used _ Hs'). destruct Hs' as (? & ? & ?).
  cbn [backend_ available_bytes_] in *. rewrite u64_small by lia. split; [done|cbn; lia].
Qed.

(** C28. The size of a storage passes through a 32-bit [int]. Below 2 GiB it is
    the budget. From 2 GiB to 4 GiB it becomes negative and the budget practically
    unlimited: the constructor removes nothing, however much is stored. A multiple
    of 4 GiB becomes 0: the constructor removes every day that can be removed. *)
Theorem size_narrowed_to_int fuel size a b :
  bv_ok b -> bv_used b < 2 ^ 63 -> bv_pinned b = 0 -> (bv_days b < fuel)%nat -> 0 <= size < 2 ^ 64 ->
  wp (ApiStorage.construct fuel size) (fun r s' =>
    (size < 2 ^ 31 -> forall x, r = Ok x ->
       available_bytes_ s' + bv_used (backend_ s') = size) /\
    (2 ^ 31 <= size < 2 ^ 32 ->
       r = Ok tt /\ backend_ s' = b /\ available_bytes_ s' = 2 ^ 64 - 2 ^ 32 + size - bv_used b /\
       2 ^ 62 < available_bytes_ s') /\
    (size mod 2 ^ 32 = 0 -> forall x, r = Ok x -> bv_used (backend_ s') = 0)) (mk a b).
Proof.
  intros Hb Hu Hp Hd Hsz. pose proof (bs_pinned b Hb). unfold ApiStorage.construct.
  destruct (decide (2 ^ 31 <= size < 2 ^ 32)) as [Hbig|Hnot].
  - rewrite (i32_negative size) by done.
    assert (Hm : size mod 2 ^ 32 <> 0) by (rewrite Z.mod_small by lia; lia).
    unfold construct, modify_available. do 3 wp_step. cbn [backend_ available_bytes_].
    rewrite i32_small by lia. replace (u64 (size - 2 ^ 32)) with (2 ^ 64 - 2 ^ 32 + size)
      by (unfold u64; apply (Z.mod_unique _ _ (-1)); lia).
    wp_step. unfold on_backend. apply wp_zoom.
    eapply wp_mono; [apply bs_usedBytes; [done|cbn; lia]|]. intros r b' (-> & ->). cbn [wp_rest].
    wp_step. destruct fuel as [|fuel]; [lia|]. cbn [trim]. unfold get_available. do 3 wp_step.
    cbn [available_bytes_ backend_]. rewrite (proj2 (Z.ltb_ge _ _)) by lia.
    repeat wp_step. cbn [available_bytes_ backend_]. rewrite u64_small by lia.
    split; [lia|]. split; [|lia]. intros _. split_and!; try done; lia.
  - destruct (decide (0 <= i32 size)) as [Hpos|Hneg].
    + eapply wp_mono; [apply (wp_construct_i32 fuel size a b); [done|done|done|done|lia]|].
      intros r s' Hr. split; [|split; [done|]].
      * intros Hlt x ->. destruct Hr as (_ & _ & Hsum). rewrite i32_small in Hsum by lia. done.
      * intros Hm x ->. destruct Hr as (Hb' & Ha' & Hsum).
        rewrite (i32_multiple size Hm) in Hsum. pose proof (bs_pinned _ Hb'). lia.
    + eapply wp_use. intros r s' _. split; [|split; [done|]].
      * intros Hlt. rewrite i32_small in Hneg by lia. lia.
      * intros Hm. rewrite (i32_multiple size Hm) in Hneg. lia.
Qed.
End Budget.

(** *** The guarantee at a concrete input

    A folder with two days of recordings: a size of 4 GiB removes both. *)
#[local] Existing Instance utc_localtime.

Lemma size_narrowed_to_int_witness :
  exists s', ApiStorage.construct 3 (2 ^ 32) (Storage.mk 0 days_state) = (Ok tt, s') /\
    bv_used days_state = 5 /\ bv_used (Storage.backend_ s') = 0.
Proof.
  pose proof (size_narrowed_to_int 3 (2 ^ 32) 0 days_state days_state_ok
    ltac:(vm_compute; reflexivity) ltac:(vm_compute; reflexivity)
    ltac:(apply Nat.ltb_lt; vm_compute; reflexivity) ltac:(lia)) as W.
  unfold wp in W.
  destruct (ApiStorage.construct 3 (2 ^ 32) (Storage.mk 0 days_state)) as [r s'] eqn:E.
  assert (r = Ok tt) as -> by (apply (f_equal fst) in E; vm_compute in E; by rewrite <- E).
  exists s'. split; [done|]. split; [vm_compute; reflexivity|]. by eapply W.
Defined.
