(* ===== verification/Remote.v ===== *)
(** * From client to client

    The whole program as its users see it: clients record over the network, and
    another client reads the records back over the network, through the public
    reader of [src/tracebox_api.cpp]. *)
From S2P Require Import Prelude DataTypes Calendar Format Protos FileSystem FileIO StreamWriter TcpSocket Kernel TcpServer Storage StorageBackend LogWriter Folder StorageScanner ScannerSpec FolderSpec DaysSpec TcpClient Codec Clients Samples Services Fleet Api.
Local Open Scope Z_scope.

(** ** What the public reader returns *)
Section Reading.
Context `{Codec DataStreamsRequest.t, !CodecLaws DataStreamsRequest.t}.
Context `{Codec DataStreamsResponse.t, !CodecLaws DataStreamsResponse.t}.
Context (leftover : bytes -> DataStreamsResponse.t) {L : LocalTime}.

(** The records of a file as samples. *)
Definition samples (rs : list record) : list Sample.t := map (fun r => Sample.mk (r_time r) (r_data r) 0) rs.

(** The records a call of [read] asks for. *)
Definition requested (a b start max : Z) (rs : list record) : list record :=
  take (Z.to_nat max) (filter (fun r => in_range a b r = true) (drop (Z.to_nat start) rs)).

Lemma samples_of_pieces a b start max rs :
  map Reader.to_sample (take (Z.to_nat max) (selected a b (drop (Z.to_nat start) rs))) =
  samples (requested a b start max rs).
Proof. unfold selected, samples, requested. by rewrite firstn_map, map_map. Qed.

(** A reader over the network gets the requested records of a file [file.1] that
    holds the records [file.2], or nothing when the answer was cut off. *)
Definition reads_remotely (sc : StorageScanner.t) (f : fs) (file : string * list record) : Prop :=
  forall a b start max, 0 <= start < 2 ^ 32 -> 0 <= max < 2 ^ 32 ->
  let q := Extraction file.1 a b start max in
  let local := DataStreamsResponse.mk [] (take (Z.to_nat max) (selected a b (drop (Z.to_nat start) file.2))) None in
  encodable (query_request q) -> encodable local ->
  forall server fd d, asked q server fd d sc ->
  exists server' d',
    Server.handleLogRequest (LogReader.handleReadingRequest f) fd server = (Ok true, server') /\
    undisturbed server' /\ Server.target_ server' = sc /\ socket_is fd d' server' /\
    forall client c, asking q client c (out_wire d') ->
      exists r client', Reader.read leftover file.1 a b start max client = (Ok r, client') /\
        (r = ReadResult.mk (samples (requested a b start max file.2)) EmptyString \/
         r = ReadResult.mk [] EmptyString) /\
        (arrives local c -> r = ReadResult.mk (samples (requested a b start max file.2)) EmptyString).

Lemma read_remotely sc f file : reads_back sc f file -> reads_remotely sc f file.
Proof.
  intros Hf a b start max Hs Hm q local Hq Hl server fd d Ha.
  destruct (remote_answer leftover f q sc local (Hf a b start max Hs Hm) Hq Hl server fd d Ha)
    as (server' & d' & Eh & Hu & Ht & Hd & Hc).
  exists server', d'. split; [done|]. split; [done|]. split; [done|]. split; [done|].
  intros client c Hcl. destruct (Hc client c Hcl) as (r & client' & E & Hr & Harr).
  assert (Er : Reader.read leftover file.1 a b start max client =
    (Ok (ReadResult.mk (map Reader.to_sample (DataStreamsResponse.data r)) (DataStreamsResponse.errors r)), client')).
  { unfold Reader.read, mbind, prog_bind. unfold q, ask_remote in E. by rewrite E. }
  eexists _, client'. split; [exact Er|]. rewrite <- (samples_of_pieces a b start max file.2).
  split; [by destruct Hr as [-> | ->]; [left|right]|]. intros Hx. by rewrite (Harr Hx).
Qed.
End Reading.

(** ** From client to client *)
Section Fleet.
Context {L : LocalTime} {LO : LocalTimeOk L} `{Codec LogRequest.t, !CodecLaws LogRequest.t}.
Context `{Codec DataStreamsRequest.t, !CodecLaws DataStreamsRequest.t}.
Context `{Codec DataStreamsResponse.t, !CodecLaws DataStreamsResponse.t}.
Context (leftover : bytes -> DataStreamsResponse.t).
Import FilesystemStorageBackend.

(** C1. The whole program. Any number of clients record, each its own stream, over
    connections that may transfer any amounts, be interrupted and fail; the logger
    accepts them at any time, its server, its writing thread and the calls of [stop]
    interleave freely, and any call of the kernel may fail. Nothing on the medium
    fails and the storage has the room. When the logger was stopped and the storage
    is closed, the stream of each client is on disk in files which, in order, hold
    the records of it that the queue accepted - a leading part of those for which
    [logData] returned true, whole and in order. A scanner on the folder returns from
    each file exactly the records that a request selects, and so does [Reader::read]
    of a client connected to a log reader on that folder, over a connection that may
    do anything; only if the answer is cut off is the result empty. *)
Theorem fleet_read_back sz root sc fuel available w port k fleet (s : TraceboxLogger.t state) :
  storage_dir root (StorageScanner.folder_ sc) (w_fs w) -> reliable w ->
  Forall (fun c => no_dot c = true) (StorageScanner.folder_ sc) ->
  fleet_sends sz fleet (answers k) -> (forall c, 0 <= sz c < 2 ^ 31) -> sockets k = ∅ ->
  rtc (live_step (S fuel))
    (TraceboxLogger.construct port (Storage.mk (B := state) available (create root, w)) k) s ->
  LogWriter.stopped_ (Server.target_ s) = true ->
  let accepted := LogWriter.accepted_ (Server.target_ s) in
  roomy w (2 * length accepted) -> needs accepted <= available < 2 ^ 64 ->
  exists st, on_folder Folder.close (Storage.backend_ (LogWriter.storage_ (Server.target_ s))) = (Ok tt, st) /\
  forall n x, fleet n = Some x -> exists files,
    let m := length (of_channel (stream_of x) accepted) in
    (m <= acknowledged_by x)%nat /\ concat files.*2 = take m (recorded x) /\
    Forall (fun file => reads_back sc (w_fs st.2) file /\ reads_remotely leftover sc (w_fs st.2) file) files.
Proof.
  intros Hdir Hrel Hdots Hf Hsz Hk Hr Hstop accepted Hroom Hav.
  destruct (fleet_recorded sz root sc fuel available w port k fleet s) as (st & E & Hall); try done.
  exists st. split; [done|]. intros n x Hx. destruct (Hall n x Hx) as (files & Hm & Ef & Hfiles).
  exists files. split; [done|]. split; [done|].
  eapply Forall_impl; [exact Hfiles|]. intros file Hfile. split; [done|by apply read_remotely].
Qed.
End Fleet.

(** *** The guarantee at a concrete input

    Both records of the first client are read back. *)
Section Witness.
#[local] Existing Instances utc_localtime log_codec log_laws query_codec query_laws answer_codec answer_laws.

Lemma fleet_read_back_witness :
  exists st files,
    FilesystemStorageBackend.on_folder Folder.close
      (Storage.backend_ (LogWriter.storage_ (Server.target_ stopped_logger))) = (Ok tt, st) /\
    concat files.*2 = recorded can_sender /\
    Forall (fun file => reads_back sample_scanner (w_fs st.2) file /\
                        reads_remotely (fun _ => cleared) sample_scanner (w_fs st.2) file) files.
Proof.
  destruct (fleet_read_back (fun _ => cleared) sample_size "/log" sample_scanner 0 100000 sample_world 49999 crowd
    two_clients stopped_logger) as (st & E & Hall).
  - exact sample_storage_dir.
  - exact sample_reliable.
  - repeat constructor.
  - exact two_clients_send.
  - intros c. unfold sample_size. case_decide; lia.
  - reflexivity.
  - exact stopped_logger_live.
  - vm_compute. reflexivity.
  - vm_compute. reflexivity.
  - vm_compute. split; [congruence|reflexivity].
  - destruct (Hall 21%nat can_sender eq_refl) as (files & Hm & Ef & Hf).
    exists st, files. split; [exact E|]. split; [|exact Hf].
    assert (Hl : length (of_channel (stream_of can_sender) (LogWriter.accepted_ (Server.target_ stopped_logger))) = 2%nat)
      by (vm_compute; reflexivity).
    rewrite Hl in Ef. exact Ef.
Defined.
End Witness.
